(* ===== verification/_CoqProject ===== *)
-Q . S2P
Prelude.v
Bytes.v
Oxenc.v
Address.v
Auth.v
ConnId.v
Commands.v
Batch.v
Pool.v
PoolSlots.v
Threads.v
PoolInv.v
PoolSteps.v
PoolSafe.v
PoolLive.v
PoolRuns.v
Options.v
Net.v
Closing.v
ServiceNodes.v
NetSteps.v
NetProps.v
Tables.v
NetFrame.v
ControlSockets.v
Transport.v
Tags.v
SocketOptions.v
PubSub.v
Loop.v
Proxy.v
Handover.v
Calls.v
Start.v
TaggedGate.v
Shutdown.v
ProxySafe.v
RequestReply.v
ProxyLoop.v
