(* ===== verification/Prelude.v ===== *)
(** * A verification of oxen-mq

    OxenMQ is a message library on top of ZeroMQ.  One proxy thread owns all
    state: it authenticates connections, looks up the command named in an
    incoming message, checks access, and hands the work to a pool of worker
    threads; other threads talk to it with control messages.  This development
    models that logic as pure functions on explicit state and proves what the
    parts promise.

    Conventions.  A [std::string] is a list of bytes; integers are [Z] with
    their width written out where it matters; fallible code returns an
    [outcome] (a value, an exception, or undefined behaviour of the language,
    which a failed [assert] counts as);
    a structure is a record of the source's members; a pointer to a category is
    its name, a [detail::Batch*] an address of an explicit heap.  Third-party
    code is a parameter with named laws (class [OxencLaws] for the oxenc
    encoders), and a user's function is a handle whose evaluation is the
    parameter [TaskEval].

    Files, in dependency order.
    - [Prelude]: byte strings, outcomes, record updates, tactics, sums.
    - [Bytes]: the [std::string] operations and decimal conversions used.
    - [Oxenc]: what is assumed of the hex, base32z and base64 encoders, and an
      instance that satisfies it.
    - [Address]: [address.h], [address.cpp].  Parsing and printing are inverse
      in every key encoding and for QR addresses; parsing never reads out of
      range and its results are well formed but for one kind of key; [operator==] and the hash agree.
    - [Auth]: [auth.h], the ZAP handler and the metadata of [auth.cpp] and
      [oxenmq.cpp].  A connection is accepted only with the level its listener
      grants, and that level is what commands later see.
    - [ConnId]: [connections.h] and [peer_info].  Equality, order and hash of
      connection ids fit together.
    - [Commands]: categories, commands, aliases ([oxenmq.cpp]) and
      [proxy_check_auth] ([auth.cpp]).  The registry refines
      the list of the accepted calls: lookup finds exactly what was registered, directly
      or by one alias; a command runs exactly when the peer meets its requirements, and
      the first one it does not meet is reported.
    - [Batch]: [batch.h].  The contract of a batch under any interleaving.
    - [Pool]: the scheduler of [worker.cpp], [jobs.cpp] and
      [proxy_process_queue].
    - [PoolSlots]: the accounting of worker slots behind the worker limit.
    - [Threads]: worker threads as state machines; events and schedules.
    - [PoolInv], [PoolSteps]: the invariant of the scheduler and its
      preservation by every handler.
    - [PoolSafe]: the properties of all reachable states: no undefined
      behaviour, no leaked or doubly freed batch, reservations honoured, queues
      drained, timers squelched.
    - [PoolLive]: a measure of the outstanding work; the workers finish everything
      that was accepted.
    - [PoolRuns]: every piece of work that was accepted is run exactly once: the
      calls the workers made are the accepted work less what is queued or running.  The
      reply tag of a request stays with the worker that ran it.
    - [Options]: the options of [send], [request], [connect_remote],
      [connect_sn], [connect_inproc] and [disconnect] ([oxenmq.h]) and the
      dictionaries they become.  What the proxy reads is what the caller meant.
    - [Net]: [connections.cpp], [proxy_send], [proxy_handle_builtin],
      [proxy_bind] ([proxy.cpp]) and [proxy_to_worker] ([worker.cpp]): the tables
      of connections, peers, connection attempts and requests, and every handler
      that changes them.  What zmq does in one call is the class [Zmq]: whether a send,
      a connect, a bind or a new listening socket works, and with which error it fails.
      The sockets that [start] makes for itself are taken to be made.
    - [Closing]: a handler that closes connections either does what its specification
      without exceptions says or throws ENOTSOCK, which needs a null socket.
    - [ServiceNodes]: [set_active_sns], [update_active_sns] ([auth.cpp]).  The
      shortcuts of the set update are sound, and the update fails exactly when a node
      that leaves has a null socket.
    - [NetSteps]: runs of these handlers.  No callback of a request or of a
      connection attempt is lost or called twice, and none waits for ever.
    - [NetProps]: [proxy_send] returns and delivers only to its destination;
      idle connections; only permitted commands run; two ways in which a
      connection is lost.
    - [Tables]: the connection tables are well-typed: ids are fresh, a peer refers to
      a socket of its kind.
    - [NetFrame]: a class of relations between network states that hold across every
      handler if they hold across five primitive changes; instances for the active
      service nodes and for the announcement of changed connections.
    - [ControlSockets]: [get_control_socket] ([oxenmq.cpp]) for all objects and
      threads of the program, with the wrapping counter of object ids.  No two threads
      share a socket.
    - [Transport]: messages as frames ([oxenmq-internal.h]).  What is sent is read
      back, and the internal protocols fit their readers.
    - [Tags]: [make_random_string].
    - [SocketOptions]: the settings of [oxenmq.h] and the options that the functions
      of [connections.cpp] set on sockets.
    - [PubSub]: [pubsub.h], refined from a specification without cleanup.
    - [Loop]: the message loop of [proxy_loop] as a circular buffer, refined
      from a queue; it ends and is fair.
    - [Proxy]: the dispatcher of control messages ([proxy.cpp]) and the proxy
      thread as one state machine: the tables of [Net], the scheduler and workers
      of [Threads], and the control messages in between.
    - [Handover]: the objects that calls pass to the proxy by address
      ([serialize_object], [deserialize_object]), on an explicit heap.  The messages of
      [Proxy], which hold the objects themselves, are a faithful view of this, and
      nothing dangles or leaks but what repeated options overwrite.
    - [Calls]: the calls that work before and after [start], which do the same in both
      ways; [CatHelper] and the deprecated forms of [connect_remote].
    - [Start]: the constructor's key checks, the calls before [start], [start] and
      [proxy_loop_init].  Everything configured is brought up, or [start] says why
      not.
    - [TaggedGate]: how the tagged threads wait for [start] or for the destructor, on a
      mutex and a condition variable.  Neither side waits for ever.
    - [Shutdown]: QUIT and the end of the proxy thread, by a simulation with a proxy
      that goes on.  The loop ends exactly when all workers were joined, and that is
      always within reach.  New commands and tasks are the exception: after QUIT they
      can overrun the vector of workers.
    - [ProxySafe]: the composed machine handles whatever reaches it, with an exact list
      of what can escape (a null socket that is closed, a listener whose socket cannot be
      made, metadata that fails an assertion); connections are authenticated by the
      policy of the listener they came in on; the tables are well-typed.
    - [RequestReply]: a request through two objects, from [request] at the client to the
      command at the server and from its [send_reply] to the callback at the client.
    - [ProxyLoop]: [proxy_loop] and [rebuild_pollitems] as a state machine that other
      threads interleave with, with edge-triggered epoll.  It refines [Proxy], never
      sleeps on input it has not read, and up to QUIT fails only in the ways that are
      listed; a connection closed in the turn in which it was reported and a BYE lead to
      two of them.

    How the parts interact.  [Net.proxy_message] is what [proxy_loop] does with
    one received message: built-in commands change the network tables, any other
    command goes through [Commands.proxy_check_auth] to [Pool.dispatch_command].
    The handlers of [Net] record the jobs they schedule ([scheduled]);
    [Proxy.settle] hands them to [Pool], as reply jobs or as BATCH messages of the
    proxy to itself.  [Options] is the contract between the public calls and those
    handlers, [Proxy.control_of] the control message of each call.  [Loop] is one pass
    over the ready sockets on its own; [ProxyLoop] runs the same steps one at a time,
    each socket operation and each handler call being a step, over [Proxy.proxy_step].

    Fuel and bounds.  These definitions have fuel: the decimal printer of
    [Bytes] (the number of binary digits), the retry loop of [Net.proxy_send]
    (one more than the number of peers), the loop of [Loop] (one step for
    every ready socket and waiting message), [Transport.recv_all] (the number of
    messages) and [Tags.make_random_string] (the number of bytes); each is proved
    enough.  All other
    loops recurse on the container they walk.  Worker counts are assumed below
    [2^31], the width of the counters.

    Not modelled: ZeroMQ, its timers and libsodium themselves (what they do in a call
    is a parameter), the bytes of a serialized dictionary or number (oxenc; a message
    holds the dictionary or number itself), logging, formatting and thread names. *)
From Stdlib Require Export Ascii ZArith Lia.
From stdpp Require Export base tactics list gmap strings.

(** * Byte strings

    A [std::string] or [std::string_view] is a list of 8-bit characters; the
    notation [B "..."] writes a literal. *)
Abbreviation bytes := (list ascii).

Definition lit (s : string) : bytes := String.list_ascii_of_string s.

Declare Scope oxenmq_scope.
Delimit Scope oxenmq_scope with omq.
Notation "'B' s" := (lit s%string) (at level 1, s at level 0, format "'B'  s") : oxenmq_scope.
Open Scope oxenmq_scope.

(** * Outcomes of C++ code

    A computation returns a value, throws one of the exception classes the
    sources use (with its [what()] text where the sources give one), or runs
    into undefined behaviour of the language. *)
Inductive exn :=
  | invalid_argument (what : bytes)
  | out_of_range (what : bytes)
  | logic_error (what : bytes)
  | runtime_error (what : bytes)
  | zmq_error (num : Z).

Inductive outcome (A : Type) :=
  | Ret (a : A)
  | Throw (e : exn)
  | Undef.
Arguments Ret {A} a.
Arguments Throw {A} e.
Arguments Undef {A}.

#[export] Instance exn_eq_dec : EqDecision exn.
Proof. solve_decision. Defined.
#[export] Instance outcome_eq_dec A `{EqDecision A} : EqDecision (outcome A).
Proof. solve_decision. Defined.

#[export] Instance outcome_ret : MRet outcome := @Ret.
#[export] Instance outcome_bind : MBind outcome := λ A C f m,
  match m with Ret a => f a | Throw e => Throw e | Undef => Undef end.
#[export] Instance outcome_fmap : FMap outcome := λ A C f m,
  match m with Ret a => Ret (f a) | Throw e => Throw e | Undef => Undef end.

(** The value the code returned, when it did. *)
Definition result {A} (m : outcome A) : option A :=
  match m with Ret a => Some a | _ => None end.

(** [defined m]: no undefined behaviour. *)
Definition defined {A} (m : outcome A) : Prop :=
  match m with Undef => False | _ => True end.

Lemma bind_Ret {A C} (f : A → outcome C) m c :
  (m ≫= f) = Ret c ↔ ∃ a, m = Ret a ∧ f a = Ret c.
Proof.
  destruct m as [a| |]; simpl; split; try done; [eauto|intros (? & [= ->] & ?); done|..]; intros (? & ? & _); done.
Qed.

Lemma bind_defined {A C} (f : A → outcome C) m :
  defined m → (∀ a, m = Ret a → defined (f a)) → defined (m ≫= f).
Proof. destruct m; naive_solver. Qed.

(** * Record field updates

    [r <| field := v |>] and [r <| field ::= f |>].  A record type is made
    updatable by declaring how it is rebuilt from its projections
    ([Rebuild]); the setter of each projection is then found by abstracting
    that projection in the rebuilt record. *)
Class Rebuild (R : Type) := rebuild : R → R.
Class Setter {R T : Type} (proj : R → T) := modify : (T → T) → R → R.
Arguments modify {R T} proj {_} f r.

Ltac find_setter :=
  match goal with
  | |- @Setter ?R ?T ?proj =>
      let inst := constr:(_ : Rebuild R) in
      let body := eval hnf in inst in
      let f := fresh "f" in
      let r := fresh "r" in
      unfold Setter; intros f r;
      let whole := eval cbv beta in (body r) in
      match eval pattern (proj r) in whole with
      | ?ctx _ => let res := eval cbv beta in (ctx (f (proj r))) in exact res
      end
  end.

#[export] Hint Extern 1 (Setter _) => find_setter : typeclass_instances.

Notation "r <| proj ::= f |>" := (modify proj f r)
  (at level 1, left associativity, format "r  <|  proj  ::=  f  |>") : oxenmq_scope.
Notation "r <| proj := v |>" := (modify proj (λ _, v) r)
  (at level 1, left associativity, format "r  <|  proj  :=  v  |>") : oxenmq_scope.

(** * Tactics *)

(** Split a boolean guard of the code into the propositions it tests. *)
Ltac bool_cases :=
  repeat match goal with
  | H : _ && _ = true |- _ => apply andb_true_iff in H; destruct H
  | H : _ || _ = false |- _ => apply orb_false_iff in H; destruct H
  | H : negb _ = true |- _ => apply negb_true_iff in H
  | H : negb _ = false |- _ => apply negb_false_iff in H
  | H : bool_decide _ = true |- _ => apply bool_decide_eq_true in H
  | H : bool_decide _ = false |- _ => apply bool_decide_eq_false in H
  | H : (_ <? _)%Z = true |- _ => apply Z.ltb_lt in H
  | H : (_ <? _)%Z = false |- _ => apply Z.ltb_ge in H
  | H : (_ <=? _)%Z = true |- _ => apply Z.leb_le in H
  | H : (_ <=? _)%Z = false |- _ => apply Z.leb_gt in H
  | H : (_ =? _)%Z = true |- _ => apply Z.eqb_eq in H
  | H : (_ =? _)%Z = false |- _ => apply Z.eqb_neq in H
  | H : (_ <? _) = true |- _ => apply Nat.ltb_lt in H
  | H : (_ <? _) = false |- _ => apply Nat.ltb_ge in H
  | H : (_ <=? _) = true |- _ => apply Nat.leb_le in H
  | H : (_ <=? _) = false |- _ => apply Nat.leb_gt in H
  | H : (_ =? _) = true |- _ => apply Nat.eqb_eq in H
  | H : (_ =? _) = false |- _ => apply Nat.eqb_neq in H
  end.

(** Undo the binds of a hypothesis [m = Ret _]. *)
Ltac inv_bind H :=
  apply bind_Ret in H; let a := fresh "a" in let E := fresh "E" in
  destruct H as (a & E & H).

Create HintDb omq.

(** * Lists *)

(** Sum of a list of integers. *)
Definition Zsum (l : list Z) : Z := foldr Z.add 0%Z l.

Lemma Zsum_app l k : Zsum (l ++ k) = (Zsum l + Zsum k)%Z.
Proof. induction l; simpl; lia. Qed.

Lemma Zsum_map_le {A} (f g : A → Z) l :
  (∀ x, x ∈ l → f x ≤ g x)%Z → (Zsum (f <$> l) ≤ Zsum (g <$> l))%Z.
Proof.
  induction l as [|a l IH]; intros H; [done|]; cbn.
  specialize (H a (list_elem_of_here _ _)) as Ha.
  specialize (IH (λ x Hx, H x (list_elem_of_further _ _ _ Hx))).
  unfold Zsum in *; lia.
Qed.

Lemma Zsum_map_add {A} (f g : A → Z) l :
  Zsum ((λ x, f x + g x)%Z <$> l) = (Zsum (f <$> l) + Zsum (g <$> l))%Z.
Proof. induction l; cbn; unfold Zsum in *; lia. Qed.

(** Sums of measures over lists. *)
Lemma sum_fmap_cons {A} (f : A → nat) x l : sum_list (f <$> x :: l) = (f x + sum_list (f <$> l))%nat.
Proof. done. Qed.
Lemma sum_fmap_insert {A} (f : A → nat) l i x y :
  l !! i = Some x → (sum_list (f <$> <[ i := y ]> l) + f x = sum_list (f <$> l) + f y)%nat.
Proof.
  revert i. induction l as [|z l IH]; intros [|i] H; [done|done| |].
  - injection H as ->. cbn. lia.
  - specialize (IH i H). change (<[ S i := y ]> (z :: l)) with (z :: <[ i := y ]> l). rewrite !sum_fmap_cons. lia.
Qed.
Lemma sum_fmap_le {A} (f : A → nat) k l : (∀ x, f x ≤ k)%nat → (sum_list (f <$> l) ≤ k * length l)%nat.
Proof. intros Hf. induction l as [|x l IH]; [cbn; lia|]. rewrite sum_fmap_cons. specialize (Hf x). cbn [length]. lia. Qed.

#[export] Instance Zsum_perm : Proper ((≡ₚ) ==> (=)) Zsum.
Proof. intros l k H; induction H; cbn; unfold Zsum in *; lia. Qed.

(** The first [n] elements followed by one more. *)
Lemma take_app_cons {A} (l k : list A) x : take (S (length l)) (l ++ x :: k) = l ++ [x].
Proof. induction l; simpl; f_equal; done. Qed.

Lemma drop_app_cons {A} (l k : list A) x : drop (S (length l)) (l ++ x :: k) = k.
Proof. induction l; simpl; f_equal; done. Qed.
