(* ===== verification/Bytes.v ===== *)
(** * Bytes: the [std::string] / [std::string_view] operations the sources use

    [substr], [find], [find_first_not_of], [find_last_not_of], [front],
    [back], [std::to_string] and [std::stoi] on byte strings, the ASCII case
    conversions the address code writes out by hand, and the lemmas about them
    the parsers and printers need. *)
From S2P Require Import Prelude.

#[export] Instance ascii_inhabited : Inhabited ascii := populate Ascii.zero.

(** The unsigned value of a character. *)
Definition ord (c : ascii) : Z := Z.of_N (N_of_ascii c).
Definition chr (z : Z) : ascii := ascii_of_N (Z.to_N (z mod 256)).

(** ** Searching *)

Definition substr (s : bytes) (pos n : nat) : bytes := take n (drop pos s).

(** [s.find(c)]; [None] is [npos]. *)
Fixpoint find_char (c : ascii) (s : bytes) : option nat :=
  match s with
  | [] => None
  | d :: s => if bool_decide (d = c) then Some 0 else S <$> find_char c s
  end.

(** [s.find(pat)] for a string pattern. *)
Fixpoint find_str (pat s : bytes) : option nat :=
  if bool_decide (take (length pat) s = pat) then Some 0 else
  match s with
  | [] => None
  | _ :: s => S <$> find_str pat s
  end.

(** Index of the first character that does not satisfy [p]. *)
Fixpoint find_not (p : ascii → bool) (s : bytes) : option nat :=
  match s with
  | [] => None
  | d :: s => if p d then S <$> find_not p s else Some 0
  end.

(** [s.find_first_not_of(set, pos)]. *)
Definition find_first_not_of (set s : bytes) (pos : nat) : option nat :=
  (Nat.add pos) <$> find_not (λ d, bool_decide (d ∈ set)) (drop pos s).

(** [s.find_last_not_of(set)]. *)
Definition find_last_not_of (set s : bytes) : option nat :=
  (λ k, length s - 1 - k) <$> find_not (λ d, bool_decide (d ∈ set)) (reverse s).

(** ** ASCII case *)

Definition is_upper (c : ascii) : bool := (ord "A" <=? ord c)%Z && (ord c <=? ord "Z")%Z.
Definition is_lower (c : ascii) : bool := (ord "a" <=? ord c)%Z && (ord c <=? ord "z")%Z.
Definition is_digit (c : ascii) : bool := (ord "0" <=? ord c)%Z && (ord c <=? ord "9")%Z.

(** [if (c >= 'A' && c <= 'Z') c = c - 'A' + 'a'], and the converse. *)
Definition lower (c : ascii) : ascii := if is_upper c then chr (ord c - ord "A" + ord "a") else c.
Definition upper (c : ascii) : ascii := if is_lower c then chr (ord c - ord "a" + ord "A") else c.

(** ** Decimal integers *)

Definition digit (z : Z) : ascii := chr (ord "0" + z).
Definition digit_val (c : ascii) : Z := ord c - ord "0".

Fixpoint dec_digits (fuel : nat) (z : Z) (acc : bytes) : bytes :=
  match fuel with
  | O => acc
  | S fuel =>
      let acc := digit (z mod 10) :: acc in
      if (z <? 10)%Z then acc else dec_digits fuel (z / 10) acc
  end.

(** [std::to_string] of an integer; [Z.log2 z + 1] rounds are enough since
    each one divides by more than two. *)
Definition to_string (z : Z) : bytes :=
  if (z <? 0)%Z then "-"%char :: dec_digits (S (Z.to_nat (Z.log2 (- z)))) (- z) []
  else dec_digits (S (Z.to_nat (Z.log2 z))) z [].

Definition dec_val (s : bytes) : Z := foldl (λ a c, a * 10 + digit_val c)%Z 0%Z s.

Definition INT_MAX : Z := 2 ^ 31 - 1.

(** [std::stoi(s, &processed)] on a string that starts with no white space
    and no sign, the only ones the sources pass: the longest prefix of digits
    is converted, no digit at all is [invalid_argument] and a value that does
    not fit an [int] is [out_of_range]. *)
Definition stoi (s : bytes) : outcome (Z * nat) :=
  let n := default (length s) (find_not is_digit s) in
  if bool_decide (n = 0) then Throw (invalid_argument (B "stoi"))
  else if (dec_val (take n s) <=? INT_MAX)%Z then Ret (dec_val (take n s), n)
  else Throw (out_of_range (B "stoi")).

(** * Lemmas *)

Lemma ord_bound c : (0 ≤ ord c < 256)%Z.
Proof.
  unfold ord. pose proof (N_ascii_bounded c).
  lia.
Qed.

Lemma chr_ord c : chr (ord c) = c.
Proof.
  unfold chr. rewrite Z.mod_small by apply ord_bound.
  unfold ord. rewrite N2Z.id. apply ascii_N_embedding.
Qed.

Lemma ord_chr z : (0 ≤ z < 256)%Z → ord (chr z) = z.
Proof.
  intros Hz. unfold ord, chr. rewrite Z.mod_small by lia.
  rewrite N_ascii_embedding by lia. lia.
Qed.

Lemma ord_inj c d : ord c = ord d → c = d.
Proof. intros H. rewrite <-(chr_ord c), <-(chr_ord d). by f_equal. Qed.

(** Facts about single characters are checked on all 256 of them. *)
Definition all_chars : list ascii := ascii_of_nat <$> seq 0 256.

Lemma all_chars_spec c : c ∈ all_chars.
Proof.
  apply list_elem_of_fmap. exists (nat_of_ascii c). split.
  - by rewrite ascii_nat_embedding.
  - apply elem_of_seq. pose proof (nat_ascii_bounded c). lia.
Qed.

Lemma char_check (P : ascii → bool) : forallb P all_chars = true → ∀ c, P c = true.
Proof.
  intros H c. eapply forallb_forall in H; [done|].
  apply list_elem_of_In, all_chars_spec.
Qed.

Lemma char_impl (P Q : ascii → bool) :
  forallb (λ c, implb (P c) (Q c)) all_chars = true → ∀ c, P c = true → Q c = true.
Proof.
  intros H c HP. pose proof (char_check _ H c) as HQ. cbn in HQ. by rewrite HP in HQ.
Qed.

(** [char_solve P]: prove a decidable statement about every character by
    evaluating it. *)
Ltac char_solve :=
  match goal with
  | |- ∀ c : ascii, @?P c = true => exact (char_check P eq_refl)
  end.

Lemma find_char_app c s t : c ∉ s → find_char c (s ++ c :: t) = Some (length s).
Proof.
  induction s as [|d s IH]; intros H; simpl.
  - by rewrite bool_decide_true.
  - rewrite bool_decide_false by set_solver. rewrite IH by set_solver. done.
Qed.

Lemma find_char_None c s : find_char c s = None ↔ c ∉ s.
Proof.
  induction s as [|d s IH]; simpl; [set_solver|].
  destruct (bool_decide_reflect (d = c)).
  - set_solver.
  - rewrite fmap_None, IH. set_solver.
Qed.

Lemma find_char_Some c s i :
  find_char c s = Some i → i < length s ∧ s = take i s ++ c :: drop (S i) s ∧ c ∉ take i s.
Proof.
  revert i; induction s as [|d s IH]; simpl; [done|]; intros i.
  destruct (bool_decide_reflect (d = c)) as [->|Hne].
  - intros [= <-]. simpl. rewrite drop_0. repeat split; [lia|set_solver].
  - intros (j & Hj & ->)%fmap_Some. destruct (IH j Hj) as (? & Heq & ?). simpl.
    repeat split; [lia|by f_equal|set_solver].
Qed.

Lemma find_not_app p s c t :
  Forall (λ d, p d = true) s → p c = false → find_not p (s ++ c :: t) = Some (length s).
Proof.
  intros Hs Hc. induction Hs as [|d s Hd Hs IH]; simpl; [by rewrite Hc|].
  by rewrite Hd, IH.
Qed.

Lemma find_not_None p s : Forall (λ d, p d = true) s → find_not p s = None.
Proof. intros Hs. induction Hs as [|d s Hd Hs IH]; simpl; [done|]. by rewrite Hd, IH. Qed.

Lemma find_not_Some p s i :
  find_not p s = Some i → i < length s ∧ Forall (λ d, p d = true) (take i s).
Proof.
  revert i; induction s as [|d s IH]; simpl; [done|]; intros i.
  destruct (p d) eqn:Hd.
  - intros (j & Hj & ->)%fmap_Some. destruct (IH j Hj). simpl. split; [lia|by constructor].
  - intros [= <-]. simpl. split; [lia|constructor].
Qed.

Lemma find_not_all p s : find_not p s = None → Forall (λ d, p d = true) s.
Proof.
  induction s as [|d s IH]; simpl; [constructor|]. destruct (p d) eqn:Hd; [|done].
  rewrite fmap_None. auto.
Qed.

(** A pattern whose first character does not occur in a prefix is found right
    after it. *)
Lemma find_str_app c pat s t :
  c ∉ s → find_str (c :: pat) (s ++ c :: pat ++ t) = Some (length s).
Proof.
  induction s as [|d s IH]; intros H; simpl.
  - by rewrite take_app_length, bool_decide_true.
  - rewrite bool_decide_false; [rewrite IH by set_solver; done|].
    intros [= -> _]. set_solver.
Qed.

(** ** Decimal round trip *)

Lemma dec_val_app s t : dec_val (s ++ t) = foldl (λ a c, a * 10 + digit_val c)%Z (dec_val s) t.
Proof. unfold dec_val. by rewrite foldl_app. Qed.

Lemma foldl_dec_shift t a :
  foldl (λ a c, a * 10 + digit_val c)%Z a t = (a * 10 ^ Z.of_nat (length t) + dec_val t)%Z.
Proof.
  unfold dec_val. revert a. induction t as [|c t IH]; intros a; cbn [foldl length]; [lia|].
  rewrite IH, (IH (0 * 10 + digit_val c)%Z).
  rewrite Nat2Z.inj_succ, Z.pow_succ_r by lia. lia.
Qed.

Lemma digit_ord z : (0 ≤ z < 10)%Z → ord (digit z) = (48 + z)%Z.
Proof. intros. unfold digit. change (ord "0") with 48%Z. rewrite ord_chr; lia. Qed.

Lemma is_digit_digit z : (0 ≤ z < 10)%Z → is_digit (digit z) = true.
Proof.
  intros. unfold is_digit. rewrite digit_ord by done.
  change (ord "0") with 48%Z. change (ord "9") with 57%Z. lia.
Qed.

Lemma dec_digits_spec fuel z acc :
  (0 ≤ z < 2 ^ Z.of_nat fuel)%Z →
  ∃ p, dec_digits fuel z acc = p ++ acc ∧ dec_val p = z ∧
       Forall (λ c, is_digit c = true) p ∧ (fuel ≠ 0 → p ≠ []).
Proof.
  revert z acc. induction fuel as [|fuel IH]; intros z acc Hz.
  - exists []. cbn. repeat split; [cbn in Hz; lia|constructor|done].
  - rewrite Nat2Z.inj_succ, Z.pow_succ_r in Hz by lia. cbn [dec_digits].
    destruct (Z.ltb_spec z 10) as [Hlt|Hge].
    + exists [digit z]. rewrite Z.mod_small by lia. repeat split; [| |done].
      * unfold dec_val, digit_val. cbn [foldl]. rewrite digit_ord by lia.
        change (ord "0") with 48%Z. lia.
      * repeat constructor. apply is_digit_digit; lia.
    + destruct (IH (z / 10)%Z (digit (z mod 10) :: acc)) as (p & -> & Hv & Hd & _).
      { split; [apply Z.div_pos; lia|]. apply Z.div_lt_upper_bound; lia. }
      pose proof (Z.mod_pos_bound z 10 ltac:(lia)) as Hmod.
      exists (p ++ [digit (z mod 10)]). repeat split.
      * by rewrite <-app_assoc.
      * rewrite dec_val_app. cbn [foldl]. rewrite Hv. unfold digit_val. rewrite digit_ord by lia.
        change (ord "0") with 48%Z. pose proof (Z.div_mod z 10 ltac:(lia)). lia.
      * apply Forall_app. split; [done|]. repeat constructor. by apply is_digit_digit.
      * intros _. by destruct p.
Qed.

(** A printed natural number is a non-empty run of digits with that value. *)
Lemma to_string_spec z :
  (0 ≤ z)%Z →
  dec_val (to_string z) = z ∧ Forall (λ c, is_digit c = true) (to_string z) ∧ to_string z ≠ [].
Proof.
  intros Hz. unfold to_string. destruct (Z.ltb_spec z 0); [lia|].
  destruct (dec_digits_spec (S (Z.to_nat (Z.log2 z))) z []) as (p & -> & Hv & Hd & Hn).
  - split; [done|]. destruct (Z.eq_dec z 0%Z) as [->|]; [done|].
    pose proof (Z.log2_spec z ltac:(lia)). pose proof (Z.log2_nonneg z).
    rewrite Nat2Z.inj_succ, Z2Nat.id by lia. lia.
  - rewrite app_nil_r. auto.
Qed.

(** [std::stoi] reads back what [std::to_string] wrote. *)
Lemma stoi_to_string z :
  (0 ≤ z ≤ INT_MAX)%Z → stoi (to_string z) = Ret (z, length (to_string z)).
Proof.
  intros [Hz Hmax]. destruct (to_string_spec z Hz) as (Hv & Hd & Hn).
  unfold stoi. rewrite find_not_None by done. simpl.
  rewrite bool_decide_false by (destruct (to_string z); simpl; [done|lia]).
  rewrite firstn_all, Hv. destruct (Z.leb_spec z INT_MAX); [done|lia].
Qed.

(** ** Case conversion *)

Lemma lower_upper c : is_upper c = false → lower (upper c) = c.
Proof.
  intros H. enough (implb (negb (is_upper c)) (bool_decide (lower (upper c) = c)) = true) as E.
  { rewrite H in E. by apply bool_decide_eq_true in E. }
  revert c H. intros c _. revert c. char_solve.
Qed.

Lemma upper_not_lower c : is_lower (upper c) = false.
Proof. enough (negb (is_lower (upper c)) = true) by (by apply negb_true_iff). revert c. char_solve. Qed.

Lemma map_lower_upper s :
  Forall (λ c, is_upper c = false) s → lower <$> (upper <$> s) = s.
Proof. intros H. induction H; simpl; [done|]. f_equal; [by apply lower_upper|done]. Qed.
