(* ===== verification/Oxenc.v ===== *)
(** * Oxenc: the interface of the [oxenc] library the sources call

    [oxenc] is a separate library: the sources include [<oxenc/hex.h>],
    [<oxenc/base32z.h>] and [<oxenc/base64.h>].  The development takes its
    encoders as a parameter (the class [Oxenc]) together with the documented
    facts the address code relies on (the class [OxencLaws]).  The second half
    of the file gives the standard bit-group encoders as an instance, which
    shows that the laws can hold and lets the examples run. *)
From S2P Require Import Prelude Bytes.

Class Oxenc := {
  is_hex : bytes → bool;
  to_hex : bytes → bytes;
  from_hex : bytes → bytes;
  is_base32z : bytes → bool;
  to_base32z : bytes → bytes;
  from_base32z : bytes → bytes;
  is_base64 : bytes → bool;
  to_base64 : bytes → bytes;
  from_base64 : bytes → bytes;
}.

Definition hex_alphabet : bytes := B "0123456789abcdef".
Definition b32z_alphabet : bytes := B "ybndrfg8ejkmcpqxot1uwisza345h769".
Definition b64_alphabet : bytes :=
  B "ABCDEFGHIJKLMNOPQRSTUVWXYZabcdefghijklmnopqrstuvwxyz0123456789+/".

(** Hex and base32z are read without regard to case. *)
Definition hex_char (c : ascii) : bool := bool_decide (lower c ∈ hex_alphabet).
Definition b32z_char (c : ascii) : bool := bool_decide (lower c ∈ b32z_alphabet).
Definition b64_char (c : ascii) : bool := bool_decide (c ∈ b64_alphabet).

(** Number of '=' that pad the base64 encoding of [n] bytes. *)
Definition b64_pad (n : nat) : nat := (3 - n mod 3) mod 3.

Class OxencLaws (O : Oxenc) := {
  (* what the validity tests accept *)
  is_hex_chars s : is_hex s = true → Forall (λ c, hex_char c = true) s;
  is_base32z_chars s : is_base32z s = true → Forall (λ c, b32z_char c = true) s;
  is_base64_chars s :
    is_base64 s = true → length s mod 4 ≠ 0 → Forall (λ c, b64_char c = true) s;
  (* base32z is case-insensitive *)
  is_base32z_upper s : is_base32z (upper <$> s) = is_base32z s;
  from_base32z_upper s : from_base32z (upper <$> s) = from_base32z s;
  (* encoded forms *)
  to_hex_length s : length (to_hex s) = 2 * length s;
  to_base32z_length s : length (to_base32z s) = (8 * length s + 4) / 5;
  to_base64_padded s :
    ∃ body, to_base64 s = body ++ replicate (b64_pad (length s)) "="%char ∧
      length body = (8 * length s + 5) / 6 ∧ Forall (λ c, b64_char c = true) body;
  is_hex_to_hex s : is_hex (to_hex s) = true;
  is_base32z_to_base32z s : is_base32z (to_base32z s) = true;
  is_base64_to_base64 s : is_base64 (to_base64 s) = true;
  (* decoding inverts encoding; base64 padding may be left out *)
  from_to_hex s : from_hex (to_hex s) = s;
  from_to_base32z s : from_base32z (to_base32z s) = s;
  from_to_base64 s : from_base64 (to_base64 s) = s;
  base64_unpadded s body k :
    to_base64 s = body ++ replicate k "="%char → Forall (λ c, b64_char c = true) body →
    is_base64 body = true ∧ from_base64 body = s;
  (* decoded sizes *)
  from_hex_length s : is_hex s = true → length (from_hex s) = length s / 2;
  from_base32z_length s : is_base32z s = true → length (from_base32z s) = length s * 5 / 8;
  from_base64_length s :
    is_base64 s = true → Forall (λ c, b64_char c = true) s →
    length (from_base64 s) = length s * 6 / 8;
}.

(** * The standard encoders

    A string is read as its bits, most significant first; the bits are cut
    into groups of [k] (the last one filled with zeros) and each group picks a
    character of the alphabet. *)
Module BitCoder.

Definition bits_val (g : list bool) : nat := foldl (λ a b, 2 * a + Nat.b2n b) 0 g.

Fixpoint val_bits (k n : nat) : list bool :=
  match k with
  | O => []
  | S k => val_bits k (n / 2) ++ [Nat.odd n]
  end.

Fixpoint groups (fuel k : nat) (l : list bool) : list (list bool) :=
  match fuel, l with
  | O, _ | _, [] => []
  | S fuel, _ =>
      let g := take k l in
      (g ++ replicate (k - length g) false) :: groups fuel k (drop k l)
  end.

Definition to_bits (k : nat) (l : list nat) : list bool := l ≫= val_bits k.
Definition regroup (k : nat) (l : list bool) : list nat := bits_val <$> groups (length l) k l.

Definition index (alphabet : bytes) (c : ascii) : nat :=
  default 0 (fst <$> list_find (c =.) alphabet).

Definition encode (k : nat) (alphabet : bytes) (s : bytes) : bytes :=
  (λ i, alphabet !!! i) <$> regroup k (to_bits 8 (nat_of_ascii <$> s)).

Definition decode (k : nat) (alphabet : bytes) (s : bytes) : bytes :=
  let l := to_bits k (index alphabet <$> s) in
  ascii_of_nat <$> regroup 8 (take (length l / 8 * 8) l).

(** ** Correctness of the bit groups *)

Lemma length_val_bits k n : length (val_bits k n) = k.
Proof. revert n; induction k; intros n; simpl; [done|]. rewrite length_app, IHk. simpl. lia. Qed.

Lemma bits_val_app g b : bits_val (g ++ [b]) = 2 * bits_val g + Nat.b2n b.
Proof. unfold bits_val. by rewrite foldl_app. Qed.

Lemma val_bits_val k n : n < 2 ^ k → bits_val (val_bits k n) = n.
Proof.
  revert n; induction k as [|k IH]; intros n Hn; [cbn in *; lia|].
  cbn [val_bits]. rewrite Nat.pow_succ_r' in Hn. rewrite bits_val_app, IH by (apply Nat.Div0.div_lt_upper_bound; lia).
  pose proof (Nat.div2_odd n). rewrite Nat.div2_div in *. lia.
Qed.

Lemma bits_val_bits g : val_bits (length g) (bits_val g) = g.
Proof.
  induction g as [|b g IH] using rev_ind; [done|].
  rewrite length_app, Nat.add_comm, bits_val_app. cbn [length Nat.add val_bits].
  replace ((2 * bits_val g + Nat.b2n b) / 2) with (bits_val g).
  2:{ rewrite Nat.mul_comm, Nat.div_add_l by done. destruct b; cbn; lia. }
  rewrite IH. do 2 f_equal.
  rewrite Nat.odd_add, Nat.odd_mul. by destruct b.
Qed.

Lemma bits_val_bound g : bits_val g < 2 ^ length g.
Proof.
  induction g as [|b g IH] using rev_ind; [cbn; lia|].
  rewrite bits_val_app, length_app, Nat.pow_add_r. simpl. destruct b; simpl; lia.
Qed.

Lemma length_to_bits k l : length (to_bits k l) = k * length l.
Proof.
  unfold to_bits. induction l as [|n l IH]; [simpl; lia|].
  rewrite bind_cons, length_app, length_val_bits, IH. simpl. lia.
Qed.

(** The groups, concatenated, are the bits followed by fewer than [k] zeros. *)
Lemma groups_spec fuel k l :
  0 < k → length l ≤ fuel →
  Forall (λ g, length g = k) (groups fuel k l) ∧
  ∃ p, p < k ∧ concat (groups fuel k l) = l ++ replicate p false.
Proof.
  intros Hk. revert l; induction fuel as [|fuel IH]; intros l Hl.
  - destruct l; simpl in *; [|lia]. split; [constructor|]. by exists 0.
  - destruct l as [|b l]; [split; [constructor|]; by exists 0|].
    cbn [groups]. remember (b :: l) as m eqn:Hm.
    assert (0 < length m) by (subst; cbn; lia). clear Hm.
    destruct (IH (drop k m)) as (Hg & p & Hp & Hc).
    { rewrite length_drop. lia. }
    split.
    + constructor; [|done]. rewrite length_app, length_replicate, length_take. lia.
    + cbn [concat]. rewrite Hc. rewrite length_take.
      destruct (decide (k ≤ length m)) as [Hle|Hgt].
      * exists p. split; [done|]. replace (k - k `min` length m) with 0 by lia.
        simpl. by rewrite app_nil_r, app_assoc, take_drop.
      * assert (groups fuel k (drop k m) = []) as E.
        { rewrite drop_ge by lia. by destruct fuel. }
        rewrite E in Hc. cbn in Hc. symmetry in Hc.
        apply app_eq_nil in Hc as [-> Hp0].
        destruct p; [|done]. cbn. rewrite app_nil_r, take_ge by lia.
        exists (k - length m). split; [lia|]. do 2 f_equal. lia.
Qed.

Lemma to_bits_regroup k l :
  0 < k → ∃ p, p < k ∧ to_bits k (regroup k l) = l ++ replicate p false ∧
    Forall (λ n, n < 2 ^ k) (regroup k l).
Proof.
  intros Hk. destruct (groups_spec (length l) k l Hk) as (Hg & p & Hp & Hc); [done|].
  exists p. split; [done|]. unfold regroup, to_bits. rewrite <-Hc. split.
  - clear Hc. induction Hg as [|g gs Hg0 Hg IH]; [done|].
    rewrite fmap_cons, bind_cons. cbn [concat]. rewrite <-Hg0 at 1. by rewrite bits_val_bits, IH.
  - apply Forall_fmap. eapply Forall_impl; [exact Hg|]. intros g <-. apply bits_val_bound.
Qed.

Lemma length_regroup k l : 0 < k → length (regroup k l) = (length l + k - 1) / k.
Proof.
  intros Hk. destruct (to_bits_regroup k l Hk) as (p & Hp & Hc & _).
  apply (f_equal length) in Hc. rewrite length_to_bits, length_app, length_replicate in Hc.
  apply Nat.div_unique with (r := k - 1 - p); lia.
Qed.

Lemma regroup_to_bits k l :
  0 < k → Forall (λ n, n < 2 ^ k) l → regroup k (to_bits k l) = l.
Proof.
  intros Hk Hl. unfold regroup.
  enough (∀ fuel, length (to_bits k l) ≤ fuel →
    bits_val <$> groups fuel k (to_bits k l) = l) as E by by apply E.
  induction Hl as [|n l Hn Hl IH]; intros fuel Hf; [by destruct fuel|].
  rewrite length_to_bits in Hf. cbn [length] in Hf.
  destruct fuel as [|fuel]; [lia|].
  unfold to_bits. rewrite bind_cons. fold (to_bits k l).
  assert (groups (S fuel) k (val_bits k n ++ to_bits k l) =
          val_bits k n :: groups fuel k (to_bits k l)) as ->.
  { cbn [groups]. destruct (val_bits k n ++ to_bits k l) eqn:E.
    { apply (f_equal length) in E. rewrite length_app, length_val_bits in E. simpl in E. lia. }
    rewrite <-E. rewrite take_app_le, drop_app_ge by (rewrite length_val_bits; lia).
    rewrite length_val_bits, Nat.sub_diag, drop_0, take_ge by (rewrite length_val_bits; lia).
    rewrite length_val_bits, Nat.sub_diag. simpl. by rewrite app_nil_r. }
  rewrite fmap_cons, val_bits_val by done. f_equal. apply IH. rewrite length_to_bits. lia.
Qed.

(** The characters of [alphabet] are read back as their index by [lut]. *)
Definition alphabet_ok (k : nat) (alphabet : bytes) : bool :=
  (length alphabet =? 2 ^ k) &&
  forallb (λ i, index alphabet (alphabet !!! i) =? i) (seq 0 (2 ^ k)).

Section coder.
Context (k : nat) (alphabet : bytes).
Hypothesis Hk : 0 < k ≤ 8.
Hypothesis Hok : alphabet_ok k alphabet = true.

Lemma index_lookup i : i < 2 ^ k → index alphabet (alphabet !!! i) = i.
Proof.
  intros Hi. apply andb_true_iff in Hok as [_ H].
  eapply forallb_forall in H; [by apply Nat.eqb_eq|]. apply in_seq. lia.
Qed.

Lemma length_encode s : length (encode k alphabet s) = (8 * length s + k - 1) / k.
Proof.
  unfold encode. rewrite length_fmap, length_regroup, length_to_bits, length_fmap by lia.
  done.
Qed.

Lemma encode_chars s : Forall (λ c, c ∈ alphabet) (encode k alphabet s).
Proof.
  unfold encode. apply Forall_fmap.
  destruct (to_bits_regroup k (to_bits 8 (nat_of_ascii <$> s))) as (p & _ & _ & H); [lia|].
  eapply Forall_impl; [exact H|]. intros n Hn. cbn.
  apply andb_true_iff in Hok as [Hlen _]. apply Nat.eqb_eq in Hlen.
  apply list_elem_of_lookup_total. exists n. rewrite Hlen. split; [exact Hn|done].
Qed.

Lemma length_decode s : length (decode k alphabet s) = length s * k / 8.
Proof.
  unfold decode. rewrite length_fmap, length_regroup, length_take, length_to_bits, length_fmap
    by lia.
  rewrite (Nat.mul_comm k). set (n := length s * k).
  pose proof (Nat.Div0.mul_div_le n 8). rewrite Nat.min_l by lia.
  replace (n / 8 * 8 + 8 - 1) with (7 + n / 8 * 8) by lia.
  by rewrite Nat.div_add by done.
Qed.

Lemma decode_encode s : decode k alphabet (encode k alphabet s) = s.
Proof.
  unfold decode, encode.
  destruct (to_bits_regroup k (to_bits 8 (nat_of_ascii <$> s))) as (p & Hp & Hc & Hb); [lia|].
  rewrite <-list_fmap_compose.
  assert (((index alphabet ∘ (λ i, alphabet !!! i)) <$>
    regroup k (to_bits 8 (nat_of_ascii <$> s))) =
    regroup k (to_bits 8 (nat_of_ascii <$> s))) as ->.
  { apply list_eq. intros i. rewrite list_lookup_fmap.
    destruct (regroup k _ !! i) as [n|] eqn:E; [|done]. simpl. f_equal.
    apply index_lookup. exact (Forall_lookup_1 _ _ _ _ Hb E). }
  rewrite Hc, length_app, length_replicate, length_to_bits, length_fmap.
  assert ((8 * length s + p) / 8 * 8 = 8 * length s) as ->.
  { rewrite (Nat.mul_comm 8), Nat.div_add_l, Nat.div_small by lia. lia. }
  rewrite take_app_le, take_ge by (rewrite length_to_bits, length_fmap; lia).
  rewrite regroup_to_bits; [|lia|].
  - rewrite <-list_fmap_compose. rewrite <-(list_fmap_id s) at 2.
    apply list_fmap_ext. intros _ c _. apply ascii_nat_embedding.
  - apply Forall_fmap, Forall_true. intros c. apply nat_ascii_bounded.
Qed.
End coder.
End BitCoder.

(** ** The instance *)
Module Standard.
Import BitCoder.

(** Hex and base32z input is folded to lower case before it is looked up. *)
Definition std_is_hex (s : bytes) : bool := Nat.even (length s) && forallb hex_char s.
Definition std_is_base32z (s : bytes) : bool :=
  negb (bool_decide (length s mod 8 ∈ [1; 3; 6])) && forallb b32z_char s.

(** One or two '=' are allowed when they pad the length to a multiple of 4. *)
Definition strip_pad (s : bytes) : bytes :=
  if length s mod 4 =? 0 then
    match reverse s with
    | "="%char :: "="%char :: r => reverse r
    | "="%char :: r => reverse r
    | _ => s
    end
  else s.
Definition std_is_base64 (s : bytes) : bool :=
  negb (length s mod 4 =? 1) && forallb b64_char (strip_pad s).

#[export] Instance oxenc : Oxenc := {|
  is_hex := std_is_hex;
  to_hex := encode 4 hex_alphabet;
  from_hex s := decode 4 hex_alphabet (lower <$> s);
  is_base32z := std_is_base32z;
  to_base32z := encode 5 b32z_alphabet;
  from_base32z s := decode 5 b32z_alphabet (lower <$> s);
  is_base64 := std_is_base64;
  to_base64 s := encode 6 b64_alphabet s ++ replicate (b64_pad (length s)) "="%char;
  from_base64 s := decode 6 b64_alphabet (strip_pad s);
|}.

Lemma alphabets_ok :
  alphabet_ok 4 hex_alphabet && alphabet_ok 5 b32z_alphabet && alphabet_ok 6 b64_alphabet = true.
Proof. vm_compute. reflexivity. Qed.

Lemma hex_ok : alphabet_ok 4 hex_alphabet = true.
Proof. pose proof alphabets_ok. by bool_cases. Qed.
Lemma b32z_ok : alphabet_ok 5 b32z_alphabet = true.
Proof. pose proof alphabets_ok. by bool_cases. Qed.
Lemma b64_ok : alphabet_ok 6 b64_alphabet = true.
Proof. pose proof alphabets_ok. by bool_cases. Qed.

(** Encoded text is already lower case. *)
Lemma lower_alphabet a s :
  forallb (λ c, bool_decide (lower c = c)) a = true → Forall (λ c, c ∈ a) s →
  lower <$> s = s ∧ Forall (λ c, lower c ∈ a) s.
Proof.
  intros Ha Hs. rewrite forallb_forall in Ha.
  induction Hs as [|c s Hc Hs [IH1 IH2]]; [done|].
  assert (lower c = c) as E.
  { apply (bool_decide_unpack _). specialize (Ha c (proj1 (list_elem_of_In _ _) Hc)).
    by rewrite Ha. }
  split; [by rewrite fmap_cons, E, IH1|]. constructor; [by rewrite E|done].
Qed.

Lemma lower_of_upper c : lower (upper c) = lower c.
Proof. apply (bool_decide_eq_true (lower (upper c) = lower c)). revert c. char_solve. Qed.

Lemma forallb_char p s : forallb p s = true ↔ Forall (λ c : ascii, p c = true) s.
Proof. rewrite forallb_forall, Forall_forall. setoid_rewrite list_elem_of_In. done. Qed.

Lemma not_b64_eq c : b64_char c = true → c ≠ "="%char.
Proof. intros H ->. by vm_compute in H. Qed.

Lemma strip_pad_body body : Forall (λ c, b64_char c = true) body → strip_pad body = body.
Proof.
  intros H. unfold strip_pad. case_match; [|done].
  assert (Forall (λ c, c ≠ "="%char) (reverse body)) as Hr.
  { apply Forall_reverse. eapply Forall_impl; [exact H|]. apply not_b64_eq. }
  destruct (reverse body) as [|c r] eqn:E; [done|]. apply Forall_cons in Hr as [Hc _].
  destruct c as [[] [] [] [] [] [] [] []]; done.
Qed.

Lemma strip_pad_padded body k :
  Forall (λ c, b64_char c = true) body → k ≤ 2 → (length body + k) mod 4 = 0 →
  strip_pad (body ++ replicate k "="%char) = body.
Proof.
  intros H Hk Hlen. destruct k as [|[|[|k]]]; [|..|lia].
  - simpl. rewrite app_nil_r. by apply strip_pad_body.
  - unfold strip_pad. rewrite length_app, length_replicate, Hlen. simpl.
    rewrite reverse_snoc. pose proof (strip_pad_body body H) as E.
    destruct (reverse body) as [|c r] eqn:Er.
    { by rewrite <-(reverse_involutive body), Er. }
    assert (c ≠ "="%char) as Hc.
    { apply Forall_reverse in H. rewrite Er in H. apply Forall_cons in H as [? _].
      by apply not_b64_eq. }
    rewrite <-(reverse_involutive body), Er.
    destruct c as [[] [] [] [] [] [] [] []]; done.
  - unfold strip_pad. rewrite length_app, length_replicate, Hlen. simpl.
    change ["="%char; "="%char] with (["="%char] ++ ["="%char]).
    rewrite app_assoc, reverse_snoc, reverse_snoc. by rewrite reverse_involutive.
Qed.

Lemma b64_body_pad n : b64_pad n ≤ 2 ∧ ((8 * n + 5) / 6 + b64_pad n) mod 4 = 0.
Proof.
  pose proof (Nat.div_mod_eq n 3) as Hn. pose proof (Nat.mod_upper_bound n 3 ltac:(done)) as Hr.
  unfold b64_pad. set (q := n / 3) in *. set (r := n mod 3) in *. clearbody q r. subst n.
  assert (r = 0 ∨ r = 1 ∨ r = 2) as [-> | [-> | ->]] by lia.
  - split; [cbn; lia|]. replace ((8 * (3 * q + 0) + 5) / 6) with (4 * q)
      by (apply Nat.div_unique with (r := 5); lia).
    rewrite Nat.add_0_r, Nat.mul_comm. apply Nat.Div0.mod_mul.
  - split; [cbn; lia|]. replace ((8 * (3 * q + 1) + 5) / 6) with (4 * q + 2)
      by (apply Nat.div_unique with (r := 1); lia).
    change ((3 - 1) mod 3) with 2. replace (4 * q + 2 + 2) with (S q * 4) by lia.
    apply Nat.Div0.mod_mul.
  - split; [cbn; lia|]. replace ((8 * (3 * q + 2) + 5) / 6) with (4 * q + 3)
      by (apply Nat.div_unique with (r := 3); lia).
    change ((3 - 2) mod 3) with 1. replace (4 * q + 3 + 1) with (S q * 4) by lia.
    apply Nat.Div0.mod_mul.
Qed.

(** Hex. *)
Lemma hex_encoded s :
  lower <$> encode 4 hex_alphabet s = encode 4 hex_alphabet s ∧
  Forall (λ c, lower c ∈ hex_alphabet) (encode 4 hex_alphabet s) ∧
  length (encode 4 hex_alphabet s) = 2 * length s.
Proof.
  destruct (lower_alphabet hex_alphabet (encode 4 hex_alphabet s)) as [-> H].
  { by vm_compute. }
  { apply encode_chars; [lia|apply hex_ok]. }
  repeat split; [done|]. rewrite length_encode by lia.
  symmetry. apply Nat.div_unique with (r := 3); lia.
Qed.

Lemma std_is_hex_encoded s : std_is_hex (encode 4 hex_alphabet s) = true.
Proof.
  destruct (hex_encoded s) as (_ & Hc & Hl). unfold std_is_hex. rewrite Hl.
  apply andb_true_iff. split; [apply Nat.even_spec; by exists (length s)|].
  apply forallb_char. eapply Forall_impl; [exact Hc|]. intros c. apply bool_decide_eq_true.
Qed.

(** Base32z. *)
Lemma b32z_encoded s :
  lower <$> encode 5 b32z_alphabet s = encode 5 b32z_alphabet s ∧
  Forall (λ c, lower c ∈ b32z_alphabet) (encode 5 b32z_alphabet s) ∧
  length (encode 5 b32z_alphabet s) = (8 * length s + 4) / 5.
Proof.
  destruct (lower_alphabet b32z_alphabet (encode 5 b32z_alphabet s)) as [-> H].
  { by vm_compute. }
  { apply encode_chars; [lia|apply b32z_ok]. }
  repeat split; [done|]. rewrite length_encode by lia. f_equal. lia.
Qed.

Lemma b32z_length_mod n : (8 * n + 4) / 5 mod 8 ∉ [1; 3; 6].
Proof.
  pose proof (Nat.div_mod_eq n 5) as Hn. pose proof (Nat.mod_upper_bound n 5 ltac:(done)) as Hr.
  set (q := n / 5) in *. set (r := n mod 5) in *. clearbody q r. subst n.
  replace (8 * (5 * q + r) + 4) with ((8 * q) * 5 + (8 * r + 4)) by lia.
  rewrite Nat.div_add_l by done.
  replace (8 * q + (8 * r + 4) / 5) with ((8 * r + 4) / 5 + q * 8) by lia.
  rewrite Nat.Div0.mod_add.
  do 5 (destruct r as [|r]; [by apply (bool_decide_unpack _)|]). lia.
Qed.

Lemma std_is_base32z_encoded s : std_is_base32z (encode 5 b32z_alphabet s) = true.
Proof.
  destruct (b32z_encoded s) as (_ & Hc & Hl). unfold std_is_base32z. rewrite Hl.
  apply andb_true_iff. split.
  - apply negb_true_iff, bool_decide_eq_false, b32z_length_mod.
  - apply forallb_char. eapply Forall_impl; [exact Hc|]. intros c. apply bool_decide_eq_true.
Qed.

Lemma std_is_base32z_upper s : std_is_base32z (upper <$> s) = std_is_base32z s.
Proof.
  unfold std_is_base32z. rewrite length_fmap. f_equal.
  induction s as [|c s IH]; [done|]. cbn [fmap list_fmap forallb]. rewrite IH.
  unfold b32z_char at 1. by rewrite lower_of_upper.
Qed.

(** Base64. *)
Lemma encode64_chars s : Forall (λ c, b64_char c = true) (encode 6 b64_alphabet s).
Proof.
  eapply Forall_impl; [apply encode_chars; [lia|apply b64_ok]|].
  intros c Hc. by apply bool_decide_eq_true.
Qed.

Lemma encode64_length s : length (encode 6 b64_alphabet s) = (8 * length s + 5) / 6.
Proof. rewrite length_encode by lia. f_equal. lia. Qed.

Lemma strip_pad_encoded s :
  strip_pad (encode 6 b64_alphabet s ++ replicate (b64_pad (length s)) "="%char) =
  encode 6 b64_alphabet s.
Proof.
  destruct (b64_body_pad (length s)). apply strip_pad_padded; [apply encode64_chars|done|].
  by rewrite encode64_length.
Qed.

Lemma std_is_base64_encoded s :
  std_is_base64 (encode 6 b64_alphabet s ++ replicate (b64_pad (length s)) "="%char) = true.
Proof.
  unfold std_is_base64. rewrite strip_pad_encoded, length_app, length_replicate, encode64_length.
  rewrite (proj2 (b64_body_pad (length s))). apply forallb_char, encode64_chars.
Qed.

(** Padding determines the body it follows. *)
Lemma body_unique b1 b2 k1 k2 :
  Forall (λ c, b64_char c = true) b1 → Forall (λ c, b64_char c = true) b2 →
  b1 ++ replicate k1 "="%char = b2 ++ replicate k2 "="%char → b1 = b2.
Proof.
  intros H1. revert b2. induction H1 as [|c b1 Hc H1 IH]; intros b2 H2 Heq.
  - destruct H2 as [|d b2 Hd H2]; [done|]. destruct k1; simpl in Heq; [done|].
    injection Heq as <- _. by vm_compute in Hd.
  - destruct H2 as [|d b2 Hd H2]; simpl in Heq.
    + destruct k2; simpl in Heq; [done|]. injection Heq as -> _. by vm_compute in Hc.
    + injection Heq as -> Heq. f_equal. by apply IH.
Qed.

Lemma encode64_length_mod s : length (encode 6 b64_alphabet s) mod 4 ≠ 1.
Proof.
  rewrite encode64_length. destruct (b64_body_pad (length s)) as [Hp Hm].
  intros H1. rewrite Nat.Div0.add_mod, H1 in Hm.
  destruct (b64_pad (length s)) as [|[|[|]]]; simpl in Hm; lia.
Qed.

Lemma base64_unpadded_encoded s body k :
  encode 6 b64_alphabet s ++ replicate (b64_pad (length s)) "="%char =
    body ++ replicate k "="%char →
  Forall (λ c, b64_char c = true) body →
  std_is_base64 body = true ∧ decode 6 b64_alphabet (strip_pad body) = s.
Proof.
  intros Heq Hbody. apply body_unique in Heq as <-; [|apply encode64_chars|done].
  rewrite strip_pad_body by done. split; [|apply decode_encode; [lia|apply b64_ok]].
  unfold std_is_base64. rewrite strip_pad_body by done.
  apply andb_true_iff. split; [|by apply forallb_char].
  apply negb_true_iff, Nat.eqb_neq, encode64_length_mod.
Qed.

#[export] Instance oxenc_laws : OxencLaws oxenc.
Proof.
  split; intros s;
    cbn [is_hex to_hex from_hex is_base32z to_base32z from_base32z is_base64 to_base64
         from_base64 oxenc].
  - unfold std_is_hex. intros. bool_cases. by apply forallb_char.
  - unfold std_is_base32z. intros. bool_cases. by apply forallb_char.
  - unfold std_is_base64, strip_pad. intros ? Hmod. bool_cases.
    rewrite (proj2 (Nat.eqb_neq _ _) Hmod) in *. by apply forallb_char.
  - apply std_is_base32z_upper.
  - f_equal. rewrite <-list_fmap_compose. apply list_fmap_ext. intros _ c _. apply lower_of_upper.
  - apply hex_encoded.
  - apply b32z_encoded.
  - exists (encode 6 b64_alphabet s). auto using encode64_length, encode64_chars.
  - apply std_is_hex_encoded.
  - apply std_is_base32z_encoded.
  - apply std_is_base64_encoded.
  - rewrite (proj1 (hex_encoded s)). apply decode_encode; [lia|apply hex_ok].
  - rewrite (proj1 (b32z_encoded s)). apply decode_encode; [lia|apply b32z_ok].
  - rewrite strip_pad_encoded. apply decode_encode; [lia|apply b64_ok].
  - apply base64_unpadded_encoded.
  - intros _. rewrite length_decode, length_fmap by lia.
    change 8 with (2 * 4). by rewrite Nat.Div0.div_mul_cancel_r.
  - intros _. by rewrite length_decode, length_fmap by lia.
  - intros _ H. by rewrite strip_pad_body, length_decode by (done || lia).
Qed.
End Standard.
