(* ===== verification/Address.v ===== *)
(** * Address: [oxenmq/address.h] and [oxenmq/address.cpp]

    The [address] value type: the parser behind [address(std::string_view)],
    the printers [full_address], [zmq_address] and [qr_address], [set_pubkey],
    the comparison operator and the factory functions.  The parser consumes a
    [string_view] by reference; the model returns the rest of the input next
    to the result. *)
From S2P Require Import Prelude Bytes Oxenc.
Open Scope Z_scope.
Open Scope nat_scope.

Inductive proto := tcp | tcp_curve | ipc | ipc_curve.
Inductive encoding := hex | base32z | base64 | BASE32Z.

Record address := mk_address {
  protocol : proto;
  host : bytes;
  port : Z;
  socket : bytes;
  pubkey : bytes;
}.

#[export] Instance proto_eq_dec : EqDecision proto.
Proof. solve_decision. Defined.
#[export] Instance encoding_eq_dec : EqDecision encoding.
Proof. solve_decision. Defined.
#[export] Instance address_eq_dec : EqDecision address.
Proof. solve_decision. Defined.
#[export] Instance address_rebuild : Rebuild address := λ a,
  mk_address (protocol a) (host a) (port a) (socket a) (pubkey a).

(** [address() = default]. *)
Definition address_default : address := mk_address tcp [] 0 [] [].

Definition is_curve (a : address) : bool :=
  match protocol a with tcp_curve | ipc_curve => true | _ => false end.
Definition is_tcp (a : address) : bool :=
  match protocol a with tcp | tcp_curve => true | _ => false end.
Definition is_ipc (a : address) : bool := negb (is_tcp a).

Definition enc_length (enc : encoding) : nat :=
  if bool_decide (enc = hex) then 64 else if bool_decide (enc = base64) then 43 else 52.

Definition UINT16_MAX : Z := 2 ^ 16 - 1.

(** ** Parsing *)
Section parse.
Context {O : Oxenc}.

Definition decode_pubkey (input : bytes) (qr : bool) : outcome (bytes * bytes) :=
  if (64 <=? length input) && is_hex (substr input 0 64) then
    Ret (from_hex (substr input 0 64), drop 64 input)
  else if (52 <=? length input) && is_base32z (substr input 0 52) then
    Ret (from_base32z (substr input 0 52), drop 52 input)
  else if negb qr && (43 <=? length input) && is_base64 (substr input 0 43) then
    let rest := drop 43 input in
    let rest := if bool_decide (head rest = Some "="%char) then drop 1 rest else rest in
    Ret (from_base64 (substr input 0 43), rest)
  else Throw (invalid_argument (B "No pubkey found")).

Definition ipv6_chars : bytes := B ":.1234567890abcdefABCDEF".

(** [host.front() = c] and [host.back() = c]. *)
Definition set_front (c : ascii) (s : bytes) : bytes :=
  match s with [] => [] | _ :: s => c :: s end.
Definition set_back (c : ascii) (s : bytes) : bytes := reverse (set_front c (reverse s)).

(** The host part of [parse_tcp]: a bracketed IPv6 address ([$...$] in QR
    mode) or everything up to the first colon. *)
Definition parse_raw_host (addr : bytes) (qr : bool) : outcome (bytes * bytes) :=
  match head addr with
  | None => Undef
  | Some c0 =>
    if bool_decide (c0 = "["%char) || (qr && bool_decide (c0 = "$"%char)) then
      match find_first_not_of ipv6_chars addr 1 with
      | None => Throw (invalid_argument
          (B "Could not find terminating ] while parsing an IPv6 address"))
      | Some pos =>
        match addr !! pos with
        | None => Undef
        | Some c =>
          if negb (bool_decide (c = "]"%char) || (qr && bool_decide (c = "$"%char))) then
            Throw (invalid_argument
              (B "Expected " ++ (if qr then B "$" else B "]") ++
               B " to close IPv6 address but found " ++ [c]))
          else
            let h := substr addr 0 (pos + 1) in
            let h := if qr && bool_decide (head h = Some "$"%char)
                     then set_front "[" h else h in
            let h := if qr && bool_decide (last h = Some "$"%char)
                     then set_back "]" h else h in
            Ret (h, drop (pos + 1) addr)
        end
      end
    else
      match find_char ":" addr with
      | None => Throw (invalid_argument
          (B "Could not determine host (no following ':port' found)"))
      | Some port_pos =>
        if bool_decide (port_pos = 0) then
          Throw (invalid_argument (B "Host cannot be empty"))
        else Ret (substr addr 0 port_pos, drop port_pos addr)
      end
  end.

(** In QR mode the host is lower-cased. *)
Definition parse_host (addr : bytes) (qr : bool) : outcome (bytes * bytes) :=
  '(h, rest) ← parse_raw_host addr qr;
  Ret ((if qr then lower <$> (h : bytes) else h) : bytes, rest).

Definition port_digits : bytes := B "1234567890".

(** The [:port] part of [parse_tcp]. *)
Definition parse_port (addr : bytes) : outcome (Z * bytes) :=
  if (length addr <? 2) || negb (bool_decide (head addr = Some ":"%char)) then
    Throw (invalid_argument (B "Could not find :port in address string"))
  else
    let addr := drop 1 addr in
    let pos := find_first_not_of port_digits addr 0 in
    if bool_decide (pos = Some 0) then
      Throw (invalid_argument (B "Could not find numeric port in address string"))
    else
      let pos := default (length addr) pos in
      '(port_int, processed) ← stoi (substr addr 0 pos);
      if (port_int =? 0)%Z || negb (processed =? pos) then
        Throw (invalid_argument (B "Could not parse numeric port in address string"))
      else if (port_int <? 0)%Z || (UINT16_MAX <? port_int)%Z then
        Throw (invalid_argument (B "Invalid port: port must be in range 1-65535"))
      else Ret ((port_int mod 2 ^ 16)%Z, drop pos addr).

Definition parse_tcp (addr : bytes) (qr expect_pubkey : bool) :
    outcome (bytes * Z * bytes * bytes) :=
  '(h, addr) ← parse_host addr qr;
  '(p, addr) ← parse_port addr;
  if expect_pubkey then
    if (length addr <? 1 + enc_length (if qr then base32z else base64))
       || negb (bool_decide (head addr = Some "/"%char)) then
      Throw (invalid_argument (B "Invalid address: expected /PUBKEY after port"))
    else
      '(pk, addr) ← decode_pubkey (drop 1 addr) qr;
      if negb (bool_decide (addr = [])) then
        Throw (invalid_argument
          (B "Invalid address: found unexpected trailing data after pubkey"))
      else Ret (h, p, pk, addr)
  else if negb (bool_decide (addr = [])) then
    Throw (invalid_argument (B "Invalid address: found unexpected trailing data after port"))
  else Ret (h, p, [], addr).

(** [addr] ends in ['/'] followed by [n] characters that [valid] accepts. *)
Definition has_key (n : nat) (valid : bytes → bool) (addr : bytes) : bool :=
  (n <? length addr) && bool_decide (addr !! (length addr - n - 1) = Some "/"%char)
    && valid (drop (length addr - n) addr).

(** The path and key of [parse_unix]. *)
Definition split_unix (addr : bytes) (expect_pubkey : bool) : outcome (bytes * bytes) :=
  let size := length addr in
  if expect_pubkey then
    let b64_len := if bool_decide (last addr = Some "="%char) then 44 else 43 in
    if has_key 64 is_hex addr then
      Ret (substr addr 0 (size - 65), from_hex (drop (size - 64) addr))
    else if has_key 52 is_base32z addr then
      Ret (substr addr 0 (size - 53), from_base32z (drop (size - 52) addr))
    else if has_key b64_len is_base64 addr then
      Ret (substr addr 0 (size - b64_len - 1), from_base64 (drop (size - b64_len) addr))
    else Throw (invalid_argument
      (B "icp+curve:// requires a trailing /PUBKEY value, got: " ++ addr))
  else Ret (addr, []).

Definition parse_unix (addr : bytes) (expect_pubkey : bool) : outcome (bytes * bytes * bytes) :=
  '(first, second) ← split_unix addr expect_pubkey;
  Ret (first, second, drop (length addr) addr).

(** The characters the QR forms accept. *)
Definition qr_char (c : ascii) : bool :=
  is_upper c || is_digit c || bool_decide (c ∈ B "$:/.-").

Definition parse_protocol (pro : bytes) : outcome (proto * bool) :=
  if bool_decide (pro = B "tcp") then Ret (tcp, false)
  else if bool_decide (pro = B "tcp+curve") || bool_decide (pro = B "curve") then
    Ret (tcp_curve, false)
  else if bool_decide (pro = B "ipc") then Ret (ipc, false)
  else if bool_decide (pro = B "ipc+curve") then Ret (ipc_curve, false)
  else if bool_decide (pro = B "TCP") then Ret (tcp, true)
  else if bool_decide (pro = B "CURVE") then Ret (tcp_curve, true)
  else Throw (invalid_argument (B "Invalid protocol '" ++ pro ++ B "'")).

(** The protocol-dependent rest of the address. *)
Definition parse_body (a : address) (addr : bytes) (qr : bool) : outcome (address * bytes) :=
  if is_tcp a then
    '(h, p, pk, rest) ← parse_tcp addr qr (is_curve a);
    Ret (a <| host := h |> <| port := p |> <| pubkey := pk |>, rest)
  else
    '(s, pk, rest) ← parse_unix addr (is_curve a);
    Ret (a <| socket := s |> <| pubkey := pk |>, rest).

(** [address::address(std::string_view addr)]. *)
Definition parse_address (addr : bytes) : outcome address :=
  match find_str (B "://") addr with
  | None | Some 0 => Throw (invalid_argument (B "Invalid address: no protocol found"))
  | Some protoend =>
    let pro := substr addr 0 protoend in
    let addr := drop (protoend + 3) addr in
    if bool_decide (addr = []) then
      Throw (invalid_argument (B "Invalid address: no value specified after protocol"))
    else
      '(p, qr) ← parse_protocol pro;
      if qr && negb (forallb qr_char addr) then
        Throw (invalid_argument
          (B "Found non-QR-alphanumeric value in QR TCP:// or CURVE:// address"))
      else
        '(a, addr) ← parse_body (address_default <| protocol := p |>) addr qr;
        if negb (bool_decide (addr = [])) then
          Throw (invalid_argument (B "Invalid trailing garbage '" ++ addr ++ B "' in address"))
        else Ret a
  end.

(** [address::set_pubkey]. *)
Definition set_pubkey (a : address) (pk : bytes) : outcome address :=
  if length pk =? 0 then
    Ret (a <| protocol := match protocol a with
                          | tcp_curve => tcp | ipc_curve => ipc | p => p end |>
           <| pubkey := pk |>)
  else if length pk =? 32 then
    Ret (a <| protocol := match protocol a with
                          | tcp => tcp_curve | ipc => ipc_curve | p => p end |>
           <| pubkey := pk |>)
  else Throw (invalid_argument
    (B "Invalid pubkey passed to set_pubkey(): require 0- or 32-byte pubkey")).

(** [address(std::string_view addr, std::string_view pubkey)]. *)
Definition parse_address_pubkey (addr pk : bytes) : outcome address :=
  a ← parse_address addr; set_pubkey a pk.

(** ** Printing *)

Definition encode_pubkey (a : address) (enc : encoding) : bytes :=
  match enc with
  | hex => to_hex (pubkey a)
  | base32z => to_base32z (pubkey a)
  | BASE32Z => upper <$> to_base32z (pubkey a)
  | base64 =>
      let pk := to_base64 (pubkey a) in
      if (length pk =? 44) && bool_decide (last pk = Some "="%char) then take 43 pk else pk
  end.

Definition full_address (a : address) (enc : encoding) : bytes :=
  let pk := if is_curve a then encode_pubkey a enc else [] in
  match protocol a with
  | tcp => B "tcp://" ++ host a ++ B ":" ++ to_string (port a)
  | tcp_curve => B "curve://" ++ host a ++ B ":" ++ to_string (port a) ++ B "/" ++ pk
  | ipc => B "ipc://" ++ socket a
  | ipc_curve => B "ipc+curve://" ++ socket a ++ B "/" ++ pk
  end.

Definition zmq_address (a : address) : bytes :=
  if is_tcp a then B "tcp://" ++ host a ++ B ":" ++ to_string (port a)
  else B "ipc://" ++ socket a.

(** The upper-case host of [qr_address], [$...$] instead of [[...]]. *)
Definition uc_host (h : bytes) : bytes :=
  let h := upper <$> h in
  if bool_decide (head h = Some "["%char) && bool_decide (last h = Some "]"%char)
  then set_back "$" (set_front "$" h) else h.

Definition qr_address (a : address) : outcome bytes :=
  if negb (bool_decide (protocol a = tcp)) && negb (bool_decide (protocol a = tcp_curve)) then
    Throw (logic_error (B "Cannot construct a QR-friendly address for a non-TCP address"))
  else if bool_decide (host a = []) then
    Throw (logic_error (B "Cannot construct a QR-friendly address with an empty TCP host"))
  else
    Ret ((if is_curve a then B "CURVE://" else B "TCP://") ++ uc_host (host a) ++ B ":" ++
         to_string (port a) ++
         (if is_curve a then B "/" ++ encode_pubkey a BASE32Z else [])).

(** [std::hash<address>] hashes this string. *)
Definition hash_key (a : address) : bytes := full_address a hex.
End parse.

(** [operator==]: only the fields the protocol uses are compared. *)
Definition address_eqb (a other : address) : bool :=
  if negb (bool_decide (protocol a = protocol other)) then false
  else if is_tcp a && (negb (bool_decide (host a = host other)) ||
                       negb (port a =? port other)%Z) then false
  else if is_ipc a && negb (bool_decide (socket a = socket other)) then false
  else if is_curve a && negb (bool_decide (pubkey a = pubkey other)) then false
  else true.

(** The static factory functions. *)
Definition address_tcp (h : bytes) (p : Z) : address :=
  address_default <| protocol := tcp |> <| host := h |> <| port := p |>.
Definition address_tcp_curve (h : bytes) (p : Z) (pk : bytes) : address :=
  address_default <| protocol := tcp_curve |> <| host := h |> <| port := p |> <| pubkey := pk |>.
Definition address_ipc (path : bytes) : address :=
  address_default <| protocol := ipc |> <| socket := path |>.
Definition address_ipc_curve (path pk : bytes) : address :=
  address_default <| protocol := ipc_curve |> <| socket := path |> <| pubkey := pk |>.

(** * Well-formed addresses *)

(** A host the parser reads back: [[...]] around IPv6 characters, or a
    non-empty name without a colon. *)
Definition valid_host (h : bytes) : bool :=
  if bool_decide (head h = Some "["%char) then
    (2 <=? length h) && bool_decide (last h = Some "]"%char) &&
    forallb (λ c, bool_decide (c ∈ ipv6_chars)) (take (length h - 2) (drop 1 h))
  else negb (bool_decide (h = [])) && negb (bool_decide (":"%char ∈ h)).

Definition valid_port (p : Z) : bool := (1 <=? p)%Z && (p <=? UINT16_MAX)%Z.

Definition wf_address (a : address) : bool :=
  match protocol a with
  | tcp => valid_host (host a) && valid_port (port a)
  | tcp_curve => valid_host (host a) && valid_port (port a) && (length (pubkey a) =? 32)
  | ipc => negb (bool_decide (socket a = []))
  | ipc_curve => length (pubkey a) =? 32
  end.

(** A host [qr_address] can express: lower case, and made of characters that
    have a QR form. *)
Definition qr_host (h : bytes) : bool :=
  valid_host h && forallb (λ c, negb (is_upper c)) h &&
  (bool_decide (head h = Some "["%char) ||
   forallb (λ c, qr_char (upper c)) h && negb (bool_decide (head h = Some "$"%char))).

(** The address with the fields its protocol does not use cleared. *)
Definition canonical (a : address) : address :=
  match protocol a with
  | tcp => address_tcp (host a) (port a)
  | tcp_curve => address_tcp_curve (host a) (port a) (pubkey a)
  | ipc => address_ipc (socket a)
  | ipc_curve => address_ipc_curve (socket a) (pubkey a)
  end.

(** Addresses are compared up to the fields their protocol does not use. *)
#[export] Instance address_equiv : Equiv address := λ a b, canonical a = canonical b.
#[export] Instance address_equivalence : Equivalence (≡@{address}).
Proof. split; [done|by intros ???|]. intros a b c; unfold equiv, address_equiv; congruence. Qed.

#[export] Instance full_address_proper {O : Oxenc} : Proper ((≡) ==> (=) ==> (=)) full_address.
Proof.
  intros [p ????] [q ????] H e ? <-. unfold equiv, address_equiv in H.
  destruct p, q; cbv [canonical protocol] in H; injection H; intros; subst; done.
Qed.

(** ** Hosts *)

Lemma valid_host_cases h :
  valid_host h = true →
  (∃ mid, h = "["%char :: mid ++ ["]"%char] ∧ Forall (λ c, bool_decide (c ∈ ipv6_chars) = true) mid) ∨
  (∃ c t, h = c :: t ∧ c ≠ "["%char ∧ ":"%char ∉ h).
Proof.
  unfold valid_host. case_bool_decide as Hh; intros H; bool_cases.
  - left. destruct h as [|c t]; [done|]. injection Hh as ->. cbn [length] in *.
    destruct t as [|d t _] using rev_ind; [cbn in *; lia|].
    match goal with H : last _ = _ |- _ => rewrite last_cons, last_snoc in H end.
    simplify_eq. exists t. split; [done|].
    match goal with H : forallb _ _ = true |- _ => revert H end.
    cbn [drop length]. rewrite length_app. cbn [length].
    rewrite drop_0, take_app_length' by lia. apply Standard.forallb_char.
  - right. destruct h as [|c t]; [done|]. exists c, t. naive_solver.
Qed.

Lemma valid_host_bracketed mid :
  Forall (λ c, bool_decide (c ∈ ipv6_chars) = true) mid →
  valid_host ("["%char :: mid ++ ["]"%char]) = true.
Proof.
  intros H. unfold valid_host. cbn [head drop length]. rewrite bool_decide_true by done.
  rewrite last_cons, last_snoc, bool_decide_true by done. rewrite length_app. cbn [length].
  rewrite drop_0, take_app_length' by lia. rewrite (proj2 (Standard.forallb_char _ _) H).
  by rewrite (proj2 (Nat.leb_le _ _)) by lia.
Qed.

Lemma valid_host_plain c t :
  c ≠ "["%char → ":"%char ∉ c :: t → valid_host (c :: t) = true.
Proof.
  intros Hc Ht. unfold valid_host. rewrite bool_decide_false by (intros [= ?]; done).
  by rewrite !bool_decide_false by done.
Qed.

Lemma valid_host_nonempty h : valid_host h = true → h ≠ [].
Proof. intros [(? & -> & _)|(? & ? & -> & _)]%valid_host_cases; done. Qed.

Lemma ipv6_colon_or_not c :
  bool_decide (c ∈ ipv6_chars) = true → c ≠ "]"%char ∧ c ≠ "$"%char.
Proof. intros H. split; intros ->; by vm_compute in H. Qed.

Lemma parse_host_print h rest :
  valid_host h = true → parse_host (h ++ ":"%char :: rest) false = Ret (h, ":"%char :: rest).
Proof.
  intros [(mid & -> & Hmid)|(c & t & -> & Hc & Ht)]%valid_host_cases.
  - replace (("["%char :: mid ++ ["]"%char]) ++ ":"%char :: rest)
      with (("["%char :: mid) ++ "]"%char :: ":"%char :: rest) by (cbn; by rewrite <-app_assoc).
    unfold parse_host, parse_raw_host. cbn [app head]. rewrite bool_decide_true by done. cbn [orb].
    unfold find_first_not_of. cbn [drop]. rewrite drop_0, find_not_app by done.
    cbn [fmap option_fmap option_map Nat.add].
    pose proof (list_lookup_middle ("["%char :: mid) (":"%char :: rest) "]"%char _ eq_refl) as E.
    cbn [app length] in E. rewrite E.
    rewrite bool_decide_true by done. cbn [orb negb andb]. unfold substr.
    rewrite Nat.add_1_r. cbn [take drop]. by rewrite take_app_cons, drop_app_cons.
  - unfold parse_host, parse_raw_host. cbn [app head]. rewrite bool_decide_false by done. cbn [orb andb].
    change (c :: t ++ ":"%char :: rest) with ((c :: t) ++ ":"%char :: rest).
    rewrite find_char_app by done. rewrite bool_decide_false by (cbn; lia).
    unfold substr. rewrite drop_0, take_app_length, drop_app_length. done.
Qed.

(** ** Ports *)

Lemma port_digit_is_digit c : bool_decide (c ∈ port_digits) = is_digit c.
Proof.
  apply eqb_prop. revert c.
  exact (char_check (λ c, Bool.eqb (bool_decide (c ∈ port_digits)) (is_digit c)) eq_refl).
Qed.

Lemma port_digits_Forall s :
  Forall (λ c, is_digit c = true) s →
  Forall (λ c, bool_decide (c ∈ port_digits) = true) s.
Proof. intros H. eapply Forall_impl; [exact H|]. intros c. by rewrite port_digit_is_digit. Qed.

(** No digit follows: the port ends here. *)
Definition ends_number (rest : bytes) : bool :=
  match rest with [] => true | c :: _ => negb (is_digit c) end.

Lemma find_digits s rest :
  Forall (λ c, is_digit c = true) s → ends_number rest = true →
  default (length (s ++ rest)) (find_first_not_of port_digits (s ++ rest) 0) = length s.
Proof.
  intros Hs Hr. unfold find_first_not_of. rewrite drop_0.
  destruct rest as [|c rest]; cbn [ends_number] in Hr.
  - rewrite app_nil_r, find_not_None by by apply port_digits_Forall. done.
  - rewrite find_not_app; [done|by apply port_digits_Forall|].
    rewrite port_digit_is_digit. by bool_cases.
Qed.

Lemma find_digits_pos s rest :
  Forall (λ c, is_digit c = true) s → s ≠ [] →
  find_first_not_of port_digits (s ++ rest) 0 ≠ Some 0.
Proof.
  intros Hs Hn. destruct Hs as [|c s Hc Hs]; [done|]. unfold find_first_not_of. rewrite drop_0.
  cbn [app find_not]. rewrite port_digit_is_digit, Hc.
  by destruct (find_not _ _).
Qed.

(** A run of digits after the colon goes to [stoi] as a whole. *)
Lemma parse_port_stoi s rest :
  Forall (λ c, is_digit c = true) s → s ≠ [] → ends_number rest = true →
  parse_port (":"%char :: s ++ rest) =
    ('(port_int, processed) ← stoi s;
     if (port_int =? 0)%Z || negb (processed =? length s) then
       Throw (invalid_argument (B "Could not parse numeric port in address string"))
     else if (port_int <? 0)%Z || (UINT16_MAX <? port_int)%Z then
       Throw (invalid_argument (B "Invalid port: port must be in range 1-65535"))
     else Ret ((port_int mod 2 ^ 16)%Z, rest)).
Proof.
  intros Hs Hn Hr. unfold parse_port.
  assert ((length (":"%char :: s ++ rest) <? 2) = false) as ->.
  { apply Nat.ltb_ge. destruct s; [done|]. cbn. lia. }
  cbn [head]. rewrite bool_decide_true by done. cbn [orb negb drop]. rewrite drop_0.
  rewrite bool_decide_false by by apply find_digits_pos.
  rewrite find_digits by done. unfold substr. rewrite drop_0, take_app_length, drop_app_length.
  done.
Qed.

Lemma parse_port_print p rest :
  valid_port p = true → ends_number rest = true →
  parse_port (":"%char :: to_string p ++ rest) = Ret (p, rest).
Proof.
  unfold valid_port, UINT16_MAX. intros Hp Hr. bool_cases.
  destruct (to_string_spec p) as (_ & Hd & Hn); [lia|].
  rewrite parse_port_stoi, stoi_to_string by (done || unfold INT_MAX; lia).
  cbn [mbind outcome_bind]. rewrite Nat.eqb_refl, orb_false_r.
  rewrite (proj2 (Z.eqb_neq p 0)), (proj2 (Z.ltb_ge p 0)) by lia.
  unfold UINT16_MAX. rewrite (proj2 (Z.ltb_ge _ _)) by lia. cbn [orb].
  by rewrite Z.mod_small by lia.
Qed.

(** ** Public keys *)
Section keys.
Context {O : Oxenc} {L : OxencLaws O}.

(** The text of a 32-byte key in each encoding. *)
Lemma encode_pubkey_base64 a :
  length (pubkey a) = 32 →
  to_base64 (pubkey a) = encode_pubkey a base64 ++ ["="%char] ∧
  length (encode_pubkey a base64) = 43 ∧
  Forall (λ c, b64_char c = true) (encode_pubkey a base64).
Proof.
  intros Hlen. destruct (to_base64_padded (pubkey a)) as (body & Heq & Hb & Hc).
  rewrite Hlen in *. change (b64_pad 32) with 1 in Heq. change ((8 * 32 + 5) / 6) with 43 in Hb.
  unfold encode_pubkey. rewrite Heq. cbn [replicate].
  rewrite length_app, Hb, last_snoc, bool_decide_true by done. cbn [length Nat.add Nat.eqb andb].
  rewrite take_app_length' by done. done.
Qed.

Lemma encode_pubkey_length a enc :
  length (pubkey a) = 32 → length (encode_pubkey a enc) = enc_length enc.
Proof.
  intros Hlen. destruct enc; [..|cbn [encode_pubkey]].
  - cbn [encode_pubkey]. by rewrite to_hex_length, Hlen.
  - cbn [encode_pubkey]. by rewrite to_base32z_length, Hlen.
  - by destruct (encode_pubkey_base64 a Hlen) as (_ & ? & _).
  - by rewrite length_fmap, to_base32z_length, Hlen.
Qed.

Lemma decode_pubkey_print a enc :
  length (pubkey a) = 32 →
  decode_pubkey (encode_pubkey a enc) false = Ret (pubkey a, []).
Proof.
  intros Hlen. pose proof (encode_pubkey_length a enc Hlen) as Hk.
  unfold decode_pubkey, substr. rewrite !drop_0, Hk.
  destruct enc; cbn [enc_length bool_decide decide_rel].
  - change (enc_length hex) with 64 in *. rewrite firstn_all2, drop_ge by (rewrite Hk; lia).
    cbn [encode_pubkey]. by rewrite is_hex_to_hex, from_to_hex.
  - change (enc_length base32z) with 52 in *. change (64 <=? 52) with false. cbn [andb].
    rewrite firstn_all2, drop_ge by (rewrite Hk; lia).
    cbn [encode_pubkey]. by rewrite is_base32z_to_base32z, from_to_base32z.
  - change (enc_length base64) with 43 in *.
    destruct (encode_pubkey_base64 a Hlen) as (Heq & _ & Hc).
    destruct (base64_unpadded _ _ 1 Heq Hc) as [Hv Hd].
    change (64 <=? 43) with false. change (52 <=? 43) with false. cbn [andb].
    rewrite firstn_all2, drop_ge by (rewrite Hk; lia). by rewrite Hv, Hd.
  - change (enc_length BASE32Z) with 52 in *. change (64 <=? 52) with false. cbn [andb].
    rewrite firstn_all2, drop_ge by (rewrite Hk; lia).
    cbn [encode_pubkey].
    by rewrite is_base32z_upper, from_base32z_upper, is_base32z_to_base32z, from_to_base32z.
Qed.

(** Key tails of unix socket addresses. *)
Lemma has_key_exact n valid path key :
  length key = n → has_key n valid (path ++ "/"%char :: key) = valid key.
Proof.
  intros Hn. unfold has_key. rewrite length_app. cbn [length]. rewrite Hn.
  rewrite (proj2 (Nat.ltb_lt _ _)) by lia.
  rewrite list_lookup_middle by lia. rewrite bool_decide_true by done. cbn [andb].
  replace (length path + S n - n) with (S (length path)) by lia. by rewrite drop_app_cons.
Qed.

Lemma has_key_longer n valid path key :
  length key < n → (∀ s, valid s = true → "/"%char ∉ s) →
  has_key n valid (path ++ "/"%char :: key) = false.
Proof.
  intros Hn Hv. apply not_true_is_false. unfold has_key. intros H. bool_cases.
  match goal with H : valid _ = true |- _ => apply Hv in H; apply H end.
  rewrite length_app in *. cbn [length] in *.
  rewrite drop_app_le by lia. set_solver.
Qed.

Lemma is_hex_no_slash s : is_hex s = true → "/"%char ∉ s.
Proof.
  intros H%is_hex_chars Hin. rewrite Forall_forall in H. specialize (H _ Hin). by vm_compute in H.
Qed.

Lemma is_base32z_no_slash s : is_base32z s = true → "/"%char ∉ s.
Proof.
  intros H%is_base32z_chars Hin. rewrite Forall_forall in H. specialize (H _ Hin).
  by vm_compute in H.
Qed.

(** Which of the three forms a tail of [n] characters is read as. *)
Lemma split_unix_tail path key :
  (length key = 64 → is_hex key = true →
    split_unix (path ++ "/"%char :: key) true = Ret (path, from_hex key)) ∧
  (length key = 52 → is_base32z key = true →
    split_unix (path ++ "/"%char :: key) true = Ret (path, from_base32z key)) ∧
  (length key = (if bool_decide (last key = Some "="%char) then 44 else 43) →
    is_base64 key = true →
    split_unix (path ++ "/"%char :: key) true = Ret (path, from_base64 key)).
Proof.
  assert (∀ n, length key = n →
    substr (path ++ "/"%char :: key) 0 (length (path ++ "/"%char :: key) - n - 1) = path ∧
    drop (length (path ++ "/"%char :: key) - n) (path ++ "/"%char :: key) = key) as Hsplit.
  { intros n Hn. rewrite length_app. cbn [length]. unfold substr. rewrite drop_0.
    rewrite take_app_length' by lia. split; [done|].
    replace (length path + S (length key) - n) with (S (length path)) by lia.
    by rewrite drop_app_cons. }
  unfold split_unix. repeat split; intros Hk Hv; destruct (Hsplit _ Hk) as [Hp Hd].
  - rewrite has_key_exact by done. rewrite Hv.
    replace (_ - 65) with (length (path ++ "/"%char :: key) - 64 - 1) by lia. by rewrite Hp, Hd.
  - rewrite has_key_longer by (lia || apply is_hex_no_slash).
    rewrite has_key_exact by done. rewrite Hv.
    replace (_ - 53) with (length (path ++ "/"%char :: key) - 52 - 1) by lia. by rewrite Hp, Hd.
  - assert (length key < 52 ∧ key ≠ []) as [Hlt Hne].
    { split; [|intros ->; by simpl in Hk]. case_bool_decide; lia. }
    assert (last (path ++ "/"%char :: key) = last key) as Hlast.
    { rewrite last_app, last_cons. destruct (last key) eqn:E; [done|].
      by apply last_None in E. }
    rewrite has_key_longer by (lia || apply is_hex_no_slash).
    rewrite has_key_longer by (lia || apply is_base32z_no_slash).
    rewrite Hlast, has_key_exact by done. by rewrite Hv, Hp, Hd.
Qed.

Lemma encode64_no_pad a :
  length (pubkey a) = 32 → last (encode_pubkey a base64) ≠ Some "="%char.
Proof.
  intros Hlen Hl. destruct (encode_pubkey_base64 a Hlen) as (_ & _ & Hc).
  apply last_Some_elem_of in Hl. rewrite Forall_forall in Hc. specialize (Hc _ Hl).
  by vm_compute in Hc.
Qed.

Lemma split_unix_print a path enc :
  length (pubkey a) = 32 →
  split_unix (path ++ "/"%char :: encode_pubkey a enc) true = Ret (path, pubkey a).
Proof.
  intros Hlen. pose proof (encode_pubkey_length a enc Hlen) as Hk.
  destruct (split_unix_tail path (encode_pubkey a enc)) as (Hhex & H32 & H64).
  destruct enc.
  - rewrite Hhex; cbn [encode_pubkey]; [by rewrite from_to_hex|done|apply is_hex_to_hex].
  - rewrite H32; cbn [encode_pubkey]; [by rewrite from_to_base32z|done|apply is_base32z_to_base32z].
  - destruct (encode_pubkey_base64 a Hlen) as (Heq & _ & Hc).
    destruct (base64_unpadded _ _ 1 Heq Hc) as [Hv Hd].
    rewrite H64, Hd; [done| |done].
    rewrite bool_decide_false by by apply encode64_no_pad. done.
  - rewrite H32; cbn [encode_pubkey].
    + by rewrite from_base32z_upper, from_to_base32z.
    + done.
    + by rewrite is_base32z_upper, is_base32z_to_base32z.
Qed.
End keys.

(** * Properties *)
Section properties.
Context {O : Oxenc} {L : OxencLaws O}.

(** What the constructor does once the protocol prefix is split off. *)
Lemma parse_address_prefix pro rest :
  ":"%char ∉ pro → pro ≠ [] → rest ≠ [] →
  parse_address (pro ++ B "://" ++ rest) =
    ('(p, qr) ← parse_protocol pro;
     if qr && negb (forallb qr_char rest) then
       Throw (invalid_argument
         (B "Found non-QR-alphanumeric value in QR TCP:// or CURVE:// address"))
     else
       '(a, addr) ← parse_body (address_default <| protocol := p |>) rest qr;
       if negb (bool_decide (addr = [])) then
         Throw (invalid_argument (B "Invalid trailing garbage '" ++ addr ++ B "' in address"))
       else Ret a).
Proof.
  intros Hpro Hne Hrest. unfold parse_address.
  change (B "://") with (":"%char :: B "//"). cbn [app].
  rewrite find_str_app by done.
  destruct (length pro) as [|n] eqn:Hn; [by destruct pro|]. rewrite <-Hn. unfold substr.
  rewrite drop_0, take_app_length.
  replace (drop (length pro + 3) (pro ++ ":"%char :: B "//" ++ rest)) with rest.
  2:{ change (":"%char :: B "//" ++ rest) with (B "://" ++ rest). rewrite app_assoc.
      by rewrite drop_app_length' by (rewrite length_app; cbn; lia). }
  by rewrite bool_decide_false.
Qed.

Lemma parse_tcp_print h p :
  valid_host h = true → valid_port p = true →
  parse_tcp (h ++ B ":" ++ to_string p) false false = Ret (h, p, [], []).
Proof.
  intros Hh Hp. unfold parse_tcp. change (B ":") with [":"%char]. cbn [app].
  rewrite parse_host_print by done. cbn [mbind outcome_bind].
  rewrite <-(app_nil_r (to_string p)) at 1. by rewrite parse_port_print.
Qed.

Lemma parse_tcp_print_key a enc :
  valid_host (host a) = true → valid_port (port a) = true → length (pubkey a) = 32 →
  parse_tcp (host a ++ B ":" ++ to_string (port a) ++ B "/" ++ encode_pubkey a enc) false true =
    Ret (host a, port a, pubkey a, []).
Proof.
  intros Hh Hp Hk. unfold parse_tcp. change (B ":") with [":"%char].
  change (B "/") with ["/"%char]. cbn [app].
  rewrite parse_host_print by done. cbn [mbind outcome_bind].
  rewrite parse_port_print by done. cbn [mbind outcome_bind].
  assert ((length ("/"%char :: encode_pubkey a enc) <? 1 + enc_length base64) = false) as ->.
  { cbn [length]. rewrite encode_pubkey_length by done. apply Nat.ltb_ge. by destruct enc; vm_compute; lia. }
  cbn [head]. rewrite bool_decide_true by done. cbn [orb negb drop]. rewrite drop_0.
  by rewrite decode_pubkey_print.
Qed.

Lemma parse_address_tcp pro (curve qr : bool) rest h p pk :
  parse_protocol pro = Ret (if curve then tcp_curve else tcp, qr) →
  ":"%char ∉ pro → pro ≠ [] → rest ≠ [] → implb qr (forallb qr_char rest) = true →
  parse_tcp rest qr curve = Ret (h, p, pk, []) →
  parse_address (pro ++ B "://" ++ rest) =
    Ret (mk_address (if curve then tcp_curve else tcp) h p [] pk).
Proof.
  intros Hpro Hc Hne Hrest Hqr Htcp. rewrite parse_address_prefix, Hpro by done.
  cbn [mbind outcome_bind].
  replace (qr && negb (forallb qr_char rest)) with false
    by (destruct qr; cbn in Hqr |- *; [by rewrite Hqr|done]).
  unfold parse_body. destruct curve; cbn [is_tcp is_curve];
    [change (is_curve _) with true | change (is_curve _) with false];
    change (is_tcp _) with true; cbv iota; rewrite Htcp; done.
Qed.

Lemma parse_address_unix pro (curve : bool) rest path pk :
  parse_protocol pro = Ret (if curve then ipc_curve else ipc, false) →
  ":"%char ∉ pro → pro ≠ [] → rest ≠ [] →
  split_unix rest curve = Ret (path, pk) →
  parse_address (pro ++ B "://" ++ rest) =
    Ret (mk_address (if curve then ipc_curve else ipc) [] 0 path pk).
Proof.
  intros Hpro Hc Hne Hrest Hsplit. rewrite parse_address_prefix, Hpro by done.
  cbn [mbind outcome_bind andb]. unfold parse_body, parse_unix. rewrite drop_all.
  destruct curve; [change (is_curve _) with true | change (is_curve _) with false];
    change (is_tcp _) with false; cbv iota; rewrite Hsplit; done.
Qed.

(** The constructor reads back what [full_address] printed, in every key
    encoding. *)
Lemma parse_full_address a enc :
  wf_address a = true → parse_address (full_address a enc) = Ret (canonical a).
Proof.
  intros Hwf. destruct a as [[] h p s k]; unfold wf_address in Hwf;
    cbn [protocol host port socket pubkey] in Hwf; bool_cases;
    unfold full_address; cbn [protocol host port socket pubkey].
  - apply (parse_address_tcp (B "tcp") false false);
      [done|by apply (bool_decide_unpack _)|done|by destruct h|done|by apply parse_tcp_print].
  - apply (parse_address_tcp (B "curve") true false);
      [done|by apply (bool_decide_unpack _)|done|by destruct h|done|].
    by apply (parse_tcp_print_key (mk_address tcp_curve h p s k)).
  - apply (parse_address_unix (B "ipc") false);
      [done|by apply (bool_decide_unpack _)|done|done|done].
  - apply (parse_address_unix (B "ipc+curve") true);
      [done|by apply (bool_decide_unpack _)|done|by destruct s|].
    by apply (split_unix_print (mk_address ipc_curve h p s k)).
Qed.

(** ** What the parser accepts *)

Lemma lower_ipv6 c :
  bool_decide (c ∈ ipv6_chars) = true → bool_decide (lower c ∈ ipv6_chars) = true.
Proof.
  revert c. exact (char_impl (λ c, bool_decide (c ∈ ipv6_chars))
    (λ c, bool_decide (lower c ∈ ipv6_chars)) eq_refl).
Qed.

Lemma lower_host_char c :
  (c ≠ ":"%char → lower c ≠ ":"%char) ∧ (c ≠ "["%char → lower c ≠ "["%char).
Proof.
  pose proof (char_impl (λ c, negb (bool_decide (c = ":"%char)))
    (λ c, negb (bool_decide (lower c = ":"%char))) eq_refl c) as H1.
  pose proof (char_impl (λ c, negb (bool_decide (c = "["%char)))
    (λ c, negb (bool_decide (lower c = "["%char))) eq_refl c) as H2.
  cbn in H1, H2. rewrite !negb_true_iff, !bool_decide_eq_false in H1, H2. done.
Qed.

Lemma valid_host_lower h : valid_host h = true → valid_host (lower <$> h) = true.
Proof.
  intros [(mid & -> & Hmid)|(c & t & -> & Hc & Ht)]%valid_host_cases.
  - cbn [fmap list_fmap]. rewrite fmap_app. cbn [fmap list_fmap].
    apply valid_host_bracketed, Forall_fmap. eapply Forall_impl; [exact Hmid|].
    intros d. apply lower_ipv6.
  - cbn [fmap list_fmap]. apply valid_host_plain; [by apply lower_host_char|].
    intros Hin. change (lower c :: (lower <$> t)) with (lower <$> (c :: t)) in Hin.
    apply list_elem_of_fmap in Hin as (d & Hd & Hin).
    assert (d ≠ ":"%char) as Hne by (intros ->; done).
    by apply lower_host_char in Hne.
Qed.

(** The bracketed host: brackets around what [find_first_not_of] skipped. *)
Lemma bracketed_host qr c0 t pos c :
  (c0 = "["%char ∨ qr = true ∧ c0 = "$"%char) → (c = "]"%char ∨ qr = true ∧ c = "$"%char) →
  find_first_not_of ipv6_chars (c0 :: t) 1 = Some pos → (c0 :: t) !! pos = Some c →
  let h := substr (c0 :: t) 0 (pos + 1) in
  let h := if qr && bool_decide (head h = Some "$"%char) then set_front "[" h else h in
  let h := if qr && bool_decide (last h = Some "$"%char) then set_back "]" h else h in
  valid_host h = true.
Proof.
  intros Hc0 Hc Hfind Hpos. unfold find_first_not_of in Hfind.
  apply fmap_Some in Hfind as (n & Hn & ->). cbn [drop] in Hn. rewrite drop_0 in Hn.
  apply find_not_Some in Hn as [_ Hmid]. cbn [Nat.add lookup list_lookup] in Hpos.
  unfold substr. rewrite drop_0, Nat.add_1_r. cbn [take Nat.add].
  rewrite (take_S_r _ _ c) by done. set (mid := take n t) in *. clearbody mid. cbn zeta.
  assert (∀ d, last (d :: mid ++ [c]) = Some c) as Hlast
    by (intros d; by rewrite last_cons, last_snoc).
  assert (∀ d e, set_back e (d :: mid ++ [c]) = d :: mid ++ [e]) as Hback.
  { intros d e. unfold set_back. change (d :: mid ++ [c]) with ((d :: mid) ++ [c]).
    rewrite reverse_snoc. cbn [set_front]. by rewrite reverse_cons, reverse_involutive. }
  replace (if qr && bool_decide (head (c0 :: mid ++ [c]) = Some "$"%char)
           then set_front "[" (c0 :: mid ++ [c]) else c0 :: mid ++ [c])
    with ("["%char :: mid ++ [c]) by (destruct Hc0 as [->|[-> ->]]; [by destruct qr|done]).
  replace (if qr && bool_decide (last ("["%char :: mid ++ [c]) = Some "$"%char)
           then set_back "]" ("["%char :: mid ++ [c]) else "["%char :: mid ++ [c])
    with ("["%char :: mid ++ ["]"%char]); [by apply valid_host_bracketed|].
  rewrite Hlast, Hback. destruct Hc as [->|[-> ->]]; [by destruct qr|done].
Qed.

Lemma parse_host_valid addr qr h rest :
  parse_host addr qr = Ret (h, rest) → valid_host h = true.
Proof.
  unfold parse_host. intros H. inv_bind H. destruct a as [h0 rest0]. injection H as <- <-.
  enough (valid_host h0 = true) by (destruct qr; [by apply valid_host_lower|done]).
  unfold parse_raw_host in E. destruct addr as [|c0 t]; [done|]. cbn [head] in E.
  destruct (_ || _) eqn:Hc0 in E.
  - destruct (find_first_not_of _ _ _) as [pos|] eqn:Hfind; [|done].
    destruct ((c0 :: t) !! pos) as [c|] eqn:Hpos; [|done].
    destruct (negb _) eqn:Hc in E; [done|]. injection E as <- _.
    apply (bracketed_host qr c0 t pos c); [| |done|done]; bool_cases.
    + apply orb_true_iff in Hc0 as [?|?]; bool_cases; auto.
    + apply orb_true_iff in Hc as [?|?]; bool_cases; auto.
  - bool_cases. destruct (find_char ":" (c0 :: t)) as [p|] eqn:Hfind; [|done].
    case_bool_decide; [done|]. injection E as <- _.
    apply find_char_Some in Hfind as (_ & _ & Hno). unfold substr. rewrite drop_0.
    destruct p as [|p]; [done|]. cbn [take] in *. by apply valid_host_plain.
Qed.

Lemma parse_port_valid addr p rest :
  parse_port addr = Ret (p, rest) → valid_port p = true.
Proof.
  unfold parse_port. intros H'. destruct (_ || _) eqn:H0 in H'; [done|].
  destruct (bool_decide (find_first_not_of _ _ _ = _)) in H'; [done|].
  inv_bind H'. destruct a as [v n]. destruct (_ || _) eqn:H1 in H'; [done|].
  destruct (_ || _) eqn:H2 in H'; [done|]. injection H' as <- _. bool_cases.
  unfold valid_port, UINT16_MAX in *. rewrite Z.mod_small by lia. lia.
Qed.

Lemma decode_pubkey_length input qr pk rest :
  decode_pubkey input qr = Ret (pk, rest) → length pk = 32.
Proof.
  assert (∀ n, n <= length input → length (take n input) = n) as Hlen
    by (intros; rewrite length_take; lia).
  unfold decode_pubkey, substr. rewrite drop_0. intros H.
  destruct (_ && _) eqn:Hhex in H; [bool_cases; injection H as <- _;
    rewrite from_hex_length, Hlen by done; done|].
  destruct (_ && _) eqn:H32 in H; [bool_cases; injection H as <- _;
    rewrite from_base32z_length, Hlen by done; done|].
  destruct (_ && _) eqn:H64 in H; [|done]. bool_cases. injection H as <- _.
  rewrite from_base64_length, Hlen; [done..|].
  apply is_base64_chars; [done|]. by rewrite Hlen.
Qed.

Lemma parse_tcp_valid addr qr curve h p pk rest :
  parse_tcp addr qr curve = Ret (h, p, pk, rest) →
  valid_host h = true ∧ valid_port p = true ∧ rest = [] ∧
  (if curve then length pk = 32 else pk = []).
Proof.
  unfold parse_tcp. intros H. inv_bind H. destruct a as [h0 r0]. inv_bind H.
  destruct a as [p0 r1]. apply parse_host_valid in E. apply parse_port_valid in E0.
  destruct curve.
  - case_match; [done|]. inv_bind H. destruct a as [pk0 r2]. apply decode_pubkey_length in E1.
    destruct (negb _) eqn:Hr in H; [done|]. bool_cases. by injection H as <- <- <- <-.
  - destruct (negb _) eqn:Hr in H; [done|]. bool_cases. by injection H as <- <- <- <-.
Qed.

(** The key was given as 44 characters of base64 that end in ['=']. *)
Definition padded_key (s : bytes) (a : address) : Prop :=
  ∃ tail, tail `suffix_of` s ∧ length tail = 44 ∧ last tail = Some "="%char ∧ is_base64 tail = true ∧
    pubkey a = from_base64 tail.

Lemma split_unix_key addr path pk :
  split_unix addr true = Ret (path, pk) →
  length pk = 32 ∨ ∃ tail, tail `suffix_of` addr ∧ length tail = 44 ∧ last tail = Some "="%char ∧
    is_base64 tail = true ∧ pk = from_base64 tail.
Proof.
  assert (∀ n valid, has_key n valid addr = true →
    valid (drop (length addr - n) addr) = true ∧ length (drop (length addr - n) addr) = n) as Hk.
  { intros n valid. unfold has_key. rewrite !andb_true_iff, Nat.ltb_lt. intros [[Hlt _] Hv].
    split; [done|]. rewrite length_drop. lia. }
  unfold split_unix. destruct (has_key 64 _ _) eqn:H1.
  { apply Hk in H1 as [Hv Hl]. intros [= _ <-]. left. by rewrite from_hex_length, Hl. }
  destruct (has_key 52 _ _) eqn:H2.
  { apply Hk in H2 as [Hv Hl]. intros [= _ <-]. left. by rewrite from_base32z_length, Hl. }
  case_bool_decide as He; destruct (has_key _ is_base64 _) eqn:H3; try done; apply Hk in H3 as [Hv Hl]; intros [= _ <-].
  - right. exists (drop (length addr - 44) addr). split_and!; try done.
    + eexists. symmetry. apply take_drop.
    + rewrite <- (take_drop (length addr - 44) addr) in He at 1. rewrite last_app in He.
      destruct (last (drop _ _)) eqn:Hd; [done|]. apply last_None in Hd. by rewrite Hd in Hl.
  - left. rewrite from_base64_length, Hl; [done|done|]. apply is_base64_chars; [done|]. by rewrite Hl.
Qed.

(** Every accepted address is in canonical form and well formed, up to the
    length of an [ipc+curve] key given in padded base64. *)
Lemma parse_address_valid s a :
  parse_address s = Ret a →
  canonical a = a ∧ (wf_address a = true ∨ protocol a = ipc_curve ∧ padded_key s a).
Proof.
  unfold parse_address. destruct (find_str _ _) as [[|n]|]; [done| |done].
  case_bool_decide as Hrest; [done|]. intros H. inv_bind H. destruct a0 as [p qr].
  destruct (qr && _); [done|]. inv_bind H. destruct a0 as [a0 r].
  destruct (negb _) in H; [done|]. injection H as ->. unfold parse_body in E0.
  destruct p;
    [change (is_tcp _) with true in E0|change (is_tcp _) with true in E0|
     change (is_tcp _) with false in E0|change (is_tcp _) with false in E0];
    [change (is_curve _) with false in E0|change (is_curve _) with true in E0|
     change (is_curve _) with false in E0|change (is_curve _) with true in E0]; cbv iota in E0;
    inv_bind E0; [destruct a0 as [[[h p] pk] r0]|destruct a0 as [[[h p] pk] r0]|
                  destruct a0 as [[s0 pk] r0]|destruct a0 as [[s0 pk] r0]].
  - apply parse_tcp_valid in E1 as (Hh & Hp & _ & ->). injection E0 as <- _.
    split; [done|]. left. unfold wf_address. cbn. by rewrite Hh, Hp.
  - apply parse_tcp_valid in E1 as (Hh & Hp & _ & Hk). injection E0 as <- _.
    split; [done|]. left. unfold wf_address. cbn -[Nat.eqb]. by rewrite Hh, Hp, Hk.
  - unfold parse_unix in E1. cbn in E1. injection E1 as <- <- _. injection E0 as <- _.
    split; [done|]. left. unfold wf_address. cbn. by rewrite bool_decide_false.
  - unfold parse_unix in E1. inv_bind E1. destruct a0 as [path k]. injection E1 as <- <- _. injection E0 as <- _.
    split; [done|]. apply split_unix_key in E2 as [Hk|(tail & Hsuf & Hl & Hlast & Hv & ->)].
    + left. unfold wf_address. cbn [protocol pubkey modify]. by apply Nat.eqb_eq.
    + right. split; [done|]. exists tail. split_and!; try done. etrans; [exact Hsuf|].
      eexists. symmetry. apply take_drop.
Qed.

(** ** QR addresses *)

Lemma upper_ipv6 c :
  bool_decide (c ∈ ipv6_chars) = true →
  bool_decide (upper c ∈ ipv6_chars) = true ∧ qr_char (upper c) = true.
Proof.
  intros H. apply andb_true_iff. revert c H. exact (char_impl (λ c, bool_decide (c ∈ ipv6_chars))
    (λ c, bool_decide (upper c ∈ ipv6_chars) && qr_char (upper c)) eq_refl).
Qed.

Lemma upper_host_char c :
  (c ≠ ":"%char → upper c ≠ ":"%char) ∧ (c ≠ "["%char → upper c ≠ "["%char) ∧
  (c ≠ "$"%char → upper c ≠ "$"%char).
Proof.
  pose proof (char_impl (λ c, negb (bool_decide (c = ":"%char)))
    (λ c, negb (bool_decide (upper c = ":"%char))) eq_refl c) as H1.
  pose proof (char_impl (λ c, negb (bool_decide (c = "["%char)))
    (λ c, negb (bool_decide (upper c = "["%char))) eq_refl c) as H2.
  pose proof (char_impl (λ c, negb (bool_decide (c = "$"%char)))
    (λ c, negb (bool_decide (upper c = "$"%char))) eq_refl c) as H3.
  cbn in H1, H2, H3. rewrite !negb_true_iff, !bool_decide_eq_false in H1, H2, H3. done.
Qed.

Lemma b32z_qr c : b32z_char c = true → qr_char (upper c) = true.
Proof. revert c. exact (char_impl b32z_char (λ c, qr_char (upper c)) eq_refl). Qed.

Lemma digit_qr c : is_digit c = true → qr_char c = true.
Proof. revert c. exact (char_impl is_digit qr_char eq_refl). Qed.

Lemma uc_host_bracketed mid :
  uc_host ("["%char :: mid ++ ["]"%char]) = ("$"%char :: (upper <$> mid)) ++ ["$"%char].
Proof.
  unfold uc_host. rewrite fmap_cons, fmap_app. change (upper "["%char) with "["%char.
  change (upper <$> ["]"%char]) with ["]"%char].
  rewrite last_cons, last_snoc. cbn [head]. rewrite !bool_decide_true by done. cbn [andb set_front].
  unfold set_back. change ("$"%char :: (upper <$> mid) ++ ["]"%char])
    with (("$"%char :: (upper <$> mid)) ++ ["]"%char]).
  rewrite reverse_snoc. cbn [set_front]. by rewrite reverse_cons, reverse_involutive.
Qed.

Lemma uc_host_plain c t : c ≠ "["%char → uc_host (c :: t) = (upper <$> (c :: t)).
Proof.
  intros Hc. unfold uc_host. rewrite fmap_cons. cbn [head].
  rewrite (bool_decide_false (Some (upper c) = _)); [done|].
  intros [= E]. by apply upper_host_char in Hc.
Qed.

Lemma qr_host_cases h :
  qr_host h = true →
  Forall (λ c, is_upper c = false) h ∧
  ((∃ mid, h = "["%char :: mid ++ ["]"%char] ∧
      Forall (λ c, bool_decide (c ∈ ipv6_chars) = true) mid) ∨
   (∃ c t, h = c :: t ∧ c ≠ "["%char ∧ c ≠ "$"%char ∧ (":"%char ∉ h) ∧
      Forall (λ c, qr_char (upper c) = true) h)).
Proof.
  unfold qr_host. intros H. bool_cases. split.
  { match goal with H : forallb _ h = true |- _ => apply Standard.forallb_char in H end.
    eapply Forall_impl; [eassumption|]. intros c. by rewrite negb_true_iff. }
  match goal with H : valid_host h = true |- _ =>
    apply valid_host_cases in H as [Hb|(c & t & -> & Hc & Ht)] end; [by left|right].
  exists c, t. match goal with H : _ || _ = true |- _ => apply orb_true_iff in H as [H|H] end;
    bool_cases; [by simplify_eq/=|].
  repeat split; [done| |done|by apply Standard.forallb_char].
  intros ->. by match goal with H : head _ ≠ _ |- _ => apply H end.
Qed.

Lemma parse_host_qr_bracketed mid rest :
  Forall (λ c, is_upper c = false) mid →
  Forall (λ c, bool_decide (c ∈ ipv6_chars) = true) mid →
  parse_host (uc_host ("["%char :: mid ++ ["]"%char]) ++ ":"%char :: rest) true =
    Ret ("["%char :: mid ++ ["]"%char], ":"%char :: rest).
Proof.
  intros Hlow Hmid. rewrite uc_host_bracketed, <-app_assoc.
  assert (Forall (λ c, bool_decide (c ∈ ipv6_chars) = true) (upper <$> mid)) as Humid.
  { apply Forall_fmap. eapply Forall_impl; [exact Hmid|]. intros c Hc.
    by apply upper_ipv6 in Hc as [? _]. }
  unfold parse_host, parse_raw_host. cbn [app head].
  change (bool_decide ("$"%char = "["%char) || true && bool_decide ("$"%char = "$"%char))
    with true. cbv iota.
  unfold find_first_not_of. cbn [drop]. rewrite drop_0, find_not_app by done.
  cbn [fmap option_fmap option_map Nat.add].
  pose proof (list_lookup_middle ("$"%char :: (upper <$> mid)) (":"%char :: rest) "$"%char _ eq_refl)
    as E. cbn [app length] in E. rewrite E.
  change (negb _) with false. cbv iota. unfold substr. rewrite Nat.add_1_r. cbn [take drop].
  rewrite take_app_cons, drop_app_cons. cbn [head andb set_front].
  change (bool_decide (Some "$"%char = Some "$"%char)) with true. cbv iota.
  rewrite last_cons, last_snoc, bool_decide_true by done.
  unfold set_back. change ("["%char :: (upper <$> mid) ++ ["$"%char])
    with (("["%char :: (upper <$> mid)) ++ ["$"%char]).
  rewrite reverse_snoc. cbn [set_front]. rewrite reverse_cons, reverse_involutive.
  cbn [mbind outcome_bind app]. rewrite fmap_cons, fmap_app, map_lower_upper by done. done.
Qed.

Lemma parse_host_qr h rest :
  qr_host h = true → parse_host (uc_host h ++ ":"%char :: rest) true = Ret (h, ":"%char :: rest).
Proof.
  intros [Hlow [(mid & -> & Hmid)|(c & t & -> & Hc & Hd & Ht & _)]]%qr_host_cases.
  - apply Forall_cons in Hlow as [_ Hlow]. apply Forall_app in Hlow as [Hlow _].
    by apply parse_host_qr_bracketed.
  - rewrite uc_host_plain by done. unfold parse_host, parse_raw_host.
    rewrite fmap_cons. cbn [app head].
    rewrite !bool_decide_false by (by apply upper_host_char). cbn [orb andb].
    change (upper c :: (upper <$> t) ++ ":"%char :: rest)
      with ((upper <$> (c :: t)) ++ ":"%char :: rest).
    rewrite find_char_app; [|intros (d & Hd' & Hin)%list_elem_of_fmap].
    2:{ assert (d ≠ ":"%char) as Hne by (intros ->; done). by apply upper_host_char in Hne. }
    rewrite bool_decide_false by (cbn; lia). unfold substr.
    rewrite drop_0, take_app_length, drop_app_length. cbn [mbind outcome_bind].
    by rewrite map_lower_upper.
Qed.

Lemma uc_host_qr_chars h : qr_host h = true → Forall (λ c, qr_char c = true) (uc_host h).
Proof.
  intros [_ [(mid & -> & Hmid)|(c & t & -> & Hc & _ & _ & Hqr)]]%qr_host_cases.
  - rewrite uc_host_bracketed. apply Forall_app_2; [|by repeat constructor].
    constructor; [done|]. apply Forall_fmap. eapply Forall_impl; [exact Hmid|]. intros c H.
    by apply upper_ipv6 in H as [_ ?].
  - rewrite uc_host_plain by done. by apply Forall_fmap.
Qed.

Lemma decode_pubkey_qr a :
  length (pubkey a) = 32 → decode_pubkey (encode_pubkey a BASE32Z) true = Ret (pubkey a, []).
Proof.
  intros Hlen. pose proof (encode_pubkey_length a BASE32Z Hlen) as Hk.
  change (enc_length BASE32Z) with 52 in Hk. unfold decode_pubkey, substr.
  rewrite !drop_0, Hk. change (64 <=? 52) with false. cbn [andb].
  rewrite firstn_all2, drop_ge by (rewrite Hk; lia). cbn [encode_pubkey].
  by rewrite is_base32z_upper, from_base32z_upper, is_base32z_to_base32z, from_to_base32z.
Qed.

Lemma encode_pubkey_qr_chars a : Forall (λ c, qr_char c = true) (encode_pubkey a BASE32Z).
Proof.
  cbn [encode_pubkey]. apply Forall_fmap. eapply Forall_impl.
  - apply is_base32z_chars, is_base32z_to_base32z.
  - intros c. apply b32z_qr.
Qed.

Lemma to_string_qr_chars p : (0 ≤ p)%Z → Forall (λ c, qr_char c = true) (to_string p).
Proof.
  intros Hp. eapply Forall_impl; [apply (to_string_spec p Hp)|]. intros c. apply digit_qr.
Qed.

(** The text after [TCP://] or [CURVE://]. *)
Definition qr_body (a : address) : bytes :=
  uc_host (host a) ++ B ":" ++ to_string (port a) ++
  (if is_curve a then B "/" ++ encode_pubkey a BASE32Z else []).

Lemma qr_body_chars a :
  qr_host (host a) = true → valid_port (port a) = true → forallb qr_char (qr_body a) = true.
Proof.
  intros Hh Hp. apply Standard.forallb_char. unfold qr_body, valid_port in *. bool_cases.
  repeat apply Forall_app_2; [by apply uc_host_qr_chars|by repeat constructor| |].
  - apply to_string_qr_chars. lia.
  - destruct (is_curve a); [|constructor].
    apply Forall_app_2; [by repeat constructor|apply encode_pubkey_qr_chars].
Qed.

Lemma parse_tcp_qr a :
  qr_host (host a) = true → valid_port (port a) = true →
  (is_curve a = true → length (pubkey a) = 32) →
  parse_tcp (qr_body a) true (is_curve a) =
    Ret (host a, port a, if is_curve a then pubkey a else [], []).
Proof.
  intros Hh Hp Hk. unfold parse_tcp, qr_body. change (B ":") with [":"%char].
  change (B "/") with ["/"%char]. cbn [app].
  rewrite parse_host_qr by done. cbn [mbind outcome_bind].
  destruct (is_curve a).
  - rewrite parse_port_print by done. cbn [mbind outcome_bind].
    assert ((length ("/"%char :: encode_pubkey a BASE32Z) <? 1 + enc_length base32z) = false) as ->.
    { cbn [length]. rewrite encode_pubkey_length by auto. apply Nat.ltb_ge. vm_compute. lia. }
    cbn [head]. rewrite bool_decide_true by done. cbn [orb negb drop]. rewrite drop_0.
    by rewrite decode_pubkey_qr by auto.
  - by rewrite parse_port_print.
Qed.

(** ** Failures *)

(** The outcomes the constructor may have: a value, [invalid_argument], or
    the [out_of_range] of [std::stoi]. *)
Definition parse_outcome {A} (m : outcome A) : bool :=
  match m with
  | Ret _ | Throw (invalid_argument _) | Throw (out_of_range _) => true
  | _ => false
  end.

Lemma parse_outcome_bind {A C} (m : outcome A) (f : A → outcome C) :
  parse_outcome m = true → (∀ a, m = Ret a → parse_outcome (f a) = true) →
  parse_outcome (m ≫= f) = true.
Proof. destruct m; intros; cbn; eauto. Qed.

Lemma parse_host_outcome addr qr : addr ≠ [] → parse_outcome (parse_host addr qr) = true.
Proof.
  intros Hne. unfold parse_host. apply parse_outcome_bind; [|by intros []].
  unfold parse_raw_host. destruct addr as [|c0 t]; [done|]. cbn [head].
  destruct (_ || _).
  - destruct (find_first_not_of ipv6_chars (c0 :: t) 1) as [pos|] eqn:E; [|done].
    assert (pos < length (c0 :: t)) as Hpos.
    { unfold find_first_not_of in E. apply fmap_Some in E as (n & Hn & ->).
      cbn [drop] in Hn. rewrite drop_0 in Hn. apply find_not_Some in Hn as [Hn _].
      cbn [length Nat.add]. lia. }
    apply lookup_lt_is_Some in Hpos as [c ->]. by destruct (negb _).
  - destruct (find_char _ _); [|done]. by case_bool_decide.
Qed.

Lemma parse_port_outcome addr : parse_outcome (parse_port addr) = true.
Proof.
  unfold parse_port. destruct (_ || _); [done|]. case_bool_decide; [done|].
  apply parse_outcome_bind.
  - unfold stoi. case_bool_decide; [done|]. by destruct (_ <=? _)%Z.
  - intros [v n] _. destruct (_ || _); [done|]. by destruct (_ || _).
Qed.

Lemma parse_tcp_outcome addr qr curve :
  addr ≠ [] → parse_outcome (parse_tcp addr qr curve) = true.
Proof.
  intros Hne. unfold parse_tcp. apply parse_outcome_bind; [by apply parse_host_outcome|].
  intros [h r] _. apply parse_outcome_bind; [apply parse_port_outcome|]. intros [p r'] _.
  destruct curve; [|by destruct (negb _)]. destruct (_ || _); [done|].
  apply parse_outcome_bind; [|intros [pk r''] _; by destruct (negb _)].
  unfold decode_pubkey. repeat (destruct (_ && _); [done|]). done.
Qed.

Lemma parse_body_outcome a addr qr : addr ≠ [] → parse_outcome (parse_body a addr qr) = true.
Proof.
  intros Hne. unfold parse_body. destruct (is_tcp a).
  - apply parse_outcome_bind; [by apply parse_tcp_outcome|]. by intros [[[h p] pk] r].
  - apply parse_outcome_bind; [|by intros [[h p] pk]].
    unfold parse_unix. apply parse_outcome_bind; [|by intros []].
    unfold split_unix. destruct (is_curve a); [|done].
    repeat (destruct (has_key _ _ _); [done|]). done.
Qed.

Lemma parse_address_outcome s : parse_outcome (parse_address s) = true.
Proof.
  unfold parse_address. destruct (find_str _ _) as [[|n]|]; [done| |done].
  case_bool_decide; [done|]. apply parse_outcome_bind.
  - unfold parse_protocol. by repeat case_match.
  - intros [p qr] _. destruct (qr && _); [done|].
    apply parse_outcome_bind; [by apply parse_body_outcome|]. intros [a r] _. by destruct (negb _).
Qed.
End properties.

(** [operator==] decides the equality of canonical forms. *)
Lemma address_eqb_equiv a b : address_eqb a b = true ↔ a ≡ b.
Proof.
  unfold equiv, address_equiv, address_eqb, is_ipc.
  destruct (bool_decide_reflect (protocol a = protocol b)) as [E|E]; cbn [negb]; cycle 1.
  { split; [done|]. intros H. destruct E. destruct a as [[] ????], b as [[] ????]; done. }
  destruct a as [p h pt s k], b as [q h' pt' s' k']; cbn [protocol] in E; subst q.
  destruct p; cbn [is_tcp is_curve protocol negb andb host port socket pubkey];
    repeat match goal with
    | |- context [bool_decide ?P] => destruct (bool_decide_reflect P)
    | |- context [(?x =? ?y)%Z] => destruct (Z.eqb_spec x y)
    end; subst; cbn [negb orb]; (split; [done|]); try done; intros [= *]; congruence.
Qed.

(** * Claims

    The theorems hold for every encoder library with the laws of
    [OxencLaws]; the witnesses run them with the standard encoders. *)
Import Standard.

(** C25: printing a well-formed address with [full_address], in any of the
    four key encodings, and parsing the text again gives the same address
    (with the fields its protocol does not use cleared). *)
Theorem address_roundtrip {O : Oxenc} {L : OxencLaws O} (a : address) (enc : encoding)
  (Hwf : wf_address a = true) :
  parse_address (full_address a enc) = Ret (canonical a).
Proof. by apply parse_full_address. Qed.

Definition sample_key : bytes :=
  @from_hex Standard.oxenc (B "f16ba5591039f089b42a834175093094074d0d937a79e53e5ce730f946e14b88").
Definition sample_address : address := address_tcp_curve (B "public.loki.foundation") 12345 sample_key.

Lemma address_roundtrip_witness :
  wf_address sample_address = true ∧
  parse_address (full_address sample_address base64) = Ret (canonical sample_address).
Proof. split; [vm_compute; reflexivity|]. apply address_roundtrip. vm_compute. reflexivity. Defined.

(** An accepted address is well formed and in canonical form, so printing
    it and parsing the text is the identity; only the length of the key of an
    [ipc+curve] address is not checked by the parser and has to be assumed. *)
Theorem address_reparse {O : Oxenc} {L : OxencLaws O} (s : bytes) (a : address) (enc : encoding)
  (Hparse : parse_address s = Ret a) (Hkey : protocol a = ipc_curve → length (pubkey a) = 32) :
  wf_address a = true ∧ parse_address (full_address a enc) = Ret a.
Proof.
  destruct (parse_address_valid s a Hparse) as [Hcan Hwf].
  assert (wf_address a = true) as H.
  { destruct Hwf as [|[E _]]; [done|]. unfold wf_address. rewrite E. by apply Nat.eqb_eq, Hkey. }
  split; [done|]. rewrite parse_full_address by done. by rewrite Hcan.
Qed.

Lemma address_reparse_witness :
  parse_address (B "TCP://PUBLIC.LOKI.FOUNDATION:0012345") =
    Ret (address_tcp (B "public.loki.foundation") 12345) ∧
  wf_address (address_tcp (B "public.loki.foundation") 12345) = true ∧
  parse_address (full_address (address_tcp (B "public.loki.foundation") 12345) hex) =
    Ret (address_tcp (B "public.loki.foundation") 12345).
Proof.
  split; [vm_compute; reflexivity|].
  apply (address_reparse (B "TCP://PUBLIC.LOKI.FOUNDATION:0012345")).
  - vm_compute. reflexivity.
  - intros H. discriminate H.
Defined.

(** The QR form of a TCP address whose host has a QR form uses only the
    QR-alphanumeric characters after its prefix, and parses back to the same
    address, key included. *)
Theorem qr_roundtrip {O : Oxenc} {L : OxencLaws O} (a : address)
  (Htcp : is_tcp a = true) (Hwf : wf_address a = true) (Hqr : qr_host (host a) = true) :
  ∃ body, qr_address a = Ret ((if is_curve a then B "CURVE://" else B "TCP://") ++ body) ∧
    forallb qr_char body = true ∧
    parse_address ((if is_curve a then B "CURVE://" else B "TCP://") ++ body) =
      Ret (canonical a).
Proof.
  assert (valid_port (port a) = true ∧ (is_curve a = true → length (pubkey a) = 32)) as [Hp Hk].
  { destruct a as [[] h p s k]; try discriminate Htcp; unfold wf_address in Hwf;
      cbn [protocol host port pubkey] in *; bool_cases; done. }
  assert (host a ≠ []) as Hne.
  { intros E. unfold qr_host in Hqr. by rewrite E in Hqr. }
  exists (qr_body a). pose proof (qr_body_chars a Hqr Hp) as Hchars. split; [|split; [done|]].
  - unfold qr_address. rewrite (bool_decide_false (host a = [])) by done.
    by destruct a as [[] h p s k].
  - pose proof (parse_tcp_qr a Hqr Hp Hk) as Hparse.
    assert (qr_body a ≠ []) as Hbody.
    { unfold qr_body. by destruct (uc_host (host a)). }
    destruct a as [[] h p s k]; try discriminate Htcp.
    + apply (parse_address_tcp (B "TCP") false true);
        [done|by apply (bool_decide_unpack _)|done|done|done|done].
    + apply (parse_address_tcp (B "CURVE") true true);
        [done|by apply (bool_decide_unpack _)|done|done|done|done].
Qed.

Lemma qr_roundtrip_witness :
  ∃ body, qr_address sample_address = Ret (B "CURVE://" ++ body) ∧
    forallb qr_char body = true ∧
    parse_address (B "CURVE://" ++ body) = Ret (canonical sample_address).
Proof. apply (qr_roundtrip sample_address); vm_compute; reflexivity. Defined.

(** [operator==] is the equality of the fields the protocol uses; equal
    addresses have the same hash, and two well-formed addresses are equal
    exactly when their printed forms are. *)
Theorem address_eqb_spec {O : Oxenc} {L : OxencLaws O} (a b : address) :
  (address_eqb a b = true ↔ a ≡ b) ∧
  (address_eqb a b = true → hash_key a = hash_key b) ∧
  (∀ enc, wf_address a = true → wf_address b = true →
     (full_address a enc = full_address b enc ↔ address_eqb a b = true)).
Proof.
  assert (address_eqb a b = true ↔ a ≡ b) as Heq.
  { apply address_eqb_equiv. }
  split; [done|]. split.
  - intros Hab%Heq. unfold hash_key. by rewrite Hab.
  - intros enc Ha Hb. rewrite Heq. split; [|by intros ->]. intros E.
    apply (parse_full_address a enc) in Ha. apply (parse_full_address b enc) in Hb.
    rewrite E, Hb in Ha. by injection Ha.
Qed.

Lemma address_eqb_spec_witness :
  let b := sample_address <| socket := B "unused" |> in
  (address_eqb sample_address b = true ↔ sample_address ≡ b) ∧
  (address_eqb sample_address b = true → hash_key sample_address = hash_key b) ∧
  (∀ enc, wf_address sample_address = true → wf_address b = true →
     (full_address sample_address enc = full_address b enc ↔ address_eqb sample_address b = true)).
Proof. apply address_eqb_spec. Defined.

(** C31: on every input the constructor returns or throws, without undefined
    behaviour (no [front()] of an empty view, no index out of range).  What it throws
    is [invalid_argument] or, from [std::stoi], [out_of_range]; what it returns has
    only the fields of its protocol set and is well formed: a host and a port from 1
    to 65535, a path, and a key of 32 bytes.  The only exception is the key of an
    [ipc+curve] address given as 44 characters of base64 with padding, whose decoded
    length is not checked. *)
Theorem parse_address_total {O : Oxenc} {L : OxencLaws O} (s : bytes) :
  parse_outcome (parse_address s) = true ∧
  ∀ a, parse_address s = Ret a →
    canonical a = a ∧ (wf_address a = true ∨ protocol a = ipc_curve ∧ padded_key s a).
Proof. split; [apply parse_address_outcome|apply parse_address_valid]. Qed.

Lemma parse_address_total_witness :
  let a := address_tcp (B "public.loki.foundation") 12345 in
  parse_address (B "TCP://PUBLIC.LOKI.FOUNDATION:0012345") = Ret a ∧
  canonical a = a ∧ (wf_address a = true ∨ protocol a = ipc_curve ∧ padded_key (B "TCP://PUBLIC.LOKI.FOUNDATION:0012345") a).
Proof.
  intros a. split; [vm_compute; reflexivity|].
  apply (parse_address_total (B "TCP://PUBLIC.LOKI.FOUNDATION:0012345")). vm_compute. reflexivity.
Defined.

(** A port that does not fit an [int] escapes as [std::out_of_range], not
    as the [std::invalid_argument] the class documents for every unparseable
    address. *)
Theorem big_port_out_of_range {O : Oxenc} (h : bytes) (n : Z)
  (Hh : valid_host h = true) (Hn : (INT_MAX < n)%Z) :
  parse_address (B "tcp://" ++ h ++ B ":" ++ to_string n) = Throw (out_of_range (B "stoi")).
Proof.
  destruct (to_string_spec n) as (Hv & Hd & Hne); [unfold INT_MAX in *; lia|].
  change (B "tcp://") with (B "tcp" ++ B "://"). rewrite <-app_assoc, parse_address_prefix;
    [|by apply (bool_decide_unpack _)|done|by destruct h].
  change (parse_protocol (B "tcp")) with (Ret (tcp, false)). cbn [mbind outcome_bind andb].
  unfold parse_body, parse_tcp. change (is_tcp _) with true. change (is_curve _) with false.
  cbv iota. change (B ":") with [":"%char]. cbn [app]. rewrite parse_host_print by done.
  cbn [mbind outcome_bind]. rewrite <-(app_nil_r (to_string n)), parse_port_stoi by done.
  unfold stoi. rewrite find_not_None by done. cbn [default from_option].
  rewrite bool_decide_false by (by destruct (to_string n)). rewrite firstn_all, Hv.
  by rewrite (proj2 (Z.leb_gt _ _)).
Qed.

Lemma big_port_out_of_range_witness :
  valid_host (B "localhost") = true ∧ (INT_MAX < 4294967296)%Z ∧
  parse_address (B "tcp://" ++ B "localhost" ++ B ":" ++ to_string 4294967296) =
    Throw (out_of_range (B "stoi")).
Proof.
  split; [reflexivity|]. split; [reflexivity|]. apply big_port_out_of_range; reflexivity.
Defined.

(** [parse_unix] takes any tail of 44 characters that ends in ['='] and is
    valid base64 as a key, also one with two padding characters: the padded
    base64 of a 31-byte string is accepted as the key of an [ipc+curve]
    address, although a key has 32 bytes. *)
Theorem ipc_curve_short_key {O : Oxenc} {L : OxencLaws O} (path k : bytes)
  (Hk : length k = 31) :
  parse_address (B "ipc+curve://" ++ path ++ B "/" ++ to_base64 k) =
    Ret (address_ipc_curve path k).
Proof.
  destruct (to_base64_padded k) as (body & Heq & Hlen & Hchars).
  rewrite Hk in Heq, Hlen. change (b64_pad 31) with 2 in Heq. change ((8 * 31 + 5) / 6) with 42 in Hlen.
  assert (last (to_base64 k) = Some "="%char ∧ length (to_base64 k) = 44) as [Hlast Hl].
  { rewrite Heq, length_app, Hlen. split; [|done]. by rewrite last_app. }
  apply (parse_address_unix (B "ipc+curve") true);
    [done|by apply (bool_decide_unpack _)|done|by destruct path|].
  destruct (split_unix_tail path (to_base64 k)) as (_ & _ & H64).
  change (B "/" ++ to_base64 k) with ("/"%char :: to_base64 k).
  rewrite H64; [by rewrite from_to_base64| |apply is_base64_to_base64].
  by rewrite Hlast, bool_decide_true.
Qed.

Lemma ipc_curve_short_key_witness :
  parse_address (B "ipc+curve://" ++ B "/tmp/x.sock" ++ B "/" ++ to_base64 (replicate 31 "k"%char)) =
    Ret (address_ipc_curve (B "/tmp/x.sock") (replicate 31 "k"%char)).
Proof. apply ipc_curve_short_key. reflexivity. Defined.

(** [set_pubkey] accepts exactly the empty and the 32-byte keys, stores
    the key, makes the address curve-encrypted exactly when the key is not
    empty, and changes neither the transport nor the endpoint. *)
Theorem set_pubkey_spec (a : address) (pk : bytes) :
  match set_pubkey a pk with
  | Ret a' => (length pk = 0 ∨ length pk = 32) ∧ pubkey a' = pk ∧
      is_curve a' = negb (bool_decide (pk = [])) ∧ is_tcp a' = is_tcp a ∧
      host a' = host a ∧ port a' = port a ∧ socket a' = socket a ∧
      zmq_address a' = zmq_address a
  | Throw e => (∃ w, e = invalid_argument w) ∧ length pk ≠ 0 ∧ length pk ≠ 32
  | Undef => False
  end.
Proof.
  unfold set_pubkey. destruct (length pk =? 0) eqn:E0; bool_cases.
  - destruct pk; [|done]. destruct a as [[] h p s k]; cbn; auto 10.
  - destruct (length pk =? 32) eqn:E1; bool_cases; [|eauto].
    assert (pk ≠ []) by by destruct pk.
    destruct a as [[] h p s k]; cbn; rewrite (bool_decide_false (pk = [])) by done; auto 10.
Qed.
