(* ===== verification/Auth.v ===== *)
(** * Auth: [oxenmq/auth.h] and the ZAP side of [oxenmq/auth.cpp]

    Authentication levels and category access ([auth.h]), the ZMTP metadata
    property that carries the level of a connection, its extraction from a
    received message ([detail::extract_metadata] of [oxenmq.cpp]) and the
    handling of one ZAP authentication request ([process_zap_requests]). *)
From S2P Require Import Prelude Bytes Oxenc.
Open Scope Z_scope.
Open Scope nat_scope.

(** ** Levels

    [enum class AuthLevel] with its underlying [int]: the sources cast
    integers to it and compare user-supplied values against its ends. *)
Definition AuthLevel := Z.
Definition denied : AuthLevel := 0%Z.
Definition none : AuthLevel := 1%Z.
Definition basic : AuthLevel := 2%Z.
Definition admin : AuthLevel := 3%Z.

Record Access := mk_Access {
  auth : AuthLevel;
  remote_sn : bool;
  local_sn : bool;
}.
#[export] Instance Access_eq_dec : EqDecision Access.
Proof. unfold EqDecision; intros [] []; unfold Decision; decide equality; solve_decision || apply Z.eq_dec. Defined.

(** [Access{}]: the default arguments of the constructor. *)
Definition Access_default : Access := mk_Access none false false.

Definition auth_to_string (a : AuthLevel) : bytes :=
  if (a =? denied)%Z then B "denied"
  else if (a =? none)%Z then B "none"
  else if (a =? basic)%Z then B "basic"
  else if (a =? admin)%Z then B "admin"
  else B "(unknown)".

Definition auth_from_string (a : bytes) : AuthLevel :=
  if bool_decide (a = B "none") then none
  else if bool_decide (a = B "basic") then basic
  else if bool_decide (a = B "admin") then admin
  else denied.

(** ** ZMTP metadata *)

(** A key-value pair: one size octet and the key, then the value preceded by
    its size in network order.  The assertion on the key is the [assert] of
    the source. *)
Definition metadata_key_ok (key : bytes) : bool :=
  (2 <? length key) && (length key <=? 255) &&
  bool_decide (key !! 0 = Some "X"%char) && bool_decide (key !! 1 = Some "-"%char).

Definition zmtp_metadata (key value : bytes) : outcome bytes :=
  if negb (metadata_key_ok key) then Undef
  else
    let size := Z.of_nat (length value) in
    Ret (chr (Z.of_nat (length key)) :: key ++
         ((λ i, chr (Z.land (Z.shiftr size i) 255)) <$> [24; 16; 8; 0]%Z) ++ value).

(** How a ZMTP peer reads one such pair back (ZMTP 3.0, "metadata"). *)
Definition read_metadata (m : bytes) : option (bytes * bytes) :=
  match m with
  | [] => None
  | n :: m =>
      let klen := Z.to_nat (ord n) in
      let key := take klen m in
      match drop klen m with
      | b3 :: b2 :: b1 :: b0 :: m =>
          let size := (ord b3 * 2 ^ 24 + ord b2 * 2 ^ 16 + ord b1 * 2 ^ 8 + ord b0)%Z in
          Some (key, take (Z.to_nat size) m)
      | _ => None
      end
  end.

(** A received [zmq::message_t]: its data and the connection properties
    [gets()] returns (it throws when a property is missing). *)
Record message := mk_message {
  msg_data : bytes;
  msg_props : gmap bytes bytes;
}.

Section auth.
Context {O : Oxenc}.

(** The key part; a user id of the right length that is not hex fails an assertion. *)
Definition extract_pubkey (msg : message) : outcome bytes :=
  match msg_props msg !! B "User-Id" with
  | Some pubkey_hex =>
      if negb (length pubkey_hex =? 64) then Ret []
      else if is_hex pubkey_hex then Ret (from_hex pubkey_hex) else Undef
  | None => Ret []
  end.

Definition extract_metadata (msg : message) : outcome (bytes * AuthLevel) :=
  pubkey ← extract_pubkey msg;
  Ret (pubkey,
       match msg_props msg !! B "X-AuthLevel" with
       | Some a => auth_from_string a
       | None => none
       end).

(** ** ZAP requests *)

(** [AllowFunc]: decides the initial level of an incoming connection from
    its address, its public key and whether that is an active service
    node. *)
Definition AllowFunc := bytes → bytes → bool → AuthLevel.

Record bind_data := mk_bind_data {
  bind_address : bytes;
  bind_curve : bool;
  bind_conn_id : Z;
  bind_allow : AllowFunc;
}.

(** [oxenc::bt_deserialize<size_t>]: [None] when it throws. *)
Context (bt_size : bytes → option Z).

Definition SIZE_MAX : Z := 2 ^ 64 - 1.

(** An IPv4-mapped IPv6 address is reduced to the IPv4 address. *)
Definition strip_mapped (ip : bytes) : bytes :=
  if (14 <=? length ip) && bool_decide (substr ip 0 7 = B "::ffff:") &&
     bool_decide (find_last_not_of (B "0123456789.") ip = Some 6)
  then drop 7 ip else ip.

Record zap_reply := mk_zap_reply {
  zap_id : bytes;
  zap_code : bytes;
  zap_text : bytes;
  zap_user : bytes;
  zap_meta : bytes;
}.

(** The frames sent back; the first one is the version. *)
Definition zap_frames (r : zap_reply) : list bytes :=
  [B "1.0"; zap_id r; zap_code r; zap_text r; zap_user r; zap_meta r].

(** The decision for a request that reached listener [b]. *)
Definition zap_accept (b : bind_data) (active : gset bytes) (frames : list bytes)
    (rid : bytes) : outcome zap_reply :=
  let ip := strip_mapped (frames !!! 3) in
  let pubkey := if bind_curve b then frames !!! 6 else [] in
  let sn := bind_curve b && bool_decide (pubkey ∈ active) in
  let level := bind_allow b ip pubkey sn in
  let user_id := if bind_curve b then to_hex pubkey else [] in
  if (level <=? denied)%Z || (admin <? level)%Z then
    Ret (mk_zap_reply rid (B "400") (B "Access denied") [] [])
  else
    metadata ← zmtp_metadata (B "X-AuthLevel") (auth_to_string level);
    Ret (mk_zap_reply rid (B "200") [] user_id metadata).

(** One iteration of [process_zap_requests]. *)
Definition process_zap_request (bind : list bind_data) (active : gset bytes)
    (frames : list bytes) : outcome zap_reply :=
  let rid := if 2 <=? length frames then frames !!! 1 else [] in
  let fail code text := Ret (mk_zap_reply rid code text [] []) in
  if (length frames <? 6) || negb (bool_decide (frames !!! 0 = B "1.0")) then
    fail (B "500") (B "Internal error: invalid auth request")
  else
    let auth_domain := frames !!! 2 in
    let bind_id := default SIZE_MAX (bt_size auth_domain) in
    if (Z.of_nat (length bind) <=? bind_id)%Z then
      fail (B "400") (B "Unknown authentication domain: " ++ auth_domain)
    else
      match bind !! Z.to_nat bind_id with
      | None => Undef
      | Some b =>
        if (if bind_curve b
            then negb ((length frames =? 7) && bool_decide (frames !!! 5 = B "CURVE"))
            else negb ((length frames =? 6) && bool_decide (frames !!! 5 = B "NULL"))) then
          fail (B "500") (B "Invalid authentication request mechanism")
        else if bind_curve b && negb (length (frames !!! 6) =? 32) then
          fail (B "500") (B "Invalid public key size for CURVE authentication")
        else zap_accept b active frames rid
      end.

(** The properties ZMQ attaches to the messages of an accepted connection. *)
Definition zap_props (r : zap_reply) : gmap bytes bytes :=
  let user := if bool_decide (zap_user r = []) then ∅ else {[ B "User-Id" := zap_user r ]} in
  match read_metadata (zap_meta r) with
  | Some (k, v) => <[ k := v ]> user
  | None => user
  end.
End auth.

(** * Lemmas *)

Lemma auth_string_roundtrip (a : AuthLevel) :
  (denied < a ≤ admin)%Z → auth_from_string (auth_to_string a) = a.
Proof.
  unfold denied, admin. intros Ha.
  assert (a = 1 ∨ a = 2 ∨ a = 3)%Z as [-> | [-> | ->]] by lia; done.
Qed.

(** The 4-byte big-endian size of a value below 2^32. *)
Lemma be32 (n : Z) :
  (0 ≤ n < 2 ^ 32)%Z →
  let byte i := ord (chr (Z.land (Z.shiftr n i) 255)) in
  (byte 24 * 2 ^ 24 + byte 16 * 2 ^ 16 + byte 8 * 2 ^ 8 + byte 0)%Z = n.
Proof.
  intros Hn byte.
  assert (∀ i, (0 ≤ i)%Z → byte i = (n / 2 ^ i) mod 256)%Z as E.
  { intros i Hi. unfold byte. change 255%Z with (Z.ones 8).
    rewrite Z.land_ones, Z.shiftr_div_pow2 by lia.
    rewrite ord_chr; [done|]. apply Z.mod_pos_bound. lia. }
  rewrite !E by lia. change (2 ^ 24)%Z with 16777216%Z. change (2 ^ 16)%Z with 65536%Z.
  change (2 ^ 8)%Z with 256%Z. change (2 ^ 0)%Z with 1%Z. change (2 ^ 32)%Z with 4294967296%Z in Hn.
  Z.div_mod_to_equations. lia.
Qed.

Lemma read_zmtp_metadata key value :
  metadata_key_ok key = true → (Z.of_nat (length value) < 2 ^ 32)%Z →
  ∃ m, zmtp_metadata key value = Ret m ∧ read_metadata m = Some (key, value).
Proof.
  intros Hkey Hval. unfold zmtp_metadata. rewrite Hkey. cbn [negb]. eexists. split; [done|].
  unfold metadata_key_ok in Hkey. bool_cases. unfold read_metadata.
  rewrite ord_chr, Nat2Z.id by lia. rewrite take_app_length, drop_app_length.
  cbn [fmap list_fmap app].
  pose proof (be32 (Z.of_nat (length value)) ltac:(lia)) as E. cbn zeta in E.
  by rewrite E, Nat2Z.id, firstn_all.
Qed.

Section zap.
Context {O : Oxenc} {L : OxencLaws O} (bt_size : bytes → option Z).
Hypothesis bt_size_range : ∀ s n, bt_size s = Some n → (0 ≤ n ≤ SIZE_MAX)%Z.

(** The key and level an accepted connection is known by afterwards. *)
Lemma zap_props_extract rid pk level meta d :
  (denied < level ≤ admin)%Z → (pk = [] ∨ length pk = 32) →
  zmtp_metadata (B "X-AuthLevel") (auth_to_string level) = Ret meta →
  extract_metadata (mk_message d
    (zap_props (mk_zap_reply rid (B "200") [] (if bool_decide (pk = []) then [] else to_hex pk) meta))) =
  Ret (pk, level).
Proof.
  intros Hl Hpk Hmeta.
  assert (Z.of_nat (length (auth_to_string level)) < 2 ^ 32)%Z as Hlen.
  { unfold auth_to_string. repeat case_match; done. }
  destruct (read_zmtp_metadata (B "X-AuthLevel") _ eq_refl Hlen) as (m & Hm & Hread).
  rewrite Hm in Hmeta. injection Hmeta as ->.
  unfold extract_metadata, extract_pubkey, zap_props. cbn [msg_props zap_meta zap_user]. rewrite Hread.
  rewrite lookup_insert_eq, auth_string_roundtrip by done. rewrite lookup_insert_ne by done.
  destruct Hpk as [->|Hpk].
  - replace (if bool_decide ([] =@{bytes} []) then [] else to_hex []) with (@nil ascii) by done.
    rewrite bool_decide_true, lookup_empty by done. done.
  - rewrite (bool_decide_false (pk = [])) by by destruct pk.
    pose proof (to_hex_length pk) as Hhex. rewrite Hpk in Hhex.
    rewrite bool_decide_false by by destruct (to_hex pk).
    rewrite lookup_singleton_eq, Hhex. cbn [Nat.mul Nat.add Nat.eqb negb]. by rewrite is_hex_to_hex, from_to_hex.
Qed.

Lemma zap_accept_spec b active frames rid :
  (bind_curve b = true → length (frames !!! 6) = 32) →
  let pk := if bind_curve b then frames !!! 6 else [] in
  let level := bind_allow b (strip_mapped (frames !!! 3)) pk
                 (bind_curve b && bool_decide (pk ∈ active)) in
  ∃ r, zap_accept b active frames rid = Ret r ∧ zap_id r = rid ∧
    (zap_code r = B "200" ∧ (denied < level ≤ admin)%Z ∧
     (∀ d, extract_metadata (mk_message d (zap_props r)) = Ret (pk, level)) ∨
     zap_code r = B "400" ∧ ¬ (denied < level ≤ admin)%Z ∧ zap_user r = [] ∧ zap_meta r = []).
Proof.
  intros Hlen pk level. unfold zap_accept. fold pk. fold level.
  destruct (_ || _) eqn:E.
  - eexists. split; [done|]. split; [done|]. right. cbn. repeat split; try done.
    intros Hl. apply orb_true_iff in E as [E|E]; bool_cases; lia.
  - bool_cases.
    assert (Z.of_nat (length (auth_to_string level)) < 2 ^ 32)%Z as Hb.
    { unfold auth_to_string. repeat case_match; done. }
    destruct (read_zmtp_metadata (B "X-AuthLevel") _ eq_refl Hb) as (m & Hm & _).
    rewrite Hm. cbn [mbind outcome_bind]. eexists. split; [done|]. split; [done|]. left.
    split; [done|]. split; [lia|]. intros d.
    replace (if bind_curve b then to_hex pk else [])
      with (if bool_decide (pk = []) then [] else to_hex pk).
    + apply zap_props_extract; [lia| |done]. unfold pk. destruct (bind_curve b); auto.
    + unfold pk. destruct (bind_curve b); [|by rewrite bool_decide_true].
      rewrite bool_decide_false; [done|]. intros E%(f_equal length). by rewrite Hlen in E.
Qed.

(** A refusal: no user id, no metadata. *)
Definition refused (rid : bytes) (m : outcome zap_reply) : Prop :=
  ∃ r, m = Ret r ∧ zap_id r = rid ∧ zap_code r ≠ B "200" ∧ zap_user r = [] ∧ zap_meta r = [].

Lemma zap_request_cases bind active frames :
  (Z.of_nat (length bind) ≤ SIZE_MAX)%Z →
  let rid := if 2 <=? length frames then frames !!! 1 else [] in
  refused rid (process_zap_request bt_size bind active frames) ∨
  ∃ n b, bt_size (frames !!! 2) = Some n ∧ bind !! Z.to_nat n = Some b ∧
    frames !!! 5 = (if bind_curve b then B "CURVE" else B "NULL") ∧
    (bind_curve b = true → length (frames !!! 6) = 32) ∧
    process_zap_request bt_size bind active frames = zap_accept b active frames rid.
Proof.
  intros Hbind rid. unfold process_zap_request. fold rid.
  destruct (_ || _) eqn:E1; [left; by eexists|]. bool_cases.
  destruct (_ <=? _)%Z eqn:E2; [left; by eexists|]. bool_cases.
  destruct (bt_size (frames !!! 2)) as [n|] eqn:Hbt; cbn [from_option id] in *; [|lia].
  pose proof (bt_size_range _ _ Hbt).
  destruct (lookup_lt_is_Some_2 bind (Z.to_nat n)) as [b Hb]; [lia|]. rewrite Hb.
  destruct (if bind_curve b then _ else _) eqn:E3; [left; by eexists|].
  destruct (bind_curve b && _) eqn:E4; [left; by eexists|].
  right. exists n, b. repeat split; try done.
  - revert E3. destruct (bind_curve b); intros E3; by bool_cases.
  - intros Hc. rewrite Hc in E4. cbn [andb] in E4. by bool_cases.
Qed.
End zap.

(** * Claims *)
Import Standard.

(** A ZMTP metadata pair built by [zmtp_metadata] is read back as the same
    key and value, for every admissible key and every value below 4 GiB. *)
Theorem metadata_roundtrip (key value : bytes)
  (Hkey : metadata_key_ok key = true) (Hval : (Z.of_nat (length value) < 2 ^ 32)%Z) :
  ∃ m, zmtp_metadata key value = Ret m ∧ read_metadata m = Some (key, value).
Proof. by apply read_zmtp_metadata. Qed.

Lemma metadata_roundtrip_witness :
  ∃ m, zmtp_metadata (B "X-AuthLevel") (B "admin") = Ret m ∧
    read_metadata m = Some (B "X-AuthLevel", B "admin").
Proof. apply metadata_roundtrip; reflexivity. Defined.

(** C28: every ZAP request gets a reply that echoes its id.  The status is
    [200] only if the request names a listener, has the mechanism of that
    listener with a 32-byte key for CURVE, and the listener's [AllowFunc],
    called with that key and its service node status, returned a level from
    [none] to [admin]; messages of the accepted connection then carry exactly
    that key and that level.  Any other reply carries no user id and no
    metadata. *)
Theorem zap_request_spec {O : Oxenc} {L : OxencLaws O} (bt_size : bytes → option Z)
  (Hrange : ∀ s n, bt_size s = Some n → (0 ≤ n ≤ SIZE_MAX)%Z)
  (bind : list bind_data) (Hbind : (Z.of_nat (length bind) ≤ SIZE_MAX)%Z)
  (active : gset bytes) (frames : list bytes) :
  ∃ r, process_zap_request bt_size bind active frames = Ret r ∧
    (2 ≤ length frames → zap_id r = frames !!! 1) ∧
    (zap_code r = B "200" →
       ∃ n b, bt_size (frames !!! 2) = Some n ∧ bind !! Z.to_nat n = Some b ∧
         frames !!! 5 = (if bind_curve b then B "CURVE" else B "NULL") ∧
         let pk := if bind_curve b then frames !!! 6 else [] in
         let level := bind_allow b (strip_mapped (frames !!! 3)) pk
                        (bind_curve b && bool_decide (pk ∈ active)) in
         (bind_curve b = true → length pk = 32) ∧ (denied < level ≤ admin)%Z ∧
         ∀ d, extract_metadata (mk_message d (zap_props r)) = Ret (pk, level)) ∧
    (zap_code r ≠ B "200" → zap_user r = [] ∧ zap_meta r = []).
Proof.
  assert (2 ≤ length frames → (if 2 <=? length frames then frames !!! 1 else []) = frames !!! 1)
    as Hrid by (intros H; by rewrite (proj2 (Nat.leb_le _ _))).
  destruct (zap_request_cases bt_size Hrange bind active frames Hbind)
    as [(r & -> & Hid & Hcode & Hu & Hm)|(n & b & Hbt & Hb & Hmech & Hlen & ->)].
  { exists r. rewrite Hid. naive_solver. }
  destruct (zap_accept_spec b active frames (if 2 <=? length frames then frames !!! 1 else []) Hlen)
    as (r & -> & Hid & [(Hcode & Hl & He)|(Hcode & _ & Hu & Hm)]); exists r; rewrite Hid.
  - split; [done|]. split; [done|]. split; [|by rewrite Hcode].
    intros _. exists n, b. destruct (bind_curve b); naive_solver.
  - split; [done|]. split; [done|]. split; [by rewrite Hcode|done].
Qed.

(** A listener that admits service nodes as [admin] and everyone else as
    [basic], and a decoder for one-digit bt integers. *)
Definition sample_bind : bind_data :=
  mk_bind_data (B "tcp://*:4567") true 2 (λ _ _ sn, if sn then admin else basic).
Definition sample_bt_size (s : bytes) : option Z :=
  match s with
  | [a; d; e] => if bool_decide (a = "i"%char) && is_digit d && bool_decide (e = "e"%char)
                 then Some (digit_val d) else None
  | _ => None
  end.

Lemma zap_request_spec_witness :
  let pk := replicate 32 "k"%char in
  let frames := [B "1.0"; B "id7"; B "i0e"; B "::ffff:10.0.0.1"; []; B "CURVE"; pk] in
  ∃ r, process_zap_request sample_bt_size [sample_bind] {[ pk ]} frames = Ret r ∧
    zap_code r = B "200" ∧ extract_metadata (mk_message [] (zap_props r)) = Ret (pk, admin).
Proof.
  intros pk frames.
  assert (∀ s n, sample_bt_size s = Some n → (0 ≤ n ≤ SIZE_MAX)%Z) as Hrange.
  { intros [|a [|d [|e [|]]]] n; try done. unfold sample_bt_size.
    destruct (_ && _) eqn:E; [|done]. intros [= <-]. unfold is_digit in E. bool_cases.
    unfold digit_val, SIZE_MAX. change (ord "0") with 48%Z in *. change (ord "9") with 57%Z in *. lia. }
  destruct (zap_request_spec sample_bt_size Hrange [sample_bind] ltac:(done) {[ pk ]} frames)
    as (r & Hr & _ & H200 & _).
  exists r. split; [exact Hr|].
  assert (zap_code r = B "200") as Hcode.
  { vm_compute in Hr. injection Hr as <-. reflexivity. }
  split; [exact Hcode|].
  destruct (H200 Hcode) as (n & b & Hn & Hb & _ & _ & _ & He).
  vm_compute in Hn. injection Hn as <-. injection Hb as <-. rewrite He. vm_compute. reflexivity.
Defined.
