(* ===== verification/ConnId.v ===== *)
(** * ConnId: [oxenmq/connections.h] and [struct peer_info]

    [ConnectionID] with its constructors, comparison operators and hash, the
    [already_hashed] hasher of [auth.h], and the per-connection [peer_info]
    record of [oxenmq.h].  The file also models the one container the proxy
    keeps by connection id, the [std::unordered_multimap] of peers, as the
    list of its entries in iteration order. *)
From S2P Require Import Prelude Bytes Oxenc Auth.
Open Scope Z_scope.
Open Scope nat_scope.

Record ConnectionID := mk_conn {
  conn_id : Z;
  conn_pk : bytes;
  conn_route : bytes;
}.
#[export] Instance ConnectionID_eq_dec : EqDecision ConnectionID.
Proof. solve_decision. Defined.
#[export] Instance ConnectionID_rebuild : Rebuild ConnectionID := λ c,
  mk_conn (conn_id c) (conn_pk c) (conn_route c).

Definition SN_ID : Z := -1.

(** [ConnectionID(std::string pubkey)], [ConnectionID(int64_t)] and the
    default constructor. *)
Definition conn_of_pubkey (pk : bytes) : outcome ConnectionID :=
  if length pk =? 32 then Ret (mk_conn SN_ID pk [])
  else Throw (runtime_error (B "Invalid pubkey: expected 32 bytes")).
Definition conn_of_id (id : Z) : ConnectionID := mk_conn id [] [].
Definition conn_default : ConnectionID := conn_of_id 0.

Definition conn_bool (c : ConnectionID) : bool := negb (conn_id c =? 0)%Z.
Definition conn_sn (c : ConnectionID) : bool := (conn_id c =? SN_ID)%Z.
Definition unrouted (c : ConnectionID) : ConnectionID := c <| conn_route := [] |>.

(** [operator==] and [operator<]; strings compare as unsigned characters. *)
Definition conn_eqb (c o : ConnectionID) : bool :=
  if conn_sn c && conn_sn o then bool_decide (conn_pk c = conn_pk o)
  else (conn_id c =? conn_id o)%Z && bool_decide (conn_route c = conn_route o).

Fixpoint bytes_ltb (s t : bytes) : bool :=
  match s, t with
  | _, [] => false
  | [], _ :: _ => true
  | c :: s, d :: t => (ord c <? ord d)%Z || ((ord c =? ord d)%Z && bytes_ltb s t)
  end.

Definition conn_ltb (c o : ConnectionID) : bool :=
  if conn_sn c && conn_sn o then bytes_ltb (conn_pk c) (conn_pk o)
  else (conn_id c <? conn_id o)%Z ||
       ((conn_id c =? conn_id o)%Z && bytes_ltb (conn_route c) (conn_route o)).

(** [ConnectionID::to_string]. *)
Definition conn_to_string {O : Oxenc} (c : ConnectionID) : bytes :=
  if negb (bool_decide (conn_pk c = [])) then
    if conn_sn c then B "SN " ++ to_hex (conn_pk c)
    else B "non-SN authenticated remote [" ++ to_string (conn_id c) ++ B "] " ++ to_hex (conn_pk c)
  else B "unauthenticated remote [" ++ to_string (conn_id c) ++ B "]".

Section hash.
(** [std::hash<std::string>] and [std::hash<int64_t>]. *)
Context (std_hash_string : bytes → Z) (std_hash_int : Z → Z).

(** [memcpy] of the first eight bytes into a [size_t] (little endian). *)
Definition load64 (s : bytes) : Z := foldr (λ c a, ord c + 256 * a)%Z 0%Z (take 8 s).

Definition already_hashed (s : bytes) : Z :=
  if length s <? 8 then std_hash_string s else load64 s.

Definition conn_hash (c : ConnectionID) : Z :=
  if conn_sn c then already_hashed (conn_pk c)
  else ((std_hash_int (conn_id c) + std_hash_string (conn_route c)) mod 2 ^ 64)%Z.
End hash.

(** ** Peers *)

Record peer_info := mk_peer {
  peer_pubkey : bytes;
  service_node : bool;
  auth_level : AuthLevel;
  peer_conn_id : Z;
  peer_route : bytes;
  last_activity : Z;
  idle_expiry : Z;
}.
#[export] Instance peer_info_eq_dec : EqDecision peer_info.
Proof. unfold AuthLevel. solve_decision. Defined.
#[export] Instance peer_info_rebuild : Rebuild peer_info := λ p,
  mk_peer (peer_pubkey p) (service_node p) (auth_level p) (peer_conn_id p) (peer_route p)
    (last_activity p) (idle_expiry p).

(** [peer_info{}]; the fields without an initializer are given as zero and
    are always assigned by the callers. *)
Definition peer_default : peer_info := mk_peer [] false none 0 [] 0 0.

Definition outgoing (p : peer_info) : bool := bool_decide (peer_route p = []).
Definition activity (now : Z) (p : peer_info) : peer_info := p <| last_activity := now |>.

(** The [std::unordered_multimap<ConnectionID, peer_info>]: keys are compared
    with [operator==]. *)
Abbreviation peer_map := (list (ConnectionID * peer_info)).

Definition has_key (k : ConnectionID) (e : ConnectionID * peer_info) : bool := conn_eqb (fst e) k.

(** [equal_range(k)], [find(k)], [erase(k)] and [emplace(k, v)]. *)
Definition equal_range (k : ConnectionID) (m : peer_map) : peer_map :=
  filter (λ e, has_key k e = true) m.
Definition find_peer (k : ConnectionID) (m : peer_map) : option (ConnectionID * peer_info) :=
  head (equal_range k m).
Definition erase_key (k : ConnectionID) (m : peer_map) : peer_map :=
  filter (λ e, has_key k e = false) m.
Definition emplace (k : ConnectionID) (v : peer_info) (m : peer_map) : peer_map := m ++ [(k, v)].

(** [erase(it)] and writing through an iterator, for the first entry of the
    range of [k] that satisfies [p]. *)
Fixpoint update_first (p : ConnectionID * peer_info → bool)
    (f : ConnectionID * peer_info → list (ConnectionID * peer_info)) (m : peer_map) : peer_map :=
  match m with
  | [] => []
  | e :: m => if p e then f e ++ m else e :: update_first p f m
  end.
Definition erase_first (p : ConnectionID * peer_info → bool) : peer_map → peer_map :=
  update_first p (λ _, []).
Definition modify_first (p : ConnectionID * peer_info → bool) (f : peer_info → peer_info) :
    peer_map → peer_map := update_first p (λ e, [(fst e, f (snd e))]).

(** * Lemmas *)

(** The part of a connection id its comparisons look at. *)
Definition conn_key (c : ConnectionID) : Z * bytes :=
  (conn_id c, if conn_sn c then conn_pk c else conn_route c).

#[export] Instance conn_equiv : Equiv ConnectionID := λ c o, conn_key c = conn_key o.
#[export] Instance conn_equivalence : Equivalence (≡@{ConnectionID}).
Proof. split; [done|by intros ???|]. intros a b c; unfold equiv, conn_equiv; congruence. Qed.

Lemma conn_eqb_equiv c o : conn_eqb c o = true ↔ c ≡ o.
Proof.
  unfold equiv, conn_equiv, conn_eqb, conn_key, conn_sn.
  destruct (Z.eqb_spec (conn_id c) SN_ID) as [E1|E1], (Z.eqb_spec (conn_id o) SN_ID) as [E2|E2];
    cbn [andb]; rewrite ?bool_decide_eq_true, ?andb_true_iff, ?Z.eqb_eq, ?bool_decide_eq_true;
    split; intros; simplify_eq; try destruct_and?; try congruence; auto.
  all: split; congruence.
Qed.

#[export] Instance conn_eqb_proper : Proper ((≡) ==> (≡) ==> (=)) conn_eqb.
Proof.
  intros a b Hab c d Hcd. apply eq_true_iff_eq. rewrite !conn_eqb_equiv. by rewrite Hab, Hcd.
Qed.

Lemma conn_eqb_refl c : conn_eqb c c = true.
Proof. by apply conn_eqb_equiv. Qed.
#[export] Hint Resolve conn_eqb_refl : omq.

Lemma bytes_ltb_irrefl s : bytes_ltb s s = false.
Proof. induction s as [|c s IH]; cbn; [done|]. by rewrite Z.ltb_irrefl, Z.eqb_refl, IH. Qed.

Lemma bytes_ltb_trans s t u :
  bytes_ltb s t = true → bytes_ltb t u = true → bytes_ltb s u = true.
Proof.
  revert t u. induction s as [|c s IH]; intros [|d t] [|e u]; cbn; try done.
  rewrite !orb_true_iff, !andb_true_iff, !Z.ltb_lt, !Z.eqb_eq.
  intros [?|[? Hs]] [?|[? Ht]]; try (left; lia). right. split; [lia|eauto].
Qed.

Lemma bytes_ltb_total s t : bytes_ltb s t = false → bytes_ltb t s = false → s = t.
Proof.
  revert t. induction s as [|c s IH]; intros [|d t]; cbn; try done.
  rewrite !orb_false_iff, !andb_false_iff, !Z.ltb_ge, !Z.eqb_neq.
  intros [? H1] [? H2]. assert (ord c = ord d) as E by lia. apply ord_inj in E as ->.
  f_equal. apply IH; intuition lia.
Qed.

(** [operator<] is the lexicographic order of the keys. *)
Lemma conn_ltb_key c o :
  conn_ltb c o =
    (fst (conn_key c) <? fst (conn_key o))%Z ||
    ((fst (conn_key c) =? fst (conn_key o))%Z && bytes_ltb (snd (conn_key c)) (snd (conn_key o))).
Proof.
  unfold conn_ltb, conn_key, conn_sn. cbn [fst snd].
  destruct (Z.eqb_spec (conn_id c) SN_ID) as [E1|E1], (Z.eqb_spec (conn_id o) SN_ID) as [E2|E2];
    cbn [andb]; [by rewrite E1, E2, Z.ltb_irrefl, Z.eqb_refl| | |done].
  - rewrite E1. by rewrite (proj2 (Z.eqb_neq SN_ID _)) by congruence.
  - rewrite E2. by rewrite (proj2 (Z.eqb_neq _ SN_ID)) by congruence.
Qed.

Lemma equal_range_spec k m e : e ∈ equal_range k m ↔ e ∈ m ∧ fst e ≡ k.
Proof.
  unfold equal_range, has_key. rewrite list_elem_of_filter, conn_eqb_equiv. naive_solver.
Qed.

Lemma erase_key_spec k m e : e ∈ erase_key k m ↔ e ∈ m ∧ ¬ fst e ≡ k.
Proof.
  unfold erase_key, has_key. rewrite list_elem_of_filter, <-conn_eqb_equiv.
  destruct (conn_eqb (fst e) k); naive_solver.
Qed.

#[export] Instance equal_range_proper : Proper ((≡) ==> (=) ==> (=)) equal_range.
Proof.
  intros k1 k2 Hk m ? <-. unfold equal_range, has_key. apply list_filter_iff. intros e.
  by rewrite Hk.
Qed.

Lemma update_first_elem p f m e :
  (∀ x y, y ∈ f x → e ≠ y) → e ∈ update_first p f m → e ∈ m.
Proof.
  intros Hf. induction m as [|x m IH]; cbn; [done|].
  destruct (p x); rewrite ?elem_of_app, ?elem_of_cons; [|naive_solver].
  intros [H|H]; [|by right]. by destruct (Hf x e H).
Qed.

Lemma erase_first_elem p m e : e ∈ erase_first p m → e ∈ m.
Proof. apply update_first_elem. set_solver. Qed.

(** * Claims *)

(** C32: [operator==] on connection ids is an equivalence, equal ids hash
    equally whatever [std::hash] is, and [operator<] is a strict weak order
    whose incomparable ids are exactly the equal ones. *)
Theorem conn_order_hash (hs : bytes → Z) (hi : Z → Z) (a b c : ConnectionID) :
  (conn_eqb a a = true ∧ conn_eqb a b = conn_eqb b a ∧
   (conn_eqb a b = true → conn_eqb b c = true → conn_eqb a c = true)) ∧
  (conn_eqb a b = true → conn_hash hs hi a = conn_hash hs hi b) ∧
  (conn_ltb a a = false ∧
   (conn_ltb a b = true → conn_ltb b c = true → conn_ltb a c = true) ∧
   (conn_eqb a b = true ↔ conn_ltb a b = false ∧ conn_ltb b a = false)).
Proof.
  repeat split.
  - apply conn_eqb_refl.
  - apply eq_true_iff_eq. by rewrite !conn_eqb_equiv.
  - rewrite !conn_eqb_equiv. apply transitivity.
  - intros [= H1 H2]%conn_eqb_equiv. unfold conn_hash, conn_sn in *. rewrite H1 in *.
    destruct (_ =? SN_ID)%Z; congruence.
  - rewrite conn_ltb_key. by rewrite Z.ltb_irrefl, Z.eqb_refl, bytes_ltb_irrefl.
  - rewrite !conn_ltb_key, !orb_true_iff, !andb_true_iff, !Z.ltb_lt, !Z.eqb_eq.
    intros [?|[? Hs]] [?|[? Ht]]; try (left; lia). right.
    split; [lia|by eapply bytes_ltb_trans].
  - rewrite conn_eqb_equiv in *. unfold equiv, conn_equiv in *. rewrite conn_ltb_key.
    match goal with H : conn_key a = conn_key b |- _ => rewrite H end.
    by rewrite Z.ltb_irrefl, Z.eqb_refl, bytes_ltb_irrefl.
  - rewrite conn_eqb_equiv in *. unfold equiv, conn_equiv in *. rewrite conn_ltb_key.
    match goal with H : conn_key a = conn_key b |- _ => rewrite H end.
    by rewrite Z.ltb_irrefl, Z.eqb_refl, bytes_ltb_irrefl.
  - rewrite !conn_ltb_key, conn_eqb_equiv. unfold equiv, conn_equiv.
    rewrite !orb_false_iff, !andb_false_iff, !Z.ltb_ge, !Z.eqb_neq.
    intros [[? H1] [? H2]]. destruct (conn_key a) as [x s], (conn_key b) as [y t]; cbn in *.
    f_equal; [lia|]. apply bytes_ltb_total; intuition lia.
Qed.
