(* ===== verification/Commands.v ===== *)
(** * Commands: categories, commands, aliases and access control

    The registration half of [oxenmq.cpp] ([add_category], [add_command],
    [add_request_command], [add_command_alias]), the lookup [get_command], and
    [proxy_check_auth] of [auth.cpp], which decides whether a peer may invoke
    the command it named and builds the refusal otherwise.

    A [category*] or [category&] of the source is the name of the category:
    map nodes are stable and categories are never removed.  A callback is an
    opaque handle. *)
From S2P Require Import Prelude Bytes Auth ConnId.
Open Scope Z_scope.
Open Scope nat_scope.

Definition MAX_CATEGORY_LENGTH : nat := 50.
Definition MAX_COMMAND_LENGTH : nat := 200.

(** A registered callback ([std::function]) and whether it is a request. *)
Definition callback := nat.
Abbreviation command_entry := (callback * bool)%type.

Record category := mk_category {
  access : Access;
  commands : gmap bytes command_entry;
  reserved_threads : Z;
  active_threads : Z;
  max_queue : Z;
  queued : Z;
}.
#[export] Instance category_rebuild : Rebuild category := λ c,
  mk_category (access c) (commands c) (reserved_threads c) (active_threads c) (max_queue c)
    (queued c).

(** [category(Access, unsigned int, int)]. *)
Definition category_new (acc : Access) (reserved max_q : Z) : category :=
  mk_category acc ∅ reserved 0 max_q 0.

Record registry := mk_registry {
  categories : gmap bytes category;
  command_aliases : gmap bytes bytes;
  started : bool; (* proxy_thread.joinable() *)
}.
#[export] Instance registry_rebuild : Rebuild registry := λ r,
  mk_registry (categories r) (command_aliases r) (started r).

Definition registry_empty : registry := mk_registry ∅ ∅ false.

Definition check_not_started (r : registry) (verb : bytes) : outcome () :=
  if started r then Throw (logic_error (B "Cannot " ++ verb ++ B " after calling `start()`"))
  else Ret ().

Definition add_category (r : registry) (name : bytes) (acc : Access) (reserved max_q : Z) :
    outcome registry :=
  _ ← check_not_started r (B "add a category");
  if MAX_CATEGORY_LENGTH <? length name then
    Throw (runtime_error (B "Invalid category name `" ++ name ++ B "': name too long (> " ++
      to_string (Z.of_nat MAX_CATEGORY_LENGTH) ++ B ")"))
  else if bool_decide (name = []) || bool_decide (is_Some (find_char "." name)) then
    Throw (runtime_error (B "Invalid category name `" ++ name ++ B "'"))
  else if bool_decide (is_Some (categories r !! name)) then
    Throw (runtime_error (B "Unable to add category `" ++ name ++
      B "': that category already exists"))
  else Ret (r <| categories ::= <[ name := category_new acc reserved max_q ]> |>).

(** [category + '.' + name]. *)
Definition fullname (cat name : bytes) : bytes := cat ++ "."%char :: name.

Definition add_command (r : registry) (cat name : bytes) (cb : callback) : outcome registry :=
  _ ← check_not_started r (B "add a command");
  if MAX_COMMAND_LENGTH <? length name then
    Throw (runtime_error (B "Invalid command name `" ++ name ++ B "': name too long (> " ++
      to_string (Z.of_nat MAX_COMMAND_LENGTH) ++ B ")"))
  else
    match categories r !! cat with
    | None => Throw (runtime_error (B "Cannot add a command to unknown category `" ++ cat ++ B "'"))
    | Some c =>
      if bool_decide (is_Some (command_aliases r !! fullname cat name)) then
        Throw (runtime_error (B "Cannot add command `" ++ fullname cat name ++
          B "': a command alias with that name is already defined"))
      else if bool_decide (is_Some (commands c !! name)) then
        Throw (runtime_error (B "Cannot add command `" ++ fullname cat name ++
          B "': that command already exists"))
      else Ret (r <| categories ::= <[ cat := c <| commands ::= <[ name := (cb, false) ]> |> ]> |>)
    end.

(** [categories.at(category).commands.at(name).second = true]. *)
Definition add_request_command (r : registry) (cat name : bytes) (cb : callback) :
    outcome registry :=
  r ← add_command r cat name cb;
  match categories r !! cat with
  | None => Throw (out_of_range (B "unordered_map::at"))
  | Some c =>
    match commands c !! name with
    | None => Throw (out_of_range (B "unordered_map::at"))
    | Some (cb, _) =>
        Ret (r <| categories ::= <[ cat := c <| commands ::= <[ name := (cb, true) ]> |> ]> |>)
    end
  end.

(** [from] is the full name of an existing command. *)
Definition masks_command (r : registry) (from : bytes) : bool :=
  match find_char "." from with
  | Some fromdot =>
      match categories r !! substr from 0 fromdot with
      | Some c => bool_decide (is_Some (commands c !! drop (fromdot + 1) from))
      | None => false
      end
  | None => false
  end.

Definition add_command_alias (r : registry) (from to : bytes) : outcome registry :=
  _ ← check_not_started r (B "add a command alias");
  if bool_decide (from = []) then
    Throw (runtime_error (B "Cannot add an alias for empty command"))
  else
    let fromdot := find_char "." from in
    if bool_decide (fromdot = Some 0) then
      Throw (runtime_error (B "Invalid command alias `" ++ from ++ B "'"))
    else
      let todot := find_char "." to in
      if bool_decide (todot = Some 0) || bool_decide (todot = None) then
        Throw (runtime_error (B "Invalid command alias target `" ++ to ++ B "'"))
      else if masks_command r from then
        Throw (runtime_error (B "Invalid command alias: `" ++ from ++
          B "' would mask an existing command"))
      else if bool_decide (is_Some (command_aliases r !! from)) then
        Throw (runtime_error (B "Cannot add command alias `" ++ from ++
          B "': that alias already exists"))
      else Ret (r <| command_aliases ::= <[ from := to ]> |>).

(** [get_command(std::string& command)]: the command after alias expansion,
    with the category and callback when there is one. *)
Definition get_command (r : registry) (command : bytes) :
    bytes * option (bytes * command_entry) :=
  if MAX_CATEGORY_LENGTH + 1 + MAX_COMMAND_LENGTH <? length command then (command, None)
  else
    let command := default command (command_aliases r !! command) in
    match find_char "." command with
    | None | Some 0 => (command, None)
    | Some dot =>
      let catname := substr command 0 dot in
      let cmd := drop (dot + 1) command in
      match categories r !! catname with
      | None => (command, None)
      | Some c =>
        match commands c !! cmd with
        | None => (command, None)
        | Some e => (command, Some (catname, e))
        end
      end
    end.

(** ** Access control *)

(** The refusal code of [proxy_check_auth], or [None] when access is granted.
    [cat_call] is the result of [get_command]. *)
Definition auth_reply (r : registry) (local_service_node : bool) (peer : peer_info)
    (cat_call : option (bytes * command_entry)) (data : list bytes) : option bytes :=
  match cat_call with
  | None => Some (B "UNKNOWNCOMMAND")
  | Some (cname, (_, is_request)) =>
    match categories r !! cname with
    | None => Some (B "UNKNOWNCOMMAND")
    | Some cat =>
      if (auth_level peer <? auth (access cat))%Z then Some (B "FORBIDDEN")
      else if local_sn (access cat) && negb local_service_node then Some (B "NOT_A_SERVICE_NODE")
      else if remote_sn (access cat) && negb (service_node peer) then Some (B "FORBIDDEN_SN")
      else if is_request && bool_decide (data = []) then Some (B "NO_REPLY_TAG")
      else None
    end
  end.

(** [proxy_check_auth]: whether the command may run, and the message sent back
    to the peer when it may not. *)
Definition proxy_check_auth (r : registry) (local_service_node outgoing : bool)
    (peer : peer_info) (cmd : bytes) (cat_call : option (bytes * command_entry))
    (data : list bytes) : bool * option (list bytes) :=
  match auth_reply r local_service_node peer cat_call data with
  | None => (true, None)
  | Some reply =>
      (false, Some (
        (if outgoing then [] else [peer_route peer]) ++ [reply] ++
        match cat_call, data with
        | Some (_, (_, true)), tag :: _ => [B "REPLY"; tag]
        | _, _ => [cmd]
        end))
  end.

(** * Registration sequences *)

Inductive reg_op :=
  | AddCategory (name : bytes) (acc : Access) (reserved max_q : Z)
  | AddCommand (cat name : bytes) (cb : callback)
  | AddRequestCommand (cat name : bytes) (cb : callback)
  | AddCommandAlias (from to : bytes).

Definition run_op (r : registry) (op : reg_op) : outcome registry :=
  match op with
  | AddCategory name acc reserved max_q => add_category r name acc reserved max_q
  | AddCommand cat name cb => add_command r cat name cb
  | AddRequestCommand cat name cb => add_request_command r cat name cb
  | AddCommandAlias from to => add_command_alias r from to
  end.

(** A call that throws leaves the registry as it was. *)
Definition apply_op (r : registry) (op : reg_op) : registry := default r (result (run_op r op)).
Definition apply_ops (ops : list reg_op) : registry := foldl apply_op registry_empty ops.

(** * Invariant *)

Record registry_ok (r : registry) : Prop := {
  ok_category n c : categories r !! n = Some c →
    n ≠ [] ∧ ("."%char ∉ n) ∧ length n ≤ MAX_CATEGORY_LENGTH;
  ok_command n c m e : categories r !! n = Some c → commands c !! m = Some e →
    length m ≤ MAX_COMMAND_LENGTH;
  ok_unmasked n c m e : categories r !! n = Some c → commands c !! m = Some e →
    command_aliases r !! fullname n m = None;
  ok_alias f t : command_aliases r !! f = Some t →
    f ≠ [] ∧ find_char "." t ≠ None ∧ find_char "." t ≠ Some 0;
}.

Lemma registry_empty_ok : registry_ok registry_empty.
Proof. split; cbn; set_solver. Qed.

(** A successful [add_*] call, as an update of the two maps. *)
Lemma add_category_Ret r name acc reserved max_q r' :
  add_category r name acc reserved max_q = Ret r' →
  started r = false ∧ name ≠ [] ∧ ("."%char ∉ name) ∧ length name ≤ MAX_CATEGORY_LENGTH ∧
  categories r !! name = None ∧
  r' = r <| categories ::= <[ name := category_new acc reserved max_q ]> |>.
Proof.
  unfold add_category, check_not_started. destruct (started r); [done|].
  cbn [mbind outcome_bind]. destruct (_ <? _) eqn:E1; [done|].
  destruct (_ || _) eqn:E2; [done|]. destruct (bool_decide (is_Some (categories r !! name))) eqn:E3; [done|].
  intros [= <-]. bool_cases. repeat split; try done.
  - by apply find_char_None, eq_None_not_Some.
  - by apply eq_None_not_Some.
Qed.

Lemma add_command_Ret r cat name cb r' :
  add_command r cat name cb = Ret r' →
  ∃ c, started r = false ∧ length name ≤ MAX_COMMAND_LENGTH ∧ categories r !! cat = Some c ∧
    command_aliases r !! fullname cat name = None ∧ commands c !! name = None ∧
    r' = r <| categories ::= <[ cat := c <| commands ::= <[ name := (cb, false) ]> |> ]> |>.
Proof.
  unfold add_command, check_not_started. destruct (started r); [done|].
  cbn [mbind outcome_bind]. destruct (_ <? _) eqn:E1; [done|].
  destruct (categories r !! cat) as [c|]; [|done].
  destruct (bool_decide _) eqn:E2; [done|]. destruct (bool_decide (is_Some (commands c !! name))) eqn:E3; [done|].
  intros [= <-]. bool_cases. exists c. repeat split; try done; by apply eq_None_not_Some.
Qed.

Lemma add_request_command_Ret r cat name cb r' :
  add_request_command r cat name cb = Ret r' →
  ∃ c, started r = false ∧ length name ≤ MAX_COMMAND_LENGTH ∧ categories r !! cat = Some c ∧
    command_aliases r !! fullname cat name = None ∧ commands c !! name = None ∧
    r' = r <| categories ::= <[ cat := c <| commands ::= <[ name := (cb, true) ]> |> ]> |>.
Proof.
  unfold add_request_command. intros H. inv_bind H.
  apply add_command_Ret in E as (c & ? & ? & ? & ? & ? & ->). exists c.
  cbn [categories] in H. unfold modify in H. cbn in H.
  rewrite lookup_insert_eq in H. cbn in H. rewrite lookup_insert_eq in H. injection H as <-.
  repeat split; try done. unfold modify. cbn. by rewrite !insert_insert_eq.
Qed.

Lemma add_command_alias_Ret r from to r' :
  add_command_alias r from to = Ret r' →
  started r = false ∧ from ≠ [] ∧ find_char "." to ≠ None ∧ find_char "." to ≠ Some 0 ∧
  (∀ n c m e, categories r !! n = Some c → "."%char ∉ n → commands c !! m = Some e →
     from ≠ fullname n m) ∧
  command_aliases r !! from = None ∧ r' = r <| command_aliases ::= <[ from := to ]> |>.
Proof.
  unfold add_command_alias, check_not_started. destruct (started r); [done|].
  cbn [mbind outcome_bind]. destruct (bool_decide (from = [])) eqn:E1; [done|].
  destruct (bool_decide (find_char "." from = Some 0)) eqn:E2; [done|].
  destruct (_ || _) eqn:E3; [done|].
  destruct (masks_command r from) eqn:E4; [done|].
  destruct (bool_decide (is_Some (command_aliases r !! from))) eqn:E5; [done|]. intros [= <-]. bool_cases.
  repeat split; try done; [|by apply eq_None_not_Some].
  intros n c m e Hn Hdot Hm ->. unfold masks_command, fullname in E4. rewrite find_char_app in E4 by done.
  unfold substr in E4. rewrite drop_0, take_app_length, Hn, Nat.add_1_r, drop_app_cons in E4.
  rewrite Hm in E4. apply bool_decide_eq_false in E4. eauto.
Qed.

Lemma run_op_ok r op r' : registry_ok r → run_op r op = Ret r' → registry_ok r'.
Proof.
  intros [Hcat Hcmd Hmask Hal]. destruct op; cbn [run_op].
  - intros (_ & ? & ? & ? & Hnew & ->)%add_category_Ret.
    split; unfold modify; cbn; intros *; try rewrite !lookup_insert_Some; naive_solver.
  - intros (c & _ & ? & Hc & ? & ? & ->)%add_command_Ret.
    split; unfold modify; cbn; intros *; rewrite ?lookup_insert_Some; [naive_solver|..|eauto];
      intros [[<- <-]|[Hne Hn]]; cbn; rewrite ?lookup_insert_Some; naive_solver.
  - intros (c & _ & ? & Hc & ? & ? & ->)%add_request_command_Ret.
    split; unfold modify; cbn; intros *; rewrite ?lookup_insert_Some; [naive_solver|..|eauto];
      intros [[<- <-]|[Hne Hn]]; cbn; rewrite ?lookup_insert_Some; naive_solver.
  - intros (_ & ? & ? & ? & Hun & ? & ->)%add_command_alias_Ret.
    split; unfold modify; cbn; intros *; [eauto|eauto|..].
    + intros Hn Hm. rewrite lookup_insert_ne; [eauto|].
      destruct (Hcat _ _ Hn) as (_ & Hdot & _). intros ->. by eapply Hun.
    + rewrite lookup_insert_Some. naive_solver.
Qed.

Lemma apply_ops_ok ops : registry_ok (apply_ops ops).
Proof.
  unfold apply_ops. generalize registry_empty_ok. generalize registry_empty.
  induction ops as [|op ops IH]; intros r Hr; [done|]. cbn. apply IH. unfold apply_op.
  destruct (run_op r op) eqn:E; cbn; [|done..]. by eapply run_op_ok.
Qed.

(** ** Lookup *)

Lemma get_command_resolved r s c cat n e :
  registry_ok r → length s ≤ MAX_CATEGORY_LENGTH + 1 + MAX_COMMAND_LENGTH →
  default s (command_aliases r !! s) = fullname c n → categories r !! c = Some cat → commands cat !! n = Some e →
  get_command r s = (fullname c n, Some (c, e)).
Proof.
  intros Hok Hlen Hs Hc Hn. destruct (ok_category _ Hok _ _ Hc) as (Hne & Hdot & _).
  unfold get_command. rewrite (proj2 (Nat.ltb_ge _ _)), Hs by done.
  unfold fullname at 1. rewrite find_char_app by done.
  destruct (length c) as [|k] eqn:Hk; [by destruct c|]. rewrite <-Hk.
  unfold substr, fullname. rewrite drop_0, take_app_length, Nat.add_1_r, drop_app_cons.
  by rewrite Hc, Hn.
Qed.

Lemma get_command_fullname r c cat n e :
  registry_ok r → categories r !! c = Some cat → commands cat !! n = Some e →
  get_command r (fullname c n) = (fullname c n, Some (c, e)).
Proof.
  intros Hok Hc Hn. apply (get_command_resolved r _ c cat n e Hok); [|by rewrite (ok_unmasked _ Hok _ _ _ _ Hc Hn)|done|done].
  destruct (ok_category _ Hok _ _ Hc) as (_ & _ & Hlen). pose proof (ok_command _ Hok _ _ _ _ Hc Hn).
  unfold fullname. rewrite length_app. cbn [length]. lia.
Qed.

Lemma get_command_Some r s s' c e :
  get_command r s = (s', Some (c, e)) →
  s' = default s (command_aliases r !! s) ∧ length s ≤ MAX_CATEGORY_LENGTH + 1 + MAX_COMMAND_LENGTH ∧
  ∃ cat n, s' = fullname c n ∧ ("."%char ∉ c) ∧
    categories r !! c = Some cat ∧ commands cat !! n = Some e.
Proof.
  unfold get_command. destruct (Nat.ltb_spec (MAX_CATEGORY_LENGTH + 1 + MAX_COMMAND_LENGTH) (length s)); [done|].
  destruct (find_char "." _) as [[|d]|] eqn:Hdot; [done| |done].
  destruct (categories r !! _) as [cat|] eqn:Hc; [|done].
  destruct (commands cat !! _) as [e'|] eqn:Hn; [|done].
  intros [= <- <- <-]. split; [done|]. split; [done|]. exists cat, (drop (S d + 1) (default s (command_aliases r !! s))).
  apply find_char_Some in Hdot as (_ & Heq & Hno). unfold substr in *. rewrite drop_0 in *.
  repeat split; try done. unfold fullname. rewrite Nat.add_1_r. done.
Qed.

(** ** The registry and the calls that were accepted *)

Fixpoint accepted (r : registry) (ops : list reg_op) : list reg_op :=
  match ops with
  | [] => []
  | op :: ops => match run_op r op with Ret r' => op :: accepted r' ops | _ => accepted r ops end
  end.

Definition registers_category (acc : list reg_op) (c : bytes) : Prop :=
  ∃ a reserved max_q, AddCategory c a reserved max_q ∈ acc.
Definition registers (acc : list reg_op) (c n : bytes) (e : command_entry) : Prop :=
  (if snd e then AddRequestCommand c n (fst e) else AddCommand c n (fst e)) ∈ acc.

(** What a call may add to the calls [acc]. *)
Definition acceptable (acc : list reg_op) (op : reg_op) : Prop :=
  match op with
  | AddCategory n _ _ _ => n ≠ [] ∧ ("."%char ∉ n) ∧ length n ≤ MAX_CATEGORY_LENGTH ∧ ¬ registers_category acc n
  | AddCommand c n _ | AddRequestCommand c n _ =>
      length n ≤ MAX_COMMAND_LENGTH ∧ registers_category acc c ∧
      (∀ t, AddCommandAlias (fullname c n) t ∉ acc) ∧ (∀ e, ¬ registers acc c n e)
  | AddCommandAlias from to =>
      from ≠ [] ∧ find_char "." from ≠ Some 0 ∧ find_char "." to ≠ None ∧ find_char "." to ≠ Some 0 ∧
      (∀ c n e, registers acc c n e → from ≠ fullname c n) ∧ (∀ t, AddCommandAlias from t ∉ acc)
  end.

Record represents (acc : list reg_op) (r : registry) : Prop := {
  rep_started : started r = false;
  rep_category c : is_Some (categories r !! c) ↔ registers_category acc c;
  rep_command c n e :
    (∃ cat, categories r !! c = Some cat ∧ commands cat !! n = Some e) ↔ registers acc c n e;
  rep_alias from to : command_aliases r !! from = Some to ↔ AddCommandAlias from to ∈ acc;
}.

Lemma represents_empty : represents [] registry_empty.
Proof.
  split; [done|..].
  - intros c. split; [by intros [? ?]|]. intros (? & ? & ? & []%not_elem_of_nil).
  - intros c n e. split; [by intros (? & ? & _)|]. intros []%not_elem_of_nil.
  - intros f t. split; [done|]. intros []%not_elem_of_nil.
Qed.

(** A category is registered, or a command in one. *)
Lemma represents_add_category acc r n a reserved max_q :
  represents acc r → categories r !! n = None →
  represents (acc ++ [AddCategory n a reserved max_q])
    (r <| categories ::= <[ n := category_new a reserved max_q ]> |>).
Proof.
  intros [H1 H2 H3 H4] Hn. split; [done|..]; unfold modify; cbn [categories command_aliases].
  - intros c. unfold registers_category. setoid_rewrite elem_of_app. setoid_rewrite list_elem_of_singleton.
    destruct (decide (c = n)) as [->|Hne].
    + rewrite lookup_insert_eq. split; [by eauto 6|by eexists].
    + rewrite lookup_insert_ne by done. rewrite H2. unfold registers_category. naive_solver.
  - intros c m e. unfold registers. rewrite elem_of_app, list_elem_of_singleton.
    transitivity (registers acc c m e).
    + rewrite <- H3. destruct (decide (c = n)) as [->|Hne].
      * rewrite lookup_insert_eq, Hn. split; [|naive_solver]. intros (? & [= <-] & Hm). cbn in Hm. by rewrite lookup_empty in Hm.
      * by rewrite lookup_insert_ne by done.
    + unfold registers. destruct (snd e); naive_solver.
  - intros f t. rewrite H4, elem_of_app, list_elem_of_singleton. naive_solver.
Qed.
Lemma represents_add_command acc r c n cb req cat :
  represents acc r → categories r !! c = Some cat → commands cat !! n = None →
  represents (acc ++ [if req : bool then AddRequestCommand c n cb else AddCommand c n cb])
    (r <| categories ::= <[ c := cat <| commands ::= <[ n := (cb, req) ]> |> ]> |>).
Proof.
  intros [H1 H2 H3 H4] Hc Hn. split; [done|..]; unfold modify; cbn [categories command_aliases].
  - intros c'. unfold registers_category. setoid_rewrite elem_of_app. setoid_rewrite list_elem_of_singleton.
    transitivity (registers_category acc c').
    + rewrite <- H2. destruct (decide (c' = c)) as [->|Hne]; [|by rewrite lookup_insert_ne].
      rewrite lookup_insert_eq, Hc. split; by eexists.
    + unfold registers_category. destruct req; naive_solver.
  - intros c' m [cb' req']. unfold registers. cbn [fst snd]. rewrite elem_of_app, list_elem_of_singleton.
    specialize (H3 c' m (cb', req')). unfold registers in H3. cbn [fst snd] in H3. rewrite <- H3.
    destruct (decide (c' = c)) as [->|Hne].
    + rewrite lookup_insert_eq, Hc. destruct (decide (m = n)) as [->|Hm].
      * split; [intros (? & [= <-] & Hx)|].
        { cbn [commands] in Hx. rewrite lookup_insert_eq in Hx. injection Hx as <- <-. by right. }
        intros [(? & [= <-] & Hx)|Hx]; [congruence|]. eexists. split; [done|]. cbn [commands]. rewrite lookup_insert_eq.
        destruct req, req'; naive_solver.
      * split; [intros (? & [= <-] & Hx)|].
        { cbn [commands] in Hx. rewrite lookup_insert_ne in Hx by done. left. eauto. }
        intros [(? & [= <-] & Hx)|Hx]; [|destruct req, req'; naive_solver]. eexists. split; [done|]. cbn [commands].
        by rewrite lookup_insert_ne by done.
    + rewrite lookup_insert_ne by done. split; [by left|]. intros [|Hx]; [done|]. destruct req, req'; naive_solver.
  - intros f t. rewrite H4, elem_of_app, list_elem_of_singleton. destruct req; naive_solver.
Qed.

Lemma represents_step acc r op r' : represents acc r → run_op r op = Ret r' → represents (acc ++ [op]) r'.
Proof.
  intros Hrep H. destruct op; cbn [run_op] in H.
  - apply add_category_Ret in H as (_ & _ & _ & _ & Hn & ->). by apply represents_add_category.
  - apply add_command_Ret in H as (c & _ & _ & Hc & _ & Hn & ->). by apply (represents_add_command _ _ _ _ _ false).
  - apply add_request_command_Ret in H as (c & _ & _ & Hc & _ & Hn & ->). by apply (represents_add_command _ _ _ _ _ true).
  - apply add_command_alias_Ret in H as (_ & _ & _ & _ & _ & Hn & ->). destruct Hrep as [H1 H2 H3 H4].
    split; [done|..]; unfold modify; cbn [categories command_aliases].
    + intros c. rewrite H2. unfold registers_category. setoid_rewrite elem_of_app. setoid_rewrite list_elem_of_singleton.
      naive_solver.
    + intros c n e. rewrite H3. unfold registers. rewrite elem_of_app, list_elem_of_singleton. destruct (snd e); naive_solver.
    + intros f t. rewrite lookup_insert_Some, elem_of_app, list_elem_of_singleton, <- H4.
      destruct (decide (from = f)) as [->|Hne]; [rewrite Hn|]; naive_solver.
Qed.

Lemma accepted_represents_from ops acc r :
  represents acc r → represents (acc ++ accepted r ops) (foldl apply_op r ops).
Proof.
  revert acc r. induction ops as [|op ops IH]; intros acc r Hr; cbn [accepted foldl]; [by rewrite app_nil_r|].
  unfold apply_op at 2. destruct (run_op r op) as [r'| |] eqn:E; cbn [result default from_option id]; [|by apply IH..].
  rewrite cons_middle, app_assoc. apply IH. by eapply represents_step.
Qed.
Lemma accepted_represents ops : represents (accepted registry_empty ops) (apply_ops ops).
Proof. apply (accepted_represents_from ops [] registry_empty), represents_empty. Qed.

Lemma add_command_accepts acc r c n cb :
  represents acc r → (∃ r', add_command r c n cb = Ret r') ↔ acceptable acc (AddCommand c n cb).
Proof.
  intros [H1 H2 H3 H4]. cbn [acceptable]. split.
  - intros (r' & (cat & _ & Hlen & Hc & Ha & Hn & _)%add_command_Ret). split_and!; [done|rewrite <- H2, Hc; by eexists|..].
    + intros t. rewrite <- H4, Ha. done.
    + intros e. rewrite <- H3. naive_solver.
  - intros (Hlen & [cat Hc]%H2 & Ha & Hn). unfold add_command, check_not_started. rewrite H1. cbn [mbind outcome_bind].
    rewrite (proj2 (Nat.ltb_ge _ _)), Hc by done.
    rewrite bool_decide_false by (intros [t Ht%H4]; by destruct (Ha t)).
    rewrite bool_decide_false by (intros [e He]; apply (Hn e), H3; eauto). by eexists.
Qed.
Lemma add_request_accepts r c n cb :
  (∃ r', add_request_command r c n cb = Ret r') ↔ (∃ r', add_command r c n cb = Ret r').
Proof.
  unfold add_request_command. split; intros [r' H].
  - inv_bind H. eauto.
  - rewrite H. cbn [mbind outcome_bind]. apply add_command_Ret in H as (cat & _ & _ & _ & _ & _ & ->).
    unfold modify; cbn. rewrite lookup_insert_eq. cbn. rewrite lookup_insert_eq. by eexists.
Qed.

(** What [masks_command] looks for. *)
Lemma masks_command_spec r from :
  masks_command r from = true →
  ∃ c cat n e, categories r !! c = Some cat ∧ commands cat !! n = Some e ∧ from = fullname c n.
Proof.
  unfold masks_command. destruct (find_char "." from) as [d|] eqn:Hd; [|done].
  destruct (categories r !! _) as [cat|] eqn:Hc; [|done]. intros [e He]%bool_decide_eq_true.
  apply find_char_Some in Hd as (_ & Heq & _). exists (substr from 0 d), cat, (drop (d + 1) from), e. split_and!; [done|done|].
  unfold fullname, substr in *. rewrite drop_0, Nat.add_1_r in *. done.
Qed.

(** The guards of the calls are those of the specification. *)
Lemma represents_accepts acc r op :
  represents acc r → registry_ok r → (∃ r', run_op r op = Ret r') ↔ acceptable acc op.
Proof.
  intros Hrep Hok. pose proof Hrep as [H1 H2 H3 H4].
  destruct op as [n a rs mq|c n cb|c n cb|from to]; cbn [run_op].
  - split.
    + intros (r' & (_ & Hne & Hdot & Hlen & Hnew & _)%add_category_Ret). cbn [acceptable]. split_and!; try done.
      rewrite <- H2, Hnew. by intros [].
    + intros (Hne & Hdot & Hlen & Hnew). unfold add_category, check_not_started. rewrite H1. cbn [mbind outcome_bind].
      rewrite (proj2 (Nat.ltb_ge _ _)) by done. rewrite (bool_decide_false (n = [])) by done.
      rewrite bool_decide_false by (rewrite (proj2 (find_char_None _ _) Hdot); by intros []).
      rewrite bool_decide_false by (by rewrite H2). by eexists.
  - by apply add_command_accepts.
  - rewrite add_request_accepts. by apply add_command_accepts.
  - split.
    + intros [r' H]. assert (find_char "." from ≠ Some 0) as Hdot.
      { intros Hd. unfold add_command_alias, check_not_started in H. rewrite H1 in H. cbn [mbind outcome_bind] in H.
        destruct (bool_decide (from = [])); [done|]. by rewrite bool_decide_true in H. }
      apply add_command_alias_Ret in H as (_ & Hne & Ht1 & Ht2 & Hm & Ha & _). cbn [acceptable]. split_and!; try done.
      * intros c n e (cat & Hc & Hn)%H3. apply (Hm c cat n e); [done| |done]. by destruct (ok_category _ Hok _ _ Hc) as (_ & ? & _).
      * intros t. rewrite <- H4, Ha. done.
    + intros (Hne & Hdot & Ht1 & Ht2 & Hm & Ha). unfold add_command_alias, check_not_started. rewrite H1.
      cbn [mbind outcome_bind]. rewrite !bool_decide_false by done. cbn [orb].
      destruct (masks_command r from) eqn:Hmask.
      { exfalso. apply masks_command_spec in Hmask as (c & cat & n & e & Hc & Hn & Hf). eapply Hm; [|exact Hf]. apply H3. eauto. }
      rewrite bool_decide_false by (intros [t Ht%H4]; by destruct (Ha t)). by eexists.
Qed.

(** The tests of [proxy_check_auth] on a known command. *)
Lemma auth_reply_known r lsn peer c cb is_req data cat :
  categories r !! c = Some cat →
  (auth_reply r lsn peer (Some (c, (cb, is_req))) data = None ↔
     (auth (access cat) ≤ auth_level peer)%Z ∧
     (local_sn (access cat) = true → lsn = true) ∧
     (remote_sn (access cat) = true → service_node peer = true) ∧
     (is_req = true → data ≠ [])) ∧
  (∀ code, auth_reply r lsn peer (Some (c, (cb, is_req))) data = Some code →
     code ∈ [B "FORBIDDEN"; B "NOT_A_SERVICE_NODE"; B "FORBIDDEN_SN"; B "NO_REPLY_TAG"]).
Proof.
  intros Hc. unfold auth_reply. rewrite Hc.
  destruct (Z.ltb_spec (auth_level peer) (auth (access cat))).
  { split; [split; [done|]; intros; lia|]. intros code [= <-]. by apply (bool_decide_unpack _). }
  destruct (local_sn (access cat) && negb lsn) eqn:E1.
  { bool_cases. split; [|intros code [= <-]; by apply (bool_decide_unpack _)].
    split; [done|]. intros (_ & Hl & _). rewrite Hl in * by done. done. }
  destruct (remote_sn (access cat) && negb (service_node peer)) eqn:E2.
  { bool_cases. split; [|intros code [= <-]; by apply (bool_decide_unpack _)].
    split; [done|]. intros (_ & _ & Hr & _). rewrite Hr in * by done. done. }
  destruct (is_req && bool_decide (data = [])) eqn:E3.
  { bool_cases. split; [|intros code [= <-]; by apply (bool_decide_unpack _)]. naive_solver. }
  split; [|done]. split; [|done]. intros _. split; [lia|].
  destruct (local_sn (access cat)), (remote_sn (access cat)), is_req; cbn [andb] in *;
    bool_cases; naive_solver.
Qed.

(** * Claims *)

(** C30: the registry is what was registered.  After any sequence of registration
    calls a further call is accepted exactly when the calls accepted so far allow it
    ([acceptable]), and [get_command] finds a command for a string exactly when an
    accepted [add_command] or [add_request_command] registered it, with that callback
    and as that kind, and the string is either its full name [category.name], which
    no alias can mask, or an accepted alias of it; aliases are expanded once, and a
    string longer than a full name can be is not looked up. *)
Theorem registry_lookup (ops : list reg_op) :
  let r := apply_ops ops in
  let acc := accepted registry_empty ops in
  (∀ op, (∃ r', run_op r op = Ret r') ↔ acceptable acc op) ∧
  (∀ s s' c e, get_command r s = (s', Some (c, e)) ↔
     ∃ n, s' = fullname c n ∧ registers acc c n e ∧
       (s = s' ∨ AddCommandAlias s s' ∈ acc ∧ length s ≤ MAX_CATEGORY_LENGTH + 1 + MAX_COMMAND_LENGTH)).
Proof.
  intros r acc. pose proof (apply_ops_ok ops) as Hok. pose proof (accepted_represents ops) as Hrep. fold r in Hok, Hrep.
  fold acc in Hrep. split; [intros op; by apply represents_accepts|]. intros s s' c e. split.
  - intros H. apply get_command_Some in H as (Hs & Hlen & cat & n & Hf & _ & Hc & Hn). exists n. split; [done|].
    split; [by apply (rep_command _ _ Hrep); eauto|].
    destruct (command_aliases r !! s) as [t|] eqn:Ht; cbn in Hs; subst s'; [right|by left].
    by split; [apply (rep_alias _ _ Hrep)|].
  - intros (n & -> & (cat & Hc & Hn)%(rep_command _ _ Hrep) & [->|[Ha Hlen]]).
    + by apply (get_command_fullname _ _ cat).
    + apply (get_command_resolved _ _ _ cat); [done|done| |done|done]. apply (rep_alias _ _ Hrep) in Ha. by rewrite Ha.
Qed.

(** Registering a command that is accepted makes it callable under its
    full name, as a request exactly when [add_request_command] was used, and
    changes nothing for any string that resolved to a command before. *)
Theorem add_command_effect (ops : list reg_op) (req : bool) (cat name : bytes) (cb : callback)
  (r' : registry)
  (Hadd : (if req then add_request_command else add_command) (apply_ops ops) cat name cb = Ret r') :
  get_command r' (fullname cat name) = (fullname cat name, Some (cat, (cb, req))) ∧
  (∀ s s' e, get_command (apply_ops ops) s = (s', Some e) → get_command r' s = (s', Some e)).
Proof.
  set (r := apply_ops ops) in *. pose proof (apply_ops_ok ops) as Hok. fold r in Hok.
  assert (registry_ok r' ∧ ∃ c, categories r !! cat = Some c ∧ commands c !! name = None ∧
    r' = r <| categories ::= <[ cat := c <| commands ::= <[ name := (cb, req) ]> |> ]> |>)
    as (Hok' & c & Hc & Hnew & ->).
  { destruct req.
    - split; [by eapply (run_op_ok r (AddRequestCommand cat name cb))|].
      apply add_request_command_Ret in Hadd as (c & ? & ? & ? & ? & ? & ->); eauto.
    - split; [by eapply (run_op_ok r (AddCommand cat name cb))|].
      apply add_command_Ret in Hadd as (c & ? & ? & ? & ? & ? & ->); eauto. }
  split.
  - eapply (get_command_fullname _ _ (c <| commands ::= <[ name := (cb, req) ]> |>)); [done| |];
      unfold modify; cbn; by rewrite lookup_insert_eq.
  - intros s s' [c' e] H. pose proof H as H'. revert H'. unfold get_command at 1.
    destruct (_ <? _) eqn:Hlen; [done|]. intros _.
    apply get_command_Some in H as (Hs & _ & cat' & n & -> & Hdot & Hc' & Hn).
    unfold get_command. rewrite Hlen. unfold modify; cbn [command_aliases categories].
    rewrite <-Hs. unfold fullname at 1. rewrite find_char_app by done.
    destruct (ok_category _ Hok _ _ Hc') as (Hne & _ & _).
    destruct (length c') as [|k] eqn:Hk; [by destruct c'|]. rewrite <-Hk.
    unfold substr, fullname. rewrite drop_0, take_app_length, Nat.add_1_r, drop_app_cons.
    destruct (decide (c' = cat)) as [->|Hcne].
    + rewrite lookup_insert_eq. simplify_eq. cbn.
      rewrite lookup_insert_ne by congruence. by rewrite Hn.
    + rewrite lookup_insert_ne by done. by rewrite Hc', Hn.
Qed.

Lemma add_command_effect_witness :
  let ops := [AddCategory (B "rpc") Access_default 0 200;
              AddCommand (B "rpc") (B "get_height") 1;
              AddCommandAlias (B "height") (B "rpc.get_height")] in
  ∃ r', add_request_command (apply_ops ops) (B "rpc") (B "submit") 2 = Ret r' ∧
    get_command r' (B "rpc.submit") = (B "rpc.submit", Some (B "rpc", (2, true))) ∧
    get_command r' (B "height") = (B "rpc.get_height", Some (B "rpc", (1, false))).
Proof.
  intros ops.
  destruct (add_request_command (apply_ops ops) (B "rpc") (B "submit") 2) as [r'| |] eqn:E;
    [|vm_compute in E; discriminate E..].
  exists r'. split; [reflexivity|].
  destruct (add_command_effect ops true (B "rpc") (B "submit") 2 r' E) as [H1 H2].
  split; [exact H1|]. apply H2. vm_compute. reflexivity.
Defined.

(** Nothing can be registered once the proxy thread runs. *)
Theorem registration_frozen (r : registry) (op : reg_op) (Hstart : started r = true) :
  (∃ w, run_op r op = Throw (logic_error w)) ∧ apply_op r op = r.
Proof.
  assert (∃ w, run_op r op = Throw (logic_error w)) as [w Hw].
  { destruct op; cbn [run_op];
      unfold add_request_command, add_category, add_command, add_command_alias, check_not_started;
      rewrite Hstart; cbn; eauto. }
  split; [eauto|]. unfold apply_op. by rewrite Hw.
Qed.

Lemma registration_frozen_witness :
  (∃ w, run_op (registry_empty <| started := true |>) (AddCommandAlias (B "a") (B "b.c")) =
     Throw (logic_error w)) ∧
  apply_op (registry_empty <| started := true |>) (AddCommandAlias (B "a") (B "b.c")) =
    registry_empty <| started := true |>.
Proof. apply registration_frozen. reflexivity. Defined.

(** The tests of [proxy_check_auth] in their order, and the code of the first one
    that fails. *)
Inductive refusal (r : registry) (local_mode : bool) (peer : peer_info) (data : list bytes) :
    option (bytes * command_entry) → bytes → Prop :=
  | refused_unknown : refusal r local_mode peer data None (B "UNKNOWNCOMMAND")
  | refused_level c e cat :
      categories r !! c = Some cat → (auth_level peer < auth (access cat))%Z →
      refusal r local_mode peer data (Some (c, e)) (B "FORBIDDEN")
  | refused_local c e cat :
      categories r !! c = Some cat → (auth (access cat) ≤ auth_level peer)%Z →
      local_sn (access cat) = true → local_mode = false →
      refusal r local_mode peer data (Some (c, e)) (B "NOT_A_SERVICE_NODE")
  | refused_remote c e cat :
      categories r !! c = Some cat → (auth (access cat) ≤ auth_level peer)%Z →
      (local_sn (access cat) = true → local_mode = true) →
      remote_sn (access cat) = true → service_node peer = false →
      refusal r local_mode peer data (Some (c, e)) (B "FORBIDDEN_SN")
  | refused_no_tag c cb cat :
      categories r !! c = Some cat → (auth (access cat) ≤ auth_level peer)%Z →
      (local_sn (access cat) = true → local_mode = true) →
      (remote_sn (access cat) = true → service_node peer = true) → data = [] →
      refusal r local_mode peer data (Some (c, (cb, true))) (B "NO_REPLY_TAG").

Lemma auth_reply_refused r lsn peer cc data code :
  (∀ c e, cc = Some (c, e) → is_Some (categories r !! c)) →
  auth_reply r lsn peer cc data = Some code → refusal r lsn peer data cc code.
Proof.
  intros Hcat. unfold auth_reply. destruct cc as [[c [cb is_req]]|]; [|intros [= <-]; constructor].
  destruct (Hcat _ _ eq_refl) as [cat Hc]. rewrite Hc.
  destruct (Z.ltb_spec (auth_level peer) (auth (access cat))); [intros [= <-]; by eapply refused_level|].
  destruct (local_sn (access cat) && negb lsn) eqn:E1.
  { intros [= <-]. apply andb_true_iff in E1 as [? ?%negb_true_iff]. by eapply refused_local. }
  assert (local_sn (access cat) = true → lsn = true) as Hl by (intros Hx; rewrite Hx in E1; by destruct lsn).
  destruct (remote_sn (access cat) && negb (service_node peer)) eqn:E2.
  { intros [= <-]. apply andb_true_iff in E2 as [? ?%negb_true_iff]. by eapply refused_remote. }
  assert (remote_sn (access cat) = true → service_node peer = true) as Hr
    by (intros Hx; rewrite Hx in E2; by destruct (service_node peer)).
  destruct (is_req && bool_decide (data = [])) eqn:E3; [|done].
  apply andb_true_iff in E3 as [-> ?%bool_decide_eq_true]. intros [= <-]. by eapply refused_no_tag.
Qed.

(** C29: [proxy_check_auth] lets a message through exactly when it names a
    command, the peer's level reaches the level of the category, the local
    and remote service node requirements of the category hold, and a request
    carries a reply tag.  Otherwise the peer is sent one message: the route
    for an incoming connection, the code of the first failing test in that order
    ([refusal]), and then [REPLY] with the tag exactly when the command is a request
    that carries one, else the name of the command. *)
Theorem check_auth_spec (ops : list reg_op) (local_sn_mode outg : bool) (peer : peer_info)
  (command : bytes) (data : list bytes) :
  let r := apply_ops ops in
  let cat_call := snd (get_command r command) in
  let res := proxy_check_auth r local_sn_mode outg peer command cat_call data in
  (fst res = true ↔
     ∃ c cat cb is_req, cat_call = Some (c, (cb, is_req)) ∧ categories r !! c = Some cat ∧
       (auth (access cat) ≤ auth_level peer)%Z ∧
       (local_sn (access cat) = true → local_sn_mode = true) ∧
       (remote_sn (access cat) = true → service_node peer = true) ∧
       (is_req = true → data ≠ [])) ∧
  (fst res = true → snd res = None) ∧
  (fst res = false → ∃ code tail, snd res = Some ((if outg then [] else [peer_route peer]) ++ code :: tail) ∧
     refusal r local_sn_mode peer data cat_call code ∧
     ((∃ c cb tag rest, cat_call = Some (c, (cb, true)) ∧ data = tag :: rest ∧ tail = [B "REPLY"; tag]) ∨
      (∀ c cb, cat_call = Some (c, (cb, true)) → data = []) ∧ tail = [command])).
Proof.
  intros r cat_call.
  assert (∀ c e, cat_call = Some (c, e) → is_Some (categories r !! c)) as Hcat.
  { intros c e Hcc. unfold cat_call in Hcc. destruct (get_command r command) as [s' o] eqn:E.
    cbn in Hcc. subst o. apply get_command_Some in E as (_ & _ & cat & n & _ & _ & Hc & _). eauto. }
  clearbody cat_call. intros res. unfold res, proxy_check_auth.
  pose proof (λ code, auth_reply_refused r local_sn_mode peer cat_call data code Hcat) as Href.
  destruct (auth_reply r local_sn_mode peer cat_call data) as [code|] eqn:Ha; cbn [fst snd].
  - split; [|split; [done|]].
    + split; [done|]. intros (c & cat & cb & is_req & -> & Hc & Hok).
      apply (auth_reply_known r local_sn_mode peer c cb is_req data cat Hc) in Hok. congruence.
    + intros _. eexists _, _. split; [done|]. split; [by apply Href|].
      destruct cat_call as [[c [cb []]]|]; [destruct data as [|tag rest]|..]; [right|left|right|right]; [done| |done|done].
      by exists c, cb, tag, rest.
  - split; [|done]. split; [|done]. intros _. destruct cat_call as [[c [cb is_req]]|]; [|done].
    destruct (Hcat _ _ eq_refl) as [cat Hc]. exists c, cat, cb, is_req. split; [done|]. split; [done|].
    by apply (auth_reply_known r local_sn_mode peer c cb is_req data cat Hc).
Qed.
