(* ===== verification/Batch.v ===== *)
(** * Batch: [oxenmq/batch.h]

    [job_result], [Batch<R>], [Job] and the abstract base [detail::Batch] the
    proxy sees them through.  A closure is described by a [task]; what running
    it returns or throws is a parameter.  The base class is the type class
    [BatchBase]; the dynamic type of a [detail::Batch*] is [batch_obj]. *)
From S2P Require Import Prelude Bytes ConnId Commands.
Open Scope Z_scope.
Open Scope nat_scope.

(** The closures that are queued as jobs: the user's functions and the lambdas
    the library creates around user callbacks. *)
Inductive task :=
  | TUser (f : callback)
  | TReply (cb : callback) (success : bool) (data : list bytes)
  | TConnected (cb : callback) (conn : ConnectionID)
  | TConnectFailed (cb : callback) (conn : ConnectionID) (what : bytes)
  | TSendFailed (cb : callback) (err : option Z)
  | TQueueFull (cb : callback)
  (* the call of an empty [std::function], which throws *)
  | TBadCall.

(** A result of type [R]. *)
Definition value := bytes.

(** Completion functions: the user's, or the one [_queue_timer_job] installs
    for a squelched timer. *)
Inductive completion :=
  | CUser (cb : callback)
  | CTimer (timer_id : Z).

#[export] Instance completion_eq_dec : EqDecision completion.
Proof. solve_decision. Defined.

Inductive BatchState := running | complete | done.
#[export] Instance BatchState_eq_dec : EqDecision BatchState.
Proof. solve_decision. Defined.

Record BatchStatus := mk_status { state : BatchState; thread : Z }.

(** ** [job_result] *)

Record job_result := mk_result { res_value : option value; res_exc : option exn }.
#[export] Instance job_result_rebuild : Rebuild job_result := λ r,
  mk_result (res_value r) (res_exc r).

Definition result_empty : job_result := mk_result None None.
Definition set_value (r : job_result) (v : value) : job_result := r <| res_value := Some v |>.
Definition set_exception (r : job_result) (e : exn) : job_result := r <| res_exc := Some e |>.
Definition result_get (r : job_result) : outcome (option value) :=
  match res_exc r with Some e => Throw e | None => Ret (res_value r) end.

(** ** [Batch<R>] *)

Record batch := mk_batch {
  jobs : list (task * Z);
  results : list job_result;
  complete_fn : option completion;
  jobs_outstanding : Z;
  complete_in_thread : Z;
  batch_started : bool;
  tagged_thread_jobs : bool;
}.
#[export] Instance batch_rebuild : Rebuild batch := λ b,
  mk_batch (jobs b) (results b) (complete_fn b) (jobs_outstanding b) (complete_in_thread b)
    (batch_started b) (tagged_thread_jobs b).

Definition batch_empty : batch := mk_batch [] [] None 0 0 false false.

(** [OxenMQ::run_in_proxy]. *)
Definition run_in_proxy : Z := -1.

Definition batch_check_not_started (b : batch) : outcome () :=
  if batch_started b then
    Throw (logic_error
      (B "Cannot add jobs or completion function after starting a oxenmq::Batch!"))
  else Ret ().

(** The private [add_job(job, int thread_id)]. *)
Definition add_job_id (b : batch) (job : task) (thread_id : Z) : batch :=
  let b := b <| jobs ::= (λ js, js ++ [(job, thread_id)]) |>
             <| results ::= (λ rs, rs ++ [result_empty]) |>
             <| jobs_outstanding ::= Z.succ |> in
  if (thread_id =? 0)%Z then b else b <| tagged_thread_jobs := true |>.

(** The public [add_job(job, std::optional<TaggedThreadID>)]. *)
Definition add_job (b : batch) (job : task) (thread : option Z) : outcome batch :=
  _ ← batch_check_not_started b;
  if bool_decide (thread = Some run_in_proxy) then
    Throw (logic_error (B "Cannot add a proxy thread batch job -- this makes no sense"))
  else Ret (add_job_id b job (default 0%Z thread)).

Definition completion_set (b : batch) (comp : completion) (thread : option Z) : outcome batch :=
  _ ← batch_check_not_started b;
  if bool_decide (is_Some (complete_fn b)) then
    Throw (logic_error (B "Completion function can only be set once"))
  else Ret (b <| complete_fn := Some comp |> <| complete_in_thread := default 0%Z thread |>).

(** ** [Job] *)

Record job := mk_job { job_task : task; job_thread : Z }.

(** The public constructor. *)
Definition job_new (f : task) (thread : option Z) : outcome job :=
  if bool_decide (thread = Some run_in_proxy) then
    Throw (logic_error (B "Cannot add a proxy thread job -- this makes no sense"))
  else Ret (mk_job f (default 0%Z thread)).

(** ** The virtual interface [detail::Batch] *)

(** What a job evaluates to when a worker runs it. *)
Class TaskEval := eval_task : task → outcome value.

Class BatchBase (T : Type) := {
  size : T → nat * bool;
  threads : T → list Z;
  run_job : T → nat → outcome T;
  job_finished : T → T * BatchStatus;
  (* the completion function and its argument, and the object afterwards *)
  job_completion : T → outcome (T * option (completion * list job_result));
}.

Section base.
Context {E : TaskEval}.

Definition batch_run_job (b : batch) (i : nat) : outcome batch :=
  match jobs b !! i, results b !! i with
  | Some (f, _), Some r =>
      match eval_task f with
      | Ret v => Ret (b <| results ::= <[ i := set_value r v ]> |>)
      | Throw e => Ret (b <| results ::= <[ i := set_exception r e ]> |>)
      | Undef => Undef
      end
  | _, _ => Undef
  end.

(** [--jobs_outstanding] on a [size_t]. *)
Definition batch_job_finished (b : batch) : batch * BatchStatus :=
  let b := b <| jobs_outstanding ::= (λ n, (n - 1) mod 2 ^ 64)%Z |> in
  (b,
   if negb (jobs_outstanding b =? 0)%Z then mk_status running 0
   else if bool_decide (is_Some (complete_fn b)) then mk_status complete (complete_in_thread b)
   else mk_status done 0).

(** Calling an empty [std::function] throws [std::bad_function_call]; the
    proxy never does, so it is left undefined here. *)
Definition batch_job_completion (b : batch) : outcome (batch * option (completion * list job_result)) :=
  match complete_fn b with
  | Some c => Ret (b <| results := [] |>, Some (c, results b))
  | None => Undef
  end.

#[export] Instance batch_base : BatchBase batch := {|
  size b := (length (jobs b), tagged_thread_jobs b);
  threads b := snd <$> jobs b;
  run_job := batch_run_job;
  job_finished := batch_job_finished;
  job_completion := batch_job_completion;
|}.

(** [Job::run_job] swallows every exception. *)
#[export] Instance job_base : BatchBase job := {|
  size j := (1, negb (job_thread j =? 0)%Z);
  threads j := [job_thread j];
  run_job j _ := match eval_task (job_task j) with Undef => Undef | _ => Ret j end;
  job_finished j := (j, mk_status done 0);
  job_completion j := Ret (j, None);
|}.

(** A [detail::Batch] object with its dynamic type. *)
Inductive batch_obj := OBatch (b : batch) | OJob (j : job).

(** The function [run_job] calls for job [i]. *)
Definition job_function (o : batch_obj) (i : nat) : option task :=
  match o with OBatch b => fst <$> jobs b !! i | OJob j => Some (job_task j) end.

#[export] Instance obj_base : BatchBase batch_obj := {|
  size o := match o with OBatch b => size b | OJob j => size j end;
  threads o := match o with OBatch b => threads b | OJob j => threads j end;
  run_job o i := match o with
                 | OBatch b => OBatch <$> run_job b i
                 | OJob j => OJob <$> run_job j i
                 end;
  job_finished o := match o with
                    | OBatch b => let '(b, s) := job_finished b in (OBatch b, s)
                    | OJob j => let '(j, s) := job_finished j in (OJob j, s)
                    end;
  job_completion o := match o with
                      | OBatch b => '(b, c) ← job_completion b; Ret (OBatch b, c)
                      | OJob j => '(j, c) ← job_completion j; Ret (OJob j, c)
                      end;
|}.
End base.

(** [OxenMQ::batch(Batch<R>&&)]: an empty batch is refused, otherwise the
    object goes to the proxy. *)
Definition submit_batch (b : batch) : outcome batch_obj :=
  if length (jobs b) =? 0 then
    Throw (logic_error (B "Cannot batch a a job batch with 0 jobs"))
  else Ret (OBatch b).

(** [OxenMQ::job(f, thread)]. *)
Definition submit_job (f : task) (thread : option Z) : outcome batch_obj :=
  if bool_decide (thread = Some run_in_proxy) then
    Throw (logic_error (B "job() cannot be used to queue an in-proxy job"))
  else OJob <$> job_new f thread.

(** * The life of a batch

    Workers run the jobs and the proxy is told of each finished one, in any
    interleaving. *)
Inductive batch_event := Run (i : nat) | Fin.

Section life.
Context {E : TaskEval}.

Fixpoint batch_exec (b : batch) (es : list batch_event) : outcome (batch * list BatchStatus) :=
  match es with
  | [] => Ret (b, [])
  | Run i :: es => b ← run_job b i; batch_exec b es
  | Fin :: es =>
      let '(b, s) := job_finished b in
      '(b, ss) ← batch_exec b es; Ret (b, s :: ss)
  end.

Definition runs (es : list batch_event) : list nat :=
  omap (λ e, match e with Run i => Some i | Fin => None end) es.
Definition fins (es : list batch_event) : nat :=
  length (omap (λ e, match e with Run _ => None | Fin => Some () end) es).

(** The result a job leaves in its slot. *)
Definition store_result (f : task) (r : job_result) : job_result :=
  match eval_task f with
  | Ret v => set_value r v
  | Throw e => set_exception r e
  | Undef => r
  end.

(** The status that ends a batch. *)
Definition final_status (b : batch) : BatchStatus :=
  if bool_decide (is_Some (complete_fn b)) then mk_status complete (complete_in_thread b)
  else mk_status done 0.

(** The shape of a batch that [add_job] and [completion] build. *)
Record batch_fresh (b : batch) : Prop := {
  fresh_results : results b = replicate (length (jobs b)) result_empty;
  fresh_outstanding : jobs_outstanding b = Z.of_nat (length (jobs b));
  fresh_started : batch_started b = false;
  fresh_tagged : tagged_thread_jobs b = bool_decide (Exists (λ j, snd j ≠ 0%Z) (jobs b));
}.

Lemma batch_empty_fresh : batch_fresh batch_empty.
Proof. by split. Qed.

Lemma add_job_id_fresh b f t : batch_fresh b → batch_fresh (add_job_id b f t).
Proof.
  intros [Hr Ho Hs Ht]. unfold add_job_id. destruct (Z.eqb_spec t 0) as [->|Hne];
    split; unfold modify; cbn; rewrite ?length_app; cbn; try done; rewrite ?Hr, ?Ho.
  - by rewrite replicate_add.
  - lia.
  - rewrite Ht. apply bool_decide_ext. rewrite Exists_app, Exists_cons, Exists_nil. cbn. naive_solver.
  - by rewrite replicate_add.
  - lia.
  - symmetry. apply bool_decide_eq_true. rewrite Exists_app, Exists_cons. cbn. naive_solver.
Qed.

Lemma completion_set_fresh b c t b' :
  batch_fresh b → completion_set b c t = Ret b' → batch_fresh b'.
Proof.
  intros Hf. unfold completion_set, batch_check_not_started. rewrite (fresh_started _ Hf).
  cbn [mbind outcome_bind]. case_bool_decide; [done|]. intros [= <-].
  by destruct Hf; split.
Qed.

Lemma fins_cons_run i es : fins (Run i :: es) = fins es.
Proof. done. Qed.

Lemma fins_cons_fin es : fins (Fin :: es) = S (fins es).
Proof. done. Qed.

Hypothesis tasks_return : ∀ f, eval_task f ≠ Undef.

Lemma batch_run_job_spec b i f t r :
  jobs b !! i = Some (f, t) → results b !! i = Some r →
  batch_run_job b i = Ret (b <| results ::= <[ i := store_result f r ]> |>).
Proof.
  intros Hj Hr. unfold batch_run_job, store_result. rewrite Hj, Hr.
  pose proof (tasks_return f). by destruct (eval_task f).
Qed.

Lemma batch_exec_spec es b :
  length (results b) = length (jobs b) → NoDup (runs es) →
  Forall (λ i, i < length (jobs b)) (runs es) →
  (Z.of_nat (fins es) ≤ jobs_outstanding b < 2 ^ 64)%Z →
  ∃ b' sts, batch_exec b es = Ret (b', sts) ∧ jobs b' = jobs b ∧
    complete_fn b' = complete_fn b ∧ complete_in_thread b' = complete_in_thread b ∧
    jobs_outstanding b' = (jobs_outstanding b - Z.of_nat (fins es))%Z ∧
    length (results b') = length (jobs b) ∧
    (∀ i f t r, jobs b !! i = Some (f, t) → results b !! i = Some r →
       results b' !! i = Some (if decide (i ∈ runs es) then store_result f r else r)) ∧
    length sts = fins es ∧
    (∀ j st, sts !! j = Some st →
       st = if (jobs_outstanding b =? Z.of_nat (S j))%Z then final_status b
            else mk_status running 0).
Proof.
  revert b. induction es as [|[i|] es IH]; intros b Hlen Hnd Hb Ho.
  - exists b, []. cbn [batch_exec]. repeat split; try done; try (cbn; lia).
  - rewrite fins_cons_run in *. cbn [runs omap list_omap] in Hnd, Hb. fold (runs es) in *.
    apply NoDup_cons in Hnd as [Hni Hnd]. apply Forall_cons in Hb as [Hi Hb].
    destruct (lookup_lt_is_Some_2 (jobs b) i Hi) as [[f t] Hf].
    destruct (lookup_lt_is_Some_2 (results b) i) as [r Hr]; [lia|].
    cbn [batch_exec run_job batch_base]. rewrite (batch_run_job_spec _ _ _ _ _ Hf Hr).
    cbn [mbind outcome_bind]. set (b1 := b <| results ::= _ |>).
    destruct (IH b1) as (b' & sts & He & Hj & Hc & Ht & Ho' & Hl' & Hres & Hn & Hst);
      [cbn; by rewrite length_insert|done|done|done|].
    exists b', sts. repeat split; try done.
    intros k g u s Hg Hs. cbn [runs omap list_omap]. fold (runs es).
    destruct (decide (k = i)) as [->|Hne].
    + simplify_eq. rewrite (Hres i f t (store_result f r)); [|done|].
      * rewrite decide_False by done. by rewrite decide_True by set_solver.
      * cbn. by rewrite list_lookup_insert_eq by lia.
    + rewrite (Hres k g u s); [|done|cbn; by rewrite list_lookup_insert_ne by done].
      destruct (decide (k ∈ runs es)); [by rewrite decide_True by set_solver|].
      by rewrite decide_False by set_solver.
  - rewrite fins_cons_fin in *. cbn [runs omap list_omap] in Hnd, Hb. fold (runs es) in *.
    cbn [batch_exec job_finished batch_base]. unfold batch_job_finished. cbn zeta.
    set (b1 := b <| jobs_outstanding ::= _ |>).
    assert (jobs_outstanding b1 = (jobs_outstanding b - 1)%Z) as Hb1.
    { cbn. apply Z.mod_small. lia. }
    destruct (IH b1) as (b' & sts & He & Hj & Hc & Ht & Ho' & Hl' & Hres & Hn & Hst);
      [done|done|done|lia|].
    rewrite He, Hb1. cbn [mbind outcome_bind]. eexists b', _. split; [done|].
    repeat split; try done; [lia|cbn; lia|].
    intros [|j] st; cbn [lookup list_lookup].
    + intros [= <-]. unfold final_status.
      destruct (Z.eqb_spec (jobs_outstanding b - 1) 0),
        (Z.eqb_spec (jobs_outstanding b) (Z.of_nat 1)); cbn; lia || done.
    + intros Hk. rewrite (Hst j st Hk), Hb1. unfold final_status. cbn [complete_fn complete_in_thread].
      destruct (Z.eqb_spec (jobs_outstanding b - 1) (Z.of_nat (S j))),
        (Z.eqb_spec (jobs_outstanding b) (Z.of_nat (S (S j)))); lia || done.
Qed.

(** C26: a batch built with [add_job] and [completion] whose jobs are run once
    each by the workers, with the proxy told of every finished job, in any
    order and interleaving: no access is out of range, the result of job [i]
    ends up in slot [i] as the value it returned or the exception it threw, and
    of the statuses [job_finished] reports exactly the last one ends the batch:
    all others are [running], the last is [complete] on the completion's
    thread, or [done] when there is no completion function. *)
Theorem batch_contract b es :
  batch_fresh b → length (jobs b) > 0 → (Z.of_nat (length (jobs b)) < 2 ^ 64)%Z →
  runs es ≡ₚ seq 0 (length (jobs b)) → fins es = length (jobs b) →
  ∃ b', batch_exec b es =
      Ret (b', replicate (length (jobs b) - 1) (mk_status running 0) ++ [final_status b]) ∧
    results b' = (λ j, store_result (fst j) result_empty) <$> jobs b.
Proof.
  intros Hf Hpos Hlt Hruns Hfins.
  destruct (batch_exec_spec es b) as (b' & sts & He & Hj & _ & _ & _ & Hl & Hres & Hn & Hst).
  - by rewrite (fresh_results _ Hf), length_replicate.
  - rewrite Hruns. apply NoDup_seq.
  - rewrite Hruns. apply Forall_forall. intros i Hi. apply elem_of_seq in Hi. lia.
  - rewrite (fresh_outstanding _ Hf). lia.
  - exists b'. split.
    + rewrite He. do 2 f_equal. apply list_eq_same_length with (n := length (jobs b)).
      * rewrite length_app, length_replicate. cbn. lia.
      * lia.
      * intros j st st' Hjn Hs Hs'. rewrite (Hst j st Hs), (fresh_outstanding _ Hf).
        destruct (decide (j < length (jobs b) - 1)) as [Hlt'|Hge].
        -- rewrite lookup_app_l, lookup_replicate in Hs' by (rewrite length_replicate; lia).
           destruct Hs' as [-> _]. destruct (Z.eqb_spec (Z.of_nat (length (jobs b))) (Z.of_nat (S j))); [lia|done].
        -- rewrite lookup_app_r, length_replicate in Hs' by (rewrite length_replicate; lia).
           replace (j - (length (jobs b) - 1)) with 0 in Hs' by lia. injection Hs' as <-.
           destruct (Z.eqb_spec (Z.of_nat (length (jobs b))) (Z.of_nat (S j))); [done|lia].
    + apply list_eq_same_length with (n := length (jobs b)); [by rewrite length_fmap|done|].
      intros i r r' Hi Hr Hr'. apply list_lookup_fmap_Some in Hr' as ([f t] & -> & Hf').
      assert (results b !! i = Some result_empty) as He0.
      { rewrite (fresh_results _ Hf). by apply lookup_replicate. }
      pose proof (Hres i f t result_empty Hf' He0) as Hr2. rewrite decide_True in Hr2.
      * rewrite Hr2 in Hr. by injection Hr as <-.
      * rewrite Hruns. apply elem_of_seq. lia.
Qed.
End life.


(** Two jobs, the second of which throws, run in reverse order. *)
Lemma batch_contract_witness :
  let E : TaskEval := λ f, match f with
    | TUser 0 => Ret (B "zero") | _ => Throw (runtime_error (B "oops")) end in
  let b := add_job_id (add_job_id batch_empty (TUser 0) 0) (TUser 1) 0 in
  ∃ b', batch_exec b [Run 1; Fin; Run 0; Fin] =
    Ret (b', [mk_status running 0; mk_status done 0]) ∧
    results b' = [mk_result (Some (B "zero")) None; mk_result None (Some (runtime_error (B "oops")))].
Proof.
  intros E b.
  apply (batch_contract (E := E) ltac:(intros [[]| | | | | |]; done) b [Run 1; Fin; Run 0; Fin]).
  - apply add_job_id_fresh, add_job_id_fresh, batch_empty_fresh.
  - cbn. lia.
  - reflexivity.
  - cbn. apply Permutation_swap.
  - reflexivity.
Defined.
