(* ===== verification/Pool.v ===== *)
(** * Pool: the worker pool and the job queues of the proxy thread

    [worker.cpp], [jobs.cpp], [proxy_process_queue] and the QUIT branch of
    [proxy_control_message] of [proxy.cpp], [run_info::load] and the thread
    settings of [oxenmq.cpp].

    The proxy owns [workers] (one [run_info] per started worker thread), the
    stack of idle workers, the queues of batch and reply jobs, the tagged
    workers with their own queues, and the pending commands.  A [detail::Batch*]
    is an address of [heap]; using an address that is not there is undefined
    behaviour, and so are an index out of range, a failed [assert], and growing
    [workers] beyond the capacity [proxy_loop_init] reserved (worker threads hold
    references into it).  What the proxy sends on its workers socket is recorded
    in [sent]. *)
From S2P Require Import Prelude Bytes Auth ConnId Commands Batch.
Open Scope Z_scope.
Open Scope nat_scope.

Definition ptr := positive.
Abbreviation batch_job := (ptr * Z)%type.
Abbreviation batch_queue := (list batch_job).

(** ** [run_info] and [pending_command] *)

(** [std::variant<const std::pair<CommandCallback, bool>*, detail::Batch*,
    std::function<void()>>]. *)
Inductive runnable :=
  | RCommand (e : command_entry)
  | RBatch (b : ptr)
  | RFunc (f : callback).

(** The member [conn_route], which no code uses, is left out. *)
Record run_info := mk_run {
  is_batch_job : bool;
  is_reply_job : bool;
  is_tagged_thread_job : bool;
  is_injected : bool;
  run_cat : bytes;
  run_command : bytes;
  run_conn : ConnectionID;
  run_access : Access;
  run_remote : bytes;
  run_data : list bytes;
  batch_jobno : Z;
  to_run : runnable;
  joinable : bool; (* worker_thread.joinable() *)
  worker_id : Z;
  worker_routing_id : bytes;
  worker_routing_name : bytes;
}.
#[export] Instance run_info_rebuild : Rebuild run_info := λ r,
  mk_run (is_batch_job r) (is_reply_job r) (is_tagged_thread_job r) (is_injected r) (run_cat r)
    (run_command r) (run_conn r) (run_access r) (run_remote r) (run_data r) (batch_jobno r)
    (to_run r) (joinable r) (worker_id r) (worker_routing_id r) (worker_routing_name r).

Inductive pending_callback := PCommand (e : command_entry) | PInjected (f : callback).

Record pending_command := mk_pending {
  pc_cat : bytes;
  pc_command : bytes;
  pc_data : list bytes;
  pc_callback : pending_callback;
  pc_conn : ConnectionID;
  pc_access : Access;
  pc_remote : bytes;
}.

(** The raw bytes of a [uint32_t] (little endian) and back. *)
Definition raw32 (z : Z) : bytes :=
  [chr z; chr (z / 256); chr (z / 65536); chr (z / 16777216)]%Z.
Definition load32 (s : bytes) : Z := foldr (λ c a, ord c + 256 * a)%Z 0%Z (take 4 s).

(** ["w" + id] for a regular worker, ["t" + id] for a tagged one. *)
Definition wtype (tagged : bool) : ascii := if tagged then "t"%char else "w"%char.
Definition routing_id (tagged : bool) (id : Z) : bytes := wtype tagged :: raw32 id.
Definition routing_name (tagged : bool) (id : Z) : bytes := wtype tagged :: to_string id.

(** A default-constructed [run_info] that was given its id.  The members the
    source leaves uninitialised are filled with placeholders; [load] writes
    them before they are read. *)
Definition run_new (tagged : bool) (id : Z) : run_info :=
  mk_run false false false false [] [] conn_default Access_default [] [] 0
    (RCommand (0, false)) false id (routing_id tagged id) (routing_name tagged id).

(** The four overloads of [run_info::load]; each starts with [reset()], which
    clears the four job type flags. *)
Definition load_command (cat command : bytes) (conn : ConnectionID) (acc : Access)
    (remote : bytes) (data : list bytes) (cb : command_entry) (r : run_info) : run_info :=
  mk_run false false false false cat command conn acc remote data (batch_jobno r)
    (RCommand cb) (joinable r) (worker_id r) (worker_routing_id r) (worker_routing_name r).

Definition load_injected (cat command remote : bytes) (f : callback) (r : run_info) : run_info :=
  mk_run false false false true cat command conn_default Access_default remote (run_data r)
    (batch_jobno r) (RFunc f) (joinable r) (worker_id r) (worker_routing_id r)
    (worker_routing_name r).

Definition load_pending (p : pending_command) (r : run_info) : run_info :=
  match pc_callback p with
  | PInjected f => load_injected (pc_cat p) (pc_command p) (pc_remote p) f r
  | PCommand e => load_command (pc_cat p) (pc_command p) (pc_conn p) (pc_access p) (pc_remote p)
                    (pc_data p) e r
  end.

Definition load_batch (bj : batch_job) (reply_job : bool) (tagged_thread : Z) (r : run_info) :
    run_info :=
  mk_run true reply_job (0 <? tagged_thread)%Z false (run_cat r) (run_command r) (run_conn r)
    (run_access r) (run_remote r) (run_data r) (snd bj) (RBatch (fst bj)) (joinable r)
    (worker_id r) (worker_routing_id r) (worker_routing_name r).

(** ** The state of the proxy's pool *)

Record timer_data := mk_timer {
  timer_function : callback;
  squelch : bool;
  timer_running : bool;
  timer_thread : Z;
}.
#[export] Instance timer_data_rebuild : Rebuild timer_data := λ t,
  mk_timer (timer_function t) (squelch t) (timer_running t) (timer_thread t).

(** What the proxy does to a worker: start its thread, or send a control
    message to its routing id. *)
Inductive to_worker := StartThread (id : Z) | Control (route cmd : bytes).

Record pool := mk_pool {
  reg : registry;
  workers : list run_info;
  workers_capacity : nat;
  idle_workers : list nat;
  idle_worker_count : nat;
  general_workers : Z;
  max_workers : Z;
  batch_jobs : batch_queue;
  batch_jobs_reserved : Z;
  batch_jobs_active : Z;
  reply_jobs : batch_queue;
  reply_jobs_reserved : Z;
  reply_jobs_active : Z;
  tagged_workers : list (run_info * bool * batch_queue);
  pending_commands : list pending_command;
  timer_jobs : gmap Z timer_data;
  timer_zmq_id : gmap Z Z;
  proxy_skip_one_poll : bool;
  heap : gmap ptr batch_obj;
  sent : list to_worker;
  (* completion functions called, with their argument *)
  completed : list (completion * list job_result);
}.
#[export] Instance pool_rebuild : Rebuild pool := λ p,
  mk_pool (reg p) (workers p) (workers_capacity p) (idle_workers p) (idle_worker_count p)
    (general_workers p) (max_workers p) (batch_jobs p) (batch_jobs_reserved p)
    (batch_jobs_active p) (reply_jobs p) (reply_jobs_reserved p) (reply_jobs_active p)
    (tagged_workers p) (pending_commands p) (timer_jobs p) (timer_zmq_id p)
    (proxy_skip_one_poll p) (heap p) (sent p) (completed p).

(** An [OxenMQ] object after construction; [hw] is
    [std::thread::hardware_concurrency()]. *)
Definition pool_new (hw : Z) : pool :=
  mk_pool registry_empty [] 0 [] 0 (Z.max 1 hw) 0 [] (-1) 0 [] (-1) 0 [] [] ∅ ∅ false ∅ [] [].

Definition active_workers (p : pool) : Z :=
  (Z.of_nat (length (workers p)) - Z.of_nat (idle_worker_count p))%Z.

Definition the_category (p : pool) (name : bytes) : option category := categories (reg p) !! name.
Definition alter_category (f : category → category) (name : bytes) (p : pool) : pool :=
  p <| reg ::= (λ r, r <| categories ::= alter f name |>) |>.

(** ** Settings *)

Definition set_batch_threads (p : pool) (threads : Z) : outcome pool :=
  if started (reg p) then
    Throw (logic_error (B "Cannot change reserved batch threads after calling `start()`"))
  else if (threads <? -1)%Z then
    Throw (out_of_range (B "Invalid set_batch_threads() value " ++ to_string threads))
  else Ret (p <| batch_jobs_reserved := threads |>).

Definition set_reply_threads (p : pool) (threads : Z) : outcome pool :=
  if started (reg p) then
    Throw (logic_error (B "Cannot change reserved reply threads after calling `start()`"))
  else if (threads <? -1)%Z then
    Throw (out_of_range (B "Invalid set_reply_threads() value " ++ to_string threads))
  else Ret (p <| reply_jobs_reserved := threads |>).

Definition set_general_threads (p : pool) (threads : Z) : outcome pool :=
  if started (reg p) then
    Throw (logic_error (B "Cannot change general thread count after calling `start()`"))
  else if (threads <? 1)%Z then
    Throw (out_of_range (B "Invalid set_general_threads() value " ++ to_string threads ++
      B ": general threads must be > 0"))
  else Ret (p <| general_workers := threads |>).

Definition add_tagged_thread (p : pool) (name : bytes) : outcome (pool * Z) :=
  if started (reg p) then
    Throw (logic_error (B "Cannot add tagged threads after calling `start()`"))
  else if bool_decide (name = B "_proxy") || bool_decide (name = [])
       || bool_decide (is_Some (find_char "000"%char name)) then
    Throw (logic_error (B "Invalid tagged thread name `" ++ name ++ B "'"))
  else
    let id := (Z.of_nat (length (tagged_workers p)) + 1)%Z in
    Ret (p <| tagged_workers ::= (λ ws, ws ++ [((run_new true id) <| joinable := true |>, false, [])]) |>,
         id).

(** The pool part of [start] and [proxy_loop_init]: the computed defaults, the
    worker limit and the containers reserved for it.  [int] arithmetic is exact
    while the total stays below [2^31]. *)
Definition start (p : pool) : outcome pool :=
  if started (reg p) then Throw (logic_error (B "Cannot call start() multiple times!"))
  else if (general_workers p <=? 0)%Z then Undef (* assert *)
  else
    let p := if (batch_jobs_reserved p <? 0)%Z
             then p <| batch_jobs_reserved := ((general_workers p + 1) / 2)%Z |> else p in
    let p := if (reply_jobs_reserved p <? 0)%Z
             then p <| reply_jobs_reserved := ((general_workers p + 7) / 8)%Z |> else p in
    let max := (general_workers p + batch_jobs_reserved p + reply_jobs_reserved p +
                Zsum ((λ kc, reserved_threads (snd kc)) <$> map_to_list (categories (reg p))))%Z in
    Ret (p <| max_workers := max |>
           <| reg ::= (λ r, r <| started := true |>) |>
           <| workers_capacity := Z.to_nat max |>
           <| idle_workers := replicate (Z.to_nat max) 0 |>
           <| sent := (λ w, Control (worker_routing_id (fst (fst w))) (B "START")) <$> tagged_workers p |>).

(** ** Starting work on a worker *)

Definition get_idle_worker (p : pool) : outcome (pool * nat) :=
  if idle_worker_count p =? 0 then
    let id := length (workers p) in
    if id <? workers_capacity p
    then Ret (p <| workers ::= (λ ws, ws ++ [run_new false (Z.of_nat id)]) |>, id)
    else Undef
  else
    let n := idle_worker_count p - 1 in
    match idle_workers p !! n with
    | Some id => Ret (p <| idle_worker_count := n |>, id)
    | None => Undef
    end.

(** [proxy_run_worker]: the first job of a worker starts its thread, the next
    ones are announced with RUN. *)
Definition proxy_run_worker (r : run_info) : run_info * to_worker :=
  if joinable r then (r, Control (worker_routing_id r) (B "RUN"))
  else (r <| joinable := true |>, StartThread (worker_id r)).

(** [proxy_run_worker(get_idle_worker().load(...))]. *)
Definition run_on_idle (p : pool) (load : run_info → run_info) : outcome pool :=
  '(p, id) ← get_idle_worker p;
  match workers p !! id with
  | None => Undef
  | Some r =>
      let '(r, m) := proxy_run_worker (load r) in
      Ret (p <| workers ::= <[ id := r ]> |> <| sent ::= (λ l, l ++ [m]) |>)
  end.

(** The two queues [proxy_run_batch_jobs] is called with, their limits and
    counters. *)
Definition the_jobs (reply : bool) (p : pool) : batch_queue :=
  if reply then reply_jobs p else batch_jobs p.
Definition set_jobs (reply : bool) (q : batch_queue) (p : pool) : pool :=
  if reply then p <| reply_jobs := q |> else p <| batch_jobs := q |>.
Definition jobs_reserved (reply : bool) (p : pool) : Z :=
  if reply then reply_jobs_reserved p else batch_jobs_reserved p.
Definition jobs_active (reply : bool) (p : pool) : Z :=
  if reply then reply_jobs_active p else batch_jobs_active p.
Definition add_active (reply : bool) (d : Z) (p : pool) : pool :=
  if reply then p <| reply_jobs_active ::= Z.add d |> else p <| batch_jobs_active ::= Z.add d |>.

(** [queue] is the content of the queue at the head of the loop. *)
Fixpoint run_batch_jobs (queue : batch_queue) (reply : bool) (p : pool) : outcome pool :=
  match queue with
  | [] => Ret p
  | job :: queue =>
      if (active_workers p <? max_workers p)%Z
         && ((jobs_active reply p <? jobs_reserved reply p)%Z
             || (active_workers p <? general_workers p)%Z)
      then
        p ← run_on_idle p (load_batch job reply 0);
        run_batch_jobs queue reply (add_active reply 1 (set_jobs reply queue p))
      else Ret p
  end.
Definition proxy_run_batch_jobs (reply : bool) (p : pool) : outcome pool :=
  run_batch_jobs (the_jobs reply p) reply p.

(** One iteration of the tagged loop of [proxy_process_queue]. *)
Definition run_tagged (p : pool) (i : nat) : pool :=
  match tagged_workers p !! i with
  | Some (run, false, job :: queue) =>
      let '(run, m) := proxy_run_worker (load_batch job false (worker_id run) run) in
      p <| tagged_workers ::= <[ i := (run, true, queue) ]> |> <| sent ::= (λ l, l ++ [m]) |>
  | _ => p
  end.
Definition process_tagged (p : pool) : pool :=
  foldl run_tagged p (seq 0 (length (tagged_workers p))).

(** There is a free reserved or general slot for category [c]. *)
Definition slot_free (p : pool) (c : category) : bool :=
  (active_threads c <? reserved_threads c)%Z || (active_workers p <? general_workers p)%Z.

(** The last loop: [before] are the commands it has passed over, [after] the
    ones from the iterator on. *)
Fixpoint process_pending (before after : list pending_command) (p : pool) : outcome pool :=
  match after with
  | [] => Ret (p <| pending_commands := before |>)
  | pc :: rest =>
      if (active_workers p <? max_workers p)%Z then
        match the_category p (pc_cat pc) with
        | None => Undef
        | Some c =>
            if slot_free p c then
              p ← run_on_idle p (load_pending pc);
              if (queued c - 1 <? 0)%Z then Undef (* assert *)
              else process_pending before rest
                (alter_category (λ c, c <| queued ::= Z.pred |> <| active_threads ::= Z.succ |>)
                   (pc_cat pc) p)
            else process_pending (before ++ [pc]) rest p
        end
      else Ret (p <| pending_commands := before ++ after |>)
  end.

Definition proxy_process_queue (p : pool) : outcome pool :=
  if (max_workers p =? 0)%Z then Ret p
  else
    let p := process_tagged p in
    p ← proxy_run_batch_jobs false p;
    p ← proxy_run_batch_jobs true p;
    process_pending [] (pending_commands p) p.

(** ** Queueing jobs *)

(** Allocation of a new object, at an unused address. *)
Definition alloc (o : batch_obj) (p : pool) : pool * ptr :=
  let a := fresh (dom (heap p)) in (p <| heap ::= <[ a := o ]> |>, a).

(** [emplace_back] on the queue of tagged worker [thread] (1-based) when
    [thread > 0], else on the batch (or reply) queue. *)
Definition enqueue (thread : Z) (reply : bool) (bj : batch_job) (p : pool) : outcome pool :=
  if (0 <? thread)%Z then
    match tagged_workers p !! Z.to_nat (thread - 1) with
    | None => Undef
    | Some (run, busy, q) =>
        Ret (p <| tagged_workers ::= <[ Z.to_nat (thread - 1) := (run, busy, q ++ [bj]) ]> |>)
    end
  else Ret (set_jobs reply (the_jobs reply p ++ [bj]) p).

Section eval.
Context {E : TaskEval}.

(** The jobs [i], [i+1], ... of [b] with their threads. *)
Fixpoint enqueue_all (b : ptr) (i : nat) (threads : list Z) (p : pool) : outcome pool :=
  match threads with
  | [] => Ret p
  | t :: threads =>
      p ← enqueue t false (b, Z.of_nat i) p;
      enqueue_all b (S i) threads p
  end.

(** Without tagged jobs the source does not look at the threads. *)
Definition proxy_batch (b : ptr) (p : pool) : outcome pool :=
  match heap p !! b with
  | None => Undef
  | Some o =>
      let '(n, tagged_threads) := size o in
      p ← enqueue_all b 0 (if tagged_threads then take n (threads o) else replicate n 0%Z) p;
      Ret (p <| proxy_skip_one_poll := true |>)
  end.

Definition proxy_schedule_reply_job (f : task) (p : pool) : pool :=
  let '(p, a) := alloc (OJob (mk_job f 0)) p in
  p <| reply_jobs ::= (λ q, q ++ [(a, 0%Z)]) |> <| proxy_skip_one_poll := true |>.

(** ** Timers *)

(** [zmq_timer_id] is what [zmq_timers_add] returned. *)
Definition proxy_timer (id : Z) (job : callback) (squelch : bool) (thread zmq_timer_id : Z)
    (p : pool) : outcome pool :=
  if (zmq_timer_id =? -1)%Z then Throw (zmq_error 0)
  else Ret (p <| timer_jobs ::= <[ zmq_timer_id := mk_timer job squelch false thread ]> |>
              <| timer_zmq_id ::= <[ id := zmq_timer_id ]> |>).

(** The cancelled zmq timer, if there was one. *)
Definition proxy_timer_del (id : Z) (p : pool) : pool * option Z :=
  match timer_zmq_id p !! id with
  | None => (p, None)
  | Some z => (p <| timer_zmq_id ::= delete id |>, Some z)
  end.

(** The [Batch<void>] of a squelched timer. *)
Definition timer_batch (func : callback) (thread timer_id : Z) : batch :=
  (add_job_id batch_empty (TUser func) thread)
    <| complete_fn := Some (CTimer timer_id) |> <| complete_in_thread := run_in_proxy |>.

Definition queue_timer_job (timer_id : Z) (p : pool) : outcome pool :=
  match timer_jobs p !! timer_id with
  | None => Ret p
  | Some t =>
      if squelch t && timer_running t then Ret p
      else if (timer_thread t =? -1)%Z then
        match eval_task (TUser (timer_function t)) with Undef => Undef | _ => Ret p end
      else
        let '(p, a) :=
          if squelch t then
            alloc (OBatch (timer_batch (timer_function t) (timer_thread t) timer_id))
              (p <| timer_jobs ::= <[ timer_id := t <| timer_running := true |> ]> |>)
          else alloc (OJob (mk_job (TUser (timer_function t)) (timer_thread t))) p in
        enqueue (timer_thread t) false (a, 0%Z) p
  end.

(** Calling a completion function: the one of a timer clears [running]. *)
Definition call_completion (c : option (completion * list job_result)) (p : pool) : pool :=
  match c with
  | None => p
  | Some (comp, rs) =>
      let p := p <| completed ::= (λ l, l ++ [(comp, rs)]) |> in
      match comp with
      | CTimer t => p <| timer_jobs ::= alter (λ d, d <| timer_running := false |>) t |>
      | CUser _ => p
      end
  end.

(** [batch->job_completion()]. *)
Definition run_completion (b : ptr) (p : pool) : outcome pool :=
  match heap p !! b with
  | None => Undef
  | Some o =>
      '(o, c) ← job_completion o;
      Ret (call_completion c (p <| heap ::= <[ b := o ]> |>))
  end.

(** ** Worker messages *)

Definition the_run (tagged : bool) (wid : Z) (p : pool) : option run_info :=
  if tagged then (λ w, fst (fst w)) <$> tagged_workers p !! Z.to_nat (wid - 1)
  else workers p !! Z.to_nat wid.

(** The worker a routing id names, if it exists. *)
Definition route_worker (route_raw : bytes) (p : pool) : option (bool * Z) :=
  match route_raw with
  | c :: id =>
      if negb (length route_raw =? 5) || negb (bool_decide (c = "w"%char) || bool_decide (c = "t"%char))
      then None
      else
        let tagged_worker := bool_decide (c = "t"%char) in
        let wid := load32 id in
        if (if tagged_worker
            then (wid =? 0)%Z || (Z.of_nat (length (tagged_workers p)) <? wid)%Z
            else (Z.of_nat (length (workers p)) <=? wid)%Z)
        then None else Some (tagged_worker, wid)
  | [] => None
  end.

Definition set_tagged_idle (wid : Z) (p : pool) : pool :=
  p <| tagged_workers ::= alter (λ '(run, _, q), (run, false, q)) (Z.to_nat (wid - 1)) |>.

(** The completion part of a finished batch job: run it here, queue it, or
    finish; the flag is [clear_job]. *)
Definition batch_finished (b : ptr) (reply : bool) (p : pool) : outcome (pool * bool) :=
  match heap p !! b with
  | None => Undef
  | Some o =>
      let '(o, st) := job_finished o in
      let p := p <| heap ::= <[ b := o ]> |> in
      match state st with
      | complete =>
          if (thread st =? -1)%Z then p ← run_completion b p; Ret (p, true)
          else p ← enqueue (thread st) reply (b, (-1)%Z) p; Ret (p, false)
      | done => Ret (p, true)
      | running => Ret (p, false)
      end
  end.

(** The counter of a regular worker that ran a batch job, or the busy flag of a
    tagged one. *)
Definition release_slot (tagged : bool) (wid : Z) (reply : bool) (p : pool) : outcome pool :=
  if tagged then Ret (set_tagged_idle wid p)
  else if (jobs_active reply p <=? 0)%Z then Undef (* assert *)
  else Ret (add_active reply (-1) p).

(** [clear_job] is set at once when the completion function returned. *)
Definition batch_returned (b : ptr) (run : run_info) (p : pool) : outcome (pool * bool) :=
  if (batch_jobno run =? -1)%Z then Ret (p, true) else batch_finished b (is_reply_job run) p.

(** [delete batch]. *)
Definition delete_batch (b : ptr) (p : pool) : outcome pool :=
  match heap p !! b with Some _ => Ret (p <| heap ::= delete b |>) | None => Undef end.

Definition ran_batch (tagged : bool) (wid : Z) (run : run_info) (p : pool) : outcome pool :=
  p ← release_slot tagged wid (is_reply_job run) p;
  match to_run run with
  | RBatch b =>
      '(p, clear_job) ← batch_returned b run p;
      if (clear_job : bool) then delete_batch b p else Ret p
  | _ => Throw (runtime_error (B "bad_variant_access"))
  end.

Definition ran_command (run : run_info) (p : pool) : outcome pool :=
  match the_category p (run_cat run) with
  | None => Undef
  | Some c =>
      if (active_threads c <=? 0)%Z then Undef (* assert *)
      else Ret (alter_category (λ c, c <| active_threads ::= Z.pred |>) (run_cat run) p)
  end.

(** The worker goes back on the idle stack, or is told to quit. *)
Definition park_worker (tagged : bool) (wid : Z) (route_raw : bytes) (p : pool) : outcome pool :=
  if (max_workers p =? 0)%Z then Ret (p <| sent ::= (λ l, l ++ [Control route_raw (B "QUIT")]) |>)
  else if tagged then Ret p
  else if idle_worker_count p <? length (idle_workers p) then
    Ret (p <| idle_workers ::= <[ idle_worker_count p := Z.to_nat wid ]> |>
           <| idle_worker_count ::= S |>)
  else Undef.

Definition set_run (tagged : bool) (wid : Z) (f : run_info → run_info) (p : pool) : pool :=
  if tagged then
    p <| tagged_workers ::= alter (λ '(run, busy, q), (f run, busy, q)) (Z.to_nat (wid - 1)) |>
  else p <| workers ::= alter f (Z.to_nat wid) |>.

Definition proxy_worker_message (parts : list bytes) (p : pool) : outcome pool :=
  match parts with
  | [route_raw; cmd] =>
      match route_worker route_raw p with
      | None => Ret p
      | Some (tagged, wid) =>
          match the_run tagged wid p with
          | None => Undef
          | Some run =>
              if bool_decide (cmd = B "RAN") then
                p ← (if is_batch_job run then ran_batch tagged wid run p else ran_command run p);
                park_worker tagged wid route_raw p
              else if bool_decide (cmd = B "QUITTING") then
                Ret (set_run tagged wid (λ r, r <| joinable := false |>) p)
              else Ret p
          end
      end
  | _ => Ret p
  end.

(** ** Commands and injected tasks *)

(** [category.max_queue >= 0 && category.queued >= category.max_queue]. *)
Definition queue_full (c : category) : bool :=
  (0 <=? max_queue c)%Z && (max_queue c <=? queued c)%Z.

(** Queue a command when no slot is free, dropping it when the queue is full. *)
Definition queue_pending (c : category) (pc : pending_command) (p : pool) : pool :=
  if queue_full c then p
  else alter_category (λ c, c <| queued ::= Z.succ |>) (pc_cat pc)
         (p <| pending_commands ::= (λ l, l ++ [pc]) |>).

(** The end of [proxy_to_worker], from the slot test on: [data] are the data
    parts of a message that passed [proxy_check_auth], [conn] the connection
    to reply to. *)
Definition dispatch_command (cat command : bytes) (data : list bytes) (cb : command_entry)
    (conn : ConnectionID) (acc : Access) (remote : bytes) (p : pool) : outcome pool :=
  match the_category p cat with
  | None => Undef
  | Some c =>
      if negb (slot_free p c) then
        Ret (queue_pending c (mk_pending cat command data (PCommand cb) conn acc remote) p)
      else if snd cb && bool_decide (data = []) then Ret p
      else
        p ← run_on_idle p (load_command cat command conn acc remote data cb);
        Ret (alter_category (λ c, c <| active_threads ::= Z.succ |>) cat p)
  end.

(** [inject_task] looks the category up in the calling thread; the rest is
    [proxy_inject_task] in the proxy. *)
Definition inject_task (cat : bytes) (p : pool) : outcome () :=
  match the_category p cat with
  | None => Throw (out_of_range (B "Invalid category `" ++ cat ++ B "': category does not exist"))
  | Some _ => Ret ()
  end.

Definition proxy_inject_task (cat command remote : bytes) (f : callback) (p : pool) :
    outcome pool :=
  match the_category p cat with
  | None => Undef
  | Some c =>
      if negb (slot_free p c) then
        Ret (queue_pending c
          (mk_pending cat command [] (PInjected f) conn_default Access_default remote) p)
      else
        p ← run_on_idle p (load_injected cat command remote f);
        Ret (alter_category (λ c, c <| active_threads ::= Z.succ |>) cat p)
  end.

(** The routing ids of the idle workers. *)
Definition idle_routes (p : pool) : outcome (list bytes) :=
  match mapM (λ i, workers p !! i) (take (idle_worker_count p) (idle_workers p)) with
  | Some rs => Ret (worker_routing_id <$> rs)
  | None => Undef
  end.

(** The QUIT control message. *)
Definition quit_workers (p : pool) : outcome pool :=
  let p := p <| max_workers := 0%Z |> in
  ids ← idle_routes p;
  Ret (p <| sent ::= (λ l, l ++ ((λ r, Control r (B "QUIT")) <$> ids)) |>
         <| idle_worker_count := 0 |>
         <| sent ::= (λ l, l ++ omap (λ '(run, busy, _),
              if busy : bool then None else Some (Control (worker_routing_id run) (B "QUIT")))
              (tagged_workers p)) |>).

(** ** What a worker thread does *)

(** The [Message] a command callback is invoked with. *)
Record Message := mk_message {
  msg_conn : ConnectionID;
  msg_access : Access;
  msg_remote : bytes;
  reply_tag : bytes;
  msg_data : list bytes;
}.

(** The call a worker makes for a job, a loaded command or an injected task. *)
Inductive invocation :=
  | InvokeJob (f : task)
  | InvokeCommand (cb : command_entry) (m : Message)
  | InvokeTask (f : callback).

(** [tag] is the reply tag left in the thread's [Message] by the request it ran
    before: a command that is not a request does not reset it. *)
Definition worker_invocation (tag : bytes) (run : run_info) : outcome invocation :=
  if is_injected run then
    match to_run run with
    | RFunc f => Ret (InvokeTask f)
    | _ => Throw (runtime_error (B "bad_variant_access"))
    end
  else
    match to_run run with
    | RCommand (cb, is_request) =>
        if is_request then
          match run_data run with
          | [] => Undef (* run.data_parts[0] *)
          | tag :: data =>
              Ret (InvokeCommand (cb, true) (mk_message (run_conn run) (run_access run) (run_remote run) tag data))
          end
        else
          Ret (InvokeCommand (cb, false)
            (mk_message (run_conn run) (run_access run) (run_remote run) tag (run_data run)))
    | _ => Throw (runtime_error (B "bad_variant_access"))
    end.

(** One turn of the worker loop between RUN and RAN.  A batch object is
    changed in place; exceptions are caught.  The effects of user callbacks
    come back to the proxy as control messages of their own. *)
Definition worker_turn (tag : bytes) (run : run_info) (p : pool) : outcome (pool * option invocation) :=
  if is_batch_job run then
    match to_run run with
    | RBatch b =>
        match heap p !! b with
        | None => Undef
        | Some o =>
            if (0 <=? batch_jobno run)%Z then
              o' ← run_job o (Z.to_nat (batch_jobno run));
              Ret (p <| heap ::= <[ b := o' ]> |>, InvokeJob <$> job_function o (Z.to_nat (batch_jobno run)))
            else if (batch_jobno run =? -1)%Z then p ← run_completion b p; Ret (p, None)
            else Ret (p, None)
        end
    | _ => Ret (p, None)
    end
  else
    match worker_invocation tag run with
    | Ret i => Ret (p, Some i)
    | Throw _ => Ret (p, None)
    | Undef => Undef
    end.
End eval.
