(* ===== verification/PoolSlots.v ===== *)
(** * PoolSlots: worker slots

    The accounting of busy workers.  Every busy worker holds a slot of the job
    class it runs (batch, reply or one category); a class may go over its
    reservation only into the [general_workers] slots.  From this follows that
    [workers] never outgrows the capacity reserved for it and that a reserved
    slot is always available to its class. *)
From S2P Require Import Prelude Bytes Auth ConnId Commands Batch Pool.
Open Scope Z_scope.
Open Scope nat_scope.

(** * Slots, abstractly *)

Inductive slot := SBatch | SReply | SCat (c : bytes).
#[export] Instance slot_eq_dec : EqDecision slot.
Proof. solve_decision. Defined.

(** The slot a loaded worker holds. *)
Definition slot_of (r : run_info) : slot :=
  if is_batch_job r then (if is_reply_job r then SReply else SBatch) else SCat (run_cat r).

Definition holds (s : slot) (r : run_info) : Z := if decide (slot_of r = s) then 1%Z else 0%Z.
Definition held (s : slot) (l : list run_info) : Z := Zsum (holds s <$> l).

(** By how much the classes exceed their reservations together. *)
Definition overflow (K : list slot) (res act : slot → Z) : Z :=
  Zsum ((λ s, Z.max 0 (act s - res s)) <$> K).

Definition bump (s : slot) (d : Z) (act : slot → Z) : slot → Z :=
  λ k, (act k + if decide (k = s) then d else 0)%Z.

Record slots_inv (general max : Z) (K : list slot) (res act : slot → Z) (b : list run_info) : Prop := {
  si_nodup : NoDup K;
  si_general : (0 < general)%Z;
  si_max : max = (general + Zsum (res <$> K))%Z;
  si_res : ∀ s, s ∈ K → (0 ≤ res s)%Z;
  si_known : ∀ r, r ∈ b → slot_of r ∈ K;
  si_act : ∀ s, s ∈ K → act s = held s b;
  si_over : (overflow K res act ≤ general)%Z;
}.

Lemma Zsum_indicator (K : list slot) s d :
  NoDup K → s ∈ K → Zsum ((λ k, if decide (k = s) then d else 0%Z) <$> K) = d.
Proof.
  induction K as [|k K IH]; intros Hnd Hin; [by apply not_elem_of_nil in Hin|].
  apply NoDup_cons in Hnd as [Hk Hnd]. cbn. fold (Zsum ((λ k, if decide (k = s) then d else 0%Z) <$> K)).
  destruct (decide (k = s)) as [->|Hne].
  - enough (Zsum ((λ k, if decide (k = s) then d else 0%Z) <$> K) = 0%Z) as -> by lia.
    clear -Hk. induction K as [|k K IH]; [done|]. cbn.
    apply not_elem_of_cons in Hk as [? Hk]. rewrite decide_False by done.
    specialize (IH Hk). unfold Zsum in *. lia.
  - apply elem_of_cons in Hin as [->|Hin]; [done|]. rewrite (IH Hnd Hin). lia.
Qed.

Lemma held_cons s r l : held s (r :: l) = (holds s r + held s l)%Z.
Proof. done. Qed.

Lemma held_nonneg s l : (0 ≤ held s l)%Z.
Proof.
  unfold held, holds. induction l; cbn; [done|]. destruct (decide _); unfold Zsum in *; lia.
Qed.

#[export] Instance held_perm s : Proper ((≡ₚ) ==> (=)) (held s).
Proof. intros l k H. unfold held. by rewrite H. Qed.

Lemma held_total K l :
  NoDup K → (∀ r, r ∈ l → slot_of r ∈ K) →
  Zsum ((λ s, held s l) <$> K) = Z.of_nat (length l).
Proof.
  intros Hnd. induction l as [|r l IH]; intros Hk.
  - cbn. clear. induction K; cbn in *; [done|]. unfold Zsum in *. lia.
  - transitivity (Zsum ((λ s, (if decide (s = slot_of r) then 1 else 0) + held s l)%Z <$> K)).
    + f_equal. apply list_fmap_ext. intros _ s _. rewrite held_cons. unfold holds.
      destruct (decide (slot_of r = s)), (decide (s = slot_of r)); congruence || done.
    + rewrite Zsum_map_add, Zsum_indicator; [|done|apply Hk, list_elem_of_here].
      rewrite IH by (intros; apply Hk; by apply list_elem_of_further). cbn [length]. lia.
Qed.

Section slots.
Context {general max : Z} {K : list slot} {res act : slot → Z} {b : list run_info}.
Hypothesis I : slots_inv general max K res act b.

Lemma act_nonneg s : s ∈ K → (0 ≤ act s)%Z.
Proof. intros Hs. rewrite (si_act _ _ _ _ _ _ I s Hs). apply held_nonneg. Qed.

Lemma busy_total : Z.of_nat (length b) = Zsum (act <$> K).
Proof.
  destruct I as [Hnd _ _ _ Hk Ha _]. rewrite <- (held_total K b) by done.
  f_equal. apply list_fmap_ext. intros i s Hs. symmetry. apply Ha. by eapply list_elem_of_lookup_2.
Qed.

Lemma act_overflow : (Zsum (act <$> K) ≤ Zsum (res <$> K) + overflow K res act)%Z.
Proof.
  unfold overflow. rewrite <- Zsum_map_add. apply Zsum_map_le. intros s Hs. lia.
Qed.

(** No more than [max] workers are ever busy. *)
Lemma busy_le_max : (Z.of_nat (length b) ≤ max)%Z.
Proof.
  rewrite busy_total, (si_max _ _ _ _ _ _ I).
  pose proof act_overflow. pose proof (si_over _ _ _ _ _ _ I). lia.
Qed.

(** A slot within the reservation is free. *)
Lemma reserved_free s :
  s ∈ K → (act s < res s)%Z → (Z.of_nat (length b) < max)%Z.
Proof.
  intros Hs Hlt. rewrite busy_total, (si_max _ _ _ _ _ _ I).
  assert (Zsum (bump s 1 act <$> K) ≤ Zsum (res <$> K) + overflow K res act)%Z as Hle.
  { unfold overflow. rewrite <- Zsum_map_add. apply Zsum_map_le. intros k Hk.
    unfold bump. destruct (decide (k = s)) as [->|]; lia. }
  unfold bump in Hle. rewrite Zsum_map_add, Zsum_indicator in Hle by (done || apply I).
  pose proof (si_over _ _ _ _ _ _ I). lia.
Qed.

Lemma slots_add r :
  slot_of r ∈ K → (act (slot_of r) < res (slot_of r) ∨ Z.of_nat (length b) < general)%Z →
  slots_inv general max K res (bump (slot_of r) 1 act) (r :: b).
Proof.
  intros Hs Hfree. destruct I as [Hnd Hg Hm Hr Hk Ha Ho]. split; try done.
  - intros r' [->|?]%elem_of_cons; auto.
  - intros s Hin. rewrite held_cons, <- (Ha s Hin). unfold bump, holds.
    destruct (decide (s = slot_of r)), (decide (slot_of r = s)); congruence || lia.
  - destruct Hfree as [Hlt|Hlt].
    + transitivity (overflow K res act); [|done]. apply Zsum_map_le. intros s _. unfold bump.
      destruct (decide (s = slot_of r)) as [->|]; lia.
    + transitivity (Zsum (bump (slot_of r) 1 act <$> K)).
      * apply Zsum_map_le. intros s Hin. pose proof (act_nonneg s Hin). specialize (Hr s Hin).
        unfold bump. destruct (decide _); lia.
      * unfold bump. rewrite Zsum_map_add, Zsum_indicator, <- busy_total by done. lia.
Qed.

Lemma slots_remove r b' :
  b ≡ₚ r :: b' → slots_inv general max K res (bump (slot_of r) (-1) act) b'.
Proof.
  intros Hb. destruct I as [Hnd Hg Hm Hr Hk Ha Ho]. split; try done.
  - intros r' Hr'. apply Hk. rewrite Hb. by apply list_elem_of_further.
  - intros s Hin. unfold bump. rewrite (Ha s Hin), Hb, held_cons. unfold holds.
    destruct (decide (s = slot_of r)), (decide (slot_of r = s)); congruence || lia.
  - transitivity (overflow K res act); [|done]. apply Zsum_map_le. intros s Hin. unfold bump.
    destruct (decide (s = slot_of r)); lia.
Qed.

(** The counter of a slot that is held is positive. *)
Lemma act_pos r : r ∈ b → (0 < act (slot_of r))%Z.
Proof.
  intros Hr. rewrite (si_act _ _ _ _ _ _ I) by by apply (si_known _ _ _ _ _ _ I).
  apply elem_of_Permutation in Hr as [b' ->]. rewrite held_cons.
  pose proof (held_nonneg (slot_of r) b'). unfold holds. rewrite decide_True by done. lia.
Qed.
End slots.

Lemma slots_inv_proper general max K res act act' b b' :
  (∀ s, s ∈ K → act' s = act s) → b ≡ₚ b' →
  slots_inv general max K res act b → slots_inv general max K res act' b'.
Proof.
  intros He Hb [Hnd Hg Hm Hr Hk Ha Ho]. split; try done.
  - intros r. rewrite <- Hb. apply Hk.
  - intros s Hs. rewrite <- Hb, He by done. by apply Ha.
  - transitivity (overflow K res act); [|done]. apply Zsum_map_le. intros s Hs. by rewrite He.
Qed.

(** * The slots of the pool *)

Definition slots (p : pool) : list slot :=
  SBatch :: SReply :: (SCat <$> elements (dom (categories (reg p)))).

Definition reserved (p : pool) (s : slot) : Z :=
  match s with
  | SBatch => batch_jobs_reserved p
  | SReply => reply_jobs_reserved p
  | SCat c => from_option reserved_threads 0%Z (the_category p c)
  end.
Definition active (p : pool) (s : slot) : Z :=
  match s with
  | SBatch => batch_jobs_active p
  | SReply => reply_jobs_active p
  | SCat c => from_option active_threads 0%Z (the_category p c)
  end.

(** The idle workers, and what the others run. *)
Definition idle (p : pool) : list nat := take (idle_worker_count p) (idle_workers p).
Definition busy_ix (p : pool) : list nat :=
  filter (λ i, i ∉ idle p) (seq 0 (length (workers p))).
Definition busy (p : pool) : list run_info := omap (λ i, workers p !! i) (busy_ix p).

Record idle_ok (p : pool) : Prop := {
  io_nodup : NoDup (idle p);
  io_bound : ∀ i, i ∈ idle p → i < length (workers p);
  io_count : idle_worker_count p ≤ length (idle_workers p);
  io_size : length (idle_workers p) = workers_capacity p;
  io_capacity : length (workers p) ≤ workers_capacity p;
  io_ids : ∀ i r, workers p !! i = Some r →
    worker_id r = Z.of_nat i ∧ worker_routing_id r = routing_id false (Z.of_nat i) ∧ joinable r = true;
}.

Record pool_ok (p : pool) : Prop := {
  po_idle : idle_ok p;
  po_slots : slots_inv (general_workers p) (max_workers p) (slots p) (reserved p) (active p) (busy p);
  po_capacity : workers_capacity p = Z.to_nat (max_workers p);
}.

Lemma length_idle p : idle_ok p → length (idle p) = idle_worker_count p.
Proof. intros [_ _ Hc _ _ _]. unfold idle. rewrite length_take. lia. Qed.

Lemma busy_ix_bound p i : i ∈ busy_ix p ↔ i < length (workers p) ∧ i ∉ idle p.
Proof. unfold busy_ix. rewrite list_elem_of_filter, elem_of_seq. naive_solver lia. Qed.

Lemma NoDup_busy_ix p : NoDup (busy_ix p).
Proof. apply NoDup_filter, NoDup_seq. Qed.

Lemma length_omap_lookup {A} (l : list A) (ix : list nat) :
  (∀ i, i ∈ ix → i < length l) → length (omap (λ i, l !! i) ix) = length ix.
Proof.
  induction ix as [|i ix IH]; intros Hb; [done|]. cbn.
  destruct (lookup_lt_is_Some_2 l i) as [x Hx]; [apply Hb, list_elem_of_here|]. rewrite Hx. cbn.
  f_equal. apply IH. intros j Hj. apply Hb. by apply list_elem_of_further.
Qed.

Lemma active_workers_busy p : idle_ok p → active_workers p = Z.of_nat (length (busy p)).
Proof.
  intros Ho. pose proof (length_idle p Ho) as Hl. unfold active_workers, busy.
  rewrite length_omap_lookup by (intros i ?%busy_ix_bound; lia).
  assert (seq 0 (length (workers p)) ≡ₚ idle p ++ busy_ix p) as Hp.
  { apply NoDup_Permutation.
    - apply NoDup_seq.
    - apply NoDup_app. split; [apply Ho|]. split; [|apply NoDup_busy_ix].
      intros i Hi [_ ?]%busy_ix_bound. done.
    - intros i. rewrite elem_of_seq, elem_of_app, busy_ix_bound.
      pose proof (io_bound _ Ho i). destruct (decide (i ∈ idle p)); naive_solver lia. }
  apply Permutation_length in Hp. rewrite length_app, length_seq in Hp. lia.
Qed.

Lemma elem_of_busy p r : r ∈ busy p ↔ ∃ i, (i ∉ idle p) ∧ workers p !! i = Some r.
Proof.
  unfold busy. rewrite list_elem_of_omap. split.
  - intros (i & [_ Hi]%busy_ix_bound & Hr). eauto.
  - intros (i & Hi & Hr). exists i. rewrite busy_ix_bound. eauto using lookup_lt_Some.
Qed.

Lemma omap_lookup_insert_out {A} (l : list A) i x (ix : list nat) :
  i ∉ ix → omap (λ j, <[ i := x ]> l !! j) ix = omap (λ j, l !! j) ix.
Proof.
  induction ix as [|j ix IH]; intros Hi; [done|]. apply not_elem_of_cons in Hi as [Hne Hi].
  cbn. rewrite list_lookup_insert_ne by done. by rewrite IH.
Qed.

Lemma omap_ext_in {A C} (f g : A → option C) (l : list A) :
  (∀ x, x ∈ l → f x = g x) → omap f l = omap g l.
Proof.
  induction l as [|x l IH]; intros H; [done|]. cbn. rewrite (H x) by apply list_elem_of_here.
  rewrite IH; [done|]. intros y Hy. apply H. by apply list_elem_of_further.
Qed.

(** * Starting a job *)

(** [load] leaves the worker's identity alone. *)
Definition loads (f : run_info → run_info) : Prop := ∀ r,
  worker_id (f r) = worker_id r ∧ worker_routing_id (f r) = worker_routing_id r ∧
  joinable (f r) = joinable r.

Lemma load_command_loads cat c conn a rm d cb : loads (load_command cat c conn a rm d cb).
Proof. by intros r. Qed.
Lemma load_injected_loads cat c rm f : loads (load_injected cat c rm f).
Proof. by intros r. Qed.
Lemma load_pending_loads pc : loads (load_pending pc).
Proof. intros r. unfold load_pending. by destruct (pc_callback pc). Qed.
Lemma load_batch_loads bj reply t : loads (load_batch bj reply t).
Proof. by intros r. Qed.
#[export] Hint Resolve load_command_loads load_injected_loads load_pending_loads
  load_batch_loads : omq.

(** The loaded worker once its thread runs. *)
Definition launched (r : run_info) : run_info := r <| joinable := true |>.

(** What [run_on_idle] does: worker [i] goes from idle (or new) to busy with the
    loaded job and is told so; nothing else changes. *)
Record launch (p : pool) (f : run_info → run_info) (p' : pool) (i : nat) (r : run_info) : Prop := {
  la_rest : ∃ ws n ms, p' = p <| workers := ws |> <| idle_worker_count := n |> <| sent := ms |>;
  la_idle : idle_ok p';
  la_run : workers p' !! i = Some (launched (f r));
  la_other : ∀ j, j ≠ i → workers p' !! j = workers p !! j;
  la_busy : busy p' ≡ₚ launched (f r) :: busy p;
  la_ix : ∀ j, j ∈ idle p' ↔ j ∈ idle p ∧ j ≠ i;
  la_sent :
    (i = length (workers p) ∧ length (workers p') = S (length (workers p)) ∧
      sent p' = sent p ++ [StartThread (Z.of_nat i)]) ∨
    (i ∈ idle p ∧ length (workers p') = length (workers p) ∧
      sent p' = sent p ++ [Control (routing_id false (Z.of_nat i)) (B "RUN")]);
}.

(** With no idle worker and room for one a new worker is made and started. *)
Definition new_worker (f : run_info → run_info) (p : pool) : pool :=
  let n := length (workers p) in
  p <| workers := workers p ++ [launched (f (run_new false (Z.of_nat n)))] |>
    <| sent ::= (λ l, l ++ [StartThread (Z.of_nat n)]) |>.
Lemma run_on_new p f :
  loads f → idle_worker_count p = 0 → length (workers p) < workers_capacity p →
  run_on_idle p f = Ret (new_worker f p).
Proof.
  intros Hf Hc Hlt. unfold new_worker. set (n := length (workers p)) in *. set (r := run_new false (Z.of_nat n)).
  destruct (Hf r) as (Hw & Hr & Hj).
  unfold run_on_idle, get_idle_worker. rewrite Hc. cbn [Nat.eqb]. fold n.
  rewrite (proj2 (Nat.ltb_lt _ _)) by done. cbn [mbind outcome_bind]. unfold modify at 1. cbn [workers].
  rewrite lookup_app_r, Nat.sub_diag by done. cbn [lookup list_lookup].
  unfold proxy_run_worker. fold r. rewrite Hj, Hw. cbn [r joinable run_new]. unfold modify; cbn.
  fold n. rewrite insert_app_r_alt, Nat.sub_diag by done. cbn. done.
Qed.
(** With no idle worker and no room the vector of workers is reallocated. *)
Lemma run_on_full p f :
  idle_worker_count p = 0 → workers_capacity p ≤ length (workers p) → run_on_idle p f = Undef.
Proof.
  intros Hc Hge. unfold run_on_idle, get_idle_worker. rewrite Hc. cbn [Nat.eqb].
  by rewrite (proj2 (Nat.ltb_ge _ _)) by done.
Qed.

Lemma launch_new p f :
  idle_ok p → loads f → idle_worker_count p = 0 → length (workers p) < workers_capacity p →
  ∃ p' i r, run_on_idle p f = Ret p' ∧ launch p f p' i r.
Proof.
  intros Ho Hf Hc Hlt. pose proof Ho as [Hnd Hb Hcnt Hsz Hcap Hids].
  assert (idle p = []) as Hi by (unfold idle; by rewrite Hc).
  set (n := length (workers p)) in *. set (r := run_new false (Z.of_nat n)).
  destruct (Hf r) as (Hw & Hr & Hj).
  set (p' := p <| workers := workers p ++ [launched (f r)] |>
               <| sent ::= (λ l, l ++ [StartThread (Z.of_nat n)]) |>).
  exists p', n, r. split; [by apply run_on_new|].
  assert (idle p' = []) as Hi' by exact Hi.
  assert (length (workers p') = S n) as Hl by (cbn; rewrite length_app; cbn; lia).
  assert (busy_ix p' = busy_ix p ++ [n]) as Hbx.
  { unfold busy_ix. rewrite Hl, seq_S, filter_app, Hi, Hi'. f_equal. }
  split; rewrite ?Hi, ?Hi'.
  + by exists (workers p'), (idle_worker_count p), (sent p').
  + split; rewrite ?Hi'; try done; [constructor|by intros i ?%not_elem_of_nil|cbn in *; lia|].
    intros i r' [Hi''|[Hge Hlk]]%lookup_app_Some; [by apply Hids|].
    apply list_lookup_singleton_Some in Hlk as [Hz <-]. fold n in Hz.
    assert (i = n) as -> by lia. cbn. by rewrite Hw, Hr.
  + cbn. rewrite lookup_app_r by done. fold n. by rewrite Nat.sub_diag.
  + intros j Hj'. cbn. destruct (decide (j < n)); [by rewrite lookup_app_l|].
    rewrite (lookup_ge_None_2 (workers p)) by lia. apply lookup_ge_None_2.
    rewrite length_app; cbn; lia.
  + unfold busy. rewrite Hbx, omap_app.
    replace (omap (λ i, workers p' !! i) [n]) with [launched (f r)].
    2:{ cbn. rewrite lookup_app_r by done. fold n. by rewrite Nat.sub_diag. }
    rewrite <- Permutation_cons_append. f_equiv.
    rewrite (omap_ext_in _ (λ i, workers p !! i)); [done|]. intros j [Hj' _]%busy_ix_bound.
    cbn. by rewrite lookup_app_l.
  + intros j. rewrite elem_of_nil. naive_solver.
  + left. done.
Qed.

(** Taking one index out of the idle stack puts it among the busy ones. *)
Lemma busy_ix_cons p q i :
  length (workers q) = length (workers p) → i < length (workers p) → i ∈ idle p →
  (∀ j, j ∈ idle q ↔ j ∈ idle p ∧ j ≠ i) → busy_ix q ≡ₚ i :: busy_ix p.
Proof.
  intros Hl Hi Hin Hq. apply NoDup_Permutation.
  - apply NoDup_busy_ix.
  - apply NoDup_cons. split; [|apply NoDup_busy_ix]. intros [_ ?]%busy_ix_bound. done.
  - intros j. rewrite elem_of_cons, !busy_ix_bound, Hl, Hq.
    destruct (decide (j = i)) as [->|]; naive_solver.
Qed.

Lemma launch_reuse p f :
  idle_ok p → loads f → idle_worker_count p ≠ 0 →
  ∃ p' i r, run_on_idle p f = Ret p' ∧ launch p f p' i r.
Proof.
  intros Ho Hf Hc. pose proof Ho as [Hnd Hb Hcnt Hsz Hcap Hids].
  set (n := idle_worker_count p - 1).
  destruct (lookup_lt_is_Some_2 (idle_workers p) n) as [i Hi]; [unfold n; lia|].
  assert (idle p = take n (idle_workers p) ++ [i]) as Hidle.
  { unfold idle. replace (idle_worker_count p) with (S n) by (unfold n; lia). by apply take_S_r. }
  assert (i < length (workers p)) as Hlt.
  { apply Hb. rewrite Hidle. apply elem_of_app. right. apply list_elem_of_here. }
  destruct (lookup_lt_is_Some_2 (workers p) i Hlt) as [r Hr].
  destruct (Hf r) as (Hw & Hrt & Hj). destruct (Hids i r Hr) as (Hw0 & Hrt0 & Hj0).
  assert (launched (f r) = f r) as Hla.
  { unfold launched. rewrite <- Hj0, <- Hj. by destruct (f r). }
  set (p' := p <| idle_worker_count := n |> <| workers ::= <[ i := f r ]> |>
               <| sent ::= (λ l, l ++ [Control (routing_id false (Z.of_nat i)) (B "RUN")]) |>).
  assert (∀ j, j ∈ idle p' ↔ j ∈ idle p ∧ j ≠ i) as Hix.
  { intros j. rewrite Hidle, NoDup_app in Hnd. destruct Hnd as (_ & Hd & _).
    change (idle p') with (take n (idle_workers p)). rewrite Hidle, elem_of_app, list_elem_of_singleton.
    specialize (Hd j). rewrite list_elem_of_singleton in Hd. naive_solver. }
  assert (length (workers p') = length (workers p)) as Hlen by (cbn; by rewrite length_insert).
  exists p', i, r. split.
  - unfold run_on_idle, get_idle_worker. rewrite (proj2 (Nat.eqb_neq _ _) Hc). fold n. rewrite Hi.
    cbn [mbind outcome_bind]. unfold modify at 1. cbn [workers]. rewrite Hr.
    unfold proxy_run_worker. rewrite Hj, Hj0, Hrt, Hrt0. done.
  - split; rewrite ?Hla.
    + by exists (workers p'), n, (sent p').
    + split; try done.
      * rewrite Hidle in Hnd. apply NoDup_app in Hnd. apply Hnd.
      * intros j [Hj' _]%Hix. rewrite Hlen. auto.
      * cbn. unfold n. lia.
      * rewrite Hlen. exact Hcap.
      * intros j r' Hr'. cbn in Hr'. apply list_lookup_insert_Some in Hr' as [(<- & <- & _)|[_ ?]]; [|auto].
        by rewrite Hw, Hrt, Hj.
    + cbn. by apply list_lookup_insert_eq.
    + intros j Hne. cbn. by apply list_lookup_insert_ne.
    + unfold busy. assert (i ∈ idle p) as Hin.
      { rewrite Hidle. apply elem_of_app. right. apply list_elem_of_here. }
      rewrite (busy_ix_cons p p' i Hlen Hlt Hin Hix). cbn [omap list_omap].
      change (workers p') with (<[ i := f r ]> (workers p)). rewrite list_lookup_insert_eq by done.
      f_equiv. rewrite omap_lookup_insert_out; [done|]. intros [_ ?]%busy_ix_bound. done.
    + done.
    + right. split; [|done]. rewrite Hidle. apply elem_of_app. right. apply list_elem_of_here.
Qed.

Lemma run_on_idle_spec p f :
  idle_ok p → loads f → length (busy p) < workers_capacity p →
  ∃ p' i r, run_on_idle p f = Ret p' ∧ launch p f p' i r.
Proof.
  intros Ho Hf Hlt. destruct (decide (idle_worker_count p = 0)) as [Hc|Hc].
  - apply launch_new; try done. pose proof (active_workers_busy p Ho) as Ha.
    unfold active_workers in Ha. lia.
  - by apply launch_reuse.
Qed.

(** * Preservation *)

(** The parts of the state that [pool_ok] reads, apart from the counters. *)
Record pool_same (p q : pool) : Prop := {
  ps_workers : workers q = workers p;
  ps_capacity : workers_capacity q = workers_capacity p;
  ps_idle : idle_workers q = idle_workers p;
  ps_count : idle_worker_count q = idle_worker_count p;
  ps_general : general_workers q = general_workers p;
  ps_max : max_workers q = max_workers p;
  ps_slots : slots q = slots p;
  ps_reserved : ∀ s, reserved q s = reserved p s;
}.

Lemma pool_same_refl p : pool_same p p.
Proof. by split. Qed.

Lemma pool_same_trans p q r : pool_same p q → pool_same q r → pool_same p r.
Proof. intros [] []. split; intros; etrans; eauto. Qed.

Lemma pool_same_busy p q : pool_same p q → busy q = busy p ∧ idle q = idle p.
Proof.
  intros [Hw _ Hi Hc _ _ _ _]. unfold busy, busy_ix, idle. by rewrite Hw, Hi, Hc.
Qed.

Lemma pool_same_idle_ok p q : pool_same p q → idle_ok p → idle_ok q.
Proof.
  intros Hs [Hnd Hb Hcnt Hsz Hcap Hids]. destruct (pool_same_busy p q Hs) as [_ Hi].
  destruct Hs as [Hw Hc Hiw Hn _ _ _ _]. split; rewrite ?Hi, ?Hw, ?Hc, ?Hiw, ?Hn; done.
Qed.

Lemma pool_same_active p q : pool_same p q → active_workers q = active_workers p.
Proof. intros [Hw _ _ Hn _ _ _ _]. unfold active_workers. by rewrite Hw, Hn. Qed.

Lemma slots_inv_same p q act b :
  pool_same p q →
  slots_inv (general_workers p) (max_workers p) (slots p) (reserved p) act b →
  slots_inv (general_workers q) (max_workers q) (slots q) (reserved q) act b.
Proof.
  intros [_ _ _ _ Hg Hm Hs Hr] [Hnd Hg0 Hm0 Hr0 Hk Ha Ho].
  assert (∀ l : list slot, reserved q <$> l = reserved p <$> l) as Hf.
  { intros l. apply list_fmap_ext. intros. apply Hr. }
  split; rewrite ?Hg, ?Hm, ?Hs, ?Hf; try done.
  - intros s Hin. rewrite Hr. by apply Hr0.
  - transitivity (overflow (slots p) (reserved p) act); [|done].
    apply Zsum_map_le. intros s _. by rewrite Hr.
Qed.

Lemma pool_ok_same p q :
  pool_same p q → (∀ s, s ∈ slots p → active q s = active p s) → pool_ok p → pool_ok q.
Proof.
  intros Hs Ha [Hi Hp Hc]. destruct (pool_same_busy p q Hs) as [Hb _]. split.
  - by eapply pool_same_idle_ok.
  - rewrite Hb. eapply (slots_inv_same p); [done|]. by eapply slots_inv_proper.
  - by rewrite (ps_capacity _ _ Hs), (ps_max _ _ Hs).
Qed.

Lemma the_category_alter f c p c' :
  the_category (alter_category f c p) c' =
  if decide (c = c') then f <$> the_category p c' else the_category p c'.
Proof.
  unfold the_category, alter_category, modify; cbn. destruct (decide (c = c')) as [->|Hne].
  - apply lookup_alter_eq.
  - by apply lookup_alter_ne.
Qed.

(** Changing a category's counters keeps the rest. *)
Lemma pool_same_alter f c p :
  (∀ k, reserved_threads (f k) = reserved_threads k) → pool_same p (alter_category f c p).
Proof.
  intros Hf. split; try done.
  - unfold slots, alter_category, modify; cbn. by rewrite dom_alter_L.
  - intros [| |c']; try done. cbn [reserved]. rewrite the_category_alter.
    destruct (decide (c = c')); [|done]. by destruct (the_category p c') as [k|]; cbn.
Qed.

Lemma active_alter f c p d k :
  the_category p c = Some k → (∀ k, active_threads (f k) = (active_threads k + d)%Z) →
  ∀ s, active (alter_category f c p) s = bump (SCat c) d (active p) s.
Proof.
  intros Hk Hf s. unfold bump. destruct s as [| |c']; cbn [active].
  1,2: rewrite decide_False by done; cbn; lia.
  rewrite the_category_alter. destruct (decide (c = c')) as [<-|Hne].
  - rewrite decide_True by done. rewrite Hk. cbn. apply Hf.
  - rewrite decide_False by congruence. lia.
Qed.

Lemma slot_known p c : is_Some (the_category p c) ↔ SCat c ∈ slots p.
Proof.
  unfold slots, the_category. rewrite !elem_of_cons, list_elem_of_fmap.
  setoid_rewrite elem_of_elements. setoid_rewrite elem_of_dom. naive_solver.
Qed.

Definition jobs_slot (reply : bool) : slot := if reply then SReply else SBatch.

Lemma jobs_slot_known reply p : jobs_slot reply ∈ slots p.
Proof. unfold slots. destruct reply; cbn [jobs_slot]; rewrite !elem_of_cons; auto. Qed.

Lemma pool_same_jobs reply d q p : pool_same p (add_active reply d (set_jobs reply q p)).
Proof. destruct reply; by split; [..|intros []]. Qed.

Lemma active_jobs reply d q p s :
  active (add_active reply d (set_jobs reply q p)) s = bump (jobs_slot reply) d (active p) s.
Proof. unfold bump. destruct (decide (s = jobs_slot reply)) as [->|]; destruct reply; try destruct s; try done;
  by rewrite ?Z.add_0_r, 1?Z.add_comm. Qed.

Lemma launch_same p f p' i r :
  launch p f p' i r →
  general_workers p' = general_workers p ∧ max_workers p' = max_workers p ∧
  workers_capacity p' = workers_capacity p ∧ slots p' = slots p ∧ reserved p' = reserved p ∧
  active p' = active p.
Proof. intros [(ws & n & ms & ->) _ _ _ _ _ _]. done. Qed.

(** A job was started and counted. *)
Lemma pool_ok_launch p f p' i r q :
  pool_ok p → launch p f p' i r → slot_of (launched (f r)) ∈ slots p →
  (active p (slot_of (launched (f r))) < reserved p (slot_of (launched (f r))) ∨
   active_workers p < general_workers p)%Z →
  pool_same p' q →
  (∀ s, active q s = bump (slot_of (launched (f r))) 1 (active p) s) →
  pool_ok q.
Proof.
  intros [Hi Hp Hc] Hl Hs Hfree Hq Ha. rewrite active_workers_busy in Hfree by done.
  destruct (launch_same _ _ _ _ _ Hl) as (Eg & Em & Ec & Es & Er & Ea).
  destruct (pool_same_busy _ _ Hq) as [Hb _].
  pose proof (slots_add Hp _ Hs Hfree) as Hp'. split.
  - eapply pool_same_idle_ok; [done|apply Hl].
  - rewrite Hb. eapply (slots_inv_same p'); [done|]. rewrite Eg, Em, Es, Er.
    eapply slots_inv_proper; [| |exact Hp']; [by intros; apply Ha|by rewrite (la_busy _ _ _ _ _ Hl)].
  - by rewrite (ps_capacity _ _ Hq), (ps_max _ _ Hq), Ec, Em.
Qed.

(** There is room for one more worker when a slot is free. *)
Lemma slot_room p s :
  pool_ok p → s ∈ slots p →
  (active p s < reserved p s ∨ active_workers p < general_workers p)%Z →
  length (busy p) < workers_capacity p ∧ (active_workers p < max_workers p)%Z.
Proof.
  intros [Hi Hp Hc] Hs Hfree. rewrite active_workers_busy in * by done.
  assert (Z.of_nat (length (busy p)) < max_workers p)%Z; [|lia].
  destruct Hfree as [Hlt|Hlt]; [by eapply (reserved_free Hp)|].
  rewrite (si_max _ _ _ _ _ _ Hp).
  enough (0 ≤ Zsum (reserved p <$> slots p))%Z by lia.
  pose proof (si_res _ _ _ _ _ _ Hp) as Hr. revert Hr. generalize (slots p) as K. clear.
  intros K Hr. transitivity (Zsum ((λ _ : slot, 0%Z) <$> K)).
  - clear. induction K; cbn in *; [done|]. unfold Zsum in *. lia.
  - by apply Zsum_map_le.
Qed.
