(* ===== verification/Threads.v ===== *)
(** * Threads: the proxy together with its worker threads

    The loop of [worker_thread] and [worker_wait_for] of [worker.cpp] as a state
    machine per thread, and the interleavings of the worker threads with the
    handlers the proxy thread runs.  An [event] is one handler of the proxy or
    one turn of a worker; any list of events is a schedule. *)
From S2P Require Import Prelude Bytes Auth ConnId Commands Batch Pool.
Open Scope Z_scope.
Open Scope nat_scope.

(** Where a worker thread is: a tagged thread waits for START first; a thread
    waits for RUN or QUIT, runs its job, has sent RAN, has sent QUITTING, or was
    joined. *)
Inductive wstatus := Starting | Waiting | Running | Ran | Quitting | Joined.
#[export] Instance wstatus_eq_dec : EqDecision wstatus.
Proof. solve_decision. Defined.

Record wthread := mk_thread {
  wt_status : wstatus;
  wt_tag : bytes; (* message.reply_tag *)
}.
#[export] Instance wthread_rebuild : Rebuild wthread := λ t, mk_thread (wt_status t) (wt_tag t).

Record thread_set := mk_threads { regular : list wthread; tagged : list wthread }.
#[export] Instance thread_set_rebuild : Rebuild thread_set := λ t, mk_threads (regular t) (tagged t).

Definition the_thread (tg : bool) (wid : Z) (ts : thread_set) : option wthread :=
  if tg then tagged ts !! Z.to_nat (wid - 1) else regular ts !! Z.to_nat wid.
Definition set_thread (tg : bool) (wid : Z) (t : wthread) (ts : thread_set) : thread_set :=
  if tg then ts <| tagged ::= <[ Z.to_nat (wid - 1) := t ]> |>
  else ts <| regular ::= <[ Z.to_nat wid := t ]> |>.

(** [worker_wait_for]: the next status of a waiting thread that reads [cmd];
    other commands are logged and skipped. *)
Definition worker_wait_for (expect cmd : bytes) (now next : wstatus) : wstatus :=
  if bool_decide (cmd = expect) then next
  else if bool_decide (cmd = B "QUIT") then Quitting
  else now.

(** A thread reads a control message.  The proxy only ever writes to a thread
    that is waiting (shown below), so reading in any other status is left
    undefined. *)
Definition worker_reads (cmd : bytes) (t : wthread) : outcome wthread :=
  match wt_status t with
  | Starting => Ret (t <| wt_status := worker_wait_for (B "START") cmd Starting Waiting |>)
  | Waiting => Ret (t <| wt_status := worker_wait_for (B "RUN") cmd Waiting Running |>)
  | _ => Undef
  end.

Definition deliver (m : to_worker) (ts : thread_set) : outcome thread_set :=
  match m with
  | StartThread id =>
      if (id =? Z.of_nat (length (regular ts)))%Z
      then Ret (ts <| regular ::= (λ l, l ++ [mk_thread Running []]) |>)
      else Undef
  | Control (c :: id) cmd =>
      let tg := bool_decide (c = "t"%char) in
      match the_thread tg (load32 id) ts with
      | None => Undef
      | Some t => t ← worker_reads cmd t; Ret (set_thread tg (load32 id) t ts)
      end
  | Control [] _ => Undef
  end.

Fixpoint deliver_all (ms : list to_worker) (ts : thread_set) : outcome thread_set :=
  match ms with
  | [] => Ret ts
  | m :: ms => ts ← deliver m ts; deliver_all ms ts
  end.

(** The proxy and its workers. *)
Record system := mk_system { proxy : pool; wthreads : thread_set; calls : list invocation }.
#[export] Instance system_rebuild : Rebuild system := λ s,
  mk_system (proxy s) (wthreads s) (calls s).

Inductive event :=
  | EvBatch (o : batch_obj)
  | EvReply (f : task)
  | EvInject (cat command remote : bytes) (f : callback)
  | EvCommand (cat command : bytes) (data : list bytes) (cb : command_entry)
      (conn : ConnectionID) (acc : Access) (remote : bytes)
  | EvTimerAdd (id : Z) (job : callback) (squelch : bool) (thread zmq_timer_id : Z)
  | EvTimerDel (id : Z)
  | EvTimer (timer_id : Z)
  | EvQueue
  | EvTurn (tg : bool) (wid : Z)
  | EvRan (tg : bool) (wid : Z)
  | EvQuit
  | EvQuitting (tg : bool) (wid : Z)
  | EvPoll (skip : bool). (* the loop sets or clears proxy_skip_one_poll *)

Section system.
Context {E : TaskEval}.

(** What the handler wrote to the workers socket is read by the threads. *)
Definition flush (s : system) : outcome system :=
  ts ← deliver_all (sent (proxy s)) (wthreads s);
  Ret (s <| wthreads := ts |> <| proxy ::= (λ p, p <| sent := [] |>) |>).

Definition on_proxy (s : system) (m : outcome pool) : outcome system :=
  p ← m; flush (s <| proxy := p |>).

(** The new reply tag of a thread after an invocation. *)
Definition tag_after (i : option invocation) (tag : bytes) : bytes :=
  match i with Some (InvokeCommand _ m) => reply_tag m | _ => tag end.

(** A worker runs its job and sends RAN. *)
Definition turn (tg : bool) (wid : Z) (s : system) : outcome system :=
  match the_thread tg wid (wthreads s), the_run tg wid (proxy s) with
  | Some t, Some run =>
      if decide (wt_status t = Running) then
        '(p, i) ← worker_turn (wt_tag t) run (proxy s);
        Ret (s <| proxy := p |>
               <| wthreads ::= set_thread tg wid (mk_thread Ran (tag_after i (wt_tag t))) |>
               <| calls ::= (λ l, l ++ option_list i) |>)
      else Ret s
  | _, _ => Ret s
  end.

(** The proxy reads the RAN or QUITTING a worker sent. *)
Definition worker_message (sends next : wstatus) (cmd : bytes) (tg : bool) (wid : Z)
    (s : system) : outcome system :=
  match the_thread tg wid (wthreads s) with
  | Some t =>
      if decide (wt_status t = sends) then
        on_proxy (s <| wthreads ::= set_thread tg wid (t <| wt_status := next |>) |>)
          (proxy_worker_message [routing_id tg wid; cmd] (proxy s))
      else Ret s
  | None => Ret s
  end.

(** One event.  A worker event of a thread that is not at that point of its
    loop does nothing. *)
Definition step (s : system) (e : event) : outcome system :=
  let p := proxy s in
  match e with
  | EvBatch o => let '(p, a) := alloc o p in on_proxy s (proxy_batch a p)
  | EvReply f => on_proxy s (Ret (proxy_schedule_reply_job f p))
  | EvInject cat command remote f => on_proxy s (proxy_inject_task cat command remote f p)
  | EvCommand cat command data cb conn acc remote =>
      on_proxy s (dispatch_command cat command data cb conn acc remote p)
  | EvTimerAdd id job sq th z => on_proxy s (proxy_timer id job sq th z p)
  | EvTimerDel id => on_proxy s (Ret (fst (proxy_timer_del id p)))
  | EvTimer t => on_proxy s (queue_timer_job t p)
  | EvQueue => on_proxy s (proxy_process_queue p)
  | EvTurn tg wid => turn tg wid s
  | EvRan tg wid => worker_message Ran Waiting (B "RAN") tg wid s
  | EvQuit => on_proxy s (quit_workers p)
  | EvQuitting tg wid => worker_message Quitting Joined (B "QUITTING") tg wid s
  | EvPoll skip => Ret (s <| proxy ::= (λ p, p <| proxy_skip_one_poll := skip |>) |>)
  end.

Fixpoint execute (s : system) (es : list event) : outcome system :=
  match es with
  | [] => Ret s
  | e :: es => s ← step s e; execute s es
  end.
End system.

(** The system right after [start]: the tagged threads got their START. *)
Definition system_start (p : pool) : outcome system :=
  p ← start p;
  flush (mk_system p (mk_threads [] ((λ _, mk_thread Starting []) <$> tagged_workers p)) []).
