(* ===== verification/PoolInv.v ===== *)
(** * PoolInv: the invariant of the pool, its batch objects and its threads

    Every object on the heap is reachable from exactly the queue entries and
    running workers that account for its outstanding jobs; every loaded worker
    holds a job it can run; every pending command is counted in its category;
    and the worker threads are waiting exactly when the proxy thinks they are
    idle. *)
From S2P Require Import Prelude Bytes Auth ConnId Commands Batch Pool PoolSlots Threads.
Open Scope Z_scope.
Open Scope nat_scope.

(** * Queue entries *)

Definition run_entry (r : run_info) : option batch_job :=
  if is_batch_job r then
    match to_run r with RBatch b => Some (b, batch_jobno r) | _ => None end
  else None.

(** The job of a tagged worker that is busy. *)
Definition tagged_run (w : run_info * bool * batch_queue) : option run_info :=
  let '(r, busy, _) := w in if busy : bool then Some r else None.

(** What all workers run. *)
Definition running_jobs (p : pool) : list run_info :=
  busy p ++ omap tagged_run (tagged_workers p).

(** All jobs that are queued or running. *)
Definition entries (p : pool) : list batch_job :=
  batch_jobs p ++ reply_jobs p ++ mjoin (snd <$> tagged_workers p) ++
  omap run_entry (running_jobs p).

(** The function an entry stands for; the completion of a batch is not one of its jobs. *)
Definition function_of (h : gmap ptr batch_obj) (e : batch_job) : option task :=
  if (snd e <? 0)%Z then None else h !! fst e ≫= (λ o, job_function o (Z.to_nat (snd e))).

(** The job worker [i] has, if it is not idle. *)
Definition busy_run (tg : bool) (i : nat) (p : pool) : option run_info :=
  if tg then tagged_workers p !! i ≫= tagged_run
  else if decide (i ∈ idle p) then None else workers p !! i.

Definition jobno_of (b : ptr) (e : batch_job) : option Z :=
  if decide (fst e = b) then Some (snd e) else None.
(** The job numbers of the entries of object [b]. *)
Definition jobnos (b : ptr) (es : list batch_job) : list Z := omap (jobno_of b) es.

(** * The invariant *)

Section invariant.

Definition thread_ok (n : nat) (t : Z) : Prop := (0 ≤ t ≤ Z.of_nat n)%Z.

(** A [Batch] all of whose entries are still to finish. *)
Record batch_open (n : nat) (b : batch) (ns : list Z) : Prop := {
  bo_nodup : NoDup ns;
  bo_range : ∀ i, i ∈ ns → (0 ≤ i < Z.of_nat (length (jobs b)))%Z;
  bo_count : jobs_outstanding b = Z.of_nat (length ns);
  bo_some : ns ≠ [];
  bo_fits : (jobs_outstanding b < 2 ^ 64)%Z;
  bo_results : length (results b) = length (jobs b);
  bo_thread : complete_in_thread b = (-1)%Z ∨ thread_ok n (complete_in_thread b);
}.

(** A [Batch] waiting for its completion function to run in a worker. *)
Definition batch_closing (b : batch) (ns : list Z) : Prop :=
  ns = [(-1)%Z] ∧ ∃ c, complete_fn b = Some (CUser c).

(** An object and the job numbers its entries have; [n] is the number of
    tagged workers. *)
Definition obj_ok (n : nat) (o : option batch_obj) (ns : list Z) : Prop :=
  match o with
  | None => ns = []
  | Some (OJob _) => ns = [0%Z]
  | Some (OBatch b) => batch_open n b ns ∨ batch_closing b ns
  end.

(** The timer a batch belongs to. *)
Definition timer_of (o : batch_obj) : option Z :=
  match o with
  | OBatch b => match complete_fn b with Some (CTimer t) => Some t | _ => None end
  | OJob _ => None
  end.

(** The objects and timers of [p] are accounted for by the entries [es]. *)
Record heap_with (p : pool) (es : list batch_job) : Prop := {
  ho_objs : ∀ b, obj_ok (length (tagged_workers p)) (heap p !! b) (jobnos b es);
  ho_timer_thread : ∀ b bt t, heap p !! b = Some (OBatch bt) → timer_of (OBatch bt) = Some t →
    complete_in_thread bt = (-1)%Z;
  ho_timer_unique : ∀ b b' o o' t, heap p !! b = Some o → heap p !! b' = Some o' →
    timer_of o = Some t → timer_of o' = Some t → b = b';
  ho_timer_running : ∀ t, (∃ b o, heap p !! b = Some o ∧ timer_of o = Some t) ↔
    (∃ d, timer_jobs p !! t = Some d ∧ timer_running d = true);
  ho_timer_threads : ∀ t d, timer_jobs p !! t = Some d →
    timer_thread d = (-1)%Z ∨ thread_ok (length (tagged_workers p)) (timer_thread d);
}.

Definition heap_ok (p : pool) : Prop := heap_with p (entries p).

(** A worker was loaded with something it can run. *)
Definition run_ok (r : run_info) : Prop :=
  if is_batch_job r then ∃ b, to_run r = RBatch b
  else if is_injected r then ∃ f, to_run r = RFunc f
  else ∃ e, to_run r = RCommand e ∧ (snd e = true → run_data r ≠ []).

Definition pending_ok (pc : pending_command) : Prop :=
  match pc_callback pc with
  | PInjected _ => True
  | PCommand e => snd e = true → pc_data pc ≠ []
  end.

Definition pending_of (c : bytes) (l : list pending_command) : Z :=
  Z.of_nat (length (filter (λ pc, pc_cat pc = c) l)).

(** [l] are the pending commands. *)
Record queue_ok (p : pool) (l : list pending_command) : Prop := {
  qo_queued : ∀ c k, the_category p c = Some k → queued k = pending_of c l;
  qo_known : ∀ pc, pc ∈ l → is_Some (the_category p (pc_cat pc)) ∧ pending_ok pc;
}.

Definition tagged_ok (p : pool) : Prop := ∀ i r b q, tagged_workers p !! i = Some (r, b, q) →
  worker_id r = (Z.of_nat i + 1)%Z ∧ worker_routing_id r = routing_id true (Z.of_nat i + 1) ∧
  joinable r = true ∧ (b = true → is_batch_job r = true).

Definition status_ok (is_idle : Prop) (t : wthread) : Prop :=
  (is_idle ∧ wt_status t = Waiting) ∨ (¬ is_idle ∧ (wt_status t = Running ∨ wt_status t = Ran)).

Record threads_ok (p : pool) (ts : thread_set) : Prop := {
  to_len : length (regular ts) = length (workers p);
  to_status : ∀ i t, regular ts !! i = Some t → status_ok (i ∈ idle p) t;
  to_tlen : length (tagged ts) = length (tagged_workers p);
  to_tstatus : ∀ i t w, tagged ts !! i = Some t → tagged_workers p !! i = Some w →
    status_ok (snd (fst w) = false) t;
}.

(** Worker ids fit in [uint32_t]. *)
Definition ids_fit (p : pool) : Prop :=
  (max_workers p < 2 ^ 31)%Z ∧ (Z.of_nat (length (tagged_workers p)) < 2 ^ 31)%Z.

(** [l] is what [pending_commands] stands for (its content, or the commands a
    loop has still to go through as well). *)
Record good (l : list pending_command) (p : pool) (ts : thread_set) : Prop := {
  g_pool : pool_ok p;
  g_heap : heap_ok p;
  g_runs : ∀ r, r ∈ running_jobs p → run_ok r;
  g_queue : queue_ok p l;
  g_tagged : tagged_ok p;
  g_threads : ∃ ts', deliver_all (sent p) ts = Ret ts' ∧ threads_ok p ts';
  g_fit : ids_fit p;
}.
End invariant.

(** * Delivering messages *)

Lemma load32_raw32 z : (0 ≤ z < 2 ^ 32)%Z → load32 (raw32 z) = z.
Proof.
  intros Hz. unfold load32, raw32. cbn [take foldr].
  assert (∀ x, ord (chr x) = (x mod 256)%Z) as Hoc.
  { intros x. rewrite <- (ord_chr (x mod 256)) by (apply Z.mod_pos_bound; lia).
    unfold chr. by rewrite Z.mod_mod by lia. }
  rewrite !Hoc. Z.div_mod_to_equations. lia.
Qed.

Lemma deliver_all_app ms ms' ts :
  deliver_all (ms ++ ms') ts = (deliver_all ms ts ≫= deliver_all ms').
Proof.
  revert ts. induction ms as [|m ms IH]; intros ts; [done|]. cbn.
  destruct (deliver m ts); cbn; [apply IH|done|done].
Qed.

Lemma deliver_all_snoc ms m ts ts1 ts2 :
  deliver_all ms ts = Ret ts1 → deliver m ts1 = Ret ts2 → deliver_all (ms ++ [m]) ts = Ret ts2.
Proof. intros H1 H2. rewrite deliver_all_app, H1. cbn. by rewrite H2. Qed.

(** RUN to a waiting thread. *)
Lemma deliver_run tg wid t ts :
  (0 ≤ wid < 2 ^ 32)%Z → the_thread tg wid ts = Some t → wt_status t = Waiting →
  deliver (Control (routing_id tg wid) (B "RUN")) ts =
  Ret (set_thread tg wid (t <| wt_status := Running |>) ts).
Proof.
  intros Hw Ht Hs. unfold routing_id, deliver.
  replace (bool_decide (wtype tg = "t"%char)) with tg by (by destruct tg).
  rewrite load32_raw32, Ht by done. unfold worker_reads. by rewrite Hs.
Qed.

(** * Entries *)

Lemma jobnos_app b es es' : jobnos b (es ++ es') = jobnos b es ++ jobnos b es'.
Proof. apply omap_app. Qed.

Lemma jobnos_cons b e es :
  jobnos b (e :: es) = if decide (fst e = b) then snd e :: jobnos b es else jobnos b es.
Proof. unfold jobnos, jobno_of. cbn. by destruct (decide _). Qed.

#[export] Instance jobnos_perm b : Proper ((≡ₚ) ==> (≡ₚ)) (jobnos b).
Proof. intros es es' H. unfold jobnos. by rewrite H. Qed.

Lemma elem_of_jobnos b i es : i ∈ jobnos b es ↔ (b, i) ∈ es.
Proof.
  unfold jobnos, jobno_of. rewrite list_elem_of_omap. split.
  - intros ([b' i'] & Hin & H). cbn in H. destruct (decide (b' = b)); naive_solver.
  - intros Hin. exists (b, i). cbn. by rewrite decide_True.
Qed.

Lemma batch_open_perm n b ns ns' : ns ≡ₚ ns' → batch_open n b ns → batch_open n b ns'.
Proof.
  intros Hp [Hnd Hr Hc Hs Hf Hl Ht]. split; try done.
  - by rewrite <- Hp.
  - intros i. rewrite <- Hp. apply Hr.
  - by rewrite <- Hp.
  - intros ->. by apply Permutation_nil_r in Hp.
Qed.

Lemma obj_ok_perm n o ns ns' : ns ≡ₚ ns' → obj_ok n o ns → obj_ok n o ns'.
Proof.
  intros Hp. destruct o as [[b|j]|]; cbn.
  - intros [Ho|[-> Hc]]; [left; by eapply batch_open_perm|right].
    apply Permutation_singleton_l in Hp. by rewrite <- Hp.
  - intros ->. symmetry. by apply Permutation_singleton_l in Hp.
  - intros ->. symmetry. by apply Permutation_nil_l in Hp.
Qed.

(** The heap invariant reads the objects, the timers and the entries as a
    multiset. *)
Lemma heap_with_perm p q es es' :
  heap q = heap p → timer_jobs q = timer_jobs p →
  length (tagged_workers q) = length (tagged_workers p) → es' ≡ₚ es →
  heap_with p es → heap_with q es'.
Proof.
  intros Hh Ht Hl He [H1 H2 H3 H4 H5]. split; rewrite ?Hh, ?Ht, ?Hl; try done.
  intros b. eapply obj_ok_perm; [|by apply H1]. by rewrite He.
Qed.

Lemma heap_ok_perm p q :
  heap q = heap p → timer_jobs q = timer_jobs p →
  length (tagged_workers q) = length (tagged_workers p) → entries q ≡ₚ entries p →
  heap_ok p → heap_ok q.
Proof. apply heap_with_perm. Qed.

Lemma length_tagged (p q : pool) :
  fst <$> tagged_workers q = fst <$> tagged_workers p →
  length (tagged_workers q) = length (tagged_workers p).
Proof. intros H. rewrite <- (length_fmap fst), H. apply length_fmap. Qed.

Lemma omap_tagged_run (ws ws' : list (run_info * bool * batch_queue)) :
  fst <$> ws' = fst <$> ws → omap tagged_run ws' = omap tagged_run ws.
Proof.
  revert ws'. induction ws as [|[[r b] q] ws IH]; intros [|[[r' b'] q'] ws'] H; try done.
  injection H as -> -> H. cbn. by rewrite (IH ws' H).
Qed.

(** * Frames *)

(** [q] is [p] with other queues, objects or timers. *)
Record frame (p q : pool) : Prop := {
  fr_same : pool_same p q;
  fr_reg : reg q = reg p;
  fr_active : ∀ s, active q s = active p s;
  fr_tagged : fst <$> tagged_workers q = fst <$> tagged_workers p;
  fr_sent : sent q = sent p;
}.

Lemma frame_refl p : frame p p.
Proof. split; done || apply pool_same_refl. Qed.

Lemma frame_trans p q r : frame p q → frame q r → frame p r.
Proof.
  intros [] []. split; try (intros; etrans; eauto). by eapply pool_same_trans.
Qed.

Lemma frame_running p q : frame p q → running_jobs q = running_jobs p.
Proof.
  intros [Hs _ _ Ht _]. unfold running_jobs. destruct (pool_same_busy _ _ Hs) as [-> _].
  by rewrite (omap_tagged_run (tagged_workers p) _ Ht).
Qed.

Lemma tagged_lookup_frame (p q : pool) i r b :
  fst <$> tagged_workers q = fst <$> tagged_workers p →
  (∃ x, tagged_workers q !! i = Some (r, b, x)) ↔ (∃ x, tagged_workers p !! i = Some (r, b, x)).
Proof.
  intros H. assert ((fst <$> tagged_workers q) !! i = (fst <$> tagged_workers p) !! i) as Hi by (by rewrite H).
  rewrite !list_lookup_fmap in Hi.
  destruct (tagged_workers q !! i) as [[[??]?]|], (tagged_workers p !! i) as [[[??]?]|]; naive_solver.
Qed.

Lemma tagged_run_frame (p q : pool) i :
  fst <$> tagged_workers q = fst <$> tagged_workers p →
  tagged_workers q !! i ≫= tagged_run = tagged_workers p !! i ≫= tagged_run.
Proof.
  intros H. assert ((fst <$> tagged_workers q) !! i = (fst <$> tagged_workers p) !! i) as Hi by (by rewrite H).
  rewrite !list_lookup_fmap in Hi.
  destruct (tagged_workers q !! i) as [[[??]?]|], (tagged_workers p !! i) as [[[??]?]|]; cbn in *; by simplify_eq.
Qed.

Lemma tagged_ok_frame (p q : pool) :
  fst <$> tagged_workers q = fst <$> tagged_workers p → tagged_ok p → tagged_ok q.
Proof.
  intros H Hp i r b x Hx. destruct (tagged_lookup_frame p q i r b H) as [[x' Hx'] _]; eauto.
Qed.

Lemma threads_ok_frame p q ts : frame p q → threads_ok p ts → threads_ok q ts.
Proof.
  intros Hf [Hl Hs Htl Hts]. destruct (pool_same_busy _ _ (fr_same _ _ Hf)) as [_ Hi]. split.
  - by rewrite (ps_workers _ _ (fr_same _ _ Hf)).
  - by rewrite Hi.
  - by rewrite (length_tagged p q (fr_tagged _ _ Hf)).
  - intros i t [[r b] x] Ht Hx. destruct (tagged_lookup_frame p q i r b (fr_tagged _ _ Hf)) as [[x' Hx'] _]; [eauto|].
    by apply (Hts i t (r, b, x')).
Qed.

(** Queues, objects and timers may change as long as the heap invariant holds. *)
Lemma good_frame l p q ts : frame p q → heap_ok q → good l p ts → good l q ts.
Proof.
  intros Hf Hh [Hp _ Hr [Hq1 Hq2] Ht (ts' & Hd & Hts) [Hm Hn]]. split; try done.
  - eapply pool_ok_same; [apply Hf| |done]. intros; apply Hf.
  - intros r. rewrite (frame_running p q Hf). apply Hr.
  - split; unfold the_category; by rewrite (fr_reg _ _ Hf).
  - by eapply tagged_ok_frame; [apply Hf|].
  - exists ts'. rewrite (fr_sent _ _ Hf). split; [done|]. by eapply threads_ok_frame.
  - split; [by rewrite (ps_max _ _ (fr_same _ _ Hf))|].
    by rewrite (length_tagged p q (fr_tagged _ _ Hf)).
Qed.

(** * Starting a job on a regular worker *)

Lemma worker_fits l p ts i : good l p ts → i < length (workers p) → (0 ≤ Z.of_nat i < 2 ^ 32)%Z.
Proof.
  intros [Hp _ _ _ _ _ [Hm _]] Hi. pose proof (io_capacity _ (po_idle _ Hp)) as Hc.
  rewrite (po_capacity _ Hp) in Hc. lia.
Qed.

Lemma threads_launch l p f p' i r ts ts' :
  good l p ts → launch p f p' i r → deliver_all (sent p) ts = Ret ts' → threads_ok p ts' →
  tagged_workers p' = tagged_workers p →
  ∃ ts2, deliver_all (sent p') ts = Ret ts2 ∧ threads_ok p' ts2.
Proof.
  intros Hg Hl Hd [Hlen Hs Htl Hts] Htg. pose proof (la_ix _ _ _ _ _ Hl) as Hix.
  destruct (la_sent _ _ _ _ _ Hl) as [(-> & Hlen' & Hsent)|(Hi & Hlen' & Hsent)]; rewrite Hsent.
  - exists (ts' <| regular ::= (λ l, l ++ [mk_thread Running []]) |>). split.
    { eapply deliver_all_snoc; [done|]. cbn. rewrite Hlen, Z.eqb_refl. done. }
    split; cbn; rewrite ?Htg; try done.
    + rewrite length_app, Hlen'. cbn. lia.
    + intros j t [Hj|[Hge Hj]]%lookup_app_Some.
      * specialize (Hs j t Hj). apply lookup_lt_Some in Hj. unfold status_ok in *. rewrite Hix.
        assert (j ≠ length (workers p)) by lia. tauto.
      * apply list_lookup_singleton_Some in Hj as [Hz <-]. right. cbn. rewrite Hix.
        split; [|by left]. assert (j = length (workers p)) as -> by lia. naive_solver.
  - pose proof (io_bound _ (po_idle _ (g_pool _ _ _ Hg)) i Hi) as Hlt.
    destruct (lookup_lt_is_Some_2 (regular ts') i) as [t Ht]; [lia|].
    assert (wt_status t = Waiting) as Hw by (destruct (Hs i t Ht) as [[_ ?]|[? _]]; done).
    exists (set_thread false (Z.of_nat i) (t <| wt_status := Running |>) ts'). split.
    { eapply deliver_all_snoc; [done|]. apply deliver_run; [by eapply worker_fits| |done].
      unfold the_thread. by rewrite Nat2Z.id. }
    split; cbn; rewrite ?Htg, ?Nat2Z.id; try done.
    + by rewrite length_insert, Hlen'.
    + intros j u [(<- & <- & _)|[Hne Hj]]%list_lookup_insert_Some.
      * right. rewrite Hix. cbn. naive_solver.
      * specialize (Hs j u Hj). unfold status_ok in *. rewrite Hix. naive_solver.
Qed.

(** [q] is the state after the start of a job was counted. *)
Lemma good_launch l l' p f p' i r q ts :
  good l p ts → launch p f p' i r →
  slot_of (launched (f r)) ∈ slots p →
  (active p (slot_of (launched (f r))) < reserved p (slot_of (launched (f r))) ∨
   active_workers p < general_workers p)%Z →
  run_ok (launched (f r)) →
  pool_same p' q → (∀ s, active q s = bump (slot_of (launched (f r))) 1 (active p) s) →
  tagged_workers q = tagged_workers p → sent q = sent p' →
  heap q = heap p → timer_jobs q = timer_jobs p → entries q ≡ₚ entries p → queue_ok q l' →
  good l' q ts.
Proof.
  intros Hg Hl Hs Hfree Hrun Hq Ha Htg Hsent Hheap Htm He Hqu.
  pose proof Hg as [Hp Hh Hr _ Ht (ts' & Hd & Hts) [Hm Hn]].
  destruct (launch_same _ _ _ _ _ Hl) as (Eg & Em & Ec & Es & Er & Ea).
  assert (tagged_workers p' = tagged_workers p) as Htg'.
  { by destruct (la_rest _ _ _ _ _ Hl) as (? & ? & ? & ->). }
  destruct (pool_same_busy _ _ Hq) as [Hb Hi]. split.
  - by eapply pool_ok_launch.
  - eapply heap_ok_perm; [done|done|by rewrite Htg|done|done].
  - intros r'. unfold running_jobs. rewrite Hb, Htg, (la_busy _ _ _ _ _ Hl). cbn.
    intros [->|Hin]%elem_of_cons; [done|]. by apply Hr.
  - done.
  - unfold tagged_ok. by rewrite Htg.
  - destruct (threads_launch l p f p' i r ts ts') as (ts2 & Hd2 & [Hl2 Hs2 Htl2 Hts2]); try done.
    exists ts2. rewrite Hsent. split; [done|].
    split; rewrite ?Hi, ?Htg, ?(ps_workers _ _ Hq), <- ?Htg'; done.
  - split; [by rewrite (ps_max _ _ Hq), Em|by rewrite Htg].
Qed.

(** * The queues *)

Lemma run_entry_launched_batch job reply t r :
  run_entry (launched (load_batch job reply t r)) = Some job.
Proof. by destruct job. Qed.

Lemma entries_running p q l :
  batch_jobs q = batch_jobs p → reply_jobs q = reply_jobs p →
  mjoin (snd <$> tagged_workers q) ≡ₚ mjoin (snd <$> tagged_workers p) →
  running_jobs q ≡ₚ l ++ running_jobs p →
  entries q ≡ₚ omap run_entry l ++ entries p.
Proof.
  intros H1 H2 H3 H4. unfold entries. rewrite H1, H2, H3, H4, omap_app.
  rewrite !(Permutation_app_swap_app _ (omap run_entry l)). done.
Qed.

Lemma entries_jobs_pop reply job queue p q :
  the_jobs reply p = job :: queue →
  batch_jobs q = (if reply then batch_jobs p else queue) →
  reply_jobs q = (if reply then queue else reply_jobs p) →
  tagged_workers q = tagged_workers p → running_jobs q = running_jobs p →
  entries p ≡ₚ job :: entries q.
Proof.
  intros Hq H1 H2 H3 H4. unfold entries. rewrite H1, H2, H3, H4. destruct reply; cbn in Hq; rewrite Hq.
  - cbn. by rewrite <- Permutation_middle.
  - done.
Qed.

Lemma running_launch p f p' i r q :
  launch p f p' i r → pool_same p' q → tagged_workers q = tagged_workers p →
  running_jobs q ≡ₚ launched (f r) :: running_jobs p.
Proof.
  intros Hl Hq Htg. unfold running_jobs. destruct (pool_same_busy _ _ Hq) as [-> _].
  by rewrite Htg, (la_busy _ _ _ _ _ Hl).
Qed.

(** Facts about a run of one of the loops of [proxy_process_queue]. *)
Record progress (p q : pool) : Prop := {
  pr_max : max_workers q = max_workers p;
  pr_general : general_workers q = general_workers p;
  pr_active : (active_workers p ≤ active_workers q)%Z;
  pr_slots : slots q = slots p;
  pr_reserved : ∀ s, reserved q s = reserved p s;
  pr_counts : ∀ s, (active p s ≤ active q s)%Z;
}.

Lemma progress_refl p : progress p p.
Proof. by split. Qed.

Lemma progress_trans p q r : progress p q → progress q r → progress p r.
Proof. intros [] []. split; intros; etrans; eauto. Qed.

Lemma launch_progress p f p' i r q s :
  idle_ok p → launch p f p' i r → pool_same p' q → (∀ k, active q k = bump s 1 (active p) k) → progress p q.
Proof.
  intros Hi Hl Hq Ha. destruct (launch_same _ _ _ _ _ Hl) as (Eg & Em & Ec & Es & Er & Ea).
  split.
  - by rewrite (ps_max _ _ Hq).
  - by rewrite (ps_general _ _ Hq).
  - rewrite (pool_same_active _ _ Hq), !active_workers_busy by (done || apply Hl).
    rewrite (la_busy _ _ _ _ _ Hl). cbn. lia.
  - by rewrite (ps_slots _ _ Hq).
  - intros k. by rewrite (ps_reserved _ _ Hq), Er.
  - intros k. rewrite Ha. unfold bump. destruct (decide _); lia.
Qed.

(** Slot [s] has neither a reserved nor a general worker left. *)
Definition slot_full (p : pool) (s : slot) : Prop :=
  (reserved p s ≤ active p s ∧ general_workers p ≤ active_workers p)%Z.

Lemma slot_full_progress p q s : progress p q → slot_full p s → slot_full q s.
Proof.
  intros [Hm Hg Ha _ Hr Hc] [H1 H2]. unfold slot_full. rewrite Hr, Hg. specialize (Hc s). lia.
Qed.

Lemma queue_ok_same p q l : reg q = reg p → queue_ok p l → queue_ok q l.
Proof. intros Hr [H1 H2]. split; unfold the_category; by rewrite Hr. Qed.

(** [proxy_run_batch_jobs] starts a prefix of the queue and stops only when the
    queue is empty or no slot is left. *)
Lemma run_batch_jobs_good queue reply l ts p :
  the_jobs reply p = queue → good l p ts →
  ∃ q started, run_batch_jobs queue reply p = Ret q ∧ good l q ts ∧ progress p q ∧
    queue = started ++ the_jobs reply q ∧
    the_jobs (negb reply) q = the_jobs (negb reply) p ∧
    tagged_workers q = tagged_workers p ∧ pending_commands q = pending_commands p ∧
    (the_jobs reply q = [] ∨ slot_full q (jobs_slot reply)).
Proof.
  revert p. induction queue as [|job queue IH]; intros p Hj Hg.
  { exists p, []. rewrite Hj. split_and!; auto using progress_refl. }
  cbn [run_batch_jobs].
  pose proof (po_idle _ (g_pool _ _ _ Hg)) as Hio.
  replace (jobs_active reply p) with (active p (jobs_slot reply)) by (by destruct reply).
  replace (jobs_reserved reply p) with (reserved p (jobs_slot reply)) by (by destruct reply).
  destruct ((active p (jobs_slot reply) <? reserved p (jobs_slot reply))%Z
    || (active_workers p <? general_workers p)%Z) eqn:Hguard.
  - assert (active p (jobs_slot reply) < reserved p (jobs_slot reply) ∨
      active_workers p < general_workers p)%Z as Hfree.
    { apply orb_true_iff in Hguard as [?|?]; [left|right]; lia. }
    pose proof (jobs_slot_known reply p) as Hs.
    destruct (slot_room p _ (g_pool _ _ _ Hg) Hs Hfree) as [Hroom Hmax].
    rewrite (proj2 (Z.ltb_lt _ _) Hmax). cbn [andb].
    destruct (run_on_idle_spec p (load_batch job reply 0)) as (p' & i & r & -> & Hl); [done|auto with omq|done|].
    cbn [mbind outcome_bind]. set (q := add_active reply 1 (set_jobs reply queue p')).
    pose proof (pool_same_jobs reply 1 queue p' : pool_same p' q) as Hq.
    assert (slot_of (launched (load_batch job reply 0 r)) = jobs_slot reply) as Hso by (by destruct reply).
    assert (∀ s, active q s = bump (jobs_slot reply) 1 (active p) s) as Ha.
    { intros s. unfold q. rewrite active_jobs.
      by destruct (launch_same _ _ _ _ _ Hl) as (_ & _ & _ & _ & _ & ->). }
    destruct (la_rest _ _ _ _ _ Hl) as (ws & n & ms & Hp').
    assert (tagged_workers q = tagged_workers p) as Htg by (unfold q; rewrite Hp'; by destruct reply).
    assert (good l q ts) as Hgq.
    { eapply (good_launch l l p _ p' i r); rewrite ?Hso; try done; try (by unfold q; rewrite Hp'; destruct reply).
      - by eexists.
      - rewrite (entries_running (p <| batch_jobs := batch_jobs q |> <| reply_jobs := reply_jobs q |>) q
          [launched (load_batch job reply 0 r)]); try done;
          [|by rewrite Htg|exact (running_launch _ _ _ _ _ _ Hl Hq Htg)].
        cbn [omap list_omap]. rewrite run_entry_launched_batch. cbn [app].
        symmetry. eapply (entries_jobs_pop reply job queue); try done; unfold q; rewrite Hp'; by destruct reply.
      - apply (queue_ok_same p); [unfold q; rewrite Hp'; by destruct reply|apply Hg]. }
    destruct (IH q) as (q' & st & -> & Hg' & Hpr & Hst & Hoth & Htg' & Hpc & Hfull).
    { unfold q. by destruct reply. }
    { done. }
    exists q', (job :: st). split_and!; try done.
    + eapply progress_trans; [|done]. by eapply launch_progress.
    + cbn. by rewrite Hst.
    + rewrite Hoth. unfold q. rewrite Hp'. by destruct reply.
    + by rewrite Htg'.
    + rewrite Hpc. unfold q. rewrite Hp'. by destruct reply.
  - rewrite andb_false_r. exists p, []. rewrite Hj. split_and!; auto using progress_refl.
    right. unfold slot_full. apply orb_false_iff in Hguard as [??]. lia.
Qed.

Lemma insert_perm {A} (l : list A) i x y :
  l !! i = Some x → ∃ k, l ≡ₚ x :: k ∧ <[ i := y ]> l ≡ₚ y :: k.
Proof.
  intros Hi. exists (take i l ++ drop (S i) l). split.
  - rewrite <- (take_drop_middle l i x Hi) at 1. by rewrite <- Permutation_middle.
  - rewrite insert_take_drop by by eapply lookup_lt_Some. by rewrite <- Permutation_middle.
Qed.

(** The entries of one tagged worker. *)
Definition tagged_entries (w : run_info * bool * batch_queue) : list batch_job :=
  snd w ++ omap run_entry (option_list (tagged_run w)).

Lemma entries_split p :
  entries p ≡ₚ mjoin (tagged_entries <$> tagged_workers p) ++
    batch_jobs p ++ reply_jobs p ++ omap run_entry (busy p).
Proof.
  unfold entries, running_jobs. rewrite omap_app.
  generalize (batch_jobs p) as a, (reply_jobs p) as b, (omap run_entry (busy p)) as c.
  intros a b c. transitivity ((mjoin (snd <$> tagged_workers p) ++
    omap run_entry (omap tagged_run (tagged_workers p))) ++ a ++ b ++ c); [solve_Permutation|].
  apply Permutation_app_tail. generalize (tagged_workers p) as ws. clear.
  induction ws as [|w ws IH]; [done|]. cbn [fmap list_fmap mjoin list_join]. rewrite <- IH.
  unfold tagged_entries. destruct w as [[r [|]] x]; cbn; [destruct (run_entry r)|]; cbn; solve_Permutation.
Qed.

Lemma mjoin_tagged_perm (l l' : list (run_info * bool * batch_queue)) :
  l ≡ₚ l' → mjoin (tagged_entries <$> l) ≡ₚ mjoin (tagged_entries <$> l').
Proof. induction 1; cbn; [done|by f_equiv|solve_Permutation|by etrans]. Qed.

(** Replacing tagged worker [i] trades its entries. *)
Lemma entries_tagged p q i w w' :
  tagged_workers p !! i = Some w → tagged_workers q = <[ i := w' ]> (tagged_workers p) →
  batch_jobs q = batch_jobs p → reply_jobs q = reply_jobs p → busy q = busy p →
  ∃ k, entries p ≡ₚ tagged_entries w ++ k ∧ entries q ≡ₚ tagged_entries w' ++ k.
Proof.
  intros Hi Hq H1 H2 H3. destruct (insert_perm _ i w w' Hi) as (ws & Hp & Hp').
  exists (mjoin (tagged_entries <$> ws) ++ batch_jobs p ++ reply_jobs p ++ omap run_entry (busy p)).
  rewrite (entries_split p), (entries_split q), H1, H2, H3, Hq.
  rewrite (mjoin_tagged_perm _ _ Hp), (mjoin_tagged_perm _ _ Hp'). cbn [fmap list_fmap mjoin list_join].
  by rewrite <- !app_assoc.
Qed.

(** ** Tagged workers *)

Lemma omap_tagged_insert (l : list (run_info * bool * batch_queue)) i r b q r' q' :
  l !! i = Some (r, b, q) →
  ∀ x, x ∈ omap tagged_run (<[ i := (r', true, q') ]> l) → x = r' ∨ x ∈ omap tagged_run l.
Proof.
  intros Hi x (w & Hw & Hx)%list_elem_of_omap. apply list_elem_of_lookup in Hw as [j Hj].
  apply list_lookup_insert_Some in Hj as [(<- & <- & _)|[_ Hj]].
  - left. by injection Hx.
  - right. apply list_elem_of_omap. exists w. by eauto using list_elem_of_lookup_2.
Qed.

Lemma run_tagged_good l ts p i :
  good l p ts →
  good l (run_tagged p i) ts ∧ progress p (run_tagged p i) ∧
  length (tagged_workers (run_tagged p i)) = length (tagged_workers p) ∧
  the_jobs true (run_tagged p i) = the_jobs true p ∧
  the_jobs false (run_tagged p i) = the_jobs false p ∧
  pending_commands (run_tagged p i) = pending_commands p.
Proof.
  intros Hg. unfold run_tagged.
  destruct (tagged_workers p !! i) as [[[r [|]] [|job queue]]|] eqn:Hi; try by auto using progress_refl.
  pose proof Hg as [Hp Hh Hr Hqu Ht (ts' & Hd & Hts) [Hm Hn]].
  destruct (Ht i r false (job :: queue) Hi) as (Hid & Hrt & Hj & _).
  unfold proxy_run_worker. cbn [load_batch joinable worker_routing_id]. unfold modify at 1.
  cbn. rewrite Hj. cbn. set (r' := load_batch job false (worker_id r) r).
  set (q := p <| tagged_workers ::= <[ i := (r', true, queue) ]> |>
              <| sent ::= (λ l, l ++ [Control (worker_routing_id r) (B "RUN")]) |>).
  change (good l q ts ∧ progress p q ∧ length (tagged_workers q) = length (tagged_workers p) ∧
    reply_jobs q = reply_jobs p ∧ batch_jobs q = batch_jobs p ∧ pending_commands q = pending_commands p).
  assert (length (tagged_workers q) = length (tagged_workers p)) as Hlen by (cbn; by rewrite length_insert).
  assert (i < length (tagged_workers p)) as Hlt by by eapply lookup_lt_Some.
  split_and!; try done. split.
  - by apply (pool_ok_same p q).
  - destruct (entries_tagged p q i (r, false, job :: queue) (r', true, queue)) as (k & He & He'); try done.
    apply (heap_ok_perm p q); try done. rewrite He, He'. unfold tagged_entries. cbn [snd tagged_run option_list omap list_omap].
    unfold r'. cbn. destruct job; cbn. solve_Permutation.
  - intros x. unfold running_jobs. rewrite elem_of_app. intros [Hx|Hx].
    + apply Hr. unfold running_jobs. rewrite elem_of_app. by left.
    + apply (omap_tagged_insert _ i r false (job :: queue)) in Hx as [->|Hx]; [|..|done].
      * by eexists.
      * apply Hr. unfold running_jobs. rewrite elem_of_app. by right.
  - by apply (queue_ok_same p).
  - intros j r0 b0 q0 Hj0. cbn in Hj0.
    apply list_lookup_insert_Some in Hj0 as [(<- & [= <- <- <-] & _)|[_ ?]]; [|by eapply Ht]. done.
  - destruct Hts as [Hl1 Hs1 Htl Hts]. destruct (lookup_lt_is_Some_2 (tagged ts') i) as [t Hti]; [lia|].
    assert (wt_status t = Waiting) as Hw by (destruct (Hts i t _ Hti Hi) as [[_ ?]|[? _]]; done).
    assert (Z.to_nat (Z.of_nat i + 1 - 1) = i) as Hz by lia.
    exists (set_thread true (Z.of_nat i + 1) (t <| wt_status := Running |>) ts'). split.
    { change (sent q) with (sent p ++ [Control (worker_routing_id r) (B "RUN")]).
      eapply deliver_all_snoc; [done|]. rewrite Hrt. apply deliver_run; [lia| |done].
      unfold the_thread. by rewrite Hz. }
    split; try done; cbn; rewrite ?Hz, ?length_insert; try done.
    intros j u w [(<- & <- & _)|[Hne Hj0]]%list_lookup_insert_Some.
    + rewrite list_lookup_insert_eq by done. intros [= <-]. right. cbn. auto.
    + rewrite list_lookup_insert_ne by done. by apply Hts.
  - split; [done|]. by rewrite Hlen.
Qed.

Lemma run_tagged_other p i j : i ≠ j → tagged_workers (run_tagged p i) !! j = tagged_workers p !! j.
Proof.
  intros Hne. unfold run_tagged. destruct (tagged_workers p !! i) as [[[r [|]] [|job queue]]|]; try done.
  destruct (proxy_run_worker _). cbn. by apply list_lookup_insert_ne.
Qed.

(** Tagged worker [i] is busy or has nothing to do. *)
Definition tagged_served (p : pool) (i : nat) : Prop :=
  ∀ r b q, tagged_workers p !! i = Some (r, b, q) → b = true ∨ q = [].

Lemma run_tagged_served p i : tagged_served (run_tagged p i) i.
Proof.
  intros r b q. unfold run_tagged.
  destruct (tagged_workers p !! i) as [[[r0 [|]] [|job queue]]|] eqn:Hi; rewrite ?Hi;
    try (intros [= <- <- <-]; auto); try done.
  destruct (proxy_run_worker _). cbn.
  rewrite list_lookup_insert_eq by by eapply lookup_lt_Some. intros [= <- <- <-]. auto.
Qed.

Lemma process_tagged_good l ts p :
  good l p ts →
  good l (process_tagged p) ts ∧ progress p (process_tagged p) ∧
  the_jobs true (process_tagged p) = the_jobs true p ∧
  the_jobs false (process_tagged p) = the_jobs false p ∧
  pending_commands (process_tagged p) = pending_commands p ∧
  ∀ i, tagged_served (process_tagged p) i.
Proof.
  intros Hg. unfold process_tagged.
  cut (∀ ixs q, good l q ts → progress p q → length (tagged_workers q) = length (tagged_workers p) →
    the_jobs true q = the_jobs true p → the_jobs false q = the_jobs false p →
    pending_commands q = pending_commands p →
    (∀ i, i < length (tagged_workers p) → i ∉ ixs → tagged_served q i) →
    let q' := foldl run_tagged q ixs in
    good l q' ts ∧ progress p q' ∧ length (tagged_workers q') = length (tagged_workers p) ∧
    the_jobs true q' = the_jobs true p ∧ the_jobs false q' = the_jobs false p ∧
    pending_commands q' = pending_commands p ∧
    ∀ i, i < length (tagged_workers p) → tagged_served q' i).
  { intros H. destruct (H (seq 0 (length (tagged_workers p))) p) as (Hg' & Hp' & Hl & H1 & H2 & H3 & H4);
      try done; [intros i Hi Hn; rewrite elem_of_seq in Hn; lia|].
    split_and!; try done. intros i r b q Hi. eapply (H4 i); [|done].
    rewrite <- Hl. by eapply lookup_lt_Some. }
  clear Hg. induction ixs as [|i ixs IH]; intros q Hg Hpr Hl H1 H2 H3 H4 q'.
  { split_and!; try done. intros i Hi. apply H4; [done|]. apply not_elem_of_nil. }
  destruct (run_tagged_good l ts q i Hg) as (Hg' & Hpr' & Hl' & H1' & H2' & H3').
  apply IH; try congruence; [by eapply progress_trans|].
  intros j Hj Hn. destruct (decide (i = j)) as [<-|Hne]; [apply run_tagged_served|].
  intros r b x. rewrite run_tagged_other by done. apply H4; [done|].
  intros [->|?]%elem_of_cons; done.
Qed.

(** ** Commands *)

Lemma pending_of_app c l l' : pending_of c (l ++ l') = (pending_of c l + pending_of c l')%Z.
Proof. unfold pending_of. rewrite filter_app, length_app. lia. Qed.

Lemma pending_of_cons c pc l :
  pending_of c (pc :: l) = ((if decide (pc_cat pc = c) then 1 else 0) + pending_of c l)%Z.
Proof. unfold pending_of. rewrite filter_cons. destruct (decide _); cbn [length]; lia. Qed.

Lemma pending_of_nonneg c l : (0 ≤ pending_of c l)%Z.
Proof. unfold pending_of. lia. Qed.

(** The effect of changing one category's counters on [queue_ok]. *)
Lemma queue_ok_alter f c p l l' :
  (∀ c' k, the_category p c' = Some k →
     queued (if decide (c = c') then f k else k) = (queued k + (pending_of c' l' - pending_of c' l))%Z) →
  (∀ pc, pc ∈ l' → is_Some (the_category p (pc_cat pc)) ∧ pending_ok pc) →
  queue_ok p l → queue_ok (alter_category f c p) l'.
Proof.
  intros Hf Hl' [H1 H2]. split.
  - intros c' k. rewrite the_category_alter. destruct (the_category p c') as [k0|] eqn:Hk.
    2: { by destruct (decide _). }
    specialize (Hf c' k0 Hk). rewrite (H1 c' k0 Hk) in Hf. destruct (decide (c = c')); cbn;
      intros [= <-]; lia.
  - intros pc Hpc. destruct (Hl' pc Hpc) as [Hs Ho]. split; [|done].
    rewrite the_category_alter. destruct (decide _); [|done]. by rewrite fmap_is_Some.
Qed.

(** A job that is not a batch job was started for category [c] and counted;
    [dq] is the change of [queued]. *)
Lemma good_launch_command l l' p f p' i r ts c k g :
  good l p ts → launch p f p' i r → the_category p c = Some k → slot_free p k = true →
  slot_of (launched (f r)) = SCat c → run_entry (launched (f r)) = None → run_ok (launched (f r)) →
  (∀ k, reserved_threads (g k) = reserved_threads k) →
  (∀ k, active_threads (g k) = (active_threads k + 1)%Z) →
  queue_ok (alter_category g c p) l' →
  good l' (alter_category g c p') ts ∧ progress p (alter_category g c p').
Proof.
  intros Hg Hl Hk Hfree Hso Hre Hrun Hg1 Hg2 Hqu.
  destruct (la_rest _ _ _ _ _ Hl) as (ws & n & ms & Hp').
  pose proof (pool_same_alter g c p' Hg1) as Hq. set (q := alter_category g c p') in *.
  assert (∀ s, active q s = bump (SCat c) 1 (active p) s) as Ha.
  { intros s. unfold q. erewrite active_alter; [|by subst p'|done].
    by destruct (launch_same _ _ _ _ _ Hl) as (_ & _ & _ & _ & _ & ->). }
  split; [|eapply launch_progress; try done; apply Hg].
  assert (tagged_workers q = tagged_workers p) as Htg by (unfold q; by rewrite Hp').
  eapply (good_launch l l' p f p' i r q); rewrite ?Hso; try done; try (by unfold q; rewrite Hp').
  - by apply slot_known.
  - cbn [active reserved]. rewrite Hk. cbn. unfold slot_free in Hfree.
    apply orb_true_iff in Hfree as [?|?]; [left|right]; lia.
  - rewrite (entries_running p q [launched (f r)]).
    + cbn. by rewrite Hre.
    + unfold q. by rewrite Hp'.
    + unfold q. by rewrite Hp'.
    + by rewrite Htg.
    + exact (running_launch _ _ _ _ _ _ Hl Hq Htg).
  - destruct Hqu as [H1 H2]. split; unfold the_category, q in *; by rewrite Hp'.
Qed.

Lemma run_ok_pending pc r : pending_ok pc → run_ok (launched (load_pending pc r)).
Proof.
  unfold pending_ok, load_pending. destruct (pc_callback pc) as [e|f]; cbn; [by exists e|by eexists].
Qed.

Lemma slot_free_room p c k :
  pool_ok p → the_category p c = Some k → slot_free p k = true → 
  length (busy p) < workers_capacity p ∧ (active_workers p < max_workers p)%Z.
Proof.
  intros Hp Hk Hf. apply (slot_room p (SCat c) Hp); [by apply slot_known|].
  cbn [active reserved]. rewrite Hk. cbn. unfold slot_free in Hf.
  apply orb_true_iff in Hf as [?|?]; [left|right]; lia.
Qed.

Lemma slot_full_category p c k :
  the_category p c = Some k → slot_free p k = false → slot_full p (SCat c).
Proof.
  intros Hk Hf. unfold slot_free in Hf. apply orb_false_iff in Hf as [??].
  unfold slot_full. cbn [active reserved]. rewrite Hk. cbn. lia.
Qed.

(** The pending loop starts what it can, in order, and leaves only commands
    whose category has no slot. *)
Lemma process_pending_good ts after before p :
  good (before ++ after) p ts →
  (∀ pc, pc ∈ before → slot_full p (SCat (pc_cat pc))) →
  ∃ q, process_pending before after p = Ret q ∧ good (pending_commands q) q ts ∧ progress p q ∧
    batch_jobs q = batch_jobs p ∧ reply_jobs q = reply_jobs p ∧ tagged_workers q = tagged_workers p ∧
    pending_commands q `sublist_of` (before ++ after) ∧
    ∀ pc, pc ∈ pending_commands q → slot_full q (SCat (pc_cat pc)).
Proof.
  revert before p. induction after as [|pc rest IH]; intros before p Hg Hfull; cbn [process_pending].
  { rewrite app_nil_r in Hg |- *. exists (p <| pending_commands := before |>). split_and!; try done.
    - eapply good_frame; [| |done]; [done|]. by apply (heap_ok_perm p); try apply Hg. }
  destruct (Z.ltb_spec (active_workers p) (max_workers p)) as [Hlt|Hge].
  2: { exists (p <| pending_commands := before ++ pc :: rest |>). split_and!; try done.
    - eapply good_frame; [| |done]; [done|]. by apply (heap_ok_perm p); try apply Hg.
    - intros pc' Hin. destruct (qo_known _ _ (g_queue _ _ _ Hg) pc' Hin) as [[k Hk] _].
      destruct (slot_free p k) eqn:Hsf; [|by apply (slot_full_category p _ k)].
      destruct (slot_free_room p _ k (g_pool _ _ _ Hg) Hk Hsf). lia. }
  destruct (qo_known _ _ (g_queue _ _ _ Hg) pc) as [[k Hk] Hpc].
  { apply elem_of_app. right. apply list_elem_of_here. }
  rewrite Hk. destruct (slot_free p k) eqn:Hsf.
  - destruct (slot_free_room p _ k (g_pool _ _ _ Hg) Hk Hsf) as [Hroom _].
    destruct (run_on_idle_spec p (load_pending pc)) as (p' & i & r & -> & Hl);
      [apply Hg|auto with omq|done|]. cbn [mbind outcome_bind].
    pose proof (qo_queued _ _ (g_queue _ _ _ Hg) _ _ Hk) as Hqd.
    rewrite pending_of_app, pending_of_cons, decide_True in Hqd by done.
    pose proof (pending_of_nonneg (pc_cat pc) before). pose proof (pending_of_nonneg (pc_cat pc) rest).
    destruct (Z.ltb_spec (queued k - 1) 0) as [?|_]; [lia|].
    set (g := λ c : category, c <| queued ::= Z.pred |> <| active_threads ::= Z.succ |>).
    destruct (good_launch_command (before ++ pc :: rest) (before ++ rest) p (load_pending pc) p' i r ts (pc_cat pc) k g)
      as [Hg' Hpr]; try done.
    + unfold load_pending. by destruct (pc_callback pc).
    + unfold load_pending. by destruct (pc_callback pc).
    + by apply run_ok_pending.
    + apply (queue_ok_alter _ _ _ (before ++ pc :: rest)); [| |apply Hg].
      * intros c' k' _. rewrite !pending_of_app, pending_of_cons.
        destruct (decide (pc_cat pc = c')); cbn; lia.
      * intros pc' Hin. apply (qo_known _ _ (g_queue _ _ _ Hg)). set_solver.
    + destruct (IH before (alter_category g (pc_cat pc) p') Hg') as (q & -> & Hgq & Hprq & H1 & H2 & H3 & H4 & H5).
      { intros pc' Hin. eapply slot_full_progress; [done|]. by apply Hfull. }
      destruct (la_rest _ _ _ _ _ Hl) as (ws & n & ms & Hp').
      exists q. rewrite H1, H2, H3. split_and!; try done; try (by rewrite Hp').
      * by eapply progress_trans.
      * etrans; [done|]. apply sublist_app; [done|]. by constructor.
  - destruct (IH (before ++ [pc]) p) as (q & -> & Hgq & Hprq & H1 & H2 & H3 & H4 & H5).
    + by rewrite <- app_assoc.
    + intros pc' [Hin|Hin]%elem_of_app; [by apply Hfull|].
      apply list_elem_of_singleton in Hin as ->. by apply (slot_full_category p _ k).
    + exists q. rewrite <- app_assoc in H4. done.
Qed.
