(* ===== verification/PoolSteps.v ===== *)
(** * PoolSteps: every step of the pool preserves the invariant

    The heap effects of queueing, running and finishing jobs, then one lemma
    per handler of the proxy and per action of a worker thread. *)
From S2P Require Import Prelude Bytes Auth ConnId Commands Batch Pool PoolSlots Threads PoolInv.
Open Scope Z_scope.
Open Scope nat_scope.

(** * Objects *)

(** Object [a] is created or changed, with the same timer. *)
Lemma heap_with_set p q a o es es' :
  heap q = <[ a := o ]> (heap p) → timer_jobs q = timer_jobs p →
  length (tagged_workers q) = length (tagged_workers p) →
  (∀ b, b ≠ a → jobnos b es' ≡ₚ jobnos b es) →
  obj_ok (length (tagged_workers p)) (Some o) (jobnos a es') →
  timer_of o = (heap p !! a ≫= timer_of) →
  (∀ bt t, o = OBatch bt → timer_of o = Some t → complete_in_thread bt = (-1)%Z) →
  heap_with p es → heap_with q es'.
Proof.
  intros Hh Ht Hl Hes Ho Hto Hth [H1 H2 H3 H4 H5].
  assert (∀ b t, (∃ x, heap q !! b = Some x ∧ timer_of x = Some t) ↔
    (∃ x, heap p !! b = Some x ∧ timer_of x = Some t)) as Hx.
  { intros b t. rewrite Hh. destruct (decide (b = a)) as [->|Hne].
    - rewrite lookup_insert_eq. clear -Hto. destruct (heap p !! a) as [x|]; cbn in Hto.
      + split; intros (y & [= <-] & Hy); eexists; (split; [done|]); congruence.
      + split; [intros (y & [= <-] & Hy); congruence|by intros (y & ? & _)].
    - by rewrite lookup_insert_ne. }
  split; rewrite ?Ht, ?Hl; try done.
  - intros b. rewrite Hh. destruct (decide (b = a)) as [->|Hne]; [by rewrite lookup_insert_eq|].
    rewrite lookup_insert_ne by done. eapply obj_ok_perm; [|by apply H1]. by rewrite Hes.
  - intros b bt t Hb. rewrite Hh in Hb. apply lookup_insert_Some in Hb as [[_ Hb]|[_ Hb]]; [subst o; eauto|by eapply H2].
  - intros b b' x x' t Hb Hb' Hxt Hxt'.
    destruct (proj1 (Hx b t)) as (y & ? & ?); [eauto|]. destruct (proj1 (Hx b' t)) as (y' & ? & ?); [eauto|].
    by eapply (H3 b b' y y' t).
  - intros t. rewrite <- H4. split; intros (b & x & ? & ?).
    + destruct (proj1 (Hx b t)) as (y & ? & ?); eauto.
    + destruct (proj2 (Hx b t)) as (y & ? & ?); eauto.
Qed.

(** The timers after the completion of [o] ran. *)
Definition timers_after (o : batch_obj) (m : gmap Z timer_data) : gmap Z timer_data :=
  match timer_of o with
  | Some t => alter (λ d, d <| timer_running := false |>) t m
  | None => m
  end.

(** Object [a] is gone, and the timer it belonged to is not running. *)
Lemma heap_with_delete p q a o es es' :
  heap p !! a = Some o → heap q = delete a (heap p) →
  timer_jobs q = timers_after o (timer_jobs p) →
  length (tagged_workers q) = length (tagged_workers p) →
  (∀ b, b ≠ a → jobnos b es' ≡ₚ jobnos b es) → jobnos a es' = [] →
  heap_with p es → heap_with q es'.
Proof.
  intros Ha Hh Ht Hl Hes He [H1 H2 H3 H4 H5]. split; rewrite ?Hl.
  - intros b. rewrite Hh. destruct (decide (b = a)) as [->|Hne]; [by rewrite lookup_delete_eq, He|].
    rewrite lookup_delete_ne by done. eapply obj_ok_perm; [|by apply H1]. by rewrite Hes.
  - intros b bt t Hb. rewrite Hh in Hb. apply lookup_delete_Some in Hb as [_ Hb]. by eapply H2.
  - intros b b' x x' t Hb Hb'. rewrite Hh in Hb, Hb'.
    apply lookup_delete_Some in Hb as [_ Hb], Hb' as [_ Hb']. by eapply H3.
  - intros t. rewrite Ht. unfold timers_after.
    assert ((∃ b x, heap q !! b = Some x ∧ timer_of x = Some t) ↔
      timer_of o ≠ Some t ∧ ∃ b x, heap p !! b = Some x ∧ timer_of x = Some t) as ->.
    { rewrite Hh. split.
      - intros (b & x & [Hne Hb]%lookup_delete_Some & Hx). split; [|eauto].
        intros Ho. by apply Hne, (H3 a b o x t).
      - intros [Hne (b & x & Hb & Hx)]. exists b, x. split; [|done].
        apply lookup_delete_Some. split; [|done]. intros ->. congruence. }
    rewrite H4. destruct (timer_of o) as [t'|]; [|naive_solver].
    destruct (decide (t' = t)) as [->|Hne].
    + rewrite lookup_alter_eq. split; [naive_solver|].
      intros (d & Hd & Hr). apply fmap_Some in Hd as (d0 & _ & ->). done.
    + rewrite lookup_alter_ne by done. naive_solver.
  - intros t d Hd. rewrite Ht in Hd. unfold timers_after in Hd.
    destruct (timer_of o) as [t'|]; [|by eapply H5].
    destruct (decide (t' = t)) as [->|Hne]; [|rewrite lookup_alter_ne in Hd by done; by eapply H5].
    rewrite lookup_alter_eq in Hd. apply fmap_Some in Hd as (d0 & Hd0 & ->). by apply (H5 t d0).
Qed.

(** * Queueing *)

(** Only queues changed: [es] was appended. *)
Record queued_more (p q : pool) (es : list batch_job) : Prop := {
  qm_frame : frame p q;
  qm_heap : heap q = heap p;
  qm_timers : timer_jobs q = timer_jobs p;
  qm_pending : pending_commands q = pending_commands p;
  qm_entries : entries q ≡ₚ es ++ entries p;
}.

Lemma fmap_fst_insert (l : list (run_info * bool * batch_queue)) i r b q q' :
  l !! i = Some (r, b, q) → fst <$> <[ i := (r, b, q') ]> l = fst <$> l.
Proof.
  intros Hi. rewrite list_fmap_insert. apply list_insert_id. by rewrite list_lookup_fmap, Hi.
Qed.

Lemma enqueue_spec t reply bj p :
  thread_ok (length (tagged_workers p)) t →
  ∃ q, enqueue t reply bj p = Ret q ∧ queued_more p q [bj].
Proof.
  intros [Ht0 Htn]. unfold enqueue. destruct (Z.ltb_spec 0 t) as [Hpos|Hz].
  - destruct (lookup_lt_is_Some_2 (tagged_workers p) (Z.to_nat (t - 1))) as [[[r b] x] Hw]; [lia|].
    rewrite Hw. eexists. split; [done|]. set (q := p <| tagged_workers ::= _ |>).
    assert (frame p q) as Hf by (split; try done; cbn; by eapply fmap_fst_insert).
    split; try done.
    destruct (entries_tagged p q (Z.to_nat (t - 1)) (r, b, x) (r, b, x ++ [bj])) as (k & He & He'); try done.
    rewrite He, He'. unfold tagged_entries. destruct b; cbn; solve_Permutation.
  - eexists. split; [done|]. unfold set_jobs. destruct reply; split; try done; unfold entries; cbn;
      unfold running_jobs, busy, busy_ix, idle; cbn; solve_Permutation.
Qed.

(** * Finishing a batch job *)

Section eval.
Context {E : TaskEval}.

(** The batch part of RAN. *)
Definition finish (b : ptr) (run : run_info) (p : pool) : outcome pool :=
  '(p, clear_job) ← batch_returned b run p;
  if (clear_job : bool) then delete_batch b p else Ret p.

(** Only the heap, the timers, the completions and the queues changed. *)
Record finished (p q : pool) (es : list batch_job) : Prop := {
  fi_frame : frame p q;
  fi_pending : pending_commands q = pending_commands p;
  fi_entries : entries q ≡ₚ es ++ entries p;
}.

Lemma finished_delete b p q o es n :
  heap p !! b = Some o → frame p q → heap q = delete b (heap p) →
  timer_jobs q = timers_after o (timer_jobs p) → jobnos b es = [] →
  heap_with p ((b, n) :: es) → heap_with q es.
Proof.
  intros Hb Hf Hh Ht Hn. eapply heap_with_delete; try done.
  - apply length_tagged, Hf.
  - intros b' Hne. rewrite jobnos_cons. cbn. by rewrite decide_False.
Qed.

(** The numbers left when the job [n] of an open batch is done. *)
Lemma batch_open_finish n0 bt n ns :
  batch_open n0 bt (n :: ns) →
  let bt' := fst (batch_job_finished bt) in
  jobs_outstanding bt' = (jobs_outstanding bt - 1)%Z ∧
  snd (batch_job_finished bt) =
    (if decide (ns = []) then final_status bt else mk_status running 0) ∧
  (ns ≠ [] → batch_open n0 bt' ns).
Proof.
  intros [Hnd Hr Hc Hs Hf Hl Ht] bt'. cbn [length] in Hc.
  assert (jobs_outstanding bt' = (jobs_outstanding bt - 1)%Z) as Ho.
  { unfold bt', batch_job_finished. cbn. apply Z.mod_small. lia. }
  split; [done|]. split.
  - unfold batch_job_finished. cbn [snd]. change (jobs_outstanding (_ <| jobs_outstanding ::= _ |>))
      with (jobs_outstanding bt'). rewrite Ho. unfold final_status.
    destruct (decide (ns = [])) as [->|Hne].
    + rewrite (proj2 (Z.eqb_eq _ _)) by (rewrite Hc; cbn; lia). done.
    + rewrite (proj2 (Z.eqb_neq _ _)); [done|]. destruct ns; [done|]. cbn [length] in Hc. lia.
  - intros Hne. apply NoDup_cons in Hnd as [_ Hnd]. split; try done.
    + intros i Hi. apply Hr. by apply list_elem_of_further.
    + rewrite Ho. lia.
    + rewrite Ho. lia.
Qed.

Lemma finish_spec b n es run p :
  batch_jobno run = n → heap_with p ((b, n) :: es) →
  ∃ q es', finish b run p = Ret q ∧ finished p q es' ∧ heap_with q (es' ++ es) ∧
    Forall (λ e, snd e = (-1)%Z) es'.
Proof.
  intros Hn Hh. pose proof (ho_objs _ _ Hh b) as Ho. rewrite jobnos_cons in Ho. cbn in Ho.
  rewrite decide_True in Ho by done. unfold finish, batch_returned. rewrite Hn.
  destruct (heap p !! b) as [[bt|j]|] eqn:Hb; cbn in Ho; [|injection Ho as -> Hes|done].
  2: { (* a Job *)
    cbn [Z.eqb]. unfold batch_finished. rewrite Hb. cbn [job_finished obj_base job_base state].
    cbn [mbind outcome_bind]. unfold delete_batch. cbn. rewrite lookup_insert_eq.
    eexists _, []. split; [done|]. split; [by split|]. split; [|done]. cbn.
    eapply (finished_delete b p _ (OJob j)); try done. cbn. by rewrite delete_insert_eq. }
  destruct Ho as [Hop|[[= -> Hes] [cb Hcb]]].
  2: { (* the completion returned *)
    rewrite Z.eqb_refl. cbn [mbind outcome_bind]. unfold delete_batch. rewrite Hb.
    eexists _, []. split; [done|]. split; [by split|]. split; [|done]. cbn.
    eapply (finished_delete b p _ (OBatch bt)); try done. unfold timers_after. cbn. by rewrite Hcb. }
  assert (n ≠ -1)%Z as Hne by (pose proof (bo_range _ _ _ Hop n (list_elem_of_here _ _)); lia).
  rewrite (proj2 (Z.eqb_neq _ _) Hne). unfold batch_finished. rewrite Hb.
  cbn [job_finished obj_base batch_base].
  destruct (batch_open_finish _ _ _ _ Hop) as (Hout & Hst & Hrest).
  pose proof (bo_thread _ _ _ Hop) as Hth.
  destruct (batch_job_finished bt) as [bt' st] eqn:Hfin. cbn [fst snd] in *.
  assert (complete_fn bt' = complete_fn bt ∧ complete_in_thread bt' = complete_in_thread bt) as [Hcf Hci].
  { unfold batch_job_finished in Hfin. by injection Hfin as <- _. }
  subst st. set (p1 := p <| heap ::= _ |>).
  assert (frame p p1) as Hf1 by by split.
  assert (heap p1 !! b = Some (OBatch bt')) as Hb1 by apply lookup_insert_eq.
  assert (timer_of (OBatch bt') = timer_of (OBatch bt)) as Hto by (cbn; by rewrite Hcf).
  destruct (decide (jobnos b es = [])) as [Hes|Hes].
  2: { (* other jobs are outstanding *)
    cbn [state mbind outcome_bind]. exists p1, []. split; [done|]. split; [by split|]. split; [|done].
    eapply (heap_with_set p p1 b (OBatch bt') ((b, n) :: es)); try done.
    - intros b' Hb'. rewrite jobnos_cons. cbn. by rewrite decide_False.
    - left. by apply Hrest.
    - by rewrite Hto, Hb.
    - intros ? t [= <-] Ht. rewrite Hci. rewrite Hto in Ht. by eapply (ho_timer_thread _ _ Hh b bt). }
  unfold final_status. case_bool_decide as Hc; cbn [state thread].
  2: { (* no completion function *)
    cbn [mbind outcome_bind]. unfold delete_batch. rewrite Hb1.
    eexists _, []. split; [done|]. split; [by split|]. split; [|done]. cbn.
    eapply (finished_delete b p _ (OBatch bt)); try done; [cbn; by rewrite delete_insert_eq|].
    unfold timers_after. cbn. destruct (complete_fn bt); [|done]. by destruct Hc. }
  destruct Hc as [c Hc]. destruct (Z.eqb_spec (complete_in_thread bt) (-1)) as [Hm1|Hm1].
  - (* the completion runs in the proxy *)
    unfold run_completion. rewrite Hb1. cbn [job_completion obj_base batch_base].
    unfold batch_job_completion. rewrite Hcf, Hc. cbn [mbind outcome_bind].
    unfold delete_batch. set (p2 := call_completion _ _).
    assert (heap p2 !! b = Some (OBatch (bt' <| results := [] |>))) as Hb2.
    { unfold p2, call_completion. destruct c; cbn; by rewrite lookup_insert_eq. }
    rewrite Hb2. eexists _, []. split; [done|]. split.
    { split; unfold p2, call_completion; destruct c; by try split. }
    split; [|done]. cbn. eapply (finished_delete b p _ (OBatch bt)); try done.
    + unfold p2, call_completion. destruct c; by split.
    + unfold p2, call_completion. destruct c; cbn; by rewrite insert_insert_eq, delete_insert_eq.
    + unfold p2, call_completion, timers_after. cbn. rewrite Hc. by destruct c.
  - (* the completion is queued *)
    destruct Hth as [?|Hth]; [done|].
    destruct (enqueue_spec (complete_in_thread bt) (is_reply_job run) (b, (-1)%Z) p1) as (q & -> & [Hf Hhq Htq Hpq Heq]); [done|].
    cbn [mbind outcome_bind]. exists q, [(b, (-1)%Z)]. split; [done|].
    split; [split; [by eapply frame_trans|by rewrite Hpq|by rewrite Heq]|].
    split; [|by repeat constructor]. eapply (heap_with_set p q b (OBatch bt') ((b, n) :: es)); try done.
    + rewrite (length_tagged p1 q); [done|apply Hf].
    + intros b' Hb'. cbn [app]. rewrite !jobnos_cons. cbn. by rewrite !decide_False.
    + cbn [app]. rewrite jobnos_cons. cbn. rewrite decide_True, Hes by done. right. split; [done|].
      rewrite Hcf. destruct c as [cb|t]; [eauto|]. destruct Hm1.
      eapply (ho_timer_thread _ _ Hh b bt t); [done|]. cbn. by rewrite Hc.
    + by rewrite Hto, Hb.
    + intros ? t [= <-] Ht. rewrite Hci. rewrite Hto in Ht. by eapply (ho_timer_thread _ _ Hh b bt).
Qed.

(** The other objects stay as they are, and the functions of this one. *)
Lemma finish_heap b run p q :
  finish b run p = Ret q →
  (∀ b', b' ≠ b → heap q !! b' = heap p !! b') ∧
  (∀ o', heap q !! b = Some o' → ∃ o, heap p !! b = Some o ∧ ∀ i, job_function o' i = job_function o i).
Proof.
  assert (∀ p q, delete_batch b p = Ret q → heap q = delete b (heap p)) as Hdel.
  { intros p1 q1. unfold delete_batch. by destruct (heap p1 !! b); intros [= <-]. }
  assert (∀ h : gmap ptr batch_obj, (∀ b', b' ≠ b → delete b h !! b' = h !! b') ∧ ∀ o', delete b h !! b ≠ Some o') as Hd.
  { intros h. split; [intros; by apply lookup_delete_ne|]. intros o'. by rewrite lookup_delete_eq. }
  unfold finish, batch_returned. destruct (batch_jobno run =? -1)%Z; cbn [mbind outcome_bind].
  { intros ->%Hdel. destruct (Hd (heap p)) as [H1 H2]. split; [done|]. intros o' Ho. by destruct (H2 o'). }
  unfold batch_finished. destruct (heap p !! b) as [o|] eqn:Hb; [|done].
  destruct (job_finished o) as [o1 st] eqn:Hj.
  assert (∀ i, job_function o1 i = job_function o i) as Hfun.
  { cbn in Hj. destruct o as [bt|j]; cbn in Hj; by injection Hj as <- _. }
  assert (∀ q1 : pool, heap q1 = <[ b := o1 ]> (heap p) →
    (∀ b', b' ≠ b → heap q1 !! b' = heap p !! b') ∧
    (∀ o', heap q1 !! b = Some o' → ∃ o0, Some o = Some o0 ∧ ∀ i, job_function o' i = job_function o0 i)) as Hins.
  { intros q1 ->. split; [intros; by apply lookup_insert_ne|]. intros o' Ho. rewrite lookup_insert_eq in Ho.
    injection Ho as <-. by exists o. }
  assert (∀ q0 q1 : pool, (∀ b', b' ≠ b → heap q0 !! b' = heap p !! b') → delete_batch b q0 = Ret q1 →
    (∀ b', b' ≠ b → heap q1 !! b' = heap p !! b') ∧
    (∀ o', heap q1 !! b = Some o' → ∃ o0, Some o = Some o0 ∧ ∀ i, job_function o' i = job_function o0 i)) as Hdel2.
  { intros q0 q1 H0 ->%Hdel. split; [intros b' Hne; rewrite lookup_delete_ne by done; by apply H0|].
    intros o'. by rewrite lookup_delete_eq. }
  set (p1 := p <| heap ::= <[ b := o1 ]> |>).
  assert (∀ b', b' ≠ b → heap p1 !! b' = heap p !! b') as Hp1 by (intros; by apply lookup_insert_ne).
  destruct (state st).
  - cbn [mbind outcome_bind]. intros [= <-]. by apply Hins.
  - destruct (thread st =? -1)%Z.
    + destruct (run_completion b p1) as [p2| |] eqn:Ec; [|done|done]. cbn [mbind outcome_bind]. intros H.
      refine (Hdel2 p2 q _ H). intros b' Hne. rewrite <- (Hp1 b' Hne). unfold run_completion in Ec.
      destruct (heap p1 !! b) as [o2|]; [|done]. destruct (job_completion o2) as [[o3 c3]| |]; [|done|done].
      cbn [mbind outcome_bind] in Ec. injection Ec as <-.
      assert (heap (call_completion c3 (p1 <| heap ::= <[ b := o3 ]> |>)) = <[ b := o3 ]> (heap p1)) as ->
        by (by destruct c3 as [[[] ?]|]).
      by apply lookup_insert_ne.
    + destruct (enqueue (thread st) (is_reply_job run) (b, (-1)%Z) p1) as [p2| |] eqn:Ec; [|done|done].
      cbn [mbind outcome_bind]. intros [= <-]. apply Hins.
      assert (heap p2 = heap p1) as ->; [|done]. unfold enqueue, set_jobs in Ec. repeat case_match; by simplify_eq.
  - cbn [mbind outcome_bind]. intros H. by apply (Hdel2 p1 q).
Qed.

Lemma finish_functions b run n es es' p q :
  heap_with p ((b, n) :: es) → finish b run p = Ret q → heap_with q (es' ++ es) →
  ∀ e, e ∈ es → function_of (heap q) e = function_of (heap p) e.
Proof.
  intros Hp Hf Hq [b' n'] Hin. destruct (finish_heap _ _ _ _ Hf) as [H1 H2]. unfold function_of. cbn [fst snd].
  destruct (n' <? 0)%Z; [done|]. destruct (decide (b' = b)) as [->|Hne]; [|by rewrite H1].
  pose proof (ho_objs _ _ Hq b) as Ho. destruct (heap q !! b) as [o'|] eqn:Hb.
  - destruct (H2 o' eq_refl) as (o & -> & Hfun). apply Hfun.
  - cbn in Ho. rewrite jobnos_app in Ho. apply app_eq_nil in Ho as [_ Ho].
    apply elem_of_jobnos in Hin. rewrite Ho in Hin. by apply not_elem_of_nil in Hin.
Qed.

(** * The handlers *)

(** The state between two handlers. *)
Definition steady (p : pool) (ts : thread_set) : Prop := good (pending_commands p) p ts.

Lemma steady_frame p q ts :
  frame p q → pending_commands q = pending_commands p → heap_ok q → steady p ts → steady q ts.
Proof. intros Hf Hp Hh. unfold steady. rewrite Hp. by apply good_frame. Qed.

Lemma queued_more_refl p : queued_more p p [].
Proof. by split. Qed.

Lemma queued_more_trans p q r es es' :
  queued_more p q es → queued_more q r es' → queued_more p r (es' ++ es).
Proof.
  intros [Hf H1 H2 H3 H4] [Hf' H1' H2' H3' H4']. split; try congruence.
  - by eapply frame_trans.
  - by rewrite H4', H4, app_assoc.
Qed.

(** ** New objects *)

(** What [OxenMQ::batch] and [OxenMQ::job] hand to the proxy, and what timers
    queue: [n] is the number of tagged threads. *)
Definition obj_new (n : nat) (o : batch_obj) : Prop :=
  match o with
  | OBatch b =>
      batch_fresh b ∧ 0 < length (jobs b) ∧ (Z.of_nat (length (jobs b)) < 2 ^ 64)%Z ∧
      Forall (λ j, thread_ok n (snd j)) (jobs b) ∧
      (complete_in_thread b = (-1)%Z ∨ thread_ok n (complete_in_thread b))
  | OJob j => thread_ok n (job_thread j)
  end.

(** The entries of the jobs [i], [i+1], ... of object [b]. *)
Definition job_entries (b : ptr) (i len : nat) : list batch_job :=
  (λ k, (b, Z.of_nat k)) <$> seq i len.

Lemma enqueue_all_spec b i ths p :
  Forall (thread_ok (length (tagged_workers p))) ths →
  ∃ q es, enqueue_all b i ths p = Ret q ∧ queued_more p q es ∧ es ≡ₚ job_entries b i (length ths).
Proof.
  revert i p. induction ths as [|t ths IH]; intros i p Hth; cbn [enqueue_all].
  { exists p, []. split; [done|]. split; [apply queued_more_refl|done]. }
  apply Forall_cons in Hth as [Ht Hth].
  destruct (enqueue_spec t false (b, Z.of_nat i) p Ht) as (p1 & -> & Hq1). cbn [mbind outcome_bind].
  destruct (IH (S i) p1) as (q & es & -> & Hq & Hes).
  { by rewrite (length_tagged p p1 (fr_tagged _ _ (qm_frame _ _ _ Hq1))). }
  exists q, (es ++ [(b, Z.of_nat i)]). split; [done|]. split; [by eapply queued_more_trans|].
  rewrite Hes. unfold job_entries. cbn. by rewrite <- Permutation_cons_append.
Qed.

Lemma jobnos_job_entries b i len : jobnos b (job_entries b i len) = Z.of_nat <$> seq i len.
Proof.
  unfold job_entries, jobnos. revert i. induction len as [|len IH]; intros i; [done|]. cbn.
  unfold jobno_of at 1. cbn. rewrite decide_True by done. cbn. by rewrite IH.
Qed.

Lemma jobnos_job_entries_ne b b' i len : b' ≠ b → jobnos b' (job_entries b i len) = [].
Proof.
  intros Hne. unfold job_entries, jobnos. revert i. induction len as [|len IH]; intros i; [done|]. cbn.
  unfold jobno_of at 1. cbn. rewrite decide_False by done. by rewrite IH.
Qed.

Lemma obj_new_ok n o :
  obj_new n o → obj_ok n (Some o) (Z.of_nat <$> seq 0 (fst (size o))).
Proof.
  destruct o as [b|j]; cbn; [|done].
  intros (Hf & Hpos & Hlt & Hth & Hct). left. split; try done.
  - apply (NoDup_fmap_2 _), NoDup_seq.
  - intros i (k & -> & Hk%elem_of_seq)%list_elem_of_fmap. lia.
  - by rewrite (fresh_outstanding _ Hf), length_fmap, length_seq.
  - destruct (length (jobs b)); [lia|done].
  - by rewrite (fresh_outstanding _ Hf).
  - by rewrite (fresh_results _ Hf), length_replicate.
Qed.

Lemma heap_fresh (p : pool) : heap p !! fresh (dom (heap p)) = None.
Proof. apply not_elem_of_dom, is_fresh. Qed.

(** A new object without timer and the entries of its jobs. *)
Lemma heap_alloc p q o es :
  heap q = <[ fresh (dom (heap p)) := o ]> (heap p) → timer_jobs q = timer_jobs p →
  length (tagged_workers q) = length (tagged_workers p) →
  es ≡ₚ job_entries (fresh (dom (heap p))) 0 (fst (size o)) ++ entries p → timer_of o = None →
  obj_new (length (tagged_workers p)) o → heap_ok p → heap_with q es.
Proof.
  intros Hh Ht Hl Hes Hto Hnew Hp. set (a := fresh _) in *.
  pose proof (ho_objs _ _ Hp a) as Ha. unfold a in Ha. rewrite heap_fresh in Ha. fold a in Ha. cbn in Ha.
  eapply (heap_with_set p q a o (entries p)); try done.
  - intros b Hb. rewrite Hes, jobnos_app, jobnos_job_entries_ne by done. done.
  - eapply obj_ok_perm; [|by apply obj_new_ok]. by rewrite Hes, jobnos_app, Ha, app_nil_r, jobnos_job_entries.
  - unfold a. by rewrite heap_fresh.
  - intros bt t -> Ht'. congruence.
Qed.

(** The threads of the jobs [proxy_batch] queues. *)
Lemma object_threads p o n tg :
  size o = (n, tg) → obj_new (length (tagged_workers p)) o →
  let ths := if tg then take n (threads o) else replicate n 0%Z in
  length ths = n ∧ Forall (thread_ok (length (tagged_workers p))) ths.
Proof.
  intros Hsz Hnew. destruct tg; cbn zeta.
  - destruct o as [b|j]; cbn in Hsz |- *.
    + injection Hsz as <- _. rewrite length_take, length_fmap. split; [lia|].
      apply Forall_take, Forall_fmap. by destruct Hnew as (_ & _ & _ & ? & _).
    + injection Hsz as <- _. cbn. split; [done|]. by constructor.
  - rewrite length_replicate. split; [done|]. apply Forall_replicate. unfold thread_ok. lia.
Qed.

Lemma proxy_batch_good o p ts :
  steady p ts → obj_new (length (tagged_workers p)) o → timer_of o = None →
  ∃ q, proxy_batch (snd (alloc o p)) (fst (alloc o p)) = Ret q ∧ steady q ts.
Proof.
  intros Hg Hnew Hto. unfold proxy_batch, alloc. cbn [fst snd]. set (a := fresh (dom (heap p))).
  change (heap (p <| heap ::= <[ a := o ]> |>)) with (<[ a := o ]> (heap p)). rewrite lookup_insert_eq.
  destruct (size o) as [n tg] eqn:Hsz. set (p1 := p <| heap ::= <[ a := o ]> |>).
  destruct (object_threads p1 o n tg Hsz Hnew) as [Hlen Hths]. set (ths := if tg then _ else _) in *.
  destruct (enqueue_all_spec a 0 ths p1 Hths) as (q & es & -> & [Hf Hh Ht Hp He] & Hes).
  cbn [mbind outcome_bind]. eexists. split; [done|].
  set (q' := q <| proxy_skip_one_poll := true |>).
  assert (frame p q') as Hf'.
  { apply (frame_trans p p1); [by split|]. apply (frame_trans p1 q); [done|by split]. }
  apply (steady_frame p); [done|done| |done].
  eapply (heap_alloc p _ o); try done; [by apply length_tagged, Hf'|..|apply Hg].
  change (entries q') with (entries q).
  rewrite He, Hes, Hlen, Hsz. done.
Qed.

Lemma schedule_reply_good f p ts : steady p ts → steady (proxy_schedule_reply_job f p) ts.
Proof.
  intros Hg. unfold proxy_schedule_reply_job, alloc. apply (steady_frame p); [by split|done| |done].
  eapply (heap_alloc p _ (OJob (mk_job f 0))); try done; [|cbn; unfold thread_ok; lia|apply Hg].
  unfold entries. cbn. unfold running_jobs, busy, busy_ix, idle. cbn. solve_Permutation.
Qed.

(** ** Timers *)

Lemma proxy_timer_good id job sq th z p ts :
  steady p ts → z ≠ (-1)%Z → timer_jobs p !! z = None →
  th = (-1)%Z ∨ thread_ok (length (tagged_workers p)) th →
  ∃ q, proxy_timer id job sq th z p = Ret q ∧ steady q ts.
Proof.
  intros Hg Hz Hn Hth. unfold proxy_timer. rewrite (proj2 (Z.eqb_neq _ _) Hz). eexists. split; [done|].
  apply (steady_frame p); [by split|done| |done].
  pose proof (g_heap _ _ _ Hg) as [H1 H2 H3 H4 H5]. split; try done; cbn.
  - intros t. rewrite (H4 t). destruct (decide (z = t)) as [<-|Hne].
    + rewrite lookup_insert_eq, Hn. split; [by intros (? & ? & _)|by intros (? & [= <-] & ?)].
    + by rewrite lookup_insert_ne.
  - intros t d [[_ <-]|[_ Hd]]%lookup_insert_Some; [done|]. by apply (H5 t).
Qed.

Lemma proxy_timer_del_good id p ts : steady p ts → steady (fst (proxy_timer_del id p)) ts.
Proof.
  intros Hg. unfold proxy_timer_del. destruct (timer_zmq_id p !! id); [|done].
  apply (steady_frame p); [by split|done| |done]. by apply (heap_ok_perm p); try apply Hg.
Qed.

Lemma timer_batch_new n f th t :
  thread_ok n th → obj_new n (OBatch (timer_batch f th t)).
Proof.
  intros Hth. unfold timer_batch. cbn.
  destruct (add_job_id_fresh batch_empty (TUser f) th batch_empty_fresh) as [H1 H2 H3 H4].
  assert (jobs (add_job_id batch_empty (TUser f) th) = [(TUser f, th)]) as Hj.
  { unfold add_job_id. by destruct (th =? 0)%Z. }
  rewrite Hj in *. cbn. split_and!; try done; [..|by left].
  - by split; cbn; rewrite ?Hj.
  - lia.
  - by constructor.
Qed.

(** A squelched timer starts: its batch is new and its flag is set. *)
Lemma timer_squelch_heap p t d a q es :
  a = fresh (dom (heap p)) →
  timer_jobs p !! t = Some d → timer_running d = false →
  thread_ok (length (tagged_workers p)) (timer_thread d) →
  heap q = <[ a := OBatch (timer_batch (timer_function d) (timer_thread d) t) ]> (heap p) →
  timer_jobs q = <[ t := d <| timer_running := true |> ]> (timer_jobs p) →
  length (tagged_workers q) = length (tagged_workers p) →
  es ≡ₚ (a, 0%Z) :: entries p → heap_ok p → heap_with q es.
Proof.
  intros -> Hd Hr Hth Hh Ht Hl Hes Hp. set (a := fresh _) in *. set (o := OBatch _) in Hh.
  pose proof (heap_fresh p) as Ha. fold a in Ha. pose proof (ho_objs _ _ Hp a) as Hna. rewrite Ha in Hna. cbn in Hna.
  assert (timer_of o = Some t) as Hto by done.
  pose proof Hp as [H1 H2 H3 H4 H5].
  assert (∀ b x, heap p !! b = Some x → timer_of x ≠ Some t) as Hnone.
  { intros b x Hb Hx. destruct (proj1 (H4 t)) as (d' & Hd' & Hr'); [eauto|]. congruence. }
  split; rewrite ?Hl; rewrite ?Hh.
  - intros b. eapply obj_ok_perm; [by rewrite Hes|]. rewrite jobnos_cons. cbn.
    destruct (decide (a = b)) as [<-|Hne].
    + rewrite lookup_insert_eq, Hna.
      pose proof (obj_new_ok _ _ (timer_batch_new _ (timer_function d) _ t Hth)) as Hok.
      cbn [size obj_base batch_base fst] in Hok. unfold timer_batch, add_job_id in *.
      destruct (timer_thread d =? 0)%Z; exact Hok.
    + rewrite lookup_insert_ne by done. apply H1.
  - intros b bt t' [[_ [= <-]]|[_ Hb]]%lookup_insert_Some; [done|by eapply H2].
  - intros b b' x x' t' [[<- <-]|[_ Hb]]%lookup_insert_Some [[<- <-]|[_ Hb']]%lookup_insert_Some Hx Hx'; try done.
    + exfalso. eapply (Hnone b' x'); [done|]. congruence.
    + exfalso. eapply (Hnone b x); [done|]. congruence.
    + by eapply H3.
  - intros t'. rewrite Ht. destruct (decide (t = t')) as [<-|Hne].
    + rewrite lookup_insert_eq. split; [eauto|]. intros _. exists a, o. by rewrite lookup_insert_eq.
    + rewrite lookup_insert_ne by done. rewrite <- H4. split.
      * intros (b & x & [[_ <-]|[_ Hb]]%lookup_insert_Some & Hx); [congruence|eauto].
      * intros (b & x & Hb & Hx). exists b, x. split; [|done]. apply lookup_insert_Some. right.
        split; [|done]. intros <-. congruence.
  - intros t' d'. rewrite Ht. intros [[<- <-]|[_ Hd']]%lookup_insert_Some; [exact (H5 t d Hd)|by apply (H5 t')].
Qed.

Hypothesis tasks_return : ∀ f, eval_task f ≠ Undef.

Lemma queue_timer_good t p ts :
  steady p ts → ∃ q, queue_timer_job t p = Ret q ∧ steady q ts.
Proof.
  intros Hg. unfold queue_timer_job. destruct (timer_jobs p !! t) as [d|] eqn:Hd; [|by exists p].
  destruct (squelch d && timer_running d) eqn:Hsr; [by exists p|].
  pose proof (ho_timer_threads _ _ (g_heap _ _ _ Hg) t d Hd) as Hth.
  destruct (Z.eqb_spec (timer_thread d) (-1)) as [_|Hm1].
  { pose proof (tasks_return (TUser (timer_function d))). destruct (eval_task _); [by exists p..|done]. }
  destruct Hth as [?|Hth]; [done|]. unfold alloc. destruct (squelch d) eqn:Hsq; cbn [heap modify].
  - unfold modify at 1 2 3; cbn [heap]. set (a := fresh (dom (heap p))). set (p1 := mk_pool _ _ _ _ _ _ _ _ _ _ _ _ _ _ _ _ _ _ _ _ _).
    destruct (enqueue_spec (timer_thread d) false (a, 0%Z) p1) as (q & -> & [Hf H1 H2 H3 H4]); [done|].
    exists q. split; [done|].
    assert (frame p q) as Hf' by (eapply frame_trans; [|exact Hf]; by split).
    apply (steady_frame p); [done|done| |done].
    eapply (timer_squelch_heap p t d a); try done; [by apply length_tagged, Hf'|apply Hg].
  - set (p1 := p <| heap ::= _ |>).
    destruct (enqueue_spec (timer_thread d) false (fresh (dom (heap p)), 0%Z) p1) as (q & -> & [Hf H1 H2 H3 H4]); [done|].
    exists q. split; [done|].
    assert (frame p q) as Hf' by (eapply frame_trans; [|exact Hf]; by split).
    apply (steady_frame p); [done|done| |done].
    eapply (heap_alloc p _ (OJob (mk_job (TUser (timer_function d)) (timer_thread d)))); try done; [by apply length_tagged, Hf'|apply Hg].
Qed.

(** ** Commands *)

Lemma queue_pending_good c k pc p ts :
  steady p ts → the_category p c = Some k → pc_cat pc = c → pending_ok pc →
  steady (queue_pending k pc p) ts.
Proof.
  intros Hg Hk <- Hpc. unfold queue_pending. destruct (queue_full k); [done|].
  set (g := λ c : category, c <| queued ::= Z.succ |>).
  set (p1 := p <| pending_commands ::= _ |>). set (q := alter_category g (pc_cat pc) p1).
  assert (pool_same p q) as Hs.
  { eapply pool_same_trans; [|by apply pool_same_alter]. by split. }
  destruct Hg as [Hp Hh Hr Hq Ht Hts Hfit]. split; try done.
  - eapply pool_ok_same; [done| |done]. intros s _. unfold q.
    rewrite (active_alter _ _ p1 0 k); [|done|intros; cbn; lia].
    unfold bump. destruct (decide _); cbn; apply Z.add_0_r.
  - by apply (heap_ok_perm p).
  - change (pending_commands q) with (pending_commands p ++ [pc]).
    apply (queue_ok_alter _ _ p1 (pending_commands p)); [| |by apply (queue_ok_same p)].
    + intros c' k' _. rewrite pending_of_app, pending_of_cons. change (pending_of c' []) with 0%Z.
      destruct (decide (pc_cat pc = c')); cbn; lia.
    + intros pc' [Hin|Hin]%elem_of_app; [by apply (qo_known _ _ Hq)|].
      apply list_elem_of_singleton in Hin as ->. split; [|done]. by exists k.
  - destruct Hts as (ts' & Hd & [? ? ? ?]). exists ts'. by split.
Qed.

Lemma start_command_good c k f p ts :
  steady p ts → the_category p c = Some k → slot_free p k = true → loads f →
  (∀ r, slot_of (launched (f r)) = SCat c ∧ run_entry (launched (f r)) = None ∧ run_ok (launched (f r))) →
  ∃ q, (p ← run_on_idle p f; Ret (alter_category (λ c, c <| active_threads ::= Z.succ |>) c p)) = Ret q ∧
    steady q ts.
Proof.
  intros Hg Hk Hfree Hf Hr. destruct (slot_free_room p c k) as [Hroom _]; [apply Hg|done|done|].
  destruct (run_on_idle_spec p f) as (p' & i & r & -> & Hl); [apply Hg|done|done|].
  cbn [mbind outcome_bind]. eexists. split; [done|]. destruct (Hr r) as (H1 & H2 & H3).
  set (g := λ c : category, c <| active_threads ::= Z.succ |>). unfold steady.
  replace (pending_commands (alter_category g c p')) with (pending_commands p).
  2: { by destruct (la_rest _ _ _ _ _ Hl) as (? & ? & ? & ->). }
  apply (good_launch_command (pending_commands p) (pending_commands p) p f p' i r ts c k g); try done.
  apply (queue_ok_alter _ _ p (pending_commands p)); [|apply Hg|apply Hg].
  intros c' k' _. destruct (decide (c = c')); cbn; lia.
Qed.

Lemma load_command_runs cat command conn acc remote data cb r :
  (snd cb = true → data ≠ []) →
  let r' := launched (load_command cat command conn acc remote data cb r) in
  slot_of r' = SCat cat ∧ run_entry r' = None ∧ run_ok r'.
Proof. intros Hd. split_and!; try done. by exists cb. Qed.

Lemma load_injected_runs cat command remote f r :
  let r' := launched (load_injected cat command remote f r) in
  slot_of r' = SCat cat ∧ run_entry r' = None ∧ run_ok r'.
Proof. split_and!; try done. by exists f. Qed.

Lemma dispatch_good cat command data cb conn acc remote p ts :
  steady p ts → is_Some (the_category p cat) → (snd cb = true → data ≠ []) →
  ∃ q, dispatch_command cat command data cb conn acc remote p = Ret q ∧ steady q ts.
Proof.
  intros Hg [k Hk] Hd. unfold dispatch_command. rewrite Hk. destruct (slot_free p k) eqn:Hf; cbn [negb].
  - destruct (snd cb && bool_decide (data = [])) eqn:Hb.
    { bool_cases. by destruct Hd. }
    apply (start_command_good cat k); [done|done|done|auto with omq|].
    intros r. by apply load_command_runs.
  - eexists. split; [done|]. by eapply queue_pending_good.
Qed.

Lemma inject_good cat command remote f p ts :
  steady p ts → is_Some (the_category p cat) →
  ∃ q, proxy_inject_task cat command remote f p = Ret q ∧ steady q ts.
Proof.
  intros Hg [k Hk]. unfold proxy_inject_task. rewrite Hk. destruct (slot_free p k) eqn:Hf; cbn [negb].
  - apply (start_command_good cat k); [done|done|done|auto with omq|].
    intros r. apply load_injected_runs.
  - eexists. split; [done|]. by eapply queue_pending_good.
Qed.

(** ** A worker's turn *)

Lemma entry_of_run p r e : r ∈ running_jobs p → run_entry r = Some e → e ∈ entries p.
Proof.
  intros Hr He. unfold entries. rewrite !elem_of_app. do 3 right. apply list_elem_of_omap. eauto.
Qed.

(** The object of a running entry, and what it may be asked to do. *)
Lemma entry_object p b n :
  heap_ok p → (b, n) ∈ entries p →
  (∃ j, heap p !! b = Some (OJob j) ∧ n = 0%Z) ∨
  (∃ bt, heap p !! b = Some (OBatch bt) ∧ (0 ≤ n < Z.of_nat (length (jobs bt)))%Z ∧
     length (results bt) = length (jobs bt) ∧ batch_open (length (tagged_workers p)) bt (jobnos b (entries p))) ∨
  (∃ bt c, heap p !! b = Some (OBatch bt) ∧ n = (-1)%Z ∧ complete_fn bt = Some (CUser c) ∧
     jobnos b (entries p) = [(-1)%Z]).
Proof.
  intros Hh Hin%elem_of_jobnos. pose proof (ho_objs _ _ Hh b) as Ho.
  destruct (heap p !! b) as [[bt|j]|]; cbn in Ho.
  - destruct Ho as [Ho|[He [c Hc]]]; right.
    + left. exists bt. split_and!; try done; try apply (bo_range _ _ _ Ho); try done. apply Ho.
    + right. exists bt, c. rewrite He in Hin. apply list_elem_of_singleton in Hin. done.
  - left. exists j. rewrite Ho in Hin. apply list_elem_of_singleton in Hin. done.
  - rewrite Ho in Hin. by apply not_elem_of_nil in Hin.
Qed.

Lemma worker_turn_good tag run p ts :
  steady p ts → run ∈ running_jobs p →
  ∃ q i, worker_turn tag run p = Ret (q, i) ∧ steady q ts ∧ frame p q.
Proof.
  intros Hg Hr. pose proof (g_runs _ _ _ Hg run Hr) as Hok. unfold worker_turn, run_ok in *.
  destruct (is_batch_job run) eqn:Hb.
  2: { assert (∃ i, worker_invocation tag run = Ret i) as [i Hi].
    { unfold worker_invocation. destruct (is_injected run).
      - destruct Hok as [f ->]. eauto.
      - destruct Hok as ([cb []] & -> & Hd); [|eauto]. cbn in Hd. destruct (run_data run); [by destruct Hd|eauto]. }
    rewrite Hi. exists p, (Some i). split_and!; done || apply frame_refl. }
  destruct Hok as [b Hto]. rewrite Hto.
  assert ((b, batch_jobno run) ∈ entries p) as Hin.
  { eapply entry_of_run; [done|]. unfold run_entry. by rewrite Hb, Hto. }
  pose proof (g_heap _ _ _ Hg) as Hh.
  destruct (entry_object p b _ Hh Hin) as [(j & Hj & Hn)|[(bt & Hbt & Hn & Hl & Hop)|(bt & c & Hbt & Hn & Hc & Hns)]].
  - rewrite Hj, Hn. cbn. pose proof (tasks_return (job_task j)).
    exists (p <| heap ::= <[ b := OJob j ]> |>), (Some (InvokeJob (job_task j))).
    split; [by destruct (eval_task _)|]. split; [|by split].
    apply (steady_frame p); [by split|done| |done].
    apply (heap_with_set p _ b (OJob j) (entries p)); try done; [|by rewrite Hj].
    pose proof (ho_objs _ _ Hh b) as Ho. by rewrite Hj in Ho.
  - rewrite Hbt, (proj2 (Z.leb_le _ _)) by lia. cbn [run_job obj_base batch_base].
    destruct (lookup_lt_is_Some_2 (jobs bt) (Z.to_nat (batch_jobno run))) as [[f t] Hf]; [lia|].
    destruct (lookup_lt_is_Some_2 (results bt) (Z.to_nat (batch_jobno run))) as [r Hres]; [lia|].
    rewrite (batch_run_job_spec tasks_return bt _ f t r Hf Hres). cbn [fmap outcome_fmap mbind outcome_bind].
    set (bt' := bt <| results ::= _ |>). eexists (p <| heap ::= <[ b := OBatch bt' ]> |>), _.
    split; [done|]. split; [|by split].
    apply (steady_frame p); [by split|done| |done].
    apply (heap_with_set p _ b (OBatch bt') (entries p)); try done; [| |].
    + left. destruct Hop. split; try done. cbn. by rewrite length_insert.
    + by rewrite Hbt.
    + intros ? t' [= <-] Ht'. by apply (ho_timer_thread _ _ Hh b bt t').
  - rewrite Hbt, Hn. cbn [Z.leb Z.compare]. rewrite Z.eqb_refl. unfold run_completion. rewrite Hbt.
    cbn [job_completion obj_base batch_base]. unfold batch_job_completion. rewrite Hc.
    cbn [mbind outcome_bind call_completion]. eexists _, None.
    split; [done|]. split; [|by split].
    apply (steady_frame p); [by split|done| |done].
    eapply (heap_with_set p _ b (OBatch (bt <| results := [] |>)) (entries p)); try done.
    + right. cbn. split; [exact Hns|eauto].
    + by rewrite Hbt.
    + intros ? t' [= <-] Ht'. cbn in Ht'. by rewrite Hc in Ht'.
Qed.

(** ** RAN *)

Lemma nodup_bound (l : list nat) n : NoDup l → (∀ i, i ∈ l → i < n) → length l ≤ n.
Proof.
  intros Hnd Hb. rewrite <- (length_seq n 0). apply submseteq_length, NoDup_submseteq; [done|].
  intros i Hi. apply elem_of_seq. specialize (Hb i Hi). lia.
Qed.

(** A busy worker goes back on the idle stack. *)
Definition parked (i : nat) (p : pool) : pool :=
  p <| idle_workers ::= <[ idle_worker_count p := i ]> |> <| idle_worker_count ::= S |>.

Lemma parked_spec p i r :
  idle_ok p → i ∉ idle p → workers p !! i = Some r →
  idle_worker_count p < length (idle_workers p) ∧ idle_ok (parked i p) ∧
  idle (parked i p) = idle p ++ [i] ∧ busy p ≡ₚ r :: busy (parked i p).
Proof.
  intros Ho Hi Hr. pose proof Ho as [Hnd Hb Hcnt Hsz Hcap Hids].
  assert (NoDup (idle p ++ [i])) as Hnd'.
  { apply NoDup_app. split; [done|]. split; [|apply NoDup_singleton].
    intros j Hj Hji%list_elem_of_singleton. by subst. }
  assert (∀ j, j ∈ idle p ++ [i] → j < length (workers p)) as Hb'.
  { intros j [?|Hj]%elem_of_app; [auto|]. apply list_elem_of_singleton in Hj as ->. by eapply lookup_lt_Some. }
  pose proof (nodup_bound _ _ Hnd' Hb') as Hle. rewrite length_app, length_idle in Hle by done. cbn in Hle.
  assert (idle_worker_count p < length (idle_workers p)) as Hlt by lia.
  assert (idle (parked i p) = idle p ++ [i]) as Hidle.
  { unfold idle, parked, modify; cbn. rewrite (take_S_r _ _ i) by by apply list_lookup_insert_eq.
    by rewrite take_insert_ge. }
  split; [done|]. split; [|split; [done|]].
  - split; rewrite ?Hidle; try done; cbn; rewrite ?length_insert; done || lia.
  - unfold busy. change (workers (parked i p)) with (workers p).
    rewrite (busy_ix_cons (parked i p) p i); try done.
    + cbn [omap list_omap]. by rewrite Hr.
    + by eapply lookup_lt_Some.
    + rewrite Hidle. apply elem_of_app. right. apply list_elem_of_singleton. done.
    + intros j. rewrite Hidle, elem_of_app, list_elem_of_singleton. destruct (decide (j = i)) as [->|]; naive_solver.
Qed.

Lemma entries_parked p i r q :
  idle_ok p → i ∉ idle p → workers p !! i = Some r → pool_same p q →
  tagged_workers q = tagged_workers p → batch_jobs q = batch_jobs p → reply_jobs q = reply_jobs p →
  entries p ≡ₚ omap run_entry [r] ++ entries (parked i q).
Proof.
  intros Ho Hi Hr Hs Ht H1 H2. destruct (parked_spec p i r Ho Hi Hr) as (_ & _ & _ & Hb).
  assert (busy (parked i q) = busy (parked i p)) as Hbq.
  { apply pool_same_busy. destruct Hs. split; try done; unfold parked, modify; cbn; congruence. }
  assert (running_jobs p ≡ₚ [r] ++ running_jobs (parked i q)) as Hrun.
  { unfold running_jobs. rewrite Hb, Hbq. change (tagged_workers (parked i q)) with (tagged_workers q). by rewrite Ht. }
  apply entries_running; try done. change (tagged_workers (parked i q)) with (tagged_workers q). by rewrite Ht.
Qed.

Lemma status_set ts tg wid t t' i u :
  the_thread tg wid ts = Some t → (if tg then tagged else regular) (set_thread tg wid t' ts) !! i = Some u →
  (i = Z.to_nat (if tg then wid - 1 else wid) ∧ u = t') ∨
  (i ≠ Z.to_nat (if tg then wid - 1 else wid) ∧ (if tg then tagged else regular) ts !! i = Some u).
Proof.
  intros Ht. destruct tg; cbn; intros Hu; apply list_lookup_insert_Some in Hu; naive_solver.
Qed.

Lemma route_worker_id tg wid p :
  (0 ≤ wid < 2 ^ 32)%Z → is_Some (the_run tg wid p) → (tg = true → 0 < wid)%Z →
  route_worker (routing_id tg wid) p = Some (tg, wid).
Proof.
  intros Hw [r Hr] Hpos. unfold route_worker, routing_id. cbn [length].
  replace (negb (S (length (raw32 wid)) =? 5)) with false by done. cbn [orb]. rewrite load32_raw32 by done.
  unfold the_run in Hr. destruct tg; cbn [wtype].
  - change (bool_decide ("t"%char = "w"%char)) with false.
    change (bool_decide ("t"%char = "t"%char)) with true. cbn [negb orb].
    apply fmap_Some in Hr as (w & Hw' & _). apply lookup_lt_Some in Hw'. specialize (Hpos eq_refl).
    rewrite (proj2 (Z.eqb_neq _ _)), (proj2 (Z.ltb_ge _ _)) by lia. done.
  - apply lookup_lt_Some in Hr. change (bool_decide ("w"%char = "w"%char)) with true.
    change (bool_decide ("w"%char = "t"%char)) with false. cbn [negb orb]. rewrite (proj2 (Z.leb_gt _ _)) by lia. done.
Qed.

(** [p2] is the state when worker [i] has returned its slot and its job was
    taken care of. *)
Lemma good_parked p p2 ts i r t :
  steady p ts → sent p = [] → regular ts !! i = Some t → i ∉ idle p → workers p !! i = Some r →
  pool_same p p2 → (∀ s, active p2 s = bump (slot_of r) (-1) (active p) s) →
  fst <$> tagged_workers p2 = fst <$> tagged_workers p → sent p2 = sent p →
  pending_commands p2 = pending_commands p → queue_ok p2 (pending_commands p) →
  heap_with p2 (entries (parked i p2)) →
  steady (parked i p2) (set_thread false (Z.of_nat i) (t <| wt_status := Waiting |>) ts).
Proof.
  intros [Hp Hh Hr Hq Ht (ts' & Hd & Hts) Hfit] Hsent Hti Hi Hri Hs Ha Htg Hsent2 Hpc Hq2 Hh2.
  rewrite Hsent in Hd. injection Hd as <-.
  pose proof (pool_same_idle_ok _ _ Hs (po_idle _ Hp)) as Hio2.
  destruct (pool_same_busy _ _ Hs) as [Hbusy Hidle].
  assert (i ∉ idle p2) as Hi2 by (by rewrite Hidle).
  assert (workers p2 !! i = Some r) as Hri2 by (by rewrite (ps_workers _ _ Hs)).
  destruct (parked_spec p2 i r Hio2 Hi2 Hri2) as (_ & Hio3 & Hidle3 & Hb3).
  unfold steady. change (pending_commands (parked i p2)) with (pending_commands p2). rewrite Hpc. split.
  - split; [done| |].
    + change (slots_inv (general_workers p2) (max_workers p2) (slots p2) (reserved p2) (active p2)
        (busy (parked i p2))). apply (slots_inv_same p p2); [done|].
      eapply slots_inv_proper; [| |eapply (slots_remove (po_slots _ Hp) r (busy (parked i p2)))].
      * intros s _. apply Ha.
      * done.
      * by rewrite <- Hbusy.
    + change (workers_capacity (parked i p2)) with (workers_capacity p2).
      rewrite (ps_capacity _ _ Hs), (po_capacity _ Hp). cbn. by rewrite (ps_max _ _ Hs).
  - by eapply (heap_with_perm p2).
  - intros r' Hin. apply Hr. unfold running_jobs in *. rewrite elem_of_app in *.
    destruct Hin as [Hin|Hin]; [left|right].
    + rewrite <- Hbusy, Hb3. by apply list_elem_of_further.
    + change (tagged_workers (parked i p2)) with (tagged_workers p2) in Hin.
      by rewrite (omap_tagged_run (tagged_workers p) _ Htg) in Hin.
  - destruct Hq2 as [H1 H2]. by split.
  - by apply (tagged_ok_frame p).
  - change (sent (parked i p2)) with (sent p2). rewrite Hsent2, Hsent. eexists. split; [done|].
    destruct Hts as [Hl1 Hs1 Htl Hts1]. split.
    + cbn. by rewrite length_insert, (ps_workers _ _ Hs).
    + intros j u Hu. cbn in Hu. rewrite Nat2Z.id in Hu. rewrite Hidle3, Hidle. unfold status_ok.
      rewrite elem_of_app, list_elem_of_singleton.
      apply list_lookup_insert_Some in Hu as [(<- & <- & _)|[Hne Hu]]; [left; auto|].
      specialize (Hs1 j u Hu). unfold status_ok in Hs1. naive_solver.
    + cbn. by rewrite (length_tagged p p2 Htg).
    + intros j u [[r0 b0] q0] Hu Hw.
      destruct (proj1 (tagged_lookup_frame p p2 j r0 b0 Htg)) as [x Hx]; [eauto|]. by apply (Hts1 j u _ Hu Hx).
  - destruct Hfit as [Hm Hn]. split; cbn; [by rewrite (ps_max _ _ Hs)|by rewrite (length_tagged p p2 Htg)].
Qed.

Lemma park_worker_regular p i r :
  idle_ok p → (max_workers p ≠ 0)%Z → i ∉ idle p → workers p !! i = Some r →
  ∀ route, park_worker false (Z.of_nat i) route p = Ret (parked i p).
Proof.
  intros Ho Hm Hi Hr route. unfold park_worker. rewrite (proj2 (Z.eqb_neq _ _) Hm).
  destruct (parked_spec p i r Ho Hi Hr) as (Hlt & _). rewrite (proj2 (Nat.ltb_lt _ _) Hlt).
  by rewrite Nat2Z.id.
Qed.

Lemma max_pos p : pool_ok p → (0 < max_workers p)%Z.
Proof.
  intros Hp. pose proof (si_general _ _ _ _ _ _ (po_slots _ Hp)).
  destruct (decide (active_workers p < general_workers p)%Z) as [Hlt|Hge].
  - destruct (slot_room p SBatch Hp (jobs_slot_known false p)) as [_ ?]; [by right|].
    rewrite active_workers_busy in * by apply Hp. lia.
  - pose proof (busy_le_max (po_slots _ Hp)). rewrite active_workers_busy in Hge by apply Hp. lia.
Qed.

(** Worker [i] has returned job [r]. *)
Record returned (tg : bool) (i : nat) (r : run_info) (p q : pool) : Prop := {
  rt_pending : pending_commands q = pending_commands p;
  rt_running : running_jobs p ≡ₚ r :: running_jobs q;
  rt_entries : ∃ es k, entries p ≡ₚ option_list (run_entry r) ++ k ∧ entries q ≡ₚ es ++ k ∧
    Forall (λ e, snd e = (-1)%Z) es ∧ ∀ e, e ∈ k → function_of (heap q) e = function_of (heap p) e;
  rt_others : ∀ tg' j, (tg', j) ≠ (tg, i) → busy_run tg' j q = busy_run tg' j p;
}.

Lemma running_parked p i r q :
  idle_ok p → i ∉ idle p → workers p !! i = Some r → pool_same p q →
  fst <$> tagged_workers q = fst <$> tagged_workers p →
  running_jobs p ≡ₚ r :: running_jobs (parked i q) ∧
  ∀ tg' j, (tg', j) ≠ (false, i) → busy_run tg' j (parked i q) = busy_run tg' j p.
Proof.
  intros Ho Hi Hr Hs Ht. pose proof (pool_same_idle_ok _ _ Hs Ho) as Hoq. destruct (pool_same_busy _ _ Hs) as [Hb Hidle].
  destruct (parked_spec q i r Hoq) as (_ & _ & Hip & Hbp); [by rewrite Hidle|by rewrite (ps_workers _ _ Hs)|]. split.
  - unfold running_jobs. rewrite <- Hb, Hbp. change (tagged_workers (parked i q)) with (tagged_workers q).
    by rewrite (omap_tagged_run (tagged_workers p) _ Ht).
  - intros [|] j Hne; unfold busy_run; change (tagged_workers (parked i q)) with (tagged_workers q).
    + by apply tagged_run_frame.
    + change (workers (parked i q)) with (workers q). rewrite (ps_workers _ _ Hs), Hip, Hidle.
      destruct (decide (j ∈ idle p)) as [Hj|Hj], (decide (j ∈ idle p ++ [i])) as [Hj'|Hj']; try done; exfalso.
      * apply Hj'. apply elem_of_app. by left.
      * apply elem_of_app in Hj' as [?|Hj'%list_elem_of_singleton]; [done|]. by subst j.
Qed.

Lemma ran_command_good p ts i r t :
  steady p ts → sent p = [] → regular ts !! i = Some t → i ∉ idle p → workers p !! i = Some r →
  is_batch_job r = false →
  ∃ q, (p ← ran_command r p; park_worker false (Z.of_nat i) (routing_id false (Z.of_nat i)) p) = Ret q ∧
    steady q (set_thread false (Z.of_nat i) (t <| wt_status := Waiting |>) ts) ∧ returned false i r p q.
Proof.
  intros Hg Hsent Hti Hi Hr Hb. pose proof (g_pool _ _ _ Hg) as Hp.
  assert (r ∈ busy p) as Hin by (apply elem_of_busy; eauto).
  pose proof (si_known _ _ _ _ _ _ (po_slots _ Hp) r Hin) as Hk.
  pose proof (act_pos (po_slots _ Hp) r Hin) as Hpos.
  unfold slot_of in Hk, Hpos. rewrite Hb in Hk, Hpos.
  apply slot_known in Hk as [c Hc]. cbn [active] in Hpos. rewrite Hc in Hpos. cbn in Hpos.
  unfold ran_command. rewrite Hc, (proj2 (Z.leb_gt _ _)) by lia. cbn [mbind outcome_bind].
  set (g := λ c : category, c <| active_threads ::= Z.pred |>). set (p2 := alter_category g (run_cat r) p).
  assert (pool_same p p2) as Hs by by apply pool_same_alter.
  rewrite (park_worker_regular p2 i r); [|..].
  - pose proof (po_idle _ Hp) as Ho.
    assert (returned false i r p (parked i p2)) as Hret.
    { destruct (running_parked p i r p2 Ho Hi Hr Hs eq_refl) as [H1 H2]. split; try done.
      exists [], (entries (parked i p2)). split_and!; try done.
      unfold run_entry. rewrite Hb. pose proof (entries_parked p i r p2 Ho Hi Hr Hs eq_refl eq_refl eq_refl) as He.
      cbn in He. unfold run_entry in He. by rewrite Hb in He. }
    eexists. split; [done|]. split; [|exact Hret]. eapply (good_parked p p2 ts i r t); try done.
    + intros s. unfold slot_of. rewrite Hb. unfold p2. apply (active_alter _ _ _ _ c); [done|].
      intros k. cbn. lia.
    + apply (queue_ok_alter _ _ _ (pending_commands p)); [|apply Hg|apply Hg].
      intros c' k' _. destruct (decide (run_cat r = c')); cbn; lia.
    + apply (heap_with_perm p p2 (entries p)); [done..| |apply Hg].
      rewrite (entries_parked p i r p2); try done. cbn. unfold run_entry. by rewrite Hb.
  - by eapply pool_same_idle_ok; [|apply Hp].
  - rewrite (ps_max _ _ Hs). pose proof (max_pos p Hp). lia.
  - by destruct (pool_same_busy _ _ Hs) as [_ ->].
  - by rewrite (ps_workers _ _ Hs).
Qed.

Lemma ran_batch_finish tagged wid run p b :
  to_run run = RBatch b →
  ran_batch tagged wid run p = (p ← release_slot tagged wid (is_reply_job run) p; finish b run p).
Proof. intros Hb. unfold ran_batch, finish. by rewrite Hb. Qed.

Lemma ran_batch_good p ts i r t :
  steady p ts → sent p = [] → regular ts !! i = Some t → i ∉ idle p → workers p !! i = Some r →
  is_batch_job r = true →
  ∃ q, (p ← ran_batch false (Z.of_nat i) r p;
        park_worker false (Z.of_nat i) (routing_id false (Z.of_nat i)) p) = Ret q ∧
    steady q (set_thread false (Z.of_nat i) (t <| wt_status := Waiting |>) ts) ∧ returned false i r p q.
Proof.
  intros Hg Hsent Hti Hi Hr Hb. pose proof (g_pool _ _ _ Hg) as Hp.
  assert (r ∈ busy p) as Hin by (apply elem_of_busy; eauto).
  assert (∃ b, to_run r = RBatch b) as [b Hto].
  { pose proof (g_runs _ _ _ Hg r) as Hrun. unfold run_ok in Hrun. rewrite Hb in Hrun. apply Hrun.
    unfold running_jobs. rewrite elem_of_app. by left. }
  assert (slot_of r = jobs_slot (is_reply_job r)) as Hso by (unfold slot_of; by rewrite Hb).
  pose proof (act_pos (po_slots _ Hp) r Hin) as Hpos. rewrite Hso in Hpos.
  rewrite (ran_batch_finish _ _ _ _ b Hto). unfold release_slot.
  assert (active p (jobs_slot (is_reply_job r)) = jobs_active (is_reply_job r) p) as Hact by (by destruct (is_reply_job r)).
  rewrite (proj2 (Z.leb_gt _ _)) by (rewrite <- Hact; lia). cbn [mbind outcome_bind].
  set (p1 := add_active (is_reply_job r) (-1) p).
  assert (p1 = add_active (is_reply_job r) (-1) (set_jobs (is_reply_job r) (the_jobs (is_reply_job r) p) p)) as Hp1.
  { unfold p1, add_active, set_jobs, the_jobs. destruct (is_reply_job r), p; done. }
  assert (pool_same p p1) as Hs1 by (rewrite Hp1; apply pool_same_jobs).
  assert (∀ s, active p1 s = bump (slot_of r) (-1) (active p) s) as Ha1.
  { intros s. rewrite Hso, Hp1. apply active_jobs. }
  assert (tagged_workers p1 = tagged_workers p ∧ batch_jobs p1 = batch_jobs p ∧ reply_jobs p1 = reply_jobs p ∧
    heap p1 = heap p ∧ timer_jobs p1 = timer_jobs p ∧ reg p1 = reg p ∧ sent p1 = sent p ∧
    pending_commands p1 = pending_commands p) as (Et & Eb & Er & Eh & Etj & Ereg & Es & Ep).
  { unfold p1, add_active. by destruct (is_reply_job r). }
  pose proof (po_idle _ Hp) as Ho.
  assert (omap run_entry [r] = [(b, batch_jobno r)]) as Hre by (cbn; unfold run_entry; by rewrite Hb, Hto).
  pose proof (entries_parked p i r p1 Ho Hi Hr Hs1 Et Eb Er) as He1. rewrite Hre in He1. cbn [app] in He1.
  destruct (finish_spec b (batch_jobno r) (entries (parked i p1)) r p1) as (p2 & es' & Hfin & [Hf Hpc He2] & Hh2 & Hes'); [done| |].
  { apply (heap_with_perm p p1 (entries p)); [done|done|by rewrite Et| |apply Hg]. by rewrite He1. }
  rewrite Hfin. cbn [mbind outcome_bind]. pose proof (pool_same_trans _ _ _ Hs1 (fr_same _ _ Hf)) as Hs.
  assert (idle_ok p2) as Ho2 by by eapply pool_same_idle_ok.
  assert (i ∉ idle p2) as Hi2 by (by destruct (pool_same_busy _ _ Hs) as [_ ->]).
  assert (workers p2 !! i = Some r) as Hr2 by (by rewrite (ps_workers _ _ Hs)).
  rewrite (park_worker_regular p2 i r); [|done| |done|done].
  2: { rewrite (ps_max _ _ Hs). pose proof (max_pos p Hp). lia. }
  assert (entries (parked i p2) ≡ₚ es' ++ entries (parked i p1)) as He4.
  { apply (Permutation_cons_inv (a := (b, batch_jobno r))).
    pose proof (entries_parked p2 i r p2 Ho2 Hi2 Hr2 (pool_same_refl _) eq_refl eq_refl eq_refl) as He3.
    rewrite Hre in He3. cbn [app] in He3. rewrite <- He3, He2, Permutation_middle. f_equiv.
    rewrite <- He1. unfold entries, running_jobs. destruct (pool_same_busy _ _ Hs1) as [-> _]. by rewrite Et, Eb, Er. }
  eexists. split; [done|]. split; [eapply (good_parked p p2 ts i r t); try done|].
  - intros s. by rewrite (fr_active _ _ Hf), Ha1.
  - by rewrite (fr_tagged _ _ Hf), Et.
  - by rewrite (fr_sent _ _ Hf).
  - by rewrite Hpc, Ep.
  - apply (queue_ok_same p); [by rewrite (fr_reg _ _ Hf)|apply Hg].
  - by apply (heap_with_perm p2 p2 (es' ++ entries (parked i p1))).
  - destruct (running_parked p i r p2 Ho Hi Hr Hs) as [H1 H2]; [by rewrite (fr_tagged _ _ Hf), Et|]. split; try done.
    + change (pending_commands (parked i p2)) with (pending_commands p2). by rewrite Hpc.
    + exists es', (entries (parked i p1)). split_and!; try done.
      * rewrite He1. unfold run_entry. by rewrite Hb, Hto.
      * change (heap (parked i p2)) with (heap p2). rewrite <- Eh. eapply (finish_functions b r (batch_jobno r)); [|exact Hfin|exact Hh2].
        apply (heap_with_perm p p1 (entries p)); [done|done|by rewrite Et|by rewrite He1|apply Hg].
Qed.

Lemma list_alter_insert {A} (f : A → A) (l : list A) i x :
  l !! i = Some x → alter f i l = <[ i := f x ]> l.
Proof.
  revert i. induction l as [|y l IH]; intros [|i] H; try done; cbn in *; [congruence|].
  f_equal. by apply IH.
Qed.

Lemma ran_tagged_good p ts i r q t :
  steady p ts → sent p = [] → tagged ts !! i = Some t → tagged_workers p !! i = Some (r, true, q) →
  ∃ p', (p ← ran_batch true (Z.of_nat i + 1) r p;
         park_worker true (Z.of_nat i + 1) (routing_id true (Z.of_nat i + 1)) p) = Ret p' ∧
    steady p' (set_thread true (Z.of_nat i + 1) (t <| wt_status := Waiting |>) ts) ∧ returned true i r p p'.
Proof.
  intros Hg Hsent Hti Hi.
  pose proof Hg as [Hp Hh Hr Hq Ht (ts' & Hd & [Hl1 Hs1 Htl Hts1]) [Hm Hn]].
  rewrite Hsent in Hd. injection Hd as <-.
  assert (r ∈ running_jobs p) as Hin.
  { unfold running_jobs. rewrite elem_of_app. right. apply list_elem_of_omap. exists (r, true, q).
    by eauto using list_elem_of_lookup_2. }
  destruct (Ht i r true q Hi) as (_ & _ & _ & Hb). specialize (Hb eq_refl).
  pose proof (Hr r Hin) as Hrun. unfold run_ok in Hrun. rewrite Hb in Hrun. destruct Hrun as [b Hto].
  rewrite (ran_batch_finish _ _ _ _ b Hto). unfold release_slot. cbn [mbind outcome_bind].
  assert (Z.to_nat (Z.of_nat i + 1 - 1) = i) as Hz by lia.
  set (p1 := set_tagged_idle (Z.of_nat i + 1) p).
  assert (tagged_workers p1 = <[ i := (r, false, q) ]> (tagged_workers p)) as Ht1.
  { unfold p1, set_tagged_idle, modify. cbn. rewrite Hz. by rewrite (list_alter_insert _ _ _ _ Hi). }
  assert (pool_same p p1) as Hs1' by by split.
  destruct (entries_tagged p p1 i (r, true, q) (r, false, q)) as (k & He & He'); try done.
  assert (entries p ≡ₚ (b, batch_jobno r) :: entries p1) as He1.
  { rewrite He, He'. unfold tagged_entries. cbn. unfold run_entry. rewrite Hb, Hto. cbn. solve_Permutation. }
  assert (length (tagged_workers p1) = length (tagged_workers p)) as Hlen by (by rewrite Ht1, length_insert).
  destruct (finish_spec b (batch_jobno r) (entries p1) r p1) as (p2 & es' & Hfin & [Hf Hpc He2] & Hh2 & Hes'); [done| |].
  { apply (heap_with_perm p p1 (entries p)); [done|done|done|by rewrite He1|done]. }
  rewrite Hfin. cbn [mbind outcome_bind]. pose proof (pool_same_trans _ _ _ Hs1' (fr_same _ _ Hf)) as Hs.
  pose proof (length_tagged p1 p2 (fr_tagged _ _ Hf)) as Hlen2.
  unfold park_worker. pose proof (max_pos p Hp). rewrite (proj2 (Z.eqb_neq _ _)) by (rewrite (ps_max _ _ Hs); lia).
  exists p2. split; [done|]. split.
  2: { split.
    - by rewrite Hpc.
    - rewrite (frame_running _ _ Hf). unfold running_jobs. rewrite Permutation_middle. change (busy p1) with (busy p). f_equiv. rewrite Ht1.
      destruct (insert_perm _ i (r, true, q) (r, false, q) Hi) as (ws & Hw & Hw'). by rewrite Hw', Hw.
    - exists es', (entries p1). split_and!; try done.
      + rewrite He1. unfold run_entry. by rewrite Hb, Hto.
      + change (heap p) with (heap p1). eapply (finish_functions b r (batch_jobno r)); [|exact Hfin|exact Hh2].
        apply (heap_with_perm p p1 (entries p)); [done|done|done|by rewrite He1|done].
    - intros tg' j Hne. destruct tg'; unfold busy_run.
      + rewrite (tagged_run_frame p1 p2) by apply Hf. rewrite Ht1, list_lookup_insert_ne; [done|]. congruence.
      + destruct (pool_same_busy _ _ Hs) as [_ ->]. by rewrite (ps_workers _ _ Hs). }
  unfold steady. rewrite Hpc. change (pending_commands p1) with (pending_commands p). split.
  - apply (pool_ok_same p p2); [done| |done]. intros s _. by rewrite (fr_active _ _ Hf).
  - apply (heap_with_perm p2 p2 (es' ++ entries p1)); done.
  - intros r' Hr'. apply Hr. rewrite (frame_running _ _ Hf) in Hr'. unfold running_jobs in *.
    rewrite elem_of_app in *. destruct Hr' as [Hr'|Hr']; [by left|right].
    rewrite Ht1 in Hr'. apply list_elem_of_omap in Hr' as (w & [j Hj]%list_elem_of_lookup & Hw).
    apply list_lookup_insert_Some in Hj as [(<- & <- & _)|[_ Hj]]; [done|].
    apply list_elem_of_omap. exists w. by eauto using list_elem_of_lookup_2.
  - apply (queue_ok_same p); [by rewrite (fr_reg _ _ Hf)|done].
  - apply (tagged_ok_frame p1 p2); [apply Hf|]. intros j r0 b0 q0. rewrite Ht1.
    intros [(<- & [= <- <- <-] & _)|[_ ?]]%list_lookup_insert_Some; [|by eapply Ht].
    destruct (Ht i r true q Hi) as (? & ? & ? & _). done.
  - rewrite (fr_sent _ _ Hf). change (sent p1) with (sent p). rewrite Hsent. eexists. split; [done|].
    destruct (pool_same_busy _ _ Hs) as [_ Hidle]. split.
    + by rewrite (ps_workers _ _ Hs).
    + by rewrite Hidle.
    + cbn. by rewrite length_insert, Hlen2, Hlen.
    + cbn. rewrite Hz. intros j u [[r0 b0] q0] Hu Hw.
      destruct (proj1 (tagged_lookup_frame p1 p2 j r0 b0 (fr_tagged _ _ Hf))) as [x Hx]; [eauto|].
      rewrite Ht1 in Hx. apply list_lookup_insert_Some in Hu as [(<- & <- & _)|[Hne Hu]].
      * rewrite list_lookup_insert_eq in Hx by by eapply lookup_lt_Some. injection Hx as <- <- <-. by left.
      * rewrite list_lookup_insert_ne in Hx by done. by apply (Hts1 j u _ Hu Hx).
  - split; [by rewrite (ps_max _ _ Hs)|]. by rewrite Hlen2, Hlen.
Qed.

(** A worker that has sent RAN: the message is processed and the worker waits. *)
Lemma ran_good p ts tg wid t :
  steady p ts → sent p = [] → (0 ≤ wid)%Z → (tg = true → 0 < wid)%Z →
  the_thread tg wid ts = Some t → wt_status t = Ran →
  ∃ q r, proxy_worker_message [routing_id tg wid; B "RAN"] p = Ret q ∧
    steady q (set_thread tg wid (t <| wt_status := Waiting |>) ts) ∧
    the_run tg wid p = Some r ∧ returned tg (Z.to_nat (if tg then wid - 1 else wid)) r p q.
Proof.
  intros Hg Hsent H0 Hpos Ht Hst. pose proof Hg as [_ _ _ _ _ (ts' & Hd & [Hl1 Hs1 Htl Hts1]) [Hm Hn]].
  rewrite Hsent in Hd. injection Hd as <-. unfold the_thread in Ht.
  assert ((0 ≤ wid < 2 ^ 32)%Z ∧ is_Some (the_run tg wid p)) as [Hw Hrun].
  { pose proof (lookup_lt_Some _ _ _ Ht) as Hlt || idtac. destruct tg.
    - apply lookup_lt_Some in Ht. unfold the_run. rewrite fmap_is_Some, lookup_lt_is_Some. specialize (Hpos eq_refl). lia.
    - apply lookup_lt_Some in Ht. unfold the_run. rewrite lookup_lt_is_Some.
      pose proof (worker_fits _ _ _ (Z.to_nat wid) Hg). lia. }
  unfold proxy_worker_message. rewrite route_worker_id by done.
  destruct Hrun as [r Hr]. rewrite Hr, bool_decide_true by done.
  destruct tg; cbn [the_run] in Hr.
  - apply fmap_Some in Hr as ([[r0 b0] q0] & Hi & Er). cbn in Er. subst r0.
    specialize (Hpos eq_refl). remember (Z.to_nat (wid - 1)) as i eqn:Ei.
    assert (wid = Z.of_nat i + 1)%Z as -> by lia. clear Ei.
    assert (b0 = true) as ->.
    { destruct (Hts1 i t _ Ht Hi) as [[_ ?]|[Hb _]]; [congruence|]. by destruct b0. }
    destruct (g_tagged _ _ _ Hg i r true q0 Hi) as (_ & _ & _ & Hb). rewrite Hb by done.
    destruct (ran_tagged_good p ts i r q0 t) as (p' & ? & ? & ?); try done. by exists p', r.
  - remember (Z.to_nat wid) as i eqn:Ei. assert (wid = Z.of_nat i) as -> by lia. clear Ei.
    assert (i ∉ idle p) as Hi by (destruct (Hs1 i t Ht) as [[_ ?]|[? _]]; [congruence|done]).
    destruct (is_batch_job r) eqn:Hb.
    + destruct (ran_batch_good p ts i r t) as (q & ? & ? & ?); try done. by exists q, r.
    + destruct (ran_command_good p ts i r t) as (q & ? & ? & ?); try done. by exists q, r.
Qed.

(** ** The queues *)

(** [proxy_process_queue] leaves nothing that could be started. *)
Lemma process_queue_good p ts :
  steady p ts →
  ∃ q, proxy_process_queue p = Ret q ∧ steady q ts ∧
    (∀ i, tagged_served q i) ∧
    (batch_jobs q = [] ∨ slot_full q SBatch) ∧ (reply_jobs q = [] ∨ slot_full q SReply) ∧
    (∀ pc, pc ∈ pending_commands q → slot_full q (SCat (pc_cat pc))) ∧
    batch_jobs q `suffix_of` batch_jobs p ∧ reply_jobs q `suffix_of` reply_jobs p ∧
    pending_commands q `sublist_of` pending_commands p.
Proof.
  intros Hg. unfold proxy_process_queue. pose proof (max_pos p (g_pool _ _ _ Hg)).
  rewrite (proj2 (Z.eqb_neq _ _)) by lia.
  destruct (process_tagged_good _ ts p Hg) as (Hg1 & Hpr1 & Hj1 & Hj1' & Hp1 & Hserved).
  cbv zeta. set (p1 := process_tagged p) in *. unfold proxy_run_batch_jobs.
  destruct (run_batch_jobs_good (the_jobs false p1) false _ ts p1 eq_refl Hg1)
    as (p2 & s2 & -> & Hg2 & Hpr2 & Hq2 & Ho2 & Ht2 & Hp2 & Hf2).
  cbn [mbind outcome_bind].
  destruct (run_batch_jobs_good (the_jobs true p2) true _ ts p2 eq_refl Hg2)
    as (p3 & s3 & -> & Hg3 & Hpr3 & Hq3 & Ho3 & Ht3 & Hp3 & Hf3).
  cbn [mbind outcome_bind]. cbn [negb the_jobs] in *.
  destruct (process_pending_good ts (pending_commands p3) [] p3) as (q & -> & Hgq & Hpr & Hb & Hr & Htg & Hsub & Hfull).
  { cbn. by rewrite Hp3, Hp2, Hp1. }
  { by intros pc ?%not_elem_of_nil. }
  exists q. split_and!; try done.
  - intros i. unfold tagged_served. rewrite Htg, Ht3, Ht2. apply Hserved.
  - rewrite Hb, Ho3. destruct Hf2 as [?|?]; [by left|right]. eapply slot_full_progress; [done|].
    by eapply slot_full_progress.
  - rewrite Hr. destruct Hf3 as [?|?]; [by left|right]. by eapply slot_full_progress.
  - rewrite Hb, Ho3, <- Hj1', Hq2. by exists s2.
  - rewrite Hr, <- Hj1, <- Ho2, Hq3. by exists s3.
  - cbn in Hsub. by rewrite Hp3, Hp2, Hp1 in Hsub.
Qed.
End eval.
