(* ===== verification/PoolSafe.v ===== *)
(** * PoolSafe: what the pool guarantees

    The reachable states of the proxy with its workers, from any configuration
    through any schedule up to QUIT, and the properties that hold in all of
    them. *)
From S2P Require Import Prelude Bytes Auth ConnId Commands Batch Pool PoolSlots Threads PoolInv PoolSteps.
Open Scope Z_scope.
Open Scope nat_scope.

(** * Configuration before [start] *)

Inductive setup :=
  | SetGeneral (threads : Z)
  | SetBatch (threads : Z)
  | SetReply (threads : Z)
  | AddTagged (name : bytes)
  | AddTimer (id : Z) (job : callback) (squelch : bool) (thread zmq_timer_id : Z)
  | CancelTimer (id : Z)
  | Register (op : reg_op).

Definition run_setup (p : pool) (op : setup) : outcome pool :=
  match op with
  | SetGeneral n => set_general_threads p n
  | SetBatch n => set_batch_threads p n
  | SetReply n => set_reply_threads p n
  | AddTagged name => fst <$> add_tagged_thread p name
  | AddTimer id job sq th z => proxy_timer id job sq th z p
  | CancelTimer id => Ret (fst (proxy_timer_del id p))
  | Register op => r ← run_op (reg p) op; Ret (p <| reg := r |>)
  end.

Fixpoint run_setups (p : pool) (ops : list setup) : outcome pool :=
  match ops with
  | [] => Ret p
  | op :: ops => p ← run_setup p op; run_setups p ops
  end.

(** [reserved_threads] is unsigned; a timer names a thread that was added, or none. *)
Definition setup_ok (p : pool) (op : setup) : Prop :=
  match op with
  | Register (AddCategory _ _ reserved _) => (0 ≤ reserved)%Z
  | AddTimer _ _ _ th _ => th = (-1)%Z ∨ thread_ok (length (tagged_workers p)) th
  | _ => True
  end.

(** Every call of [ops] is made in accordance with [setup_ok]. *)
Fixpoint setups_ok (p : pool) (ops : list setup) : Prop :=
  match ops with
  | [] => True
  | op :: ops => setup_ok p op ∧ ∀ p', run_setup p op = Ret p' → setups_ok p' ops
  end.

(** An object that was configured and not started. *)
Record configured (p : pool) : Prop := {
  cf_started : started (reg p) = false;
  cf_general : (0 < general_workers p)%Z;
  cf_workers : workers p = [];
  cf_idle : idle_worker_count p = 0;
  cf_queues : batch_jobs p = [] ∧ reply_jobs p = [] ∧ pending_commands p = [] ∧ sent p = [];
  cf_active : batch_jobs_active p = 0%Z ∧ reply_jobs_active p = 0%Z;
  cf_tagged : ∀ i w, tagged_workers p !! i = Some w →
    w = ((run_new true (Z.of_nat i + 1)) <| joinable := true |>, false, []);
  cf_heap : heap p = ∅;
  cf_timers : ∀ t d, timer_jobs p !! t = Some d →
    timer_running d = false ∧
    (timer_thread d = (-1)%Z ∨ thread_ok (length (tagged_workers p)) (timer_thread d));
  cf_cats : ∀ c k, the_category p c = Some k →
    (0 ≤ reserved_threads k)%Z ∧ active_threads k = 0%Z ∧ queued k = 0%Z;
}.

Lemma configured_new hw : configured (pool_new hw).
Proof. split; cbn; try done; try lia; intros; by simplify_map_eq. Qed.

Lemma configured_reg p r :
  configured p → started r = false →
  (∀ c k, categories r !! c = Some k →
     (0 ≤ reserved_threads k)%Z ∧ active_threads k = 0%Z ∧ queued k = 0%Z) →
  configured (p <| reg := r |>).
Proof. intros []. by split. Qed.

Lemma configured_setup p op p' :
  configured p → setup_ok p op → run_setup p op = Ret p' → configured p'.
Proof.
  intros Hp Hop. pose proof (cf_started _ Hp) as Hst. pose proof (cf_cats _ Hp) as Hc. unfold the_category in Hc.
  destruct op as [n|n|n|name|id job sq th z|id|op]; cbn [run_setup].
  - unfold set_general_threads. rewrite Hst. destruct (Z.ltb_spec n 1); [done|].
    intros [= <-]. destruct Hp. split; try done. cbn. lia.
  - unfold set_batch_threads. rewrite Hst. destruct (Z.ltb_spec n (-1)); [done|].
    intros [= <-]. destruct Hp. by split.
  - unfold set_reply_threads. rewrite Hst. destruct (Z.ltb_spec n (-1)); [done|].
    intros [= <-]. destruct Hp. by split.
  - unfold add_tagged_thread. rewrite Hst. destruct (_ || _ || _); [done|].
    cbn. intros [= <-]. destruct Hp as [? ? ? ? ? ? Htg ? Htm ?]. split; try done; cbn.
    + intros i w [Hi|[Hge Hi]]%lookup_app_Some; [auto|].
      apply list_lookup_singleton_Some in Hi as [Hz <-].
      by replace i with (length (tagged_workers p)) by lia.
    + intros t d [? Ht]%Htm. split; [done|]. unfold thread_ok in *. rewrite length_app. cbn. lia.
  - unfold proxy_timer. destruct (z =? -1)%Z; [done|]. intros [= <-]. destruct Hp as [? ? ? ? ? ? ? ? Htm ?].
    split; try done. cbn. intros t d [[_ <-]|[_ Hd]]%lookup_insert_Some; [by split|by eapply Htm].
  - intros [= <-]. unfold proxy_timer_del. destruct (timer_zmq_id p !! id); [|done]. by destruct Hp; split.
  - intros H. inv_bind H. injection H as <-. destruct op as [name acc res mq|cat name cb|cat name cb|from to]; cbn in E.
    + apply add_category_Ret in E as (? & _ & _ & _ & _ & ->). apply configured_reg; try done.
      cbn. intros c k [[_ <-]|[_ Hk]]%lookup_insert_Some; [done|eauto].
    + apply add_command_Ret in E as (c0 & ? & _ & Hc0 & _ & _ & ->). apply configured_reg; try done.
      cbn. intros c k [[_ <-]|[_ Hk]]%lookup_insert_Some; cbn; eauto.
    + apply add_request_command_Ret in E as (c0 & ? & _ & Hc0 & _ & _ & ->). apply configured_reg; try done.
      cbn. intros c k [[_ <-]|[_ Hk]]%lookup_insert_Some; cbn; eauto.
    + unfold add_command_alias, check_not_started in E. rewrite Hst in E. cbn [mbind outcome_bind] in E.
      repeat (case_match; try done). injection E as <-. by apply configured_reg.
Qed.

Lemma configured_setups ops p p' :
  configured p → setups_ok p ops → run_setups p ops = Ret p' → configured p'.
Proof.
  revert p. induction ops as [|op ops IH]; intros p Hp Hops; cbn [run_setups].
  - by intros [= <-].
  - destruct Hops as [Hop Hops]. intros H. inv_bind H.
    eapply IH; [|by apply Hops|done]. by eapply configured_setup.
Qed.

(** * Starting *)

Lemma map_keys_perm {A} (m : gmap bytes A) : (map_to_list m).*1 ≡ₚ elements (dom m).
Proof.
  apply NoDup_Permutation; [apply NoDup_fst_map_to_list|apply NoDup_elements|].
  intros k. rewrite elem_of_elements, elem_of_dom, list_elem_of_fmap. split.
  - intros ([k' x] & -> & Hx%elem_of_map_to_list). by exists x.
  - intros [x Hx]. exists (k, x). split; [done|]. by apply elem_of_map_to_list.
Qed.

(** The sum [start] computes, slot by slot. *)
Lemma reserved_sum p :
  Zsum (reserved p <$> slots p) =
  (batch_jobs_reserved p + reply_jobs_reserved p +
   Zsum ((λ kc, reserved_threads (snd kc)) <$> map_to_list (categories (reg p))))%Z.
Proof.
  unfold slots. cbn [fmap list_fmap]. unfold Zsum at 1. cbn [foldr reserved]. fold (Zsum (reserved p <$> (SCat <$> elements (dom (categories (reg p)))))).
  rewrite <- (map_keys_perm (categories (reg p))), <- !list_fmap_compose.
  enough ((reserved p ∘ SCat ∘ fst) <$> map_to_list (categories (reg p)) =
    (λ kc, reserved_threads (snd kc)) <$> map_to_list (categories (reg p))) as -> by lia.
  apply list_fmap_ext. intros i [c k] Hi. apply list_elem_of_lookup_2, elem_of_map_to_list in Hi.
  cbn. unfold the_category. by rewrite Hi.
Qed.

Lemma NoDup_slots p : NoDup (slots p).
Proof.
  unfold slots. rewrite !NoDup_cons, elem_of_cons. split_and!.
  - intros [?|(c & ? & _)%list_elem_of_fmap]; done.
  - by intros (c & ? & _)%list_elem_of_fmap.
  - apply NoDup_fmap_2_strong, NoDup_elements. congruence.
Qed.

(** The number of workers [start] makes room for. *)
Definition total_workers (p : pool) : Z :=
  (general_workers p +
   (if batch_jobs_reserved p <? 0 then (general_workers p + 1) / 2 else batch_jobs_reserved p) +
   (if reply_jobs_reserved p <? 0 then (general_workers p + 7) / 8 else reply_jobs_reserved p) +
   Zsum ((λ kc, reserved_threads (snd kc)) <$> map_to_list (categories (reg p))))%Z.

(** The pool after [start]. *)
Lemma start_Ret p :
  configured p →
  ∃ q, start p = Ret q ∧ max_workers q = total_workers p ∧
    workers_capacity q = Z.to_nat (total_workers p) ∧
    idle_workers q = replicate (Z.to_nat (total_workers p)) 0 ∧
    general_workers q = general_workers p ∧
    batch_jobs_reserved q = (if batch_jobs_reserved p <? 0 then (general_workers p + 1) / 2 else batch_jobs_reserved p)%Z ∧
    reply_jobs_reserved q = (if reply_jobs_reserved p <? 0 then (general_workers p + 7) / 8 else reply_jobs_reserved p)%Z ∧
    categories (reg q) = categories (reg p) ∧ workers q = workers p ∧
    idle_worker_count q = idle_worker_count p ∧ tagged_workers q = tagged_workers p ∧
    (batch_jobs q, reply_jobs q, pending_commands q) = (batch_jobs p, reply_jobs p, pending_commands p) ∧
    (batch_jobs_active q, reply_jobs_active q) = (batch_jobs_active p, reply_jobs_active p) ∧
    (heap q, timer_jobs q) = (heap p, timer_jobs p) ∧
    sent q = (λ w, Control (worker_routing_id (fst (fst w))) (B "START")) <$> tagged_workers p.
Proof.
  intros Hp. unfold start, total_workers. rewrite (cf_started _ Hp).
  rewrite (proj2 (Z.leb_gt _ _)) by apply Hp.
  destruct (Z.ltb_spec (batch_jobs_reserved p) 0) as [Hb|Hb]; cbn [reply_jobs_reserved modify];
    [change (reply_jobs_reserved (p <| batch_jobs_reserved := ((general_workers p + 1) / 2)%Z |>))
       with (reply_jobs_reserved p)|];
    destruct (Z.ltb_spec (reply_jobs_reserved p) 0) as [Hr|Hr]; eexists; (split; [reflexivity|]);
    repeat split.
Qed.

(** The tagged threads read their START. *)
Lemma deliver_starts n ts k :
  length (tagged ts) = k + n → (Z.of_nat (k + n) < 2 ^ 31)%Z →
  (∀ i t, tagged ts !! i = Some t → wt_status t = (if decide (i < k) then Waiting else Starting)) →
  ∃ ts', deliver_all ((λ i, Control (routing_id true (Z.of_nat i + 1)) (B "START")) <$> seq k n) ts = Ret ts' ∧
    regular ts' = regular ts ∧ length (tagged ts') = k + n ∧
    (∀ i t, tagged ts' !! i = Some t → wt_status t = Waiting).
Proof.
  revert ts k. induction n as [|n IH]; intros ts k Hl Hk Hst.
  { exists ts. split; [done|]. split; [done|]. split; [done|]. intros i t Hi. rewrite (Hst i t Hi).
    rewrite decide_True; [done|]. apply lookup_lt_Some in Hi. lia. }
  cbn [seq fmap list_fmap deliver_all].
  destruct (lookup_lt_is_Some_2 (tagged ts) k) as [t Ht]; [lia|].
  assert (deliver (Control (routing_id true (Z.of_nat k + 1)) (B "START")) ts =
    Ret (set_thread true (Z.of_nat k + 1) (t <| wt_status := Waiting |>) ts)) as ->.
  { unfold routing_id, deliver. change (bool_decide (wtype true = "t"%char)) with true.
    rewrite load32_raw32 by lia. unfold the_thread. replace (Z.to_nat (Z.of_nat k + 1 - 1)) with k by lia.
    rewrite Ht. unfold worker_reads. rewrite (Hst k t Ht), decide_False by lia. done. }
  cbn [mbind outcome_bind]. destruct (IH (set_thread true (Z.of_nat k + 1) (t <| wt_status := Waiting |>) ts) (S k))
    as (ts' & -> & Hr & Hl' & Hw); cbn.
  - rewrite length_insert. lia.
  - lia.
  - replace (Z.to_nat (Z.of_nat k + 1 - 1)) with k by lia.
    intros i u [(<- & <- & _)|[Hne Hi]]%list_lookup_insert_Some; [by rewrite decide_True by lia|].
    rewrite (Hst i u Hi). destruct (decide (i < k)); [by rewrite decide_True by lia|by rewrite decide_False by lia].
  - exists ts'. split; [done|]. split; [done|]. split; [lia|done].
Qed.

(** Between two events nothing is left to deliver. *)
Definition system_ok (s : system) : Prop :=
  steady (proxy s) (wthreads s) ∧ sent (proxy s) = [].

Lemma flush_ok s : steady (proxy s) (wthreads s) → ∃ s', flush s = Ret s' ∧ system_ok s' ∧
  proxy s' = (proxy s) <| sent := [] |>.
Proof.
  intros Hg. pose proof Hg as [Hp Hh Hr Hq Ht (ts' & Hd & Hts) Hfit].
  unfold flush. rewrite Hd. cbn [mbind outcome_bind]. eexists. split; [done|]. split; [|done]. split; [|done].
  cbn. split; try done.
  - by apply (pool_ok_same (proxy s)).
  - by apply (heap_ok_perm (proxy s)).
  - by apply (queue_ok_same (proxy s)).
  - exists ts'. split; [done|]. destruct Hts as [? ? ? ?]. by split.
Qed.

Lemma on_proxy_ok s m q :
  m = Ret q → steady q (wthreads s) →
  ∃ s', on_proxy s m = Ret s' ∧ system_ok s' ∧ proxy s' = q <| sent := [] |>.
Proof.
  intros -> Hq. cbn [on_proxy mbind outcome_bind].
  change (steady (proxy (s <| proxy := q |>)) (wthreads (s <| proxy := q |>))) in Hq.
  destruct (flush_ok _ Hq) as (s' & H1 & H2 & H3). by exists s'.
Qed.

(** Worker ids and counters stay within their types. *)
Definition fits (p : pool) : Prop :=
  (total_workers p < 2 ^ 31)%Z ∧ (Z.of_nat (length (tagged_workers p)) < 2 ^ 31)%Z.

Lemma start_pool_ok p q :
  configured p → start p = Ret q → pool_ok q ∧ busy q = [] ∧ idle q = [].
Proof.
  intros Hp Hq. destruct (start_Ret p Hp) as (q' & Hq' & Em & Ec & Ei & Eg & Eb & Er & Ecat & Ew & En & Et & Eq & Ea & _).
  rewrite Hq in Hq'. injection Hq' as <-. injection Eq as Eq1 Eq2 Eq3. injection Ea as Ea1 Ea2.
  pose proof Hp as [_ Hg Hw Hn _ [Ha1 Ha2] _ _ _ Hc]. rewrite Hw in Ew. rewrite Hn in En.
  assert (busy q = [] ∧ idle q = []) as [Hb Hi].
  { unfold busy, busy_ix, idle. by rewrite Ew, En. }
  split; [|done]. split; [| |by rewrite Em].
  - split; rewrite ?Hi, ?Ew, ?En, ?Ei, ?Ec, ?length_replicate; try done; [constructor|by intros i ?%not_elem_of_nil|cbn; lia..].
  - rewrite Hb. assert (∀ s, active q s = 0%Z) as Hact.
    { intros [| |c]; cbn; [congruence..|]. unfold the_category. rewrite Ecat. specialize (Hc c). unfold the_category in Hc.
      destruct (categories (reg p) !! c) as [k|]; [|done]. by destruct (Hc k eq_refl) as (_ & ? & _). }
    split.
    + apply NoDup_slots.
    + by rewrite Eg.
    + rewrite Em, reserved_sum, Eg, Eb, Er, Ecat. unfold total_workers. lia.
    + intros [| |c] _; cbn; [rewrite Eb|rewrite Er|].
      * destruct (Z.ltb_spec (batch_jobs_reserved p) 0); [apply Z.div_pos; lia|done].
      * destruct (Z.ltb_spec (reply_jobs_reserved p) 0); [apply Z.div_pos; lia|done].
      * unfold the_category. rewrite Ecat. specialize (Hc c). unfold the_category in Hc.
        destruct (categories (reg p) !! c) as [k|]; [|done]. by destruct (Hc k eq_refl) as (? & _).
    + by intros r ?%not_elem_of_nil.
    + intros s _. by rewrite Hact.
    + rewrite Eg. transitivity 0%Z; [|lia]. unfold overflow.
      transitivity (Zsum ((λ _, 0%Z) <$> slots q)).
      * apply Zsum_map_le. intros s Hs. rewrite Hact.
        enough (0 ≤ reserved q s)%Z by lia.
        destruct s as [| |c]; cbn; [rewrite Eb|rewrite Er|].
        -- destruct (Z.ltb_spec (batch_jobs_reserved p) 0); [apply Z.div_pos; lia|done].
        -- destruct (Z.ltb_spec (reply_jobs_reserved p) 0); [apply Z.div_pos; lia|done].
        -- unfold the_category. rewrite Ecat. specialize (Hc c). unfold the_category in Hc.
           destruct (categories (reg p) !! c) as [k|]; [|done]. by destruct (Hc k eq_refl) as (? & _).
      * clear. induction (slots q) as [|x l IH]; cbn in *; [done|]. unfold Zsum in *. lia.
Qed.

Lemma tagged_starts p :
  configured p →
  (λ w, Control (worker_routing_id (fst (fst w))) (B "START")) <$> tagged_workers p =
  (λ i, Control (routing_id true (Z.of_nat i + 1)) (B "START")) <$> seq 0 (length (tagged_workers p)).
Proof.
  intros Hp. apply list_eq. intros i. rewrite !list_lookup_fmap.
  destruct (tagged_workers p !! i) as [w|] eqn:Hi.
  - rewrite lookup_seq_lt by by eapply lookup_lt_Some. cbn. by rewrite (cf_tagged _ Hp i w Hi).
  - apply lookup_ge_None in Hi. by rewrite lookup_seq_ge.
Qed.

(** A started system has nothing to do yet. *)
Lemma start_empty p :
  configured p → fits p →
  ∃ s, system_start p = Ret s ∧ system_ok s ∧ running_jobs (proxy s) = [] ∧ entries (proxy s) = [] ∧
    pending_commands (proxy s) = [] ∧ calls s = [].
Proof.
  intros Hp [Hfit1 Hfit2]. destruct (start_Ret p Hp) as (q & Hq & Em & _ & _ & _ & _ & _ & Ecat & _ & _ & Et & Eq & _ & Eh & Es).
  destruct (start_pool_ok p q Hp Hq) as (Hok & Hb & Hi). unfold system_start. rewrite Hq. cbn [mbind outcome_bind].
  injection Eq as Eq1 Eq2 Eq3. injection Eh as Eh1 Eh2.
  destruct (cf_queues _ Hp) as (Hq1 & Hq2 & Hq3 & _). pose proof (cf_heap _ Hp) as Hh1.
  assert (∀ w, w ∈ tagged_workers q → snd w = [] ∧ tagged_run w = None) as Htw.
  { rewrite Et. intros w [i Hw]%list_elem_of_lookup. rewrite (cf_tagged _ Hp i w Hw). done. }
  assert (running_jobs q = []) as Hrun.
  { unfold running_jobs. rewrite Hb. cbn. revert Htw. clear. induction (tagged_workers q) as [|w l IH]; intros Htw; [done|].
    cbn. destruct (Htw w (list_elem_of_here _ _)) as [_ ->]. apply IH. intros w' Hw'. apply Htw. by apply list_elem_of_further. }
  assert (entries q = []) as Hent.
  { unfold entries. rewrite Hrun, Eq1, Eq2, Hq1, Hq2. cbn. rewrite app_nil_r.
    revert Htw. clear. induction (tagged_workers q) as [|w l IH]; intros Htw; [done|].
    cbn. destruct (Htw w (list_elem_of_here _ _)) as [-> _]. apply IH. intros w' Hw'. apply Htw. by apply list_elem_of_further. }
  destruct (flush_ok (mk_system q (mk_threads [] ((λ _, mk_thread Starting []) <$> tagged_workers q)) [])) as (s & Hfl & Hs & Hps).
  2: { rewrite Hfl. exists s. split; [done|]. split; [done|]. rewrite Hps. cbn. split_and!; try done.
       - by rewrite Eq3.
       - unfold flush in Hfl. destruct (deliver_all _ _); [|done|done]. by injection Hfl as <-. }
  cbn. split; try done.
  - unfold heap_ok. rewrite Hent. split; rewrite ?Eh1, ?Eh2, ?Hh1, ?Et; intros; rewrite ?lookup_empty in *; try done.
    + split; [intros (b & o & Hbo & _)|intros (d & Hdo & Hr)]; exfalso; [by rewrite lookup_empty in Hbo|].
      destruct (cf_timers _ Hp _ _ Hdo). congruence.
    + by eapply (cf_timers _ Hp).
  - rewrite Hrun. by intros r ?%not_elem_of_nil.
  - rewrite Eq3, Hq3. split; [|by intros pc ?%not_elem_of_nil].
    intros c k. unfold the_category. rewrite Ecat. intros Hk. by apply (cf_cats _ Hp c k).
  - intros i r b x. rewrite Et. intros Hw. pose proof (cf_tagged _ Hp i _ Hw) as [= -> -> ->]. done.
  - rewrite Es, (tagged_starts p Hp).
    destruct (deliver_starts (length (tagged_workers p))
      (mk_threads [] ((λ _, mk_thread Starting []) <$> tagged_workers q)) 0) as (ts' & Hd & Hr & Hl & Hw).
    + cbn. by rewrite length_fmap, Et.
    + done.
    + intros i t Ht. cbn in Ht. apply list_lookup_fmap_Some in Ht as (? & -> & _). done.
    + exists ts'. split; [exact Hd|]. pose proof (start_Ret p Hp) as (q' & Hq' & _ & _ & _ & _ & _ & _ & _ & Ew & _).
      rewrite Hq in Hq'. injection Hq' as <-. split; rewrite ?Hr, ?Ew, ?(cf_workers _ Hp), ?Et; try done.
      intros i t w Ht Hw'. left. rewrite (cf_tagged _ Hp i w Hw'). split; [done|by eapply Hw].
  - split; [by rewrite Em|by rewrite Et].
Qed.
Lemma start_ok p : configured p → fits p → ∃ s, system_start p = Ret s ∧ system_ok s.
Proof. intros Hp Hf. destruct (start_empty p Hp Hf) as (s & ? & ? & _). eauto. Qed.

(** * Events *)

Section events.
Context {E : TaskEval}.

(** What the callers of the library guarantee of an event: batches and jobs are
    the ones the public interface builds, tasks and commands name an existing
    category, a request passed [proxy_check_auth] and so has its reply tag, and
    zmq hands out unused timer ids.  QUIT ends the schedules considered here. *)
Definition event_ok (p : pool) (e : event) : Prop :=
  match e with
  | EvBatch o => obj_new (length (tagged_workers p)) o ∧ timer_of o = None
  | EvInject cat _ _ _ => is_Some (the_category p cat)
  | EvCommand cat _ data cb _ _ _ => is_Some (the_category p cat) ∧ (snd cb = true → data ≠ [])
  | EvTimerAdd _ _ _ th z =>
      z ≠ (-1)%Z ∧ timer_jobs p !! z = None ∧ (th = (-1)%Z ∨ thread_ok (length (tagged_workers p)) th)
  | EvTurn tg wid | EvRan tg wid | EvQuitting tg wid => (0 ≤ wid)%Z ∧ (tg = true → 0 < wid)%Z
  | EvQuit => False
  | EvReply _ | EvTimerDel _ | EvTimer _ | EvQueue | EvPoll _ => True
  end.

Hypothesis tasks_return : ∀ f, eval_task f ≠ Undef.

Lemma steady_threads p ts tg wid t :
  steady p ts → sent p = [] → the_thread tg wid ts = Some t →
  (wt_status t = Running ∨ wt_status t = Ran ∨ wt_status t = Waiting) ∧
  (wt_status t ≠ Waiting → (tg = true → 0 < wid)%Z → ∀ r, the_run tg wid p = Some r → r ∈ running_jobs p).
Proof.
  intros [Hp _ _ _ _ (ts' & Hd & [Hl Hs Htl Hts]) _] Hsent Ht. rewrite Hsent in Hd. injection Hd as <-.
  unfold the_thread in Ht. unfold the_run, running_jobs. destruct tg.
  - destruct (lookup_lt_is_Some_2 (tagged_workers p) (Z.to_nat (wid - 1))) as [[[r0 b0] q0] Hw].
    { rewrite <- Htl. by eapply lookup_lt_Some. }
    pose proof (Hts _ _ _ Ht Hw) as Hst. split; [unfold status_ok in Hst; tauto|]. intros Hnw _ r.
    rewrite Hw. cbn. intros [= <-]. rewrite elem_of_app. right. apply list_elem_of_omap.
    exists (r0, b0, q0). split; [by eapply list_elem_of_lookup_2|].
    destruct Hst as [[_ ?]|[Hb _]]; [done|]. cbn in *. by destruct b0.
  - pose proof (Hs _ _ Ht) as Hst. split; [unfold status_ok in Hst; tauto|]. intros Hnw _ r Hr.
    rewrite elem_of_app. left. apply elem_of_busy. exists (Z.to_nat wid). split; [|done].
    by destruct Hst as [[_ ?]|[? _]].
Qed.

Lemma steady_ran p ts tg wid t tag :
  steady p ts → sent p = [] → the_thread tg wid ts = Some t → wt_status t = Running →
  steady p (set_thread tg wid (mk_thread Ran tag) ts).
Proof.
  intros [Hp Hh Hr Hq Htg (ts' & Hd & [Hl Hs Htl Hts]) Hfit] Hsent Ht Hst.
  rewrite Hsent in Hd. injection Hd as <-. split; try done. rewrite Hsent. eexists. split; [done|].
  unfold the_thread in Ht. destruct tg; split; cbn; rewrite ?length_insert; try done.
  - intros i u w [(<- & <- & _)|[_ Hu]]%list_lookup_insert_Some Hw; [|by eapply Hts].
    right. split; [|by right]. destruct (Hts _ _ _ Ht Hw) as [[_ ?]|[? _]]; congruence || done.
  - intros i u [(<- & <- & _)|[_ Hu]]%list_lookup_insert_Some; [|by eapply Hs].
    right. split; [|by right]. destruct (Hs _ _ Ht) as [[_ ?]|[? _]]; congruence || done.
Qed.

Lemma turn_ok s tg wid :
  system_ok s → (tg = true → 0 < wid)%Z → ∃ s', turn tg wid s = Ret s' ∧ system_ok s'.
Proof.
  intros [Hg Hsent] Hpos. unfold turn. destruct (the_thread tg wid (wthreads s)) as [t|] eqn:Ht; [|by exists s].
  destruct (the_run tg wid (proxy s)) as [run|] eqn:Hrun; [|by exists s].
  destruct (decide (wt_status t = Running)) as [Hst|]; [|by exists s].
  destruct (steady_threads _ _ tg wid t Hg Hsent Ht) as [_ Hin].
  destruct (worker_turn_good tasks_return (wt_tag t) run (proxy s) (wthreads s)) as (q & i & -> & Hq & Hf); [done| |].
  { by apply Hin; [rewrite Hst|..]. }
  cbn [mbind outcome_bind]. eexists. split; [done|].
  assert (sent q = []) as Hsq by (by rewrite (fr_sent _ _ Hf)).
  split; [|done]. exact (steady_ran q (wthreads s) tg wid t _ Hq Hsq Ht Hst).
Qed.

Lemma step_ok s e :
  system_ok s → event_ok (proxy s) e → ∃ s', step s e = Ret s' ∧ system_ok s'.
Proof.
  intros Hs He. pose proof Hs as [Hg Hsent].
  assert (∀ m q, m = Ret q → steady q (wthreads s) → ∃ s', on_proxy s m = Ret s' ∧ system_ok s') as Hon.
  { intros m q Hm Hq. destruct (on_proxy_ok s m q Hm Hq) as (s' & ? & ? & _). eauto. }
  destruct e as [o|f|cat cmd rem f|cat cmd data cb conn acc rem|id job sq th z|id|t| |tg wid|tg wid| |tg wid|skip];
    cbn [step event_ok] in *.
  - destruct He as [Hn Ht]. destruct (proxy_batch_good o (proxy s) (wthreads s) Hg Hn Ht) as (q & Hq & Hgq).
    destruct (alloc o (proxy s)) as [p1 a] eqn:Ha. cbn in Hq. by eapply Hon.
  - eapply Hon; [done|]. by apply schedule_reply_good.
  - destruct (inject_good cat cmd rem f (proxy s) (wthreads s) Hg He) as (q & Hq & Hgq). by eapply Hon.
  - destruct He as [Hc Hd].
    destruct (dispatch_good cat cmd data cb conn acc rem (proxy s) (wthreads s) Hg Hc Hd) as (q & Hq & Hgq). by eapply Hon.
  - destruct He as (Hz & Hn & Hth).
    destruct (proxy_timer_good id job sq th z (proxy s) (wthreads s) Hg Hz Hn Hth) as (q & Hq & Hgq). by eapply Hon.
  - eapply Hon; [done|]. by apply proxy_timer_del_good.
  - destruct (queue_timer_good tasks_return t (proxy s) (wthreads s) Hg) as (q & Hq & Hgq). by eapply Hon.
  - destruct (process_queue_good (proxy s) (wthreads s) Hg) as (q & Hq & Hgq & _). by eapply Hon.
  - apply turn_ok; [done|apply He].
  - destruct He as [H0 Hpos]. unfold worker_message. destruct (the_thread tg wid (wthreads s)) as [t|] eqn:Ht; [|by exists s].
    destruct (decide (wt_status t = Ran)) as [Hst|]; [|by exists s].
    destruct (ran_good (proxy s) (wthreads s) tg wid t) as (q & r & Hq & Hgq & _); try done.
    set (s1 := s <| wthreads ::= _ |>). change (steady q (wthreads s1)) in Hgq.
    destruct (on_proxy_ok s1 _ q Hq Hgq) as (s' & ? & ? & _). eauto.
  - done.
  - unfold worker_message. destruct (the_thread tg wid (wthreads s)) as [t|] eqn:Ht; [|by exists s].
    destruct (decide (wt_status t = Quitting)) as [Hst|]; [|by exists s].
    destruct (steady_threads _ _ tg wid t Hg Hsent Ht) as [Hst' _]. rewrite Hst in Hst'. naive_solver.
  - eexists. split; [done|]. split; [|done]. cbn. apply (steady_frame (proxy s)); [by split|done| |done].
    apply (heap_ok_perm (proxy s)); try done. apply Hg.
Qed.

(** * Reachable states *)

Inductive reachable : system → Prop :=
  | reach_start hw ops p s :
      setups_ok (pool_new hw) ops → run_setups (pool_new hw) ops = Ret p → fits p →
      system_start p = Ret s → reachable s
  | reach_step s e s' :
      reachable s → event_ok (proxy s) e → step s e = Ret s' → reachable s'.

Lemma reachable_ok s : reachable s → system_ok s.
Proof.
  induction 1 as [hw ops p s Hops Hp Hfit Hs|s e s' _ IH He Hs].
  - destruct (start_ok p) as (s' & Hs' & Hok); [|done|by rewrite Hs in Hs'; injection Hs' as <-].
    eapply configured_setups; [apply configured_new|done|done].
  - destruct (step_ok s e IH He) as (s2 & Hs2 & Hok). rewrite Hs in Hs2. by injection Hs2 as <-.
Qed.

(** C1: memory safety of the scheduler.  From any configuration, through any
    interleaving of proxy handlers and worker turns up to QUIT, every next
    event runs to completion: no out-of-range index, no use of a deleted batch,
    no failed assertion, no message to a thread that is not waiting, no request
    run without its reply tag; and the [workers] vector stays within the
    capacity reserved at startup, so the references worker threads hold into it
    stay valid. *)
Theorem system_defined s e :
  reachable s → event_ok (proxy s) e →
  ∃ s', step s e = Ret s' ∧ length (workers (proxy s')) ≤ workers_capacity (proxy s').
Proof.
  intros Hr He. destruct (step_ok s e (reachable_ok s Hr) He) as (s' & Hs & [Hg _]).
  exists s'. split; [done|]. apply Hg.
Qed.

(** C3: slot accounting.  In every reachable state the counter of each job class
    (batch jobs, reply jobs, each category) is the number of workers that run a
    job of that class, no more than [max_workers] workers are busy, and while a
    class runs fewer jobs than it has reserved threads a worker is available. *)
Theorem reservations_honoured s k :
  reachable s → k ∈ slots (proxy s) →
  active (proxy s) k = held k (busy (proxy s)) ∧
  (active_workers (proxy s) ≤ max_workers (proxy s))%Z ∧
  (active (proxy s) k < reserved (proxy s) k → active_workers (proxy s) < max_workers (proxy s))%Z.
Proof.
  intros Hr Hk. destruct (reachable_ok s Hr) as [Hg _]. pose proof (g_pool _ _ _ Hg) as [Hi Hp _].
  rewrite active_workers_busy by done. split_and!.
  - by apply Hp.
  - by apply (busy_le_max Hp).
  - by apply (reserved_free Hp).
Qed.

(** C4: [proxy_process_queue] is work conserving and keeps the order.  When it
    returns, every tagged worker with queued jobs is busy, and a batch job, reply
    job or pending command is left queued only if its class has neither a
    reserved nor a general worker left; what it started from the two job queues
    is a prefix of them. *)
Theorem process_queue_complete s :
  reachable s →
  ∃ q, proxy_process_queue (proxy s) = Ret q ∧
    (∀ i r b jobs, tagged_workers q !! i = Some (r, b, jobs) → b = true ∨ jobs = []) ∧
    (batch_jobs q = [] ∨ slot_full q SBatch) ∧ (reply_jobs q = [] ∨ slot_full q SReply) ∧
    (∀ pc, pc ∈ pending_commands q → slot_full q (SCat (pc_cat pc))) ∧
    batch_jobs q `suffix_of` batch_jobs (proxy s) ∧ reply_jobs q `suffix_of` reply_jobs (proxy s) ∧
    pending_commands q `sublist_of` pending_commands (proxy s).
Proof.
  intros Hr. destruct (reachable_ok s Hr) as [Hg _].
  destruct (process_queue_good _ _ Hg) as (q & Hq & _ & H1 & H2 & H3 & H4 & H5 & H6 & H7).
  by exists q.
Qed.

Lemma jobnos_nodup es : (∀ b, NoDup (jobnos b es)) → NoDup es.
Proof.
  induction es as [|[b n] es IH]; intros H; [constructor|]. apply NoDup_cons. split.
  - specialize (H b). rewrite jobnos_cons in H. cbn in H. rewrite decide_True in H by done.
    apply NoDup_cons in H as [H _]. by rewrite elem_of_jobnos in H.
  - apply IH. intros b'. specialize (H b'). rewrite jobnos_cons in H. cbn in H.
    destruct (decide (b = b')); [by apply NoDup_cons in H as [_ H]|done].
Qed.

Lemma obj_ok_nodup n o ns : obj_ok n o ns → NoDup ns.
Proof.
  destruct o as [[b|j]|]; cbn; [intros [Ho|[-> _]]|intros ->|intros ->];
    [apply Ho|apply NoDup_singleton..|constructor].
Qed.

(** C2: batch objects are neither leaked nor used after deletion, and no job is
    duplicated.  In every reachable state the queued and running jobs are
    pairwise distinct and refer to live objects, and every live object still has
    a queued or running job (its completion included): when nothing is queued
    or running, everything was deleted. *)
Theorem batches_accounted s :
  reachable s →
  NoDup (entries (proxy s)) ∧
  (∀ b n, (b, n) ∈ entries (proxy s) → is_Some (heap (proxy s) !! b)) ∧
  (∀ b, is_Some (heap (proxy s) !! b) → ∃ n, (b, n) ∈ entries (proxy s)).
Proof.
  intros Hr. destruct (reachable_ok s Hr) as [Hg _]. pose proof (ho_objs _ _ (g_heap _ _ _ Hg)) as Ho.
  split_and!.
  - apply jobnos_nodup. intros b. by eapply obj_ok_nodup.
  - intros b n Hin%elem_of_jobnos. specialize (Ho b). destruct (heap (proxy s) !! b); [done|].
    cbn in Ho. rewrite Ho in Hin. by apply not_elem_of_nil in Hin.
  - intros b [o Hb]. specialize (Ho b). rewrite Hb in Ho. setoid_rewrite <- elem_of_jobnos.
    destruct o as [bt|j]; cbn in Ho.
    + destruct Ho as [Ho|[-> _]]; [|by exists (-1)%Z; left].
      pose proof (bo_some _ _ _ Ho). destruct (jobnos b _) as [|n ns]; [done|]. exists n. left.
    + rewrite Ho. exists 0%Z. left.
Qed.

(** C27: squelched timers.  In every reachable state the [running] flag of a
    timer is set exactly while a batch of that timer exists, and there is at most
    one such batch: a squelched timer is neither queued twice nor stuck. *)
Theorem timer_squelched s t :
  reachable s →
  ((∃ d, timer_jobs (proxy s) !! t = Some d ∧ timer_running d = true) ↔
   (∃ b o, heap (proxy s) !! b = Some o ∧ timer_of o = Some t)) ∧
  (∀ b b' o o', heap (proxy s) !! b = Some o → heap (proxy s) !! b' = Some o' →
     timer_of o = Some t → timer_of o' = Some t → b = b').
Proof.
  intros Hr. destruct (reachable_ok s Hr) as [Hg _]. pose proof (g_heap _ _ _ Hg) as [_ _ H3 H4 _].
  split; [by rewrite H4|]. eauto.
Qed.
End events.

(** * A sample system *)

Definition sample_eval : TaskEval := λ _, Ret [].

(** One general worker, one worker reserved for category ["c"], no others, and a
    tagged thread. *)
Definition sample_setup : list setup :=
  [SetGeneral 1; SetBatch 0; SetReply 0; AddTagged (B "helper");
   Register (AddCategory (B "c") Access_default 1 200)].

Lemma sample_setup_ok p : setups_ok p sample_setup.
Proof. cbn [setups_ok sample_setup]. repeat (split; [done || (cbn; lia)|intros ? _]); done. Qed.

Definition sample_system : outcome system :=
  p ← run_setups (pool_new 8) sample_setup; system_start p.

(** A batch job on the general worker, a task on the reserved one, a squelched
    timer on the tagged thread. *)
Definition sample_events : list event :=
  [EvBatch (OJob (mk_job (TUser 1) 0)); EvQueue; EvInject (B "c") (B "task") [] 7;
   EvTimerAdd 1 9 true 1 5; EvTimer 5; EvQueue; EvTimer 5; EvInject (B "c") (B "task2") [] 8].

Definition sample_state (k : nat) : outcome system :=
  s ← sample_system; execute (E := sample_eval) s (take k sample_events).

(** A sufficient test for the events of the sample. *)
Definition event_okb (p : pool) (e : event) : bool :=
  match e with
  | EvBatch (OJob j) => (job_thread j =? 0)%Z
  | EvInject cat _ _ _ => bool_decide (is_Some (the_category p cat))
  | EvTimerAdd _ _ _ th z =>
      negb (z =? -1)%Z && bool_decide (timer_jobs p !! z = None) && (0 <=? th)%Z &&
      (th <=? Z.of_nat (length (tagged_workers p)))%Z
  | EvReply _ | EvTimerDel _ | EvTimer _ | EvQueue => true
  | EvTurn tg wid | EvRan tg wid => (0 <? wid)%Z
  | _ => false
  end.

Lemma event_okb_spec p e : event_okb p e = true → event_ok p e.
Proof.
  destruct e as [[]| | | | | | | | | | | |]; cbn; try done; intros H; bool_cases; unfold thread_ok.
  - split; [lia|done].
  - done.
  - split; [done|]. split; [done|]. right. lia.
  - split; [lia|done].
  - split; [lia|done].
Qed.

Fixpoint run_checked (s : system) (es : list event) : option system :=
  match es with
  | [] => Some s
  | e :: es =>
      if event_okb (proxy s) e then
        match step (E := sample_eval) s e with Ret s' => run_checked s' es | _ => None end
      else None
  end.

Lemma run_checked_reachable es s s' :
  reachable (E := sample_eval) s → run_checked s es = Some s' → reachable (E := sample_eval) s'.
Proof.
  revert s. induction es as [|e es IH]; intros s Hr; cbn [run_checked]; [by intros [= <-]|].
  destruct (event_okb (proxy s) e) eqn:He; [|done]. apply event_okb_spec in He.
  destruct (step s e) as [s1| |] eqn:Hs; try done. intros H. eapply IH; [|done]. by eapply reach_step.
Qed.

(** The state after all events of the sample. *)
Definition sample_final : option system :=
  match sample_system with Ret s => run_checked s sample_events | _ => None end.

Lemma checked_reachable es s :
  match sample_system with Ret s0 => run_checked s0 es | _ => None end = Some s → reachable (E := sample_eval) s.
Proof.
  unfold sample_system. intros H.
  destruct (run_setups (pool_new 8) sample_setup) as [p| |] eqn:Hp; try done.
  cbn [mbind outcome_bind] in H. destruct (system_start p) as [s0| |] eqn:Hs; try done.
  eapply run_checked_reachable; [|exact H]. apply (reach_start 8 sample_setup p); [apply sample_setup_ok|exact Hp| |exact Hs].
  vm_compute in Hp. injection Hp as <-. split; vm_compute; done.
Qed.
Lemma sample_reachable s : sample_final = Some s → reachable (E := sample_eval) s.
Proof. apply checked_reachable. Qed.

Lemma sample_returns : ∀ f, eval_task (TaskEval := sample_eval) f ≠ Undef.
Proof. done. Qed.

Lemma sample_exists : ∃ s, sample_final = Some s.
Proof. destruct sample_final as [s|] eqn:H; [by exists s|]. vm_compute in H. discriminate H. Qed.

Lemma system_defined_witness :
  ∃ s s', sample_final = Some s ∧ step (E := sample_eval) s EvQueue = Ret s' ∧
    length (workers (proxy s')) ≤ workers_capacity (proxy s').
Proof.
  destruct sample_exists as [s Hs].
  destruct (system_defined (E := sample_eval) sample_returns s EvQueue (sample_reachable s Hs) I) as (s' & H1 & H2).
  exists s, s'. exact (conj Hs (conj H1 H2)).
Defined.

Lemma reservations_honoured_witness :
  ∃ s, sample_final = Some s ∧ active (proxy s) SBatch = held SBatch (busy (proxy s)) ∧
    (active_workers (proxy s) ≤ max_workers (proxy s))%Z.
Proof.
  destruct sample_exists as [s Hs]. exists s. split; [exact Hs|].
  destruct (reservations_honoured (E := sample_eval) sample_returns s SBatch (sample_reachable s Hs)) as (H1 & H2 & _).
  - apply (jobs_slot_known false).
  - exact (conj H1 H2).
Defined.

Lemma process_queue_complete_witness :
  ∃ s q, sample_final = Some s ∧ proxy_process_queue (proxy s) = Ret q ∧
    ∀ pc, pc ∈ pending_commands q → slot_full q (SCat (pc_cat pc)).
Proof.
  destruct sample_exists as [s Hs].
  destruct (process_queue_complete (E := sample_eval) sample_returns s (sample_reachable s Hs)) as (q & H1 & _ & _ & _ & H2 & _).
  exists s, q. exact (conj Hs (conj H1 H2)).
Defined.

Lemma batches_accounted_witness :
  ∃ s, sample_final = Some s ∧ NoDup (entries (proxy s)).
Proof.
  destruct sample_exists as [s Hs]. exists s. split; [exact Hs|].
  apply (batches_accounted (E := sample_eval) sample_returns s (sample_reachable s Hs)).
Defined.

Lemma timer_squelched_witness :
  ∃ s, sample_final = Some s ∧
    ((∃ d, timer_jobs (proxy s) !! 5%Z = Some d ∧ timer_running d = true) ↔
     (∃ b o, heap (proxy s) !! b = Some o ∧ timer_of o = Some 5%Z)).
Proof.
  destruct sample_exists as [s Hs]. exists s. split; [exact Hs|].
  apply (timer_squelched (E := sample_eval) sample_returns s 5 (sample_reachable s Hs)).
Defined.
