(* ===== verification/PoolLive.v ===== *)
(** * PoolLive: the pool does not get stuck

    A measure of the work the proxy has accepted and not finished.  Running the
    queues and the jobs keeps it, every RAN decreases it, and while it is not zero
    a worker is busy after [proxy_process_queue]: from every reachable state the
    workers finish everything that was accepted. *)
From S2P Require Import Prelude Bytes Auth ConnId Commands Batch Pool PoolSlots Threads PoolInv PoolSteps PoolSafe.
Open Scope Z_scope.
Open Scope nat_scope.

(** * Sums over maps *)

Section map_sum.
Context {K A : Type} `{Countable K}.
Implicit Types m : gmap K A.

Definition map_sum (f : A → nat) m : nat := map_fold (λ _ x n, f x + n) 0 m.

Lemma map_sum_insert f m i x : m !! i = None → map_sum f (<[ i := x ]> m) = f x + map_sum f m.
Proof. intros Hi. unfold map_sum. rewrite map_fold_insert_L; [done| |done]. intros. lia. Qed.

Lemma map_sum_delete f m i x : m !! i = Some x → map_sum f m = f x + map_sum f (delete i m).
Proof. intros Hi. rewrite <- map_sum_insert with (i := i) by apply lookup_delete_eq. by rewrite insert_delete_id. Qed.

Lemma map_sum_update f m i x y :
  m !! i = Some x → map_sum f (<[ i := y ]> m) + f x = map_sum f m + f y.
Proof.
  intros Hi. rewrite (map_sum_delete f m i x Hi), (map_sum_delete f _ i y) by apply lookup_insert_eq.
  rewrite delete_insert_eq. lia.
Qed.

Lemma map_sum_update_same f m i x y :
  m !! i = Some x → f y = f x → map_sum f (<[ i := y ]> m) = map_sum f m.
Proof. intros Hi Hf. pose proof (map_sum_update f m i x y Hi). lia. Qed.

Lemma map_sum_alter f m i g x :
  m !! i = Some x → map_sum f (alter g i m) + f x = map_sum f m + f (g x).
Proof.
  intros Hi. replace (alter g i m) with (<[ i := g x ]> m); [by apply map_sum_update|].
  apply map_eq. intros j. destruct (decide (i = j)) as [<-|Hne].
  - by rewrite lookup_insert_eq, lookup_alter_eq, Hi.
  - by rewrite lookup_insert_ne, lookup_alter_ne.
Qed.

Lemma map_sum_zero f m : (∀ i x, m !! i = Some x → f x = 0) → map_sum f m = 0.
Proof.
  induction m as [|i x m Hi IH] using map_ind; intros Hf; [done|].
  rewrite map_sum_insert, (Hf i x) by (done || apply lookup_insert_eq). apply IH.
  intros j y Hj. apply (Hf j). rewrite lookup_insert_ne; [done|congruence].
Qed.

Lemma map_sum_elem f m i x : m !! i = Some x → f x ≤ map_sum f m.
Proof. intros Hi. rewrite (map_sum_delete f m i x Hi). lia. Qed.
End map_sum.

(** * The work left *)

(** A job: until its RAN.  A batch: a RAN per outstanding job, and its end or the
    RAN of its completion function. *)
Definition obj_work (o : batch_obj) : nat :=
  match o with OJob _ => 1 | OBatch b => S (Z.to_nat (jobs_outstanding b)) end.
(** The commands and tasks of a category that run or wait. *)
Definition category_work (k : category) : nat := Z.to_nat (active_threads k + queued k).

Definition work (p : pool) : nat := map_sum obj_work (heap p) + map_sum category_work (categories (reg p)).

(** The work is a function of these two parts of the state. *)
Definition same_work (p q : pool) : Prop := heap q = heap p ∧ reg q = reg p.
#[export] Instance same_work_preorder : PreOrder same_work.
Proof. split; [done|]. intros p q r [] []. split; congruence. Qed.
Lemma same_work_eq p q : same_work p q → work q = work p.
Proof. unfold work. by intros [-> ->]. Qed.

Lemma run_on_idle_same p f q : run_on_idle p f = Ret q → same_work p q.
Proof.
  unfold run_on_idle, get_idle_worker. intros H. inv_bind H. destruct a as [p1 id].
  assert (same_work p p1) as Hp by (repeat case_match; by simplify_eq).
  destruct (workers p1 !! id); [|done]. destruct (proxy_run_worker _). simplify_eq. exact Hp.
Qed.

Lemma run_batch_jobs_same queue reply p q : run_batch_jobs queue reply p = Ret q → same_work p q.
Proof.
  revert p. induction queue as [|job queue IH]; intros p; cbn [run_batch_jobs]; [by intros [= <-]|].
  destruct (_ && _); [|by intros [= <-]]. intros H. inv_bind H. apply IH in H. apply run_on_idle_same in E.
  etrans; [exact E|]. etrans; [|exact H]. by destruct reply.
Qed.

Lemma process_tagged_same p : same_work p (process_tagged p).
Proof.
  unfold process_tagged. generalize (seq 0 (length (tagged_workers p))) as l. intros l. revert p.
  induction l as [|i l IH]; intros p; [done|]. cbn [foldl]. etrans; [|apply IH].
  unfold run_tagged. destruct (tagged_workers p !! i) as [[[r []] [|job q]]|]; try done. by destruct (proxy_run_worker _).
Qed.

(** Starting a pending command moves it from [queued] to [active_threads]. *)
Lemma process_pending_work after before p q : process_pending before after p = Ret q → work q = work p.
Proof.
  revert before p. induction after as [|pc after IH]; intros before p; cbn [process_pending]; [by intros [= <-]|].
  destruct (active_workers p <? max_workers p)%Z; [|by intros [= <-]].
  destruct (the_category p (pc_cat pc)) as [c|] eqn:Hc; [|done].
  destruct (slot_free p c); [|apply IH]. intros H. inv_bind H. destruct (queued c - 1 <? 0)%Z; [done|].
  apply IH in H. rewrite H. apply run_on_idle_same in E. destruct E as [Eh Er]. unfold work. cbn. rewrite Eh, Er.
  unfold the_category in Hc. f_equal.
  match goal with |- map_sum _ (alter ?g _ _) = _ => pose proof (map_sum_alter category_work _ _ g c Hc) as Hs end.
  unfold category_work in Hs at 2 4. cbn in Hs. lia.
Qed.

Lemma process_queue_work p q : proxy_process_queue p = Ret q → work q = work p.
Proof.
  unfold proxy_process_queue. destruct (max_workers p =? 0)%Z; [by intros [= <-]|]. cbv zeta. intros H.
  inv_bind H. inv_bind H. apply process_pending_work in H. rewrite H. apply same_work_eq.
  apply run_batch_jobs_same in E, E0. etrans; [apply process_tagged_same|]. by etrans.
Qed.

(** * Running jobs *)

Section live.
Context {E : TaskEval}.

Lemma run_job_work (o o' : batch_obj) i : run_job o i = Ret o' → obj_work o' = obj_work o.
Proof.
  destruct o as [b|j]; cbn.
  - unfold batch_run_job. intros H. destruct (jobs b !! i) as [[f th]|], (results b !! i) as [r|]; try done.
    destruct (eval_task f); cbn in H; by simplify_eq.
  - destruct (eval_task (job_task j)); cbn; intros; by simplify_eq.
Qed.

Lemma job_completion_work (o o' : batch_obj) c : job_completion o = Ret (o', c) → obj_work o' = obj_work o.
Proof.
  destruct o as [b|j]; cbn; [|by intros [= <- _]].
  unfold batch_job_completion. destruct (complete_fn b); cbn; intros; by simplify_eq.
Qed.

Lemma run_completion_work b p q :
  run_completion b p = Ret q → reg q = reg p ∧ dom (heap q) = dom (heap p) ∧
  map_sum obj_work (heap q) = map_sum obj_work (heap p).
Proof.
  unfold run_completion. destruct (heap p !! b) as [o|] eqn:Hb; [|done]. intros H. inv_bind H.
  destruct a as [o' c]. apply job_completion_work in E0. injection H as <-.
  assert (heap (call_completion c (p <| heap ::= <[ b := o' ]> |>)) = <[ b := o' ]> (heap p)) as ->
    by (by destruct c as [[[] ?]|]).
  split; [by destruct c as [[[] ?]|]|]. split; [|by eapply map_sum_update_same].
  rewrite dom_insert_L. apply elem_of_dom_2 in Hb. set_solver.
Qed.

Lemma worker_turn_work tag run p q i : worker_turn tag run p = Ret (q, i) → work q = work p.
Proof.
  unfold worker_turn, work. destruct (is_batch_job run).
  2: { destruct (worker_invocation tag run); intros; by simplify_eq. }
  destruct (to_run run) as [e|b|f]; try (intros; by simplify_eq).
  destruct (heap p !! b) as [o|] eqn:Hb; [|done]. destruct (0 <=? batch_jobno run)%Z.
  - intros H. inv_bind H. apply run_job_work in E0. simplify_eq. cbn. f_equal. by eapply map_sum_update_same.
  - destruct (batch_jobno run =? -1)%Z; [|intros; by simplify_eq]. intros H. inv_bind H. simplify_eq.
    apply run_completion_work in E0 as (-> & _ & ->). done.
Qed.

(** * RAN *)

(** The two parts of [work], the second not larger. *)
Definition less_work (p q : pool) : Prop :=
  reg q = reg p ∧ map_sum obj_work (heap q) < map_sum obj_work (heap p).
Definition no_more_work (p q : pool) : Prop :=
  reg q = reg p ∧ map_sum obj_work (heap q) ≤ map_sum obj_work (heap p).

Lemma less_then p q r : less_work p q → no_more_work q r → less_work p r.
Proof. intros [? ?] [? ?]. split; [congruence|lia]. Qed.
Lemma then_less p q r : no_more_work p q → less_work q r → less_work p r.
Proof. intros [? ?] [? ?]. split; [congruence|lia]. Qed.
Lemma less_no_more p q : less_work p q → no_more_work p q.
Proof. intros [? ?]. split; [done|lia]. Qed.
Lemma same_no_more p q : same_work p q → no_more_work p q.
Proof. intros [H ?]. split; [done|]. by rewrite H. Qed.

Lemma delete_batch_work b p q : delete_batch b p = Ret q → less_work p q.
Proof.
  unfold delete_batch. destruct (heap p !! b) as [o|] eqn:Hb; [|done]. intros [= <-]. split; [done|].
  cbn. rewrite (map_sum_delete _ _ _ _ Hb). destruct o; cbn; lia.
Qed.

Lemma enqueue_same t reply bj p q : enqueue t reply bj p = Ret q → same_work p q.
Proof.
  unfold enqueue, set_jobs. destruct (0 <? t)%Z; [|destruct reply; by intros [= <-]].
  destruct (tagged_workers p !! _) as [[[r b] l]|]; [|done]. by intros [= <-].
Qed.

(** A batch with outstanding jobs. *)
Definition finishable (o : batch_obj) (run : run_info) : Prop :=
  match o with
  | OBatch bt => batch_jobno run ≠ (-1)%Z → (0 < jobs_outstanding bt < 2 ^ 64)%Z
  | OJob _ => True
  end.

(** What [batch_finished] does to the object, before the status is acted on. *)
Lemma job_finished_work (o : batch_obj) run :
  finishable o run → batch_jobno run ≠ (-1)%Z →
  obj_work (fst (job_finished o)) < obj_work o ∨
  (fst (job_finished o) = o ∧ state (snd (job_finished o)) = done).
Proof.
  destruct o as [bt|j]; intros Hf Hn; [left|by right]. specialize (Hf Hn).
  change (S (Z.to_nat ((jobs_outstanding bt - 1) mod 2 ^ 64)) < S (Z.to_nat (jobs_outstanding bt))).
  rewrite Z.mod_small by lia. lia.
Qed.

Lemma batch_finished_work b reply p q clear o run :
  heap p !! b = Some o → finishable o run → batch_jobno run ≠ (-1)%Z →
  batch_finished b reply p = Ret (q, clear) →
  less_work p q ∨ (no_more_work p q ∧ clear = true).
Proof.
  intros Hb Hf Hn. unfold batch_finished. rewrite Hb. pose proof (job_finished_work o run Hf Hn) as Hw.
  destruct (job_finished o) as [o1 st]. cbn [fst snd] in Hw. set (p1 := p <| heap ::= _ |>).
  assert (heap p1 = <[ b := o1 ]> (heap p)) as Hh by done.
  pose proof (map_sum_update obj_work (heap p) b o o1 Hb) as Hs. rewrite <- Hh in Hs.
  destruct Hw as [Hw|[-> Hd]].
  - assert (less_work p p1) as H1 by (split; [done|lia]). intros H. left. eapply less_then; [exact H1|].
    destruct (state st).
    + by simplify_eq.
    + destruct (thread st =? -1)%Z; inv_bind H; simplify_eq.
      * apply run_completion_work in E0 as (? & _ & ?). split; [done|lia].
      * apply same_no_more. by eapply enqueue_same.
    + by simplify_eq.
  - rewrite Hd. intros [= <- <-]. right. split; [|done]. split; [done|lia].
Qed.

Lemma finish_work b run p q o :
  heap p !! b = Some o → finishable o run → finish b run p = Ret q → less_work p q.
Proof.
  intros Hb Hf. unfold finish, batch_returned. destruct (Z.eqb_spec (batch_jobno run) (-1)) as [|Hn].
  - cbn [mbind outcome_bind]. apply delete_batch_work.
  - intros H. inv_bind H. destruct a as [p1 clear].
    destruct (batch_finished_work b _ p p1 clear o run Hb Hf Hn E0) as [Hl|[Hl ->]].
    + destruct clear; [|by simplify_eq]. eapply less_then; [exact Hl|]. by apply less_no_more, (delete_batch_work b).
    + eapply then_less; [exact Hl|]. by eapply delete_batch_work.
Qed.

Lemma release_slot_same tg wid reply p q : release_slot tg wid reply p = Ret q → same_work p q.
Proof.
  unfold release_slot, add_active. destruct tg; [by intros [= <-]|]. destruct (_ <=? _)%Z; [done|].
  destruct reply; by intros [= <-].
Qed.
Lemma park_worker_same tg wid route p q : park_worker tg wid route p = Ret q → same_work p q.
Proof. unfold park_worker. repeat case_match; intros; by simplify_eq. Qed.

Lemma running_finishable p ts r b :
  steady p ts → r ∈ running_jobs p → is_batch_job r = true → to_run r = RBatch b →
  ∃ o, heap p !! b = Some o ∧ finishable o r.
Proof.
  intros Hg Hr Hbj Hb.
  assert ((b, batch_jobno r) ∈ entries p) as Hin.
  { eapply entry_of_run; [done|]. unfold run_entry. by rewrite Hbj, Hb. }
  destruct (entry_object p b _ (g_heap _ _ _ Hg) Hin) as [(j & Hj & _)|[(bt & Hbt & _ & _ & Ho)|(bt & c & Hbt & Hn & _)]].
  - by exists (OJob j).
  - exists (OBatch bt). split; [done|]. intros _. pose proof (bo_count _ _ _ Ho). pose proof (bo_fits _ _ _ Ho).
    pose proof (bo_some _ _ _ Ho) as Hs. destruct (jobnos b (entries p)); [done|]. cbn in *. lia.
  - exists (OBatch bt). by split.
Qed.

Lemma ran_command_work p ts r q : steady p ts → ran_command r p = Ret q → work q < work p.
Proof.
  intros Hg. unfold ran_command. destruct (the_category p (run_cat r)) as [c|] eqn:Hc; [|done].
  destruct (Z.leb_spec (active_threads c) 0); [done|]. intros [= <-].
  pose proof (qo_queued _ _ (g_queue _ _ _ Hg) _ _ Hc) as Hq.
  pose proof (pending_of_nonneg (run_cat r) (pending_commands p)). unfold the_category in Hc. unfold work. cbn.
  match goal with |- context [alter ?g _ _] => pose proof (map_sum_alter category_work _ _ g c Hc) as Hs end.
  unfold category_work in Hs at 2 4. cbn in Hs. lia.
Qed.

(** Every RAN is progress. *)
Lemma ran_work p ts tg wid t q :
  steady p ts → sent p = [] → (0 ≤ wid)%Z → (tg = true → 0 < wid)%Z →
  the_thread tg wid ts = Some t → wt_status t = Ran →
  proxy_worker_message [routing_id tg wid; B "RAN"] p = Ret q → work q < work p.
Proof.
  intros Hg Hsent H0 Hpos Ht Hst. destruct (steady_threads _ _ tg wid t Hg Hsent Ht) as [_ Hin].
  specialize (Hin ltac:(congruence) Hpos).
  assert (is_Some (the_run tg wid p) ∧ (0 ≤ wid < 2 ^ 32)%Z) as [[r Hr] Hw].
  { pose proof Hg as [_ _ _ _ _ (ts' & Hd & [Hl1 _ Htl _]) [_ Hn]]. rewrite Hsent in Hd. injection Hd as <-.
    unfold the_thread in Ht. unfold the_run. destruct tg; apply lookup_lt_Some in Ht.
    - rewrite fmap_is_Some, lookup_lt_is_Some. specialize (Hpos eq_refl). lia.
    - rewrite lookup_lt_is_Some. pose proof (worker_fits _ _ _ (Z.to_nat wid) Hg). lia. }
  unfold proxy_worker_message. rewrite route_worker_id, Hr, bool_decide_true by (done || by eexists).
  specialize (Hin r Hr). pose proof (g_runs _ _ _ Hg r Hin) as Hok. unfold run_ok in Hok. intros H. inv_bind H.
  apply park_worker_same in H. rewrite (same_work_eq _ _ H). clear H. destruct (is_batch_job r) eqn:Hbj.
  - destruct Hok as [b Hb]. destruct (running_finishable p ts r b Hg Hin Hbj Hb) as (o & Ho & Hf).
    rewrite (ran_batch_finish _ _ _ _ _ Hb) in E0. inv_bind E0. apply release_slot_same in E1 as [Eh Er].
    rewrite <- Eh in Ho. destruct (finish_work b r _ _ o Ho Hf E0) as [Er' Hlt].
    unfold work. rewrite Er', Er, <- Eh. lia.
  - by eapply ran_command_work.
Qed.

(** * No deadlock *)

(** Nothing is queued, nothing runs, every object was deleted. *)
Record drained (p : pool) : Prop := {
  dr_queues : batch_jobs p = [] ∧ reply_jobs p = [] ∧ pending_commands p = [];
  dr_tagged : ∀ i r b q, tagged_workers p !! i = Some (r, b, q) → b = false ∧ q = [];
  dr_heap : heap p = ∅;
  dr_running : running_jobs p = [];
}.

(** When the queues were processed and nothing runs, nothing is left. *)
Lemma served_drained p ts :
  steady p ts → running_jobs p = [] → (∀ i, tagged_served p i) →
  (batch_jobs p = [] ∨ slot_full p SBatch) → (reply_jobs p = [] ∨ slot_full p SReply) →
  (∀ pc, pc ∈ pending_commands p → slot_full p (SCat (pc_cat pc))) → drained p.
Proof.
  intros Hg Hrun Hserved Hb Hr Hp.
  pose proof Hrun as Hrun'. unfold running_jobs in Hrun'. apply app_eq_nil in Hrun' as [Hbusy Htag].
  assert (∀ k, ¬ slot_full p k) as Hfull.
  { intros k [_ Hge]. pose proof (g_pool _ _ _ Hg) as [Hi Hs _]. rewrite active_workers_busy, Hbusy in Hge by done.
    pose proof (si_general _ _ _ _ _ _ Hs). cbn in Hge. lia. }
  assert (∀ i r b q, tagged_workers p !! i = Some (r, b, q) → b = false ∧ q = []) as Htw.
  { intros i r b q Hi. assert (b = false) as ->.
    { destruct b; [|done]. exfalso. apply (not_elem_of_nil r). rewrite <- Htag. apply list_elem_of_omap.
      exists (r, true, q). split; [by eapply list_elem_of_lookup_2|done]. }
    by destruct (Hserved i r false q Hi). }
  assert (batch_jobs p = []) as Hb' by (destruct Hb as [?|[]%Hfull]; done).
  assert (reply_jobs p = []) as Hr' by (destruct Hr as [?|[]%Hfull]; done).
  assert (entries p = []) as He.
  { apply elem_of_nil_inv. intros e. unfold entries. rewrite Hb', Hr', Hrun. cbn. rewrite app_nil_r, list_elem_of_join.
    intros (l & Hin & Hl). apply list_elem_of_fmap in Hl as ([[r b] q] & -> & [i Hi]%list_elem_of_lookup). cbn in Hin.
    destruct (Htw i r b q Hi) as [_ ->]. by apply not_elem_of_nil in Hin. }
  split; try done.
  - split; [done|]. split; [done|]. apply elem_of_nil_inv. by intros pc ?%Hp%Hfull.
  - apply map_empty. intros b. pose proof (ho_objs _ _ (g_heap _ _ _ Hg) b) as Ho. rewrite He in Ho.
    destruct (heap p !! b) as [[bt|j]|]; [|done|done]. destruct Ho as [Ho|[? _]]; [|done]. by destruct (bo_some _ _ _ Ho).
Qed.

(** A worker that has a job is running it or has sent RAN. *)
Lemma busy_thread p ts :
  steady p ts → sent p = [] → running_jobs p ≠ [] →
  ∃ tg wid t, (0 ≤ wid)%Z ∧ (tg = true → 0 < wid)%Z ∧ the_thread tg wid ts = Some t ∧
    (wt_status t = Running ∨ wt_status t = Ran).
Proof.
  intros Hg Hsent Hne. destruct (running_jobs p) as [|r l] eqn:Hr; [done|].
  assert (r ∈ running_jobs p) as Hin by (rewrite Hr; left). clear Hr.
  pose proof Hg as [_ _ _ _ _ (ts' & Hd & [Hl Hs Htl Hts]) _]. rewrite Hsent in Hd. injection Hd as <-.
  unfold running_jobs in Hin. apply elem_of_app in Hin as [(i & Hi & Hw)%elem_of_busy|Hin].
  - destruct (lookup_lt_is_Some_2 (regular ts) i) as [t Ht]; [rewrite Hl; by eapply lookup_lt_Some|].
    exists false, (Z.of_nat i), t. cbn. rewrite Nat2Z.id. split_and!; [lia|done|done|].
    by destruct (Hs i t Ht) as [[? _]|[_ ?]].
  - apply list_elem_of_omap in Hin as ([[r' b] q] & (i & Hi)%list_elem_of_lookup & Hrun). cbn in Hrun.
    destruct b; [|done]. destruct (lookup_lt_is_Some_2 (tagged ts) i) as [t Ht]; [rewrite Htl; by eapply lookup_lt_Some|].
    exists true, (Z.of_nat i + 1)%Z, t. cbn. replace (Z.to_nat (Z.of_nat i + 1 - 1)) with i by lia.
    split_and!; [lia|lia|done|]. by destruct (Hts i t _ Ht Hi) as [[? _]|[_ ?]].
Qed.

(** * Schedules of the workers alone *)

Hypothesis tasks_return : ∀ f, eval_task f ≠ Undef.

(** The queue run of the proxy loop, a worker's turn and its RAN. *)
Definition worker_event (e : event) : Prop :=
  match e with
  | EvQueue => True
  | EvTurn tg wid | EvRan tg wid => (0 ≤ wid)%Z ∧ (tg = true → 0 < wid)%Z
  | _ => False
  end.

Lemma queue_cycle s :
  system_ok s →
  ∃ s', step s EvQueue = Ret s' ∧ system_ok s' ∧ work (proxy s') = work (proxy s) ∧
    (running_jobs (proxy s') = [] → drained (proxy s')).
Proof using.
  intros [Hg _]. cbn [step].
  destruct (process_queue_good (proxy s) (wthreads s) Hg) as (q & Hq & Hgq & Hserved & Hb & Hr & Hp & _).
  destruct (on_proxy_ok s _ q Hq Hgq) as (s' & Hs & Hok & Hpx). exists s'. split_and!; try done.
  - rewrite Hpx. exact (process_queue_work _ _ Hq).
  - rewrite Hpx. intros Hrun. by destruct (served_drained q (wthreads s) Hgq Hrun Hserved Hb Hr Hp); split.
Qed.

(** The turn, if the job has not run yet. *)
Lemma turn_cycle s tg wid t :
  system_ok s → (tg = true → 0 < wid)%Z → the_thread tg wid (wthreads s) = Some t →
  wt_status t = Running ∨ wt_status t = Ran →
  ∃ s' t', turn tg wid s = Ret s' ∧ system_ok s' ∧ work (proxy s') = work (proxy s) ∧
    the_thread tg wid (wthreads s') = Some t' ∧ wt_status t' = Ran.
Proof using tasks_return.
  intros Hok Hpos Ht Hst. destruct (turn_ok tasks_return s tg wid Hok Hpos) as (s' & Hs & Hok').
  pose proof Hok as [Hg Hsent]. unfold turn in *. rewrite Ht in *.
  assert (is_Some (the_run tg wid (proxy s))) as [r Hr].
  { pose proof Hg as [_ _ _ _ _ (ts' & Hd & [Hl1 _ Htl _]) _]. rewrite Hsent in Hd. injection Hd as <-.
    unfold the_thread in Ht. unfold the_run. destruct tg; apply lookup_lt_Some in Ht.
    - rewrite fmap_is_Some, lookup_lt_is_Some. lia.
    - rewrite lookup_lt_is_Some. lia. }
  rewrite Hr in *. destruct (decide (wt_status t = Running)) as [Hrun|Hrun].
  - inv_bind Hs. destruct a as [q i]. rewrite E0. cbn [mbind outcome_bind]. simplify_eq.
    eexists _, (mk_thread Ran _). split; [done|]. split; [done|]. split; [by eapply worker_turn_work|]. cbn.
    unfold set_thread, the_thread in *. split; [|done].
    destruct tg; cbn; apply list_lookup_insert_eq; by eapply lookup_lt_Some.
  - exists s, t. split_and!; try done. by destruct Hst.
Qed.

Lemma ran_cycle s tg wid t :
  system_ok s → (0 ≤ wid)%Z → (tg = true → 0 < wid)%Z → the_thread tg wid (wthreads s) = Some t →
  wt_status t = Ran →
  ∃ s', step s (EvRan tg wid) = Ret s' ∧ system_ok s' ∧ work (proxy s') < work (proxy s).
Proof using.
  intros [Hg Hsent] H0 Hpos Ht Hst. cbn [step]. unfold worker_message. rewrite Ht, decide_True by done.
  destruct (ran_good (proxy s) (wthreads s) tg wid t) as (q & r & Hq & Hgq & _); try done.
  set (s1 := s <| wthreads ::= _ |>). change (steady q (wthreads s1)) in Hgq.
  destruct (on_proxy_ok s1 _ q Hq Hgq) as (s' & Hs & Hok & Hpx). exists s'. split; [done|]. split; [done|].
  rewrite Hpx. exact (ran_work (proxy s) (wthreads s) tg wid t q Hg Hsent H0 Hpos Ht Hst Hq).
Qed.

Lemma drain n s : system_ok s → work (proxy s) ≤ n →
  ∃ es s', Forall worker_event es ∧ length es ≤ 3 * n + 1 ∧ execute s es = Ret s' ∧ drained (proxy s').
Proof using tasks_return.
  revert s. induction n as [|n IH]; intros s Hok Hn;
    destruct (queue_cycle s Hok) as (s1 & Hs1 & Hok1 & Hw1 & Hd);
    (destruct (decide (length (running_jobs (proxy s1)) = 0)) as [Hrun%length_zero_iff_nil|Hrun];
      [exists [EvQueue], s1; cbn [execute]; rewrite Hs1; split_and!; [by repeat constructor|cbn; lia|done|by apply Hd]|]);
    pose proof Hok1 as [Hg1 Hsent1];
    (destruct (busy_thread _ _ Hg1 Hsent1) as (tg & wid & t & H0 & Hpos & Ht & Hst); [by intros Hx; rewrite Hx in Hrun|]);
    destruct (turn_cycle s1 tg wid t Hok1 Hpos Ht Hst) as (s2 & t2 & Hs2 & Hok2 & Hw2 & Ht2 & Hst2);
    destruct (ran_cycle s2 tg wid t2 Hok2 H0 Hpos Ht2 Hst2) as (s3 & Hs3 & Hok3 & Hw3); [lia|].
  destruct (IH s3 Hok3 ltac:(lia)) as (es & s' & Hes & Hlen & Hx & Hdr).
  exists (EvQueue :: EvTurn tg wid :: EvRan tg wid :: es), s'. split_and!.
  - by repeat constructor.
  - cbn [length]. lia.
  - cbn [execute]. rewrite Hs1. cbn [mbind outcome_bind]. change (step s1 (EvTurn tg wid)) with (turn tg wid s1).
    rewrite Hs2. cbn [mbind outcome_bind]. rewrite Hs3. exact Hx.
  - done.
Qed.

(** No job is ever stuck.  From every reachable state, however the queues, the
    reservations and the workers stand, a schedule of only the proxy's queue runs
    and the workers' own turns finishes everything that was accepted: no batch or
    reply job, tagged job, completion function or pending command is left, no
    worker is busy and every batch object was deleted.  Its length is at most
    three steps per unit of outstanding work. *)
Theorem work_drains s :
  reachable s →
  ∃ es s', Forall worker_event es ∧ length es ≤ 3 * work (proxy s) + 1 ∧
    execute s es = Ret s' ∧ drained (proxy s').
Proof using tasks_return. intros Hr. apply drain; [by apply reachable_ok|done]. Qed.
End live.

Lemma work_drains_witness :
  ∃ s es s', sample_final = Some s ∧ Forall worker_event es ∧
    execute (E := sample_eval) s es = Ret s' ∧ drained (proxy s').
Proof.
  destruct sample_exists as [s Hs].
  destruct (work_drains (E := sample_eval) sample_returns s (sample_reachable s Hs)) as (es & s' & H1 & _ & H2 & H3).
  exists s, es, s'. exact (conj Hs (conj H1 (conj H2 H3))).
Defined.
