(* ===== verification/PoolRuns.v ===== *)
(** * PoolRuns: everything accepted is run exactly once

    An abstract view of the scheduler: a bag of work items.  A job, a command or an
    injected task enters the bag when the proxy accepts it and leaves it when a
    worker calls its function.  The queues, the run slots, the handshake between the
    proxy and its threads and the batch objects only move items about: none is lost,
    none is run twice and nothing else is run. *)
From S2P Require Import Prelude Bytes Auth ConnId Commands Batch Pool PoolSlots Threads PoolInv PoolSteps PoolSafe PoolLive.
Open Scope Z_scope.
Open Scope nat_scope.

(** * Work items *)

Inductive work_item :=
  | WJob (f : task)
  | WCall (cb : command_entry) (conn : ConnectionID) (acc : Access) (remote : bytes) (data : list bytes)
  | WTask (f : callback).

(** What a worker called.  The data parts of a request begin with its reply tag. *)
Definition call_item (i : invocation) : work_item :=
  match i with
  | InvokeJob f => WJob f
  | InvokeCommand cb m =>
      WCall cb (msg_conn m) (msg_access m) (msg_remote m) ((if snd cb then [reply_tag m] else []) ++ msg_data m)
  | InvokeTask f => WTask f
  end.

Definition pending_item (pc : pending_command) : work_item :=
  match pc_callback pc with
  | PCommand e => WCall e (pc_conn pc) (pc_access pc) (pc_remote pc) (pc_data pc)
  | PInjected f => WTask f
  end.
(** The command or task of a loaded worker. *)
Definition command_item (r : run_info) : option work_item :=
  if is_batch_job r then None
  else match to_run r with
       | RCommand e => Some (WCall e (run_conn r) (run_access r) (run_remote r) (run_data r))
       | RFunc f => Some (WTask f)
       | RBatch _ => None
       end.
Definition entry_item (h : gmap ptr batch_obj) (e : batch_job) : option work_item := WJob <$> function_of h e.
Definition run_item (h : gmap ptr batch_obj) (r : run_info) : option work_item :=
  match run_entry r with Some e => entry_item h e | None => command_item r end.

Definition calls_of (p : pool) : list work_item :=
  (pending_item <$> pending_commands p) ++ omap command_item (running_jobs p).
(** Everything queued or with a worker. *)
Definition live (p : pool) : list work_item := omap (entry_item (heap p)) (entries p) ++ calls_of p.

(** * What is accepted *)

(** A command is refused when no slot is free and the queue of its category is full. *)
Definition accepts_command (cat : bytes) (p : pool) : bool :=
  match the_category p cat with Some c => slot_free p c || negb (queue_full c) | None => false end.

(** The jobs of an object. *)
Definition object_items (o : batch_obj) : list work_item :=
  WJob <$> match o with OBatch b => fst <$> jobs b | OJob j => [job_task j] end.

Definition accepts (p : pool) (e : event) : list work_item :=
  match e with
  | EvBatch o => object_items o
  | EvReply f => [WJob f]
  | EvInject cat _ _ f => if accepts_command cat p then [WTask f] else []
  | EvCommand cat _ data cb conn acc remote =>
      if accepts_command cat p then [WCall cb conn acc remote data] else []
  | EvTimer t =>
      match timer_jobs p !! t with
      | Some d =>
          if squelch d && timer_running d then []
          else if (timer_thread d =? -1)%Z then [] (* called in the proxy thread *)
          else [WJob (TUser (timer_function d))]
      | None => []
      end
  | _ => []
  end.

(** * Accounting *)

(** Workers that have a job keep it. *)
Definition keeps (p q : pool) : Prop := ∀ tg i r, busy_run tg i p = Some r → busy_run tg i q = Some r.
#[export] Instance keeps_preorder : PreOrder keeps.
Proof. split; [by intros p tg i r|]. intros p q r H1 H2 tg i x H. by apply H2, H1. Qed.

(** Nothing that [busy_run] reads changed. *)
#[local] Hint Extern 0 (keeps ?p _) => exact (reflexivity (R := keeps) p) : core.

(** From [p] to [q] the entries [es] and the calls [cs] were added. *)
Record account (p q : pool) (es : list batch_job) (cs : list work_item) : Prop := {
  ac_keeps : keeps p q;
  ac_functions : ∀ e, e ∈ entries p → function_of (heap q) e = function_of (heap p) e;
  ac_entries : entries q ≡ₚ es ++ entries p;
  ac_calls : calls_of q ≡ₚ cs ++ calls_of p;
}.

Lemma account_refl p : account p p [] [].
Proof. by split. Qed.
Lemma account_trans p q r es cs es' cs' :
  account p q es cs → account q r es' cs' → account p r (es' ++ es) (cs' ++ cs).
Proof.
  intros [K1 F1 E1 C1] [K2 F2 E2 C2]. split.
  - by etrans.
  - intros e He. rewrite F2, F1; [done|done|]. rewrite E1. apply elem_of_app. by right.
  - by rewrite E2, E1, app_assoc.
  - by rewrite C2, C1, app_assoc.
Qed.

Lemma items_same h h' (es : list batch_job) :
  (∀ e, e ∈ es → function_of h' e = function_of h e) → omap (entry_item h') es = omap (entry_item h) es.
Proof. intros H. apply omap_ext_in. intros e He. unfold entry_item. by rewrite H. Qed.

Lemma account_live p q es cs :
  account p q es cs → live q ≡ₚ omap (entry_item (heap q)) es ++ cs ++ live p.
Proof.
  intros [_ F E C]. unfold live. rewrite E, C, omap_app, (items_same _ _ _ F). solve_Permutation.
Qed.

(** ** Starting work *)

Lemma run_on_idle_launch p f q :
  idle_ok p → loads f → run_on_idle p f = Ret q → ∃ i r, launch p f q i r.
Proof.
  intros Ho Hf H. destruct (run_on_idle_spec p f Ho Hf) as (p' & i & r & Hr & Hl).
  - pose proof (active_workers_busy p Ho) as Ha. unfold active_workers in Ha.
    unfold run_on_idle, get_idle_worker in H. destruct (Nat.eqb_spec (idle_worker_count p) 0) as [Hc|Hc].
    + destruct (Nat.ltb_spec (length (workers p)) (workers_capacity p)); [lia|done].
    + pose proof (io_capacity _ Ho). pose proof (length_idle p Ho) as Hl. pose proof (io_nodup _ Ho) as Hnd.
      pose proof (nodup_bound _ _ Hnd (io_bound _ Ho)). lia.
  - rewrite H in Hr. injection Hr as <-. eauto.
Qed.

Lemma launch_keeps p f q i r : launch p f q i r → keeps p q.
Proof.
  intros Hl tg j x. destruct (la_rest _ _ _ _ _ Hl) as (ws & n & ms & Hq). unfold busy_run. destruct tg.
  { by rewrite Hq. }
  destruct (decide (j ∈ idle p)) as [|Hj]; [done|]. intros Hx.
  assert (j ≠ i) as Hne.
  { intros ->. destruct (la_sent _ _ _ _ _ Hl) as [(-> & _)|(? & _)]; [|done].
    apply lookup_lt_Some in Hx. lia. }
  rewrite decide_False by (rewrite (la_ix _ _ _ _ _ Hl); naive_solver). by rewrite (la_other _ _ _ _ _ Hl).
Qed.

(** The parts of the state the accounting reads. *)
Record view_same (p q : pool) : Prop := {
  vs_workers : workers q = workers p;
  vs_idle : idle q = idle p;
  vs_tagged : tagged_workers q = tagged_workers p;
}.
Lemma view_running p q : view_same p q → running_jobs q = running_jobs p ∧ ∀ tg i, busy_run tg i q = busy_run tg i p.
Proof.
  intros [H1 H2 H3]. unfold running_jobs, busy, busy_ix, busy_run. rewrite H1, H2, H3. done.
Qed.

Lemma frame_keeps p q : frame p q → keeps p q.
Proof.
  intros [Hs _ _ Ht _] tg i r. unfold busy_run. destruct tg; [by rewrite (tagged_run_frame p q i Ht)|].
  destruct (pool_same_busy _ _ Hs) as [_ ->]. by rewrite (ps_workers _ _ Hs).
Qed.
Lemma frame_calls p q : frame p q → pending_commands q = pending_commands p → calls_of q = calls_of p.
Proof. intros Hf Hp. unfold calls_of. by rewrite Hp, (frame_running _ _ Hf). Qed.
Lemma queued_account p q es : queued_more p q es → account p q es [].
Proof.
  intros [Hf Hh _ Hp He]. split; [by apply frame_keeps|by rewrite Hh|done|]. by rewrite (frame_calls p q).
Qed.

Lemma omap_perm {A C} (f : A → option C) (l k : list A) : l ≡ₚ k → omap f l ≡ₚ omap f k.
Proof. intros H. by rewrite H. Qed.

(** A batch job starts on a regular worker. *)
Lemma launch_batch_account p p' i r job queue reply :
  launch p (load_batch job reply 0) p' i r → the_jobs reply p = job :: queue →
  account p (add_active reply 1 (set_jobs reply queue p')) [] [].
Proof.
  intros Hl Hj. set (q := add_active reply 1 (set_jobs reply queue p')).
  pose proof (pool_same_jobs reply 1 queue p' : pool_same p' q) as Hq.
  destruct (la_rest _ _ _ _ _ Hl) as (ws & n & ms & Hp').
  assert (tagged_workers q = tagged_workers p) as Htg by (unfold q; rewrite Hp'; by destruct reply).
  pose proof (running_launch _ _ _ _ _ _ Hl Hq Htg) as Hrun.
  assert (heap q = heap p ∧ pending_commands q = pending_commands p) as [Hh Hpc] by (unfold q; rewrite Hp'; by destruct reply).
  split.
  - etrans; [by eapply launch_keeps|]. intros tg j x. rewrite (proj2 (view_running p' q ltac:(unfold q; destruct reply; by split))).
    done.
  - by rewrite Hh.
  - cbn [app]. rewrite (entries_running (p <| batch_jobs := batch_jobs q |> <| reply_jobs := reply_jobs q |>) q
      [launched (load_batch job reply 0 r)]); try done; [|by rewrite Htg].
    cbn [omap list_omap]. rewrite run_entry_launched_batch. cbn [app].
    symmetry. eapply (entries_jobs_pop reply job queue); try done; unfold q; rewrite Hp'; by destruct reply.
  - unfold calls_of. rewrite Hpc. cbn [app]. f_equiv. by rewrite (omap_perm _ _ _ Hrun).
Qed.

Lemma run_batch_jobs_account queue reply p q :
  idle_ok p → the_jobs reply p = queue → run_batch_jobs queue reply p = Ret q → account p q [] [] ∧ idle_ok q.
Proof.
  revert p. induction queue as [|job queue IH]; intros p Ho Hj H; cbn [run_batch_jobs] in H.
  { injection H as <-. split; [apply account_refl|done]. }
  destruct (_ && _); [|injection H as <-; split; [apply account_refl|done]].
  destruct (run_on_idle p (load_batch job reply 0)) as [p'| |] eqn:E; [|done|done]. cbn [mbind outcome_bind] in H.
  destruct (run_on_idle_launch _ _ _ Ho (load_batch_loads _ _ _) E) as (i & r & Hl).
  pose proof (launch_batch_account _ _ _ _ _ _ _ Hl Hj) as Ha.
  destruct (IH (add_active reply 1 (set_jobs reply queue p'))) as [Hb Hoq]; [|by destruct reply|done|].
  { eapply pool_same_idle_ok; [apply pool_same_jobs|apply Hl]. }
  split; [|done]. exact (account_trans _ _ _ _ _ _ _ Ha Hb).
Qed.

(** A job starts on a tagged worker. *)
Lemma run_tagged_account p i : account p (run_tagged p i) [] [].
Proof.
  unfold run_tagged. destruct (tagged_workers p !! i) as [[[r [|]] [|job queue]]|] eqn:Hi; try apply account_refl.
  destruct (proxy_run_worker (load_batch job false (worker_id r) r)) as [r' m] eqn:Hr.
  assert (run_entry r' = Some job ∧ command_item r' = None) as [He Hc].
  { unfold proxy_run_worker in Hr. destruct job. destruct (joinable _); by injection Hr as <- _. }
  set (q := p <| tagged_workers ::= _ |> <| sent ::= _ |>).
  destruct (entries_tagged p q i (r, false, job :: queue) (r', true, queue)) as (k & Hp & Hq); try done.
  destruct (insert_perm _ i (r, false, job :: queue) (r', true, queue) Hi) as (ws & Hw & Hw').
  split.
  - intros [|] j x; [|done]. unfold busy_run. cbn [tagged_workers q modify]. unfold q; cbn.
    destruct (decide (i = j)) as [<-|Hne]; [by rewrite Hi|]. by rewrite list_lookup_insert_ne.
  - done.
  - cbn [app]. rewrite Hp, Hq. unfold tagged_entries. cbn. rewrite He. cbn. solve_Permutation.
  - unfold calls_of. change (pending_commands q) with (pending_commands p). cbn [app]. f_equiv.
    unfold running_jobs. change (busy q) with (busy p). rewrite !omap_app. f_equiv.
    change (tagged_workers q) with (<[ i := (r', true, queue) ]> (tagged_workers p)). rewrite Hw', Hw. cbn. by rewrite Hc.
Qed.

Lemma process_tagged_account p : account p (process_tagged p) [] [].
Proof.
  unfold process_tagged. generalize (seq 0 (length (tagged_workers p))). intros ixs. revert p.
  induction ixs as [|i ixs IH]; intros p; cbn [foldl]; [apply account_refl|].
  exact (account_trans _ _ _ _ _ _ _ (run_tagged_account p i) (IH (run_tagged p i))).
Qed.
Lemma process_tagged_idle p : idle_ok p → idle_ok (process_tagged p).
Proof.
  unfold process_tagged. generalize (seq 0 (length (tagged_workers p))). intros ixs. revert p.
  induction ixs as [|i ixs IH]; intros p Ho; cbn [foldl]; [done|]. apply IH. unfold run_tagged.
  destruct (tagged_workers p !! i) as [[[r [|]] [|job queue]]|]; try done.
  destruct (proxy_run_worker _) as [r' m]. by apply (pool_same_idle_ok p).
Qed.

(** A command starts: [x] is its item. *)
Lemma launch_command p f p' i r c g x :
  launch p f p' i r → run_entry (launched (f r)) = None → command_item (launched (f r)) = Some x →
  let q := alter_category g c p' in
  keeps p q ∧ heap q = heap p ∧ entries q ≡ₚ entries p ∧
  omap command_item (running_jobs q) ≡ₚ x :: omap command_item (running_jobs p) ∧
  pending_commands q = pending_commands p ∧ idle_ok q.
Proof.
  intros Hl He Hx q. destruct (la_rest _ _ _ _ _ Hl) as (ws & n & ms & Hp').
  assert (tagged_workers q = tagged_workers p) as Htg by (unfold q; by rewrite Hp').
  assert (running_jobs q ≡ₚ launched (f r) :: running_jobs p) as Hrun.
  { unfold running_jobs. rewrite Htg. change (busy q) with (busy p'). by rewrite (la_busy _ _ _ _ _ Hl). }
  split_and!.
  - exact (launch_keeps _ _ _ _ _ Hl).
  - unfold q. by rewrite Hp'.
  - rewrite (entries_running p q [launched (f r)]); [cbn; by rewrite He|unfold q; by rewrite Hp'..|by rewrite Htg|done].
  - rewrite (omap_perm _ _ _ Hrun). cbn. by rewrite Hx.
  - unfold q. by rewrite Hp'.
  - destruct (la_idle _ _ _ _ _ Hl). by split.
Qed.

Lemma load_pending_item pc r :
  run_entry (launched (load_pending pc r)) = None ∧ command_item (launched (load_pending pc r)) = Some (pending_item pc).
Proof. unfold load_pending, pending_item. by destruct (pc_callback pc) as [[cb rq]|f]. Qed.

Lemma process_pending_account after before p q :
  idle_ok p → process_pending before after p = Ret q →
  keeps p q ∧ heap q = heap p ∧ entries q ≡ₚ entries p ∧
  calls_of q ≡ₚ (pending_item <$> before ++ after) ++ omap command_item (running_jobs p).
Proof.
  revert before p. induction after as [|pc rest IH]; intros before p Ho H; cbn [process_pending] in H.
  { injection H as <-. split_and!; try done; auto. by rewrite app_nil_r. }
  destruct (active_workers p <? max_workers p)%Z; [|injection H as <-; split_and!; done || auto].
  destruct (the_category p (pc_cat pc)) as [k|]; [|done]. destruct (slot_free p k).
  2: { destruct (IH _ _ Ho H) as (H1 & H2 & H3 & H4). split_and!; try done. by rewrite <- app_assoc in H4. }
  destruct (run_on_idle p (load_pending pc)) as [p'| |] eqn:E; [|done|done]. cbn [mbind outcome_bind] in H.
  destruct (queued k - 1 <? 0)%Z; [done|].
  destruct (run_on_idle_launch _ _ _ Ho (load_pending_loads _) E) as (i & r & Hl).
  destruct (load_pending_item pc r) as [He Hx].
  destruct (launch_command _ _ _ _ _ (pc_cat pc) (λ c, c <| queued ::= Z.pred |> <| active_threads ::= Z.succ |>) _ Hl He Hx)
    as (K1 & K2 & K3 & K4 & _ & K6).
  destruct (IH _ _ K6 H) as (H1 & H2 & H3 & H4). split_and!.
  - by etrans.
  - by rewrite H2.
  - by rewrite H3.
  - rewrite H4, K4, !fmap_app, fmap_cons. solve_Permutation.
Qed.

Lemma process_queue_account p q : idle_ok p → proxy_process_queue p = Ret q → account p q [] [].
Proof.
  intros Ho H. unfold proxy_process_queue in H. destruct (max_workers p =? 0)%Z; [injection H as <-; apply account_refl|].
  pose proof (process_tagged_account p) as A1. pose proof (process_tagged_idle p Ho) as O1.
  set (p1 := process_tagged p) in *. unfold proxy_run_batch_jobs in H.
  destruct (run_batch_jobs (the_jobs false p1) false p1) as [p2| |] eqn:E2; [|done|done]. cbn [mbind outcome_bind] in H.
  destruct (run_batch_jobs_account _ _ _ _ O1 eq_refl E2) as [A2 O2].
  destruct (run_batch_jobs (the_jobs true p2) true p2) as [p3| |] eqn:E3; [|done|done]. cbn [mbind outcome_bind] in H.
  destruct (run_batch_jobs_account _ _ _ _ O2 eq_refl E3) as [A3 O3].
  destruct (process_pending_account _ _ _ _ O3 H) as (H1 & H2 & H3 & H4).
  assert (account p3 q [] []) as A4 by (split; [done|by rewrite H2|done|done]).
  exact (account_trans _ _ _ _ _ _ _ (account_trans _ _ _ _ _ _ _ (account_trans _ _ _ _ _ _ _ A1 A2) A3) A4).
Qed.

(** ** Accepting commands *)

Lemma queue_pending_account c pc p :
  account p (queue_pending c pc p) [] (if queue_full c then [] else [pending_item pc]).
Proof.
  unfold queue_pending. destruct (queue_full c); [apply account_refl|]. split; try done; auto.
  unfold calls_of. cbn. rewrite fmap_app. cbn.
  change (running_jobs (alter_category _ _ _)) with (running_jobs p). solve_Permutation.
Qed.

Lemma start_command_account c f p x q :
  idle_ok p → loads f → (∀ r, run_entry (launched (f r)) = None ∧ command_item (launched (f r)) = Some x) →
  (p ← run_on_idle p f; Ret (alter_category (λ c, c <| active_threads ::= Z.succ |>) c p)) = Ret q →
  account p q [] [x].
Proof.
  intros Ho Hf Hx H. destruct (run_on_idle p f) as [p'| |] eqn:E; [|done|done]. cbn [mbind outcome_bind] in H.
  injection H as <-. destruct (run_on_idle_launch _ _ _ Ho Hf E) as (i & r & Hl). destruct (Hx r) as [He Hc].
  destruct (launch_command _ _ _ _ _ c (λ c, c <| active_threads ::= Z.succ |>) _ Hl He Hc) as (K1 & K2 & K3 & K4 & K5 & _).
  split; [done|by rewrite K2|done|]. unfold calls_of. rewrite K4, K5. cbn. by rewrite <- Permutation_middle.
Qed.

Lemma dispatch_account cat command data cb conn acc remote p q :
  idle_ok p → (snd cb = true → data ≠ []) →
  dispatch_command cat command data cb conn acc remote p = Ret q →
  account p q [] (accepts p (EvCommand cat command data cb conn acc remote)).
Proof.
  intros Ho Hd H. unfold dispatch_command in H. cbn [accepts]. unfold accepts_command.
  destruct (the_category p cat) as [k|]; [|done]. destruct (slot_free p k); cbn [negb orb] in *.
  - destruct (snd cb && bool_decide (data = [])) eqn:Hb; [bool_cases; by destruct Hd|].
    refine (start_command_account cat _ p _ q Ho _ _ H); [auto with omq|]. by destruct cb.
  - injection H as <-. pose proof (queue_pending_account k (mk_pending cat command data (PCommand cb) conn acc remote) p) as Ha.
    by destruct (queue_full k), cb.
Qed.
Lemma inject_account cat command remote f p q :
  idle_ok p → proxy_inject_task cat command remote f p = Ret q →
  account p q [] (accepts p (EvInject cat command remote f)).
Proof.
  intros Ho H. unfold proxy_inject_task in H. cbn [accepts]. unfold accepts_command.
  destruct (the_category p cat) as [k|]; [|done]. destruct (slot_free p k); cbn [negb orb] in *.
  - by refine (start_command_account cat _ p _ q Ho _ _ H); [auto with omq|].
  - injection H as <-. pose proof (queue_pending_account k
      (mk_pending cat command [] (PInjected f) conn_default Access_default remote) p) as Ha.
    by destruct (queue_full k).
Qed.

(** ** Accepting jobs *)

Lemma entry_heap p b n : heap_ok p → (b, n) ∈ entries p → is_Some (heap p !! b).
Proof.
  intros Hh Hin%elem_of_jobnos. pose proof (ho_objs _ _ Hh b) as Ho. destruct (heap p !! b); [done|].
  cbn in Ho. rewrite Ho in Hin. by apply not_elem_of_nil in Hin.
Qed.

(** A new object with the entries of its jobs. *)
Lemma alloc_account p p1 q o es :
  heap_ok p → frame p p1 → pending_commands p1 = pending_commands p → entries p1 = entries p →
  heap p1 = <[ fresh (dom (heap p)) := o ]> (heap p) → queued_more p1 q es → account p q es [].
Proof.
  intros Hh Hf Hp He Hheap Hq. pose proof (queued_account _ _ _ Hq) as [K F E C]. split.
  - etrans; [by apply frame_keeps|done].
  - intros [b n] Hin. rewrite F by by rewrite He. rewrite Hheap. unfold function_of. cbn [fst].
    rewrite lookup_insert_ne; [done|]. intros <-. destruct (entry_heap _ _ _ Hh Hin) as [x Hx].
    by rewrite heap_fresh in Hx.
  - by rewrite E, He.
  - by rewrite C, (frame_calls p p1).
Qed.

Lemma omap_jobs {A} (l : list A) k (f : nat → option A) :
  (∀ i, i < length l → f (k + i) = l !! i) → omap f (seq k (length l)) = l.
Proof.
  revert k. induction l as [|x l IH]; intros k H; [done|]. cbn [length seq]. cbn.
  pose proof (H 0) as H0. rewrite Nat.add_0_r in H0. rewrite H0 by (cbn; lia). cbn. f_equal.
  apply IH. intros i Hi. rewrite Nat.add_succ_comm. apply H. cbn. lia.
Qed.

Lemma omap_fmap_list {A C D} (f : A → C) (g : C → option D) (l : list A) : omap g (f <$> l) = omap (g ∘ f) l.
Proof. induction l as [|x l IH]; [done|]. cbn. by rewrite IH. Qed.

Section eval.
Context {E : TaskEval}.

Lemma object_entries h a o :
  h !! a = Some o → omap (entry_item h) (job_entries a 0 (fst (size o))) = object_items o.
Proof.
  intros Ha. unfold job_entries, object_items. rewrite omap_fmap_list.
  assert (∀ i, function_of h (a, Z.of_nat i) = job_function o i) as Hf.
  { intros i. unfold function_of. cbn. rewrite (proj2 (Z.ltb_ge _ _)) by lia. by rewrite Ha, Nat2Z.id. }
  destruct o as [b|j]; cbn [size obj_base batch_base job_base fst].
  - rewrite <- (length_fmap fst (jobs b)), <- (length_fmap WJob (fst <$> jobs b)). apply omap_jobs. intros i _. cbn.
    unfold entry_item. by rewrite Hf, !list_lookup_fmap.
  - cbn. unfold entry_item. by rewrite (Hf 0).
Qed.

Lemma proxy_batch_account o p q :
  heap_ok p → obj_new (length (tagged_workers p)) o →
  proxy_batch (snd (alloc o p)) (fst (alloc o p)) = Ret q →
  ∃ es, account p q es [] ∧ omap (entry_item (heap q)) es ≡ₚ object_items o.
Proof.
  intros Hh Hnew. unfold proxy_batch, alloc. cbn [fst snd]. set (a := fresh (dom (heap p))).
  change (heap (p <| heap ::= <[ a := o ]> |>)) with (<[ a := o ]> (heap p)). rewrite lookup_insert_eq.
  destruct (size o) as [n tg] eqn:Hsz. set (p1 := p <| heap ::= <[ a := o ]> |>).
  destruct (object_threads p1 o n tg Hsz Hnew) as [Hlen Hths].
  destruct (enqueue_all_spec a 0 _ p1 Hths) as (q1 & es & -> & Hq & Hes). cbn [mbind outcome_bind]. intros [= <-].
  exists es. split.
  - assert (account p q1 es []) as [K F Ee C]; [|by split].
    by eapply (alloc_account p p1 q1 o).
  - rewrite (omap_perm _ _ _ Hes), Hlen. replace n with (fst (size o)) by (by rewrite Hsz).
    change (heap (q1 <| proxy_skip_one_poll := true |>)) with (heap q1). rewrite (qm_heap _ _ _ Hq).
    rewrite object_entries; [done|]. apply lookup_insert_eq.
Qed.

Lemma reply_account f p :
  heap_ok p → ∃ es, account p (proxy_schedule_reply_job f p) es [] ∧
    omap (entry_item (heap (proxy_schedule_reply_job f p))) es ≡ₚ [WJob f].
Proof.
  intros Hh. unfold proxy_schedule_reply_job, alloc. set (a := fresh (dom (heap p))).
  set (p1 := p <| heap ::= <[ a := OJob (mk_job f 0) ]> |>).
  set (q := p1 <| reply_jobs ::= _ |> <| proxy_skip_one_poll := true |>). exists [(a, 0%Z)]. split.
  - eapply (alloc_account p p1 q); try done. split; try done. unfold entries. cbn.
    unfold running_jobs, busy, busy_ix, idle. cbn. solve_Permutation.
  - cbn. unfold entry_item, function_of. cbn. by rewrite lookup_insert_eq.
Qed.

(** A timer that fires. *)
Lemma timer_account t p ts q :
  steady p ts → queue_timer_job t p = Ret q →
  ∃ es, account p q es [] ∧ omap (entry_item (heap q)) es ≡ₚ accepts p (EvTimer t).
Proof.
  intros Hg. unfold queue_timer_job. cbn [accepts]. destruct (timer_jobs p !! t) as [d|] eqn:Hd.
  2: { intros [= <-]. exists []. split; [apply account_refl|done]. }
  destruct (squelch d && timer_running d) eqn:Hsr; [intros [= <-]; exists []; split; [apply account_refl|done]|].
  pose proof (ho_timer_threads _ _ (g_heap _ _ _ Hg) t d Hd) as Hth.
  destruct (Z.eqb_spec (timer_thread d) (-1)) as [_|Hm1].
  { destruct (eval_task _); intros [= <-]; exists []; (split; [apply account_refl|done]). }
  destruct Hth as [?|Hth]; [done|]. set (a := fresh (dom (heap p))).
  assert (∀ o p1, frame p p1 → pending_commands p1 = pending_commands p → entries p1 = entries p →
    heap p1 = <[ a := o ]> (heap p) → job_function o 0 = Some (TUser (timer_function d)) →
    enqueue (timer_thread d) false (a, 0%Z) p1 = Ret q →
    ∃ es, account p q es [] ∧ omap (entry_item (heap q)) es ≡ₚ [WJob (TUser (timer_function d))]) as Hq.
  { intros o p1 Hf Hp He Hheap Hfun Hen.
    destruct (enqueue_spec (timer_thread d) false (a, 0%Z) p1) as (q1 & Hq1 & Hmore).
    { by rewrite (length_tagged p p1 (fr_tagged _ _ Hf)). }
    rewrite Hen in Hq1. injection Hq1 as <-. exists [(a, 0%Z)]. split.
    - by eapply (alloc_account p p1 q o); try apply Hg.
    - cbn [omap list_omap]. unfold entry_item, function_of. cbn [fst snd]. change (0 <? 0)%Z with false.
      rewrite (qm_heap _ _ _ Hmore), Hheap, lookup_insert_eq. change (Z.to_nat 0) with 0. cbn [mbind option_bind].
      by rewrite Hfun. }
  unfold alloc. destruct (squelch d).
  - refine (Hq (OBatch (timer_batch (timer_function d) (timer_thread d) t)) _ _ _ _ _ _); try done.
    cbn. unfold timer_batch, add_job_id. by destruct (timer_thread d =? 0)%Z.
  - by refine (Hq (OJob (mk_job (TUser (timer_function d)) (timer_thread d))) _ _ _ _ _ _).
Qed.

(** ** A worker's turn *)

Lemma insert_functions (h : gmap ptr batch_obj) b o o' e :
  h !! b = Some o → (∀ i, job_function o' i = job_function o i) →
  function_of (<[ b := o' ]> h) e = function_of h e.
Proof.
  intros Hb Hf. unfold function_of. destruct (snd e <? 0)%Z; [done|]. destruct (decide (fst e = b)) as [->|Hne].
  - rewrite lookup_insert_eq, Hb. cbn. apply Hf.
  - by rewrite lookup_insert_ne.
Qed.

Lemma run_job_functions (o o' : batch_obj) n : run_job o n = Ret o' → ∀ i, job_function o' i = job_function o i.
Proof.
  destruct o as [b|j]; cbn.
  - unfold batch_run_job. destruct (jobs b !! n) as [[f t]|]; [|done]. destruct (results b !! n); [|done].
    destruct (eval_task f); cbn; intros [= <-]; done.
  - destruct (eval_task (job_task j)); cbn; intros [= <-]; done.
Qed.
Lemma completion_functions (o o' : batch_obj) c :
  job_completion o = Ret (o', c) → ∀ i, job_function o' i = job_function o i.
Proof.
  destruct o as [b|j]; cbn.
  - unfold batch_job_completion. destruct (complete_fn b); cbn; [|done]. by intros [= <- _].
  - by intros [= <- _].
Qed.

Lemma turn_functions tag run p q i :
  worker_turn tag run p = Ret (q, i) → ∀ e, function_of (heap q) e = function_of (heap p) e.
Proof.
  unfold worker_turn. destruct (is_batch_job run).
  2: { destruct (worker_invocation tag run); intros [= <- _]; done. }
  destruct (to_run run) as [e|b|f]; [by intros [= <- _]| |by intros [= <- _]].
  destruct (heap p !! b) as [o|] eqn:Hb; [|done]. destruct (0 <=? batch_jobno run)%Z.
  - destruct (run_job o _) as [o'| |] eqn:Ho; [|done|done]. cbn [mbind outcome_bind]. intros [= <- _] e. cbn.
    eapply insert_functions; [done|]. by eapply run_job_functions.
  - destruct (batch_jobno run =? -1)%Z; [|by intros [= <- _]]. unfold run_completion. rewrite Hb.
    destruct (job_completion o) as [[o' c]| |] eqn:Ho; [|done|done]. cbn [mbind outcome_bind]. intros [= <- _] e.
    assert (heap (call_completion c (p <| heap ::= <[ b := o' ]> |>)) = <[ b := o' ]> (heap p)) as ->
      by (by destruct c as [[[] ?]|]).
    eapply insert_functions; [done|]. by eapply completion_functions.
Qed.

(** The queues and the polling flag are not touched. *)
Lemma turn_queues tag run p q i : worker_turn tag run p = Ret (q, i) →
  pending_commands q = pending_commands p ∧ entries q = entries p ∧ proxy_skip_one_poll q = proxy_skip_one_poll p.
Proof.
  assert (∀ b p q, run_completion b p = Ret q → pending_commands q = pending_commands p ∧ entries q = entries p ∧
    proxy_skip_one_poll q = proxy_skip_one_poll p) as Hc.
  { clear. intros b p q. unfold run_completion. destruct (heap p !! b); [|done].
    destruct (job_completion _) as [[o c]| |]; [|done|done]. cbn [mbind outcome_bind]. intros [= <-].
    by destruct c as [[[] ?]|]. }
  unfold worker_turn. destruct (is_batch_job run).
  2: { by destruct (worker_invocation tag run); intros [= <- _]. }
  destruct (to_run run) as [e|b|f]; [by intros [= <- _]| |by intros [= <- _]].
  destruct (heap p !! b) as [o|]; [|done]. destruct (0 <=? batch_jobno run)%Z.
  - destruct (run_job o _); [|done|done]. by intros [= <- _].
  - destruct (batch_jobno run =? -1)%Z; [|by intros [= <- _]].
    destruct (run_completion b p) eqn:Hr; [|done|done]. cbn [mbind outcome_bind]. intros [= <- _]. by eapply Hc.
Qed.

(** The worker calls exactly the function it was loaded with. *)
Lemma turn_calls tag run p q i :
  run_ok run → worker_turn tag run p = Ret (q, i) →
  call_item <$> option_list i = option_list (run_item (heap p) run).
Proof.
  unfold run_ok, worker_turn, run_item, run_entry, command_item. destruct (is_batch_job run).
  - intros [b ->]. destruct (heap p !! b) as [o|] eqn:Hb; [|done]. unfold entry_item, function_of. cbn [fst snd]. rewrite Hb.
    destruct (Z.leb_spec 0 (batch_jobno run)) as [Hn|Hn].
    + rewrite (proj2 (Z.ltb_ge _ _)) by done. destruct (run_job o _); [|done|done]. cbn [mbind outcome_bind].
      intros [= _ <-]. cbn. by destruct (job_function o _).
    + rewrite (proj2 (Z.ltb_lt _ _)) by done.
      destruct (batch_jobno run =? -1)%Z; [destruct (run_completion b p); [|done|done]|]; by intros [= _ <-].
  - unfold worker_invocation. destruct (is_injected run).
    + intros [f ->]. by intros [= _ <-].
    + intros ([cb []] & -> & Hd); cbn in *; [|by intros [= _ <-]].
      destruct (run_data run) as [|tg data]; [by destruct Hd|]. by intros [= _ <-].
Qed.
End eval.

(** ** RAN *)

Lemma closing_items (h : gmap ptr batch_obj) (es : list batch_job) :
  Forall (λ e : batch_job, snd e = (-1)%Z) es → omap (entry_item h) es = [].
Proof.
  induction 1 as [|[b n] es Hn _ IH]; [done|]. cbn in Hn. subst n. cbn. by rewrite IH.
Qed.

Lemma returned_functions tg i r p q e :
  returned tg i r p q → e ∈ entries q → function_of (heap q) e = function_of (heap p) e.
Proof.
  intros [_ _ (es & k & _ & Hq & Hes & Hk) _]. rewrite Hq. intros [He|He]%elem_of_app; [|by apply Hk].
  rewrite Forall_forall in Hes. specialize (Hes e He). unfold function_of. by rewrite Hes.
Qed.

Lemma returned_live tg i r p q :
  run_ok r → returned tg i r p q → live p ≡ₚ option_list (run_item (heap p) r) ++ live q.
Proof.
  intros Hok [Hpc Hrun (es & k & Hp & Hq & Hes & Hk) _]. unfold live, calls_of.
  rewrite (omap_perm _ _ _ Hp), (omap_perm _ _ _ Hq), (omap_perm command_item _ _ Hrun), Hpc, !omap_app.
  rewrite (closing_items _ _ Hes), (items_same _ _ _ Hk). cbn [app].
  assert (omap (entry_item (heap p)) (option_list (run_entry r)) ++ option_list (command_item r) =
    option_list (run_item (heap p) r)) as <-.
  { unfold run_ok, run_item, run_entry, command_item in *. destruct (is_batch_job r); [|done].
    destruct Hok as [b ->]. cbn. rewrite app_nil_r. by destruct (entry_item _ _). }
  cbn [omap list_omap]. destruct (command_item r); cbn; rewrite ?app_nil_r; solve_Permutation.
Qed.

(** * Threads that have run their job *)

Definition thread_at (tg : bool) (i : nat) (ts : thread_set) : option wthread := (if tg then tagged ts else regular ts) !! i.
Definition has_ran (tg : bool) (i : nat) (ts : thread_set) : bool :=
  match thread_at tg i ts with Some t => bool_decide (wt_status t = Ran) | None => false end.

Lemma has_ran_bound (tg : bool) i (ts : thread_set) : length (if tg then tagged ts else regular ts) ≤ i → has_ran tg i ts = false.
Proof. intros H. unfold has_ran, thread_at. by rewrite lookup_ge_None_2. Qed.

Definition thread_index (tg : bool) (wid : Z) : nat := Z.to_nat (if tg then wid - 1 else wid).

Lemma the_thread_at tg wid ts : the_thread tg wid ts = thread_at tg (thread_index tg wid) ts.
Proof. by destruct tg. Qed.

Lemma has_ran_set tg wid t t' ts tg' i :
  the_thread tg wid ts = Some t →
  has_ran tg' i (set_thread tg wid t' ts) =
    if decide ((tg', i) = (tg, thread_index tg wid)) then bool_decide (wt_status t' = Ran) else has_ran tg' i ts.
Proof.
  unfold the_thread, has_ran, thread_at, thread_index. intros Ht. destruct tg, tg'; cbn; try (by rewrite decide_False).
  all: pose proof (lookup_lt_Some _ _ _ Ht) as Hlt; case_decide as Hd; simplify_eq; [by rewrite list_lookup_insert_eq|].
  all: rewrite list_lookup_insert_ne by congruence; done.
Qed.

(** Reading control messages is not running a job. *)
Lemma deliver_has_ran m ts ts' : deliver m ts = Ret ts' →
  (∀ tg i, has_ran tg i ts' = has_ran tg i ts) ∧
  length (regular ts) ≤ length (regular ts') ∧ length (tagged ts) ≤ length (tagged ts').
Proof.
  destruct m as [id|[|c id] cmd]; cbn [deliver]; [|done|].
  - destruct (id =? _)%Z; [|done]. intros [= <-]. split; [|cbn; rewrite length_app; lia]. intros [|] i; [done|].
    unfold has_ran, thread_at. cbn. destruct (decide (i < length (regular ts))) as [Hlt|Hge].
    + by rewrite lookup_app_l.
    + rewrite lookup_app_r by lia. rewrite (lookup_ge_None_2 (regular ts)) by lia.
      destruct (i - length (regular ts)) as [|[|k]]; done.
  - set (tg := bool_decide _). destruct (the_thread tg (load32 id) ts) as [t|] eqn:Ht; [|done].
    destruct (worker_reads cmd t) as [t'| |] eqn:Hr; [|done|done]. cbn [mbind outcome_bind]. intros [= <-].
    split; [|destruct tg; cbn; rewrite ?length_insert; lia].
    intros tg' i. rewrite (has_ran_set _ _ t) by done. case_decide as Hd; [|done]. injection Hd as -> ->.
    unfold has_ran. rewrite <- the_thread_at, Ht. unfold worker_reads, worker_wait_for in Hr.
    destruct (wt_status t) eqn:Hst; try done; injection Hr as <-; cbn; repeat case_bool_decide; done.
Qed.
Lemma deliver_all_has_ran ms ts ts' : deliver_all ms ts = Ret ts' →
  (∀ tg i, has_ran tg i ts' = has_ran tg i ts) ∧
  length (regular ts) ≤ length (regular ts') ∧ length (tagged ts) ≤ length (tagged ts').
Proof.
  revert ts. induction ms as [|m ms IH]; intros ts; cbn [deliver_all]; [by intros [= <-]|].
  destruct (deliver m ts) as [ts1| |] eqn:E; [|done|done]. cbn [mbind outcome_bind]. intros H.
  destruct (deliver_has_ran _ _ _ E) as (H1 & H2 & H3). destruct (IH ts1 H) as (I1 & I2 & I3).
  split; [|lia]. intros tg i. by rewrite I1.
Qed.

(** The job of a thread that has run it and whose RAN was not read yet. *)
Definition ran_at (s : system) (tg : bool) (i : nat) : option run_info :=
  if has_ran tg i (wthreads s) then busy_run tg i (proxy s) else None.
Definition ran_runs (s : system) : list run_info :=
  omap (ran_at s false) (seq 0 (length (regular (wthreads s)))) ++
  omap (ran_at s true) (seq 0 (length (tagged (wthreads s)))).
Definition ran_items (s : system) : list work_item := omap (run_item (heap (proxy s))) (ran_runs s).

Lemma omap_seq_grow {A} (f : nat → option A) n m :
  (∀ i, n ≤ i → f i = None) → n ≤ m → omap f (seq 0 m) = omap f (seq 0 n).
Proof.
  intros Hf Hle.
  assert (∀ k l, n ≤ k → omap f (seq k l) = []) as Hnil.
  { intros k l. revert k. induction l as [|l IH]; intros k Hk; [done|]. cbn. rewrite Hf by done. apply IH. lia. }
  replace m with (n + (m - n)) by lia. rewrite seq_app, omap_app, (Hnil (0 + n)) by lia. apply app_nil_r.
Qed.
Lemma omap_seq_one {A} (f g : nat → option A) n i x :
  i < n → f i = None → g i = Some x → (∀ j, j ≠ i → g j = f j) → omap g (seq 0 n) ≡ₚ x :: omap f (seq 0 n).
Proof.
  intros Hi Hf Hg Hj. assert (seq 0 n = seq 0 i ++ i :: seq (S i) (n - S i)) as ->.
  { replace n with (i + S (n - S i)) at 1 by lia. rewrite seq_app. done. }
  rewrite !omap_app. cbn. rewrite Hf, Hg. rewrite <- Permutation_middle.
  assert (∀ k l, (k + l ≤ i ∨ i < k) → omap g (seq k l) = omap f (seq k l)) as He.
  { intros k l H. apply omap_ext_in. intros j Hin%elem_of_seq. apply Hj. lia. }
  by rewrite !He by lia.
Qed.

Lemma ran_runs_ext s s' :
  (∀ tg i, ran_at s' tg i = ran_at s tg i) →
  length (regular (wthreads s)) ≤ length (regular (wthreads s')) →
  length (tagged (wthreads s)) ≤ length (tagged (wthreads s')) → ran_runs s' = ran_runs s.
Proof.
  intros H H1 H2. unfold ran_runs.
  rewrite (omap_ext_in (ran_at s' false) (ran_at s false)), (omap_ext_in (ran_at s' true) (ran_at s true)) by done.
  f_equal; apply omap_seq_grow; try done; intros i Hi; unfold ran_at; by rewrite has_ran_bound.
Qed.

(** One thread more has run its job. *)
Lemma ran_runs_one s s' (tg : bool) i x :
  i < length (if tg then tagged (wthreads s) else regular (wthreads s)) →
  length (regular (wthreads s')) = length (regular (wthreads s)) →
  length (tagged (wthreads s')) = length (tagged (wthreads s)) →
  ran_at s tg i = None → ran_at s' tg i = Some x →
  (∀ tg' j, (tg', j) ≠ (tg, i) → ran_at s' tg' j = ran_at s tg' j) →
  ran_runs s' ≡ₚ x :: ran_runs s.
Proof.
  intros Hi H1 H2 Hn Hx Hj. unfold ran_runs. rewrite H1, H2. destruct tg.
  - rewrite (omap_ext_in (ran_at s' false) (ran_at s false)) by (intros j _; by apply Hj).
    rewrite (omap_seq_one (ran_at s true) (ran_at s' true) _ i x); [solve_Permutation|done|done|done|].
    intros j Hne. apply Hj. congruence.
  - rewrite (omap_ext_in (ran_at s' true) (ran_at s true)) by (intros j _; by apply Hj).
    rewrite (omap_seq_one (ran_at s false) (ran_at s' false) _ i x); [done|done|done|done|].
    intros j Hne. apply Hj. congruence.
Qed.

(** ** The invariant *)

(** [a] was accepted: what was not called yet is live and not with a thread that has
    run it. *)
Definition accounted (a : list work_item) (s : system) : Prop :=
  ∃ fin, a ≡ₚ live (proxy s) ++ fin ∧ call_item <$> calls s ≡ₚ ran_items s ++ fin.

(** A thread that has run its job has one. *)
Lemma ran_busy p ts tg i :
  threads_ok p ts → has_ran tg i ts = true → is_Some (busy_run tg i p).
Proof.
  intros [Hl Hs Htl Hts] Hr. unfold has_ran, thread_at in Hr. destruct (_ !! i) as [t|] eqn:Ht; [|done].
  apply bool_decide_eq_true in Hr. unfold busy_run. destruct tg.
  - destruct (lookup_lt_is_Some_2 (tagged_workers p) i) as [[[r b] x] Hw]; [rewrite <- Htl; by eapply lookup_lt_Some|].
    rewrite Hw. cbn. destruct (Hts i t _ Ht Hw) as [[_ ?]|[Hb _]]; [congruence|]. cbn in Hb. by destruct b.
  - destruct (Hs i t Ht) as [[_ ?]|[Hi _]]; [congruence|]. rewrite decide_False by done.
    apply lookup_lt_is_Some_2. rewrite <- Hl. by eapply lookup_lt_Some.
Qed.

(** The worker of a thread that is not waiting. *)
Lemma thread_run p ts tg wid t r :
  steady p ts → sent p = [] → the_thread tg wid ts = Some t → wt_status t ≠ Waiting → the_run tg wid p = Some r →
  busy_run tg (thread_index tg wid) p = Some r.
Proof.
  intros Hg Hsent Ht Hst Hrun. pose proof Hg as [_ _ _ _ _ (ts0 & Hd0 & [_ Hs _ Hts]) _].
  rewrite Hsent in Hd0. injection Hd0 as <-. unfold the_run, the_thread in *. unfold busy_run, thread_index. destruct tg.
  - apply fmap_Some in Hrun as ([[r' b] x] & Hx & ->). rewrite Hx. cbn.
    destruct (Hts _ _ _ Ht Hx) as [[_ ?]|[Hb _]]; [done|]. cbn in Hb. by destruct b.
  - destruct (Hs _ _ Ht) as [[_ ?]|[Hi _]]; [done|]. by rewrite decide_False.
Qed.

Lemma busy_run_running p tg i r : busy_run tg i p = Some r → r ∈ running_jobs p.
Proof.
  unfold busy_run, running_jobs. rewrite elem_of_app. destruct tg.
  - destruct (tagged_workers p !! i) as [w|] eqn:Hw; [|done]. cbn. intros Hr. right. apply list_elem_of_omap.
    exists w. split; [by eapply list_elem_of_lookup_2|done].
  - destruct (decide (i ∈ idle p)); [done|]. intros Hr. left. apply elem_of_busy. eauto.
Qed.

Lemma ran_runs_running s r : r ∈ ran_runs s → r ∈ running_jobs (proxy s).
Proof.
  unfold ran_runs. rewrite elem_of_app, !list_elem_of_omap.
  intros [(i & _ & Hi)|(i & _ & Hi)]; unfold ran_at in Hi; destruct (has_ran _ _ _); try done;
    by eapply busy_run_running.
Qed.

Lemma run_items_same h h' (rs : list run_info) :
  (∀ r e, r ∈ rs → run_entry r = Some e → function_of h' e = function_of h e) →
  omap (run_item h') rs = omap (run_item h) rs.
Proof.
  intros H. apply omap_ext_in. intros r Hr. unfold run_item. destruct (run_entry r) as [e|] eqn:He; [|done].
  unfold entry_item. by rewrite (H r e).
Qed.

(** A handler of the proxy that accepted [new]. *)
Lemma accounted_handler a s s' q es cs new :
  system_ok s → accounted a s → account (proxy s) q es cs →
  omap (entry_item (heap q)) es ++ cs ≡ₚ new → on_proxy s (Ret q) = Ret s' → accounted (a ++ new) s'.
Proof.
  intros [Hg Hsent] (fin & Ha & Hc) Hacc Hnew H. unfold on_proxy, flush in H. cbn [mbind outcome_bind] in H.
  destruct (deliver_all _ _) as [ts'| |] eqn:Hd; [|done|done]. injection H as <-. cbn in Hd.
  pose proof Hg as [_ _ _ _ _ (ts0 & Hd0 & Hts) _]. rewrite Hsent in Hd0. injection Hd0 as <-.
  destruct (deliver_all_has_ran _ _ _ Hd) as (Hran & Hl1 & Hl2).
  set (s' := s <| proxy := q |> <| wthreads := ts' |> <| proxy ::= _ |>).
  assert (ran_runs s' = ran_runs s) as Hruns.
  { apply ran_runs_ext; [|done|done]. intros tg i. unfold ran_at. change (wthreads s') with ts'. rewrite Hran.
    destruct (has_ran tg i (wthreads s)) eqn:Hr; [|done]. destruct (ran_busy _ _ _ _ Hts Hr) as [r Hb].
    change (busy_run tg i (proxy s')) with (busy_run tg i q). rewrite Hb. by apply (ac_keeps _ _ _ _ Hacc). }
  exists fin. split.
  - change (live (proxy s')) with (live q). rewrite (account_live _ _ _ _ Hacc), Ha, <- Hnew. solve_Permutation.
  - change (calls s') with (calls s). rewrite Hc. f_equiv. unfold ran_items. rewrite Hruns.
    change (heap (proxy s')) with (heap q). rewrite (run_items_same (heap (proxy s)) (heap q)); [done|].
    intros r e Hr He. apply (ac_functions _ _ _ _ Hacc). eapply entry_of_run; [|done]. by apply ran_runs_running.
Qed.

Section system.
Context {E : TaskEval}.
Hypothesis tasks_return : ∀ f, eval_task f ≠ Undef.

Lemma accounted_turn a s s' tg wid :
  system_ok s → (tg = true → 0 < wid)%Z → accounted a s → turn tg wid s = Ret s' → accounted a s'.
Proof using tasks_return.
  intros [Hg Hsent] Hpos (fin & Ha & Hc) H. unfold turn in H.
  destruct (the_thread tg wid (wthreads s)) as [t|] eqn:Ht; [|injection H as <-; by exists fin].
  destruct (the_run tg wid (proxy s)) as [run|] eqn:Hrun; [|injection H as <-; by exists fin].
  destruct (decide (wt_status t = Running)) as [Hst|]; [|injection H as <-; by exists fin].
  destruct (steady_threads _ _ tg wid t Hg Hsent Ht) as [_ Hin].
  specialize (Hin ltac:(by rewrite Hst) Hpos run Hrun).
  destruct (worker_turn_good tasks_return (wt_tag t) run (proxy s) (wthreads s) Hg Hin) as (q & i & Hw & _ & Hf).
  rewrite Hw in H. cbn [mbind outcome_bind] in H. injection H as <-.
  pose proof (turn_functions _ _ _ _ _ Hw) as Hfun. pose proof (turn_calls _ _ _ _ _ (g_runs _ _ _ Hg run Hin) Hw) as Hcall.
  set (t' := mk_thread Ran _). set (s' := s <| proxy := q |> <| wthreads ::= _ |> <| calls ::= _ |>).
  set (k := thread_index tg wid).
  assert (∀ tg' j, busy_run tg' j q = busy_run tg' j (proxy s)) as Hbusy.
  { intros tg' j. unfold busy_run. destruct (pool_same_busy _ _ (fr_same _ _ Hf)) as [_ ->].
    by rewrite (tagged_run_frame _ _ j (fr_tagged _ _ Hf)), (ps_workers _ _ (fr_same _ _ Hf)). }
  assert (busy_run tg k (proxy s) = Some run) as Hk by (eapply thread_run; [done|done|done|by rewrite Hst|done]).
  assert (ran_runs s' ≡ₚ run :: ran_runs s) as Hruns.
  { assert (∀ tg' j, has_ran tg' j (wthreads s') =
      if decide ((tg', j) = (tg, k)) then true else has_ran tg' j (wthreads s)) as Hran.
    { intros tg' j. exact (has_ran_set tg wid t t' (wthreads s) tg' j Ht). }
    apply (ran_runs_one s s' tg k run).
    - rewrite the_thread_at in Ht. unfold thread_at in Ht. by destruct tg; eapply lookup_lt_Some.
    - destruct tg; cbn; by rewrite ?length_insert.
    - destruct tg; cbn; by rewrite ?length_insert.
    - unfold ran_at, has_ran, k. rewrite <- the_thread_at, Ht, Hst. done.
    - unfold ran_at. rewrite Hran, decide_True by done. by rewrite <- Hk, <- Hbusy.
    - intros tg' j Hne. unfold ran_at. rewrite Hran, decide_False by done. by rewrite <- Hbusy. }
  exists fin. split.
  - rewrite Ha. f_equiv. change (proxy s') with q. unfold live.
    destruct (turn_queues _ _ _ _ _ Hw) as (Hpc & -> & _). rewrite (frame_calls (proxy s) q Hf Hpc).
    by rewrite (items_same (heap (proxy s)) (heap q)).
  - change (calls s') with (calls s ++ option_list i). rewrite fmap_app, Hc, Hcall. unfold ran_items.
    change (heap (proxy s')) with (heap q). rewrite (run_items_same (heap (proxy s)) (heap q)) by done.
    rewrite (omap_perm _ _ _ Hruns). cbn. destruct (run_item (heap (proxy s)) run); cbn; solve_Permutation.
Qed.

Lemma accounted_ran a s s' tg wid :
  system_ok s → (0 ≤ wid)%Z → (tg = true → 0 < wid)%Z → accounted a s →
  step s (EvRan tg wid) = Ret s' → accounted a s'.
Proof using.
  intros [Hg Hsent] H0 Hpos (fin & Ha & Hc) H. cbn [step] in H. unfold worker_message in H.
  destruct (the_thread tg wid (wthreads s)) as [t|] eqn:Ht; [|injection H as <-; by exists fin].
  destruct (decide (wt_status t = Ran)) as [Hst|]; [|injection H as <-; by exists fin].
  destruct (ran_good (proxy s) (wthreads s) tg wid t) as (q & r & Hq & _ & Hrun & Hret); try done.
  rewrite Hq in H. set (ts1 := set_thread tg wid (t <| wt_status := Waiting |>) (wthreads s)).
  unfold on_proxy, flush in H. cbn [mbind outcome_bind] in H.
  destruct (deliver_all _ _) as [ts'| |] eqn:Hd; [|done|done]. injection H as <-.
  change (deliver_all (sent q) ts1 = Ret ts') in Hd. destruct (deliver_all_has_ran _ _ _ Hd) as (Hran & Hl1 & Hl2).
  set (s' := _ <| proxy ::= _ |>).
  fold (thread_index tg wid) in Hret. set (k := thread_index tg wid) in *.
  set (s1 := mk_system q ts1 (calls s)).
  assert (ran_runs s' = ran_runs s1) as Hr1.
  { apply ran_runs_ext; [|done|done]. intros tg' i. unfold ran_at. change (wthreads s') with ts'. by rewrite Hran. }
  assert (ran_runs s ≡ₚ r :: ran_runs s1) as Hr2.
  { assert (∀ tg' j, has_ran tg' j ts1 = if decide ((tg', j) = (tg, k)) then false else has_ran tg' j (wthreads s)) as Hr.
    { intros tg' j. exact (has_ran_set tg wid t _ (wthreads s) tg' j Ht). }
    apply (ran_runs_one s1 s tg k r).
    - change (wthreads s1) with ts1. rewrite the_thread_at in Ht. unfold thread_at in Ht.
      destruct tg; cbn; rewrite length_insert; by eapply lookup_lt_Some.
    - destruct tg; cbn; by rewrite ?length_insert.
    - destruct tg; cbn; by rewrite ?length_insert.
    - unfold ran_at. change (wthreads s1) with ts1. by rewrite Hr, decide_True.
    - unfold ran_at, has_ran, k. rewrite <- the_thread_at, Ht, bool_decide_true by done.
      eapply thread_run; [done|done|done|by rewrite Hst|done].
    - intros tg' j Hne. unfold ran_at. change (wthreads s1) with ts1. rewrite Hr, decide_False by done.
      change (proxy s1) with q. by rewrite (rt_others _ _ _ _ _ Hret) by done. }
  exists (option_list (run_item (heap (proxy s)) r) ++ fin). split.
  - rewrite Ha. change (live (proxy s')) with (live q). rewrite (returned_live _ _ _ _ _ (g_runs _ _ _ Hg r ltac:(
      eapply busy_run_running, thread_run; [done|done|done|by rewrite Hst|done])) Hret). solve_Permutation.
  - change (calls s') with (calls s). rewrite Hc. unfold ran_items. rewrite Hr1, (omap_perm _ _ _ Hr2).
    change (heap (proxy s')) with (heap q). rewrite (run_items_same (heap (proxy s)) (heap q)).
    + cbn. destruct (run_item (heap (proxy s)) r); cbn; solve_Permutation.
    + intros x e Hx He. eapply returned_functions; [exact Hret|]. eapply entry_of_run; [|exact He].
      exact (ran_runs_running s1 x Hx).
Qed.

Lemma accounted_step a s e s' :
  system_ok s → event_ok (proxy s) e → accounted a s → step s e = Ret s' → accounted (a ++ accepts (proxy s) e) s'.
Proof using tasks_return.
  intros Hok He Ha H. pose proof Hok as [Hg Hsent]. pose proof (g_heap _ _ _ Hg) as Hh.
  pose proof (po_idle _ (g_pool _ _ _ Hg)) as Ho.
  assert (∀ m es cs, on_proxy s m = Ret s' → (∀ q, m = Ret q → account (proxy s) q es cs ∧
    omap (entry_item (heap q)) es ++ cs ≡ₚ accepts (proxy s) e) → accounted (a ++ accepts (proxy s) e) s') as Hon.
  { intros m es cs Hm Hq. destruct m as [q| |]; [|done|done]. destruct (Hq q eq_refl).
    by eapply accounted_handler. }
  assert (∀ m, on_proxy s m = Ret s' → (∀ q, m = Ret q → account (proxy s) q [] (accepts (proxy s) e)) →
    accounted (a ++ accepts (proxy s) e) s') as Hon0.
  { intros m Hm Hq. eapply (Hon m [] (accepts (proxy s) e)); [done|]. intros q Hmq. split; [by apply Hq|done]. }
  destruct e as [o|f|cat cmd rem f|cat cmd data cb conn acc rem|id job sq th z|id|t| |tg wid|tg wid| |tg wid|skip];
    cbn [event_ok] in He.
  - cbn [step] in H. destruct (alloc o (proxy s)) as [p1 x] eqn:Hal. destruct (proxy_batch x p1) as [q| |] eqn:Hq; [|done|done].
    destruct (proxy_batch_account o (proxy s) q Hh (proj1 He)) as (es & H1 & H2); [by rewrite Hal|].
    eapply accounted_handler; [done|done|exact H1| |exact H]. by rewrite app_nil_r.
  - destruct (reply_account f (proxy s) Hh) as (es & H1 & H2).
    eapply accounted_handler; [done|done|exact H1| |exact H]. by rewrite app_nil_r.
  - apply (Hon0 _ H). intros q Hq. by eapply inject_account.
  - apply (Hon0 _ H). intros q Hq. by eapply dispatch_account; [done|apply He|].
  - apply (Hon0 _ H). intros q. unfold proxy_timer. destruct (z =? -1)%Z; [done|]. intros [= <-]. by split.
  - apply (Hon0 _ H). intros q [= <-]. unfold proxy_timer_del. destruct (timer_zmq_id _ !! id); by split.
  - cbn [step] in H. destruct (queue_timer_job t (proxy s)) as [q| |] eqn:Hq; [|done|done].
    destruct (timer_account t (proxy s) (wthreads s) q Hg Hq) as (es & H1 & H2).
    eapply accounted_handler; [done|done|exact H1| |exact H]. by rewrite app_nil_r.
  - apply (Hon0 _ H). intros q Hq. by apply process_queue_account.
  - cbn [accepts]. rewrite app_nil_r. eapply (accounted_turn a s); [done|apply He|done|exact H].
  - cbn [accepts]. rewrite app_nil_r. destruct He. by eapply (accounted_ran a s).
  - done.
  - cbn [accepts]. rewrite app_nil_r. cbn [step] in H. unfold worker_message in H.
    destruct (the_thread tg wid (wthreads s)) as [t|] eqn:Ht; [|by injection H as <-].
    destruct (decide (wt_status t = Quitting)) as [Hst|]; [|by injection H as <-].
    destruct (steady_threads _ _ tg wid t Hg Hsent Ht) as [Hst' _]. rewrite Hst in Hst'. naive_solver.
  - cbn [accepts]. rewrite app_nil_r. by injection H as <-.
Qed.

(** ** Histories *)

(** [s] was reached from a start, and [a] was accepted on the way. *)
Inductive history : list work_item → system → Prop :=
  | history_start hw ops p s :
      setups_ok (pool_new hw) ops → run_setups (pool_new hw) ops = Ret p → fits p →
      system_start p = Ret s → history [] s
  | history_step a s e s' :
      history a s → event_ok (proxy s) e → step s e = Ret s' → history (a ++ accepts (proxy s) e) s'.

Lemma history_reachable a s : history a s → reachable s.
Proof using. induction 1; [by eapply reach_start|by eapply reach_step]. Qed.

Lemma no_ran_items s : running_jobs (proxy s) = [] → ran_items s = [].
Proof using.
  intros Hr. unfold ran_items. destruct (ran_runs s) as [|r l] eqn:Hl; [done|].
  exfalso. apply (not_elem_of_nil r). rewrite <- Hr. apply ran_runs_running. rewrite Hl. left.
Qed.

Lemma history_accounted a s : history a s → accounted a s.
Proof using tasks_return.
  induction 1 as [hw ops p s Hops Hp Hfit Hs|a s e s' Hh IH He Hs].
  - destruct (start_empty p) as (s' & Hs' & _ & Hr & Hent & Hpc & Hc); [|done|].
    { eapply configured_setups; [apply configured_new|done|done]. }
    rewrite Hs in Hs'. injection Hs' as <-. exists []. rewrite (no_ran_items s Hr), Hc. split; [|done].
    unfold live, calls_of. by rewrite Hent, Hpc, Hr.
  - eapply accounted_step; [|done|done|done]. by apply reachable_ok, history_reachable with a.
Qed.

Lemma worker_event_ok p e : worker_event e → event_ok p e ∧ accepts p e = [].
Proof using. by destruct e. Qed.

Lemma history_workers es a s s' : Forall worker_event es → history a s → execute s es = Ret s' → history a s'.
Proof using.
  intros Hes. revert s. induction Hes as [|e es He _ IH]; intros s Hh H; cbn [execute] in H; [by injection H as <-|].
  destruct (step s e) as [s1| |] eqn:Hs; [|done|done]. cbn [mbind outcome_bind] in H. apply (IH s1); [|done].
  destruct (worker_event_ok (proxy s) e He) as [Hok Hacc]. rewrite <- (app_nil_r a), <- Hacc. by eapply history_step.
Qed.

(** Nothing is forgotten of what was called. *)
Lemma step_calls s e s' : step s e = Ret s' → ∃ l, calls s' = calls s ++ l.
Proof using.
  assert (∀ s1 m, on_proxy s1 m = Ret s' → calls s' = calls s1) as Hon.
  { intros s1 m. unfold on_proxy, flush. destruct m; [|done|done]. cbn [mbind outcome_bind].
    destruct (deliver_all _ _); [|done|done]. by intros [= <-]. }
  assert (∀ m, on_proxy s m = Ret s' → ∃ l, calls s' = calls s ++ l) as Hs.
  { intros m Hm. exists []. by rewrite app_nil_r, (Hon s m). }
  assert (∀ a b c tg wid, worker_message a b c tg wid s = Ret s' → ∃ l, calls s' = calls s ++ l) as Hw.
  { intros a b c tg wid. unfold worker_message. destruct (the_thread _ _ _) as [t|]; [|intros [= <-]; exists []; by rewrite app_nil_r].
    destruct (decide _); [|intros [= <-]; exists []; by rewrite app_nil_r]. intros H. exists [].
    rewrite app_nil_r. exact (Hon _ _ H). }
  destruct e; cbn [step]; try apply Hs; try apply Hw; [|intros [= <-]; exists []; by rewrite app_nil_r].
  unfold turn. destruct (the_thread _ _ _) as [t|]; [|intros [= <-]; exists []; by rewrite app_nil_r].
  destruct (the_run _ _ _) as [r|]; [|intros [= <-]; exists []; by rewrite app_nil_r].
  destruct (decide _); [|intros [= <-]; exists []; by rewrite app_nil_r].
  destruct (worker_turn _ _ _) as [[q i]| |]; [|done|done]. cbn [mbind outcome_bind]. intros [= <-]. by eexists.
Qed.
Lemma execute_calls es s s' : execute s es = Ret s' → ∃ l, calls s' = calls s ++ l.
Proof using.
  revert s. induction es as [|e es IH]; intros s H; cbn [execute] in H; [injection H as <-; exists []; by rewrite app_nil_r|].
  destruct (step s e) as [s1| |] eqn:Hs; [|done|done]. cbn [mbind outcome_bind] in H.
  destruct (IH s1 H) as [l ->]. destruct (step_calls _ _ _ Hs) as [l' ->]. exists (l' ++ l). by rewrite app_assoc.
Qed.

(** Everything was called once nothing is left. *)
Lemma drained_called a s : history a s → drained (proxy s) → call_item <$> calls s ≡ₚ a.
Proof using tasks_return.
  intros Hh [(Hb & Hr & Hp) Htag _ Hrun]. destruct (history_accounted a s Hh) as (fin & Ha & Hc).
  rewrite Hc, Ha, (no_ran_items s Hrun). unfold live, calls_of. rewrite Hp, Hrun.
  assert (entries (proxy s) = []) as ->; [|done]. unfold entries. rewrite Hb, Hr, Hrun. cbn. rewrite app_nil_r.
  apply elem_of_nil_inv. intros e. rewrite list_elem_of_join. intros (l & Hin & Hl).
  apply list_elem_of_fmap in Hl as ([[r b] q] & -> & [i Hi]%list_elem_of_lookup). cbn in Hin.
  destruct (Htag i r b q Hi) as [_ ->]. by apply not_elem_of_nil in Hin.
Qed.

(** What was called is part of what was accepted. *)
Lemma called_part a s : history a s → ∃ waiting, (call_item <$> calls s) ++ waiting ≡ₚ a.
Proof using tasks_return.
  intros Hh. pose proof (reachable_ok tasks_return s (history_reachable a s Hh)) as Hok.
  destruct (drain tasks_return (work (proxy s)) s Hok (le_n _)) as (es & s' & Hes & _ & Hx & Hd).
  pose proof (drained_called a s' (history_workers es a s s' Hes Hh Hx) Hd) as Hall.
  destruct (execute_calls _ _ _ Hx) as [l Hl]. exists (call_item <$> l). by rewrite <- fmap_app, <- Hl.
Qed.

(** C6: every job, command and injected task accepted is run exactly once (the
    completions of batches are the subject of [batch_contract]).  Whatever was submitted, received
    and configured, and however proxy and workers interleave: the functions the
    workers have called so far, with their connections, reply tags and data, are part of
    what was accepted (counted with multiplicity, so nothing runs twice and nothing else
    runs); the workers' own turns and the proxy's queue runs lead, within three
    steps per unit of work, to a state in which the functions called are exactly
    those accepted; and whenever nothing is queued or running this is already so. *)
Theorem accepted_run_once a s :
  history a s →
  (∃ waiting, (call_item <$> calls s) ++ waiting ≡ₚ a) ∧
  (drained (proxy s) → call_item <$> calls s ≡ₚ a) ∧
  (∃ es s', Forall worker_event es ∧ length es ≤ 3 * work (proxy s) + 1 ∧ execute s es = Ret s' ∧
     call_item <$> calls s' ≡ₚ a).
Proof using tasks_return.
  intros Hh. pose proof (reachable_ok tasks_return s (history_reachable a s Hh)) as Hok.
  destruct (drain tasks_return (work (proxy s)) s Hok (le_n _)) as (es & s' & Hes & Hlen & Hx & Hd).
  pose proof (drained_called a s' (history_workers es a s s' Hes Hh Hx) Hd) as Hall. split_and!.
  - by apply called_part.
  - by apply drained_called.
  - by exists es, s'.
Qed.
End system.

(** The sample with what it accepted. *)
Fixpoint run_accepted (a : list work_item) (s : system) (es : list event) : option (list work_item * system) :=
  match es with
  | [] => Some (a, s)
  | e :: es =>
      if event_okb (proxy s) e then
        match step (E := sample_eval) s e with
        | Ret s' => run_accepted (a ++ accepts (proxy s) e) s' es
        | _ => None
        end
      else None
  end.
Lemma run_accepted_history es a s a' s' :
  history (E := sample_eval) a s → run_accepted a s es = Some (a', s') → history (E := sample_eval) a' s'.
Proof.
  revert a s. induction es as [|e es IH]; intros a s Hr; cbn [run_accepted]; [by intros [= <- <-]|].
  destruct (event_okb (proxy s) e) eqn:He; [|done]. apply event_okb_spec in He.
  destruct (step s e) as [s1| |] eqn:Hs; try done. intros H. eapply IH; [|done]. by eapply history_step.
Qed.

Definition sample_run : option (list work_item * system) :=
  match sample_system with Ret s => run_accepted [] s sample_events | _ => None end.
(** The second firing of the squelched timer is skipped. *)
Definition sample_accepted : list work_item := [WJob (TUser 1); WTask 7; WJob (TUser 9); WTask 8].

Lemma sample_history : ∃ s, history (E := sample_eval) sample_accepted s.
Proof.
  assert (fst <$> sample_run = Some sample_accepted) as Ha by (vm_compute; reflexivity).
  destruct sample_run as [[a s]|] eqn:H; [|discriminate Ha]. injection Ha as ->. exists s.
  unfold sample_run, sample_system in H.
  destruct (run_setups (pool_new 8) sample_setup) as [p| |] eqn:Hp; try done.
  cbn [mbind outcome_bind] in H. destruct (system_start p) as [s0| |] eqn:Hs; try done.
  eapply run_accepted_history; [|exact H].
  apply (history_start 8 sample_setup p); [apply sample_setup_ok|exact Hp| |exact Hs].
  vm_compute in Hp. injection Hp as <-. split; vm_compute; done.
Qed.

Lemma accepted_run_once_witness :
  ∃ s es s', history (E := sample_eval) sample_accepted s ∧ execute (E := sample_eval) s es = Ret s' ∧
    call_item <$> calls s' ≡ₚ [WJob (TUser 1); WTask 7; WJob (TUser 9); WTask 8].
Proof.
  destruct sample_history as [s Hs].
  destruct (accepted_run_once (E := sample_eval) sample_returns sample_accepted s Hs) as (_ & _ & es & s' & _ & _ & Hx & Hc).
  exists s, es, s'. exact (conj Hs (conj Hx Hc)).
Defined.

(** * The reply tag of a worker *)

(** A worker is about to call the callback of a command. *)
Definition runs_command (tg : bool) (wid : Z) (s : system) (cb : command_entry) (run : run_info) : Prop :=
  (∃ t, the_thread tg wid (wthreads s) = Some t ∧ wt_status t = Running) ∧ the_run tg wid (proxy s) = Some run ∧
  is_batch_job run = false ∧ is_injected run = false ∧ to_run run = RCommand cb.

(** The event is a turn of the worker that runs a request. *)
Definition request_turn (tg : bool) (wid : Z) (s : system) (e : event) : Prop :=
  ∃ wid' cb run, e = EvTurn tg wid' ∧ thread_index tg wid' = thread_index tg wid ∧ runs_command tg wid' s (cb, true) run.

Definition tag_at (tg : bool) (i : nat) (ts : thread_set) : option bytes := wt_tag <$> thread_at tg i ts.
(** No thread is lost and none has another tag. *)
Definition tags_kept (ts ts' : thread_set) : Prop := ∀ tg i T, tag_at tg i ts = Some T → tag_at tg i ts' = Some T.
#[export] Instance tags_kept_preorder : PreOrder tags_kept.
Proof. split; [by intros ts tg i T|]. intros a b c H1 H2 tg i T H. by apply H2, H1. Qed.

Lemma tag_at_set tg wid t t' ts tg' i :
  the_thread tg wid ts = Some t →
  tag_at tg' i (set_thread tg wid t' ts) =
    if decide ((tg', i) = (tg, thread_index tg wid)) then Some (wt_tag t') else tag_at tg' i ts.
Proof.
  unfold the_thread, tag_at, thread_at, thread_index. intros Ht. destruct tg, tg'; cbn; try (by rewrite decide_False).
  all: pose proof (lookup_lt_Some _ _ _ Ht) as Hlt; case_decide as Hd; simplify_eq; [by rewrite list_lookup_insert_eq|].
  all: rewrite list_lookup_insert_ne by congruence; done.
Qed.
Lemma set_thread_tags tg wid t t' ts :
  the_thread tg wid ts = Some t → wt_tag t' = wt_tag t → tags_kept ts (set_thread tg wid t' ts).
Proof.
  intros Ht Htag tg' i T HT. rewrite (tag_at_set _ _ t) by done. case_decide as Hd; [|done]. injection Hd as -> ->.
  rewrite Htag. unfold tag_at in HT. by rewrite <- the_thread_at, Ht in HT.
Qed.

Lemma deliver_tags m ts ts' : deliver m ts = Ret ts' → tags_kept ts ts'.
Proof.
  destruct m as [id|[|c id] cmd]; cbn [deliver]; [|done|].
  - destruct (id =? _)%Z; [|done]. intros [= <-] [|] i T; [done|]. unfold tag_at, thread_at. cbn. intros HT.
    apply fmap_Some in HT as (t & Ht & ->). by rewrite (lookup_app_l_Some _ _ _ _ Ht).
  - set (tg := bool_decide _). destruct (the_thread tg (load32 id) ts) as [t|] eqn:Ht; [|done].
    destruct (worker_reads cmd t) as [t'| |] eqn:Hr; [|done|done]. intros [= <-].
    apply (set_thread_tags _ _ t); [done|]. unfold worker_reads in Hr. by destruct (wt_status t); try done; injection Hr as <-.
Qed.
Lemma deliver_all_tags ms ts ts' : deliver_all ms ts = Ret ts' → tags_kept ts ts'.
Proof.
  revert ts. induction ms as [|m ms IH]; intros ts; cbn [deliver_all]; [by intros [= <-]|].
  destruct (deliver m ts) as [ts1| |] eqn:E; [|done|done]. intros H. etrans; [by eapply deliver_tags|by apply IH].
Qed.
Lemma on_proxy_tags s m s' : on_proxy s m = Ret s' → tags_kept (wthreads s) (wthreads s').
Proof.
  unfold on_proxy, flush. destruct m as [p| |]; [|done|done]. cbn [mbind outcome_bind]. intros H.
  destruct (deliver_all _ _) as [ts| |] eqn:Hd; [|done|done]. injection H as <-. exact (deliver_all_tags _ _ _ Hd).
Qed.

Section tags.
Context {E : TaskEval}.

(** Only a request writes the tag. *)
Lemma turn_tag_kept tag run p q i :
  worker_turn tag run p = Ret (q, i) →
  (∃ cb, is_batch_job run = false ∧ is_injected run = false ∧ to_run run = RCommand (cb, true)) ∨ tag_after i tag = tag.
Proof.
  unfold worker_turn, worker_invocation. destruct (is_batch_job run).
  - destruct (to_run run) as [e|b|f]; [by intros [= <- <-]; right| |by intros [= <- <-]; right].
    destruct (heap p !! b) as [o|]; [|done]. intros H. right. destruct (0 <=? _)%Z.
    { destruct (run_job _ _); [|done|done]. injection H as <- <-. by destruct (job_function _ _). }
    destruct (_ =? _)%Z; [|by injection H as <- <-]. destruct (run_completion _ _); [|done|done]. by injection H as <- <-.
  - destruct (is_injected run); [by destruct (to_run run); intros [= <- <-]; right|].
    destruct (to_run run) as [[cb []]|b|f]; [by left; exists cb|..]; by intros [= <- <-]; right.
Qed.

Lemma step_tags s e s' tg wid T :
  step s e = Ret s' → ¬ request_turn tg wid s e →
  tag_at tg (thread_index tg wid) (wthreads s) = Some T → tag_at tg (thread_index tg wid) (wthreads s') = Some T.
Proof.
  intros Hs Hno HT.
  assert (∀ sends next cmd tg' wid', worker_message sends next cmd tg' wid' s = Ret s' → tags_kept (wthreads s) (wthreads s')) as Hm.
  { intros sends next cmd tg' wid'. unfold worker_message. destruct (the_thread _ _ _) as [t|] eqn:Ht; [|by intros [= <-]].
    destruct (decide _); [|by intros [= <-]]. intros H%on_proxy_tags. etrans; [|exact H]. by apply (set_thread_tags _ _ t). }
  destruct e as [o|f|cat cmd rem f|cat cmd data cb conn acc rem|id job sq th z|id|t| |tg' wid'|tg' wid'| |tg' wid'|skip];
    cbn [step] in Hs; try (by eapply on_proxy_tags); try (by eapply Hm).
  - destruct (alloc o (proxy s)). by eapply on_proxy_tags.
  - unfold turn in Hs. destruct (the_thread tg' wid' (wthreads s)) as [t|] eqn:Ht; [|by injection Hs as <-].
    destruct (the_run tg' wid' (proxy s)) as [run|] eqn:Hr; [|by injection Hs as <-].
    destruct (decide (wt_status t = Running)) as [Hst|]; [|by injection Hs as <-].
    destruct (worker_turn _ _ _) as [[q i]| |] eqn:Hw; [|done|done]. injection Hs as <-. cbn [wthreads modify].
    rewrite (tag_at_set _ _ t) by done. case_decide as Hd; [|done]. injection Hd as -> Hi.
    destruct (turn_tag_kept _ _ _ _ _ Hw) as [(cb & Hb & Hj & Hc)|Htag].
    + destruct Hno. exists wid', cb, run. split; [done|]. split; [done|]. split; [by exists t|]. done.
    + cbn [wt_tag]. rewrite Htag. unfold tag_at in HT. by rewrite Hi, <- the_thread_at, Ht in HT.
  - by injection Hs as <-.
Qed.

(** A schedule in which the worker runs no request. *)
Fixpoint no_request (tg : bool) (wid : Z) (s : system) (es : list event) : Prop :=
  match es with
  | [] => True
  | e :: es => ¬ request_turn tg wid s e ∧ ∀ s', step s e = Ret s' → no_request tg wid s' es
  end.

Lemma execute_tags es s s' tg wid T :
  execute s es = Ret s' → no_request tg wid s es →
  tag_at tg (thread_index tg wid) (wthreads s) = Some T → tag_at tg (thread_index tg wid) (wthreads s') = Some T.
Proof.
  revert s. induction es as [|e es IH]; intros s; cbn [execute no_request]; [by intros [= <-]|].
  destruct (step s e) as [s1| |] eqn:Hs; [|done|done]. intros Hx [Hno Hr] HT.
  apply (IH s1); [done|by apply Hr|]. by eapply step_tags.
Qed.

(** What a turn with a command does. *)
Lemma command_turn tg wid s cb run m :
  runs_command tg wid s cb run →
  (∀ T, tag_at tg (thread_index tg wid) (wthreads s) = Some T → worker_invocation T run = Ret (InvokeCommand cb m)) →
  ∃ s', step s (EvTurn tg wid) = Ret s' ∧ calls s' = calls s ++ [InvokeCommand cb m] ∧
    tag_at tg (thread_index tg wid) (wthreads s') = Some (reply_tag m).
Proof.
  intros ((t & Ht & Hst) & Hr & Hb & _ & _) Hi. cbn [step]. unfold turn. rewrite Ht, Hr, decide_True by done.
  unfold worker_turn. rewrite Hb, (Hi (wt_tag t)) by (unfold tag_at; by rewrite <- the_thread_at, Ht).
  cbn [mbind outcome_bind]. eexists. split; [done|]. split; [done|]. cbn [wthreads modify].
  rewrite (tag_at_set _ _ t), decide_True by done. done.
Qed.

(** C36: the reply tag of a request stays with the worker.  A worker's [Message] is
    reused and its [reply_tag] is only written for requests: once a worker has run a
    request with tag [T], then whatever happens short of another request on that
    worker (other work of its own included), the next command it runs that is not a
    request is called with the tag [T] of that request, which may have come from
    another connection.  [DeferredSend::operator()], which looks at the tag to tell
    requests from other commands, then takes it for a request. *)
Theorem stale_reply_tag tg wid s cb run T data s1 es s2 cb' run' :
  runs_command tg wid s (cb, true) run → run_data run = T :: data → step s (EvTurn tg wid) = Ret s1 →
  no_request tg wid s1 es → execute s1 es = Ret s2 → runs_command tg wid s2 (cb', false) run' →
  calls s1 = calls s ++ [InvokeCommand (cb, true) (mk_message (run_conn run) (run_access run) (run_remote run) T data)] ∧
  ∃ s3, step s2 (EvTurn tg wid) = Ret s3 ∧
    calls s3 = calls s2 ++ [InvokeCommand (cb', false)
      (mk_message (run_conn run') (run_access run') (run_remote run') T (run_data run'))].
Proof.
  intros Hc Hd Hs Hno Hx Hc'.
  destruct (command_turn tg wid s (cb, true) run (mk_message (run_conn run) (run_access run) (run_remote run) T data) Hc)
    as (s1' & Hs1 & Hcalls & HT).
  { intros T' _. destruct Hc as (_ & _ & _ & Hj & Hrun). unfold worker_invocation. by rewrite Hj, Hrun, Hd. }
  rewrite Hs in Hs1. injection Hs1 as <-. split; [done|].
  pose proof (execute_tags _ _ _ _ _ _ Hx Hno HT) as HT2.
  destruct (command_turn tg wid s2 (cb', false) run' (mk_message (run_conn run') (run_access run') (run_remote run') T (run_data run')) Hc')
    as (s3 & Hs3 & Hcalls3 & _).
  { intros T' HT'. rewrite HT2 in HT'. injection HT' as <-. destruct Hc' as (_ & _ & _ & Hj & Hrun).
    unfold worker_invocation. by rewrite Hj, Hrun. }
  by exists s3.
Qed.
End tags.

(** Worker 0 runs a request of connection 3 and then a command of connection 4. *)
Definition ask_events : list event :=
  [EvCommand (B "c") (B "c.ask") [B "TAG"; B "data"] (1, true) (conn_of_id 3) Access_default []].
Definition tell_events : list event :=
  [EvRan false 0; EvCommand (B "c") (B "c.tell") [B "news"] (2, false) (conn_of_id 4) Access_default []].
Definition asked_system : outcome system := s ← sample_system; execute (E := sample_eval) s ask_events.

Lemma stale_reply_tag_witness :
  ∃ s s1 s2 s3, asked_system = Ret s ∧ step (E := sample_eval) s (EvTurn false 0) = Ret s1 ∧
    execute (E := sample_eval) s1 tell_events = Ret s2 ∧ step (E := sample_eval) s2 (EvTurn false 0) = Ret s3 ∧
    calls s3 = calls s2 ++ [InvokeCommand (2, false) (mk_message (conn_of_id 4) Access_default [] (B "TAG") [B "news"])].
Proof.
  destruct asked_system as [s| |] eqn:Hs; [|vm_compute in Hs; discriminate Hs..]. vm_compute in Hs. injection Hs as <-.
  match goal with |- context [@Ret system ?x = Ret _] => set (s := x) end.
  destruct (step (E := sample_eval) s (EvTurn false 0)) as [s1| |] eqn:H1; [|vm_compute in H1; discriminate H1..].
  destruct (execute (E := sample_eval) s1 tell_events) as [s2| |] eqn:H2.
  2,3: vm_compute in H1; injection H1 as <-; vm_compute in H2; discriminate H2.
  destruct (the_run false 0 (proxy s)) as [r|] eqn:Hr; [|vm_compute in Hr; discriminate Hr].
  destruct (the_run false 0 (proxy s2)) as [r2|] eqn:Hr2.
  2: vm_compute in H1; injection H1 as <-; vm_compute in H2; injection H2 as <-; vm_compute in Hr2; discriminate Hr2.
  destruct (stale_reply_tag (E := sample_eval) false 0 s 1 r (B "TAG") [B "data"] s1 tell_events s2 2 r2)
    as (_ & s3 & H3 & Hc).
  - split; [eexists; split; vm_compute; reflexivity|]. split; [exact Hr|].
    vm_compute in Hr. injection Hr as <-. split; [|split]; reflexivity.
  - vm_compute in Hr. injection Hr as <-. reflexivity.
  - exact H1.
  - split; [by intros (w & c & x & He & _)|]. intros s' _. split; [by intros (w & c & x & He & _)|]. intros s'' _. exact I.
  - exact H2.
  - split; [|split; [exact Hr2|]].
    + clear Hr2. vm_compute in H1. injection H1 as <-. vm_compute in H2. injection H2 as <-.
      eexists; split; vm_compute; reflexivity.
    + vm_compute in H1. injection H1 as <-. vm_compute in H2. injection H2 as <-. vm_compute in Hr2. injection Hr2 as <-.
      split; [|split]; reflexivity.
  - exists s, s1, s2, s3. split; [reflexivity|]. split; [exact H1|]. split; [exact H2|]. split; [exact H3|].
    rewrite Hc. clear H3 Hc. vm_compute in H1. injection H1 as <-. vm_compute in H2. injection H2 as <-.
    vm_compute in Hr2. injection Hr2 as <-. reflexivity.
Defined.
