(* ===== verification/Options.v ===== *)
(** * Options: control dictionaries

    [send], [request], [connect_remote], [connect_sn], [connect_inproc],
    [disconnect] and the replies of [Message] (end of [oxenmq.h],
    [connections.cpp]) describe what they want in a dictionary that is sent to
    the proxy, where [proxy_send], [proxy_connect_remote], [proxy_connect_sn]
    and [proxy_disconnect] read it back.  A dictionary is a [std::map] from keys
    to values; the proxy consumes it in key order, so that skipping to a key is
    a lookup.  An object passed by pointer ([serialize_object], see [Handover]) is a value of
    its own. *)
From S2P Require Import Prelude Bytes Auth ConnId Commands Address.
Open Scope Z_scope.
Open Scope nat_scope.

Inductive bt_value :=
  | BInt (z : Z)
  | BStr (s : bytes)
  | BList (l : list bytes)
  | BObj (cb : callback).
Abbreviation bt_dict := (gmap bytes bt_value).

Definition BBool (b : bool) : bt_value := BInt (Z.b2z b).

(** ** Reading *)

Definition bt_invalid {A} : outcome A := Throw (runtime_error (B "bt_deserialize_invalid")).

(** [if (data.skip_until(key)) x = data.consume_...()] with [x] initialised to
    [x0].  [consume_integer] refuses values outside its type. *)
Definition consume_int (d : bt_dict) (key : bytes) (x0 : Z) : outcome Z :=
  match d !! key with None => Ret x0 | Some (BInt z) => Ret z | Some _ => bt_invalid end.
Definition consume_uint (d : bt_dict) (key : bytes) (x0 : Z) : outcome Z :=
  match d !! key with
  | None => Ret x0
  | Some (BInt z) => if (z <? 0)%Z then bt_invalid else Ret z
  | Some _ => bt_invalid
  end.
Definition consume_bool (d : bt_dict) (key : bytes) (x0 : bool) : outcome bool :=
  match d !! key with
  | None => Ret x0
  | Some (BInt z) =>
      if (z =? 0)%Z then Ret false else if (z =? 1)%Z then Ret true else bt_invalid
  | Some _ => bt_invalid
  end.
Definition consume_string (d : bt_dict) (key : bytes) (x0 : bytes) : outcome bytes :=
  match d !! key with None => Ret x0 | Some (BStr s) => Ret s | Some _ => bt_invalid end.
Definition consume_object (d : bt_dict) (key : bytes) : outcome (option callback) :=
  match d !! key with None => Ret None | Some (BObj cb) => Ret (Some cb) | Some _ => bt_invalid end.

Definition has (d : bt_dict) (key : bytes) : bool := bool_decide (is_Some (d !! key)).

(** A key that must be there. *)
Definition require (d : bt_dict) (key what : bytes) : outcome () :=
  if has d key then Ret () else Throw (runtime_error what).

(** ** [send] and [request] *)

(** Times are in milliseconds. *)
Definition DEFAULT_SEND_KEEP_ALIVE : Z := 30000.
Definition DEFAULT_REQUEST_TIMEOUT : Z := 15000.
Definition DEFAULT_CONNECT_SN_KEEP_ALIVE : Z := 300000.
Definition REMOTE_CONNECT_TIMEOUT : Z := 10000.
Definition INPROC_CONNECT_TIMEOUT : Z := 50.

(** The arguments [send] accepts after the command. *)
Inductive send_option :=
  | OString (arg : bytes)
  | ONone
  | OSome (opt : send_option)
  | ODataParts (data : list bytes)
  | OHint (connect_hint : bytes)
  | OOptional (is_optional : bool)
  | OIncoming (is_incoming : bool)
  | OOutgoing (is_outgoing : bool)
  | OKeepAlive (time : Z)
  | ORequestTimeout (time : Z)
  | OQueueFailure (cb : callback)
  | OQueueFull (cb : callback).

(** The overloads of [apply_send_option].  A callback is a handle, so the empty
    [std::function] a caller could pass to the last two is not represented. *)
Fixpoint apply_send_option (pd : list bytes * bt_dict) (o : send_option) : list bytes * bt_dict :=
  let '(parts, control_data) := pd in
  match o with
  | OString arg => (parts ++ [arg], control_data)
  | ONone => pd
  | OSome opt => apply_send_option pd opt
  | ODataParts data => (parts ++ data, control_data)
  | OHint h => if bool_decide (h = []) then pd else (parts, <[ B "hint" := BStr h ]> control_data)
  | OOptional b => (parts, <[ B "optional" := BBool b ]> control_data)
  | OIncoming b => (parts, <[ B "incoming" := BBool b ]> control_data)
  | OOutgoing b => (parts, <[ B "outgoing" := BBool b ]> control_data)
  | OKeepAlive t =>
      if (0 <=? t)%Z then (parts, <[ B "keep_alive" := BInt t ]> control_data) else pd
  | ORequestTimeout t =>
      if (0 <=? t)%Z then (parts, <[ B "request_timeout" := BInt t ]> control_data) else pd
  | OQueueFailure cb => (parts, <[ B "send_fail" := BObj cb ]> control_data)
  | OQueueFull cb => (parts, <[ B "send_full_q" := BObj cb ]> control_data)
  end.

Definition build_send (to : ConnectionID) (cmd : bytes) (opts : list send_option) : bt_dict :=
  let '(parts, control_data) := foldl apply_send_option ([cmd], ∅) opts in
  let control_data :=
    if conn_sn to then <[ B "conn_pubkey" := BStr (conn_pk to) ]> control_data
    else <[ B "conn_route" := BStr (conn_route to) ]>
         (<[ B "conn_id" := BInt (conn_id to) ]> control_data) in
  <[ B "send" := BList parts ]> control_data.

(** The dictionary of [request]; [reply_tag] is the random string. *)
Definition request (to : ConnectionID) (cmd : bytes) (callback : callback) (reply_tag : bytes)
    (opts : list send_option) : bt_dict :=
  <[ B "request_tag" := BStr reply_tag ]>
  (<[ B "request_callback" := BObj callback ]>
  (<[ B "request" := BBool true ]> (build_send to cmd (OString reply_tag :: opts)))).

(** [Message::send_back], [Message::send_reply] (and their [DeferredSend]
    versions); [send_reply] asserts a tag. *)
Definition send_back (conn : ConnectionID) (command : bytes) (args : list send_option) : bt_dict :=
  build_send conn command (OOptional (negb (conn_sn conn)) :: args).
Definition send_reply (conn : ConnectionID) (reply_tag : bytes) (args : list send_option) :
    outcome bt_dict :=
  if bool_decide (reply_tag = []) then Undef
  else Ret (build_send conn (B "REPLY")
         (OString reply_tag :: OOptional (negb (conn_sn conn)) :: args)).
Definition send_request (conn : ConnectionID) (cmd : bytes) (callback : callback)
    (reply_tag : bytes) (args : list send_option) : bt_dict :=
  request conn cmd callback reply_tag (OOptional (negb (conn_sn conn)) :: args).

(** [DeferredSend::operator()] with a string as first argument. *)
Definition deferred_call (conn : ConnectionID) (reply_tag arg : bytes) (args : list send_option) :
    outcome bt_dict :=
  if bool_decide (reply_tag = []) then Ret (send_back conn arg args)
  else send_reply conn reply_tag (OString arg :: args).

(** What [proxy_send] reads before it starts sending. *)
Record send_command := mk_send {
  sc_conn : ConnectionID;
  sc_hint : bytes;
  sc_incoming : bool;
  sc_keep_alive : Z;
  sc_optional : bool;
  sc_outgoing : bool;
  sc_request : option (callback * bytes);
  sc_request_timeout : Z;
  sc_parts : list bytes;
  sc_fail : option callback;
  sc_full : option callback;
}.
#[export] Instance send_command_rebuild : Rebuild send_command := λ s,
  mk_send (sc_conn s) (sc_hint s) (sc_incoming s) (sc_keep_alive s) (sc_optional s)
    (sc_outgoing s) (sc_request s) (sc_request_timeout s) (sc_parts s) (sc_fail s) (sc_full s).

(** The connection a SEND or REPLY dictionary names. *)
Definition parse_conn (d : bt_dict) : outcome ConnectionID :=
  id ← consume_int d (B "conn_id") 0;
  if has d (B "conn_id") && (id =? -1)%Z then
    Throw (runtime_error (B "Invalid error: invalid conn_id value (-1)"))
  else if has d (B "conn_pubkey") then
    if has d (B "conn_id") then
      Throw (runtime_error
        (B "Internal error: Invalid proxy send command; conn_id and conn_pubkey are exclusive"))
    else
      pk ← consume_string d (B "conn_pubkey") [];
      route ← consume_string d (B "conn_route") [];
      Ret (mk_conn SN_ID pk route)
  else if negb (has d (B "conn_id")) then
    Throw (runtime_error
      (B "Internal error: Invalid proxy send command; conn_pubkey or conn_id missing"))
  else
    route ← consume_string d (B "conn_route") [];
    Ret (mk_conn id [] route).

(** The request part, when the flag is set. *)
Definition parse_request_data (d : bt_dict) : outcome (option (callback * bytes)) :=
  _ ← require d (B "request_callback") (B "Internal error: received request without request_callback");
  cb ← consume_object d (B "request_callback");
  _ ← require d (B "request_tag") (B "Internal error: received request without request_name");
  tag ← consume_string d (B "request_tag") [];
  Ret (match cb with Some c => Some (c, tag) | None => None end).
Definition parse_request (d : bt_dict) : outcome (option (callback * bytes)) :=
  request ← consume_bool d (B "request") false;
  (if (request : bool) then parse_request_data d else Ret None).

Definition consume_list (d : bt_dict) (key : bytes) : outcome (list bytes) :=
  match d !! key with Some (BList l) => Ret l | _ => bt_invalid end.

Definition parse_request_timeout (d : bt_dict) (request : bool) : outcome Z :=
  if request then consume_uint d (B "request_timeout") DEFAULT_REQUEST_TIMEOUT
  else Ret DEFAULT_REQUEST_TIMEOUT.

Definition parse_send (d : bt_dict) : outcome send_command :=
  conn ← parse_conn d;
  hint ← consume_string d (B "hint") [];
  incoming ← consume_bool d (B "incoming") false;
  keep_alive ← consume_uint d (B "keep_alive") DEFAULT_SEND_KEEP_ALIVE;
  optional ← consume_bool d (B "optional") false;
  outgoing ← consume_bool d (B "outgoing") false;
  request ← parse_request d;
  request_timeout ← parse_request_timeout d (bool_decide (is_Some request));
  _ ← require d (B "send") (B "Internal error: Invalid proxy send command; send parts missing");
  parts ← consume_list d (B "send");
  fail ← consume_object d (B "send_fail");
  full ← consume_object d (B "send_full_q");
  Ret (mk_send conn hint incoming keep_alive optional outgoing request request_timeout parts fail full).

(** * What the options mean *)

(** The command an empty option list stands for. *)
Definition send_default (to : ConnectionID) (cmd : bytes) : send_command :=
  mk_send (if conn_sn to then mk_conn SN_ID (conn_pk to) [] else mk_conn (conn_id to) [] (conn_route to))
    [] false DEFAULT_SEND_KEEP_ALIVE false false None DEFAULT_REQUEST_TIMEOUT [cmd] None None.

(** Options act from left to right; a later one overrides an earlier one, an
    empty hint or a negative time counts as absent. *)
Fixpoint send_effect (s : send_command) (o : send_option) : send_command :=
  match o with
  | OString arg => s <| sc_parts ::= (λ l, l ++ [arg]) |>
  | ONone => s
  | OSome opt => send_effect s opt
  | ODataParts data => s <| sc_parts ::= (λ l, l ++ data) |>
  | OHint h => if bool_decide (h = []) then s else s <| sc_hint := h |>
  | OOptional b => s <| sc_optional := b |>
  | OIncoming b => s <| sc_incoming := b |>
  | OOutgoing b => s <| sc_outgoing := b |>
  | OKeepAlive t => if (0 <=? t)%Z then s <| sc_keep_alive := t |> else s
  | ORequestTimeout t => if (0 <=? t)%Z then s <| sc_request_timeout := t |> else s
  | OQueueFailure cb => s <| sc_fail := Some cb |>
  | OQueueFull cb => s <| sc_full := Some cb |>
  end.

Definition send_meaning (to : ConnectionID) (cmd : bytes) (opts : list send_option) : send_command :=
  foldl send_effect (send_default to cmd) opts.

(** Evaluate lookups in a dictionary with literal keys. *)
Ltac key_ne := let H := fresh in intros H; vm_compute in H; discriminate H.
Ltac dict := repeat first [rewrite lookup_insert_eq | rewrite lookup_insert_ne by key_ne].

(** The options part of a dictionary says what [s] says. *)
Record encodes (d : bt_dict) (s : send_command) : Prop := {
  en_hint : consume_string d (B "hint") [] = Ret (sc_hint s);
  en_incoming : consume_bool d (B "incoming") false = Ret (sc_incoming s);
  en_keep_alive : consume_uint d (B "keep_alive") DEFAULT_SEND_KEEP_ALIVE = Ret (sc_keep_alive s);
  en_optional : consume_bool d (B "optional") false = Ret (sc_optional s);
  en_outgoing : consume_bool d (B "outgoing") false = Ret (sc_outgoing s);
  en_timeout : consume_uint d (B "request_timeout") DEFAULT_REQUEST_TIMEOUT = Ret (sc_request_timeout s);
  en_fail : consume_object d (B "send_fail") = Ret (sc_fail s);
  en_full : consume_object d (B "send_full_q") = Ret (sc_full s);
  en_free : Forall (λ k, d !! k = None)
    [B "conn_id"; B "conn_pubkey"; B "conn_route"; B "request"; B "request_callback"; B "request_tag"];
}.

Ltac consume :=
  unfold consume_string, consume_bool, consume_uint, consume_object, consume_int, consume_list, has, require in *;
  dict.

Lemma consume_BBool d k b x0 : consume_bool (<[ k := BBool b ]> d) k x0 = Ret b.
Proof. unfold consume_bool. rewrite lookup_insert_eq. by destruct b. Qed.

(** One more key of the options part. *)
Ltac encode_key Hd :=
  split; [|done]; destruct Hd as [? ? ? ? ? ? ? ? Hf];
  split; cbn; try apply consume_BBool; try (by consume);
  repeat (apply Forall_cons in Hf as [? Hf]); try (repeat constructor; by dict).

Lemma encodes_apply o parts d s :
  encodes d s → parts = sc_parts s →
  let pd := apply_send_option (parts, d) o in
  encodes (snd pd) (send_effect s o) ∧ fst pd = sc_parts (send_effect s o).
Proof.
  intros Hd ->. induction o as [| |o IH| | | | | |time|time| |]; try (split; [by destruct Hd|done]); [exact IH|..];
    cbn [apply_send_option send_effect]; try (by encode_key Hd).
  - case_bool_decide; [done|]. by encode_key Hd.
  - destruct (Z.leb_spec 0 time) as [Ht|Ht]; [|done]. encode_key Hd. consume. by rewrite (proj2 (Z.ltb_ge _ _)).
  - destruct (Z.leb_spec 0 time) as [Ht|Ht]; [|done]. encode_key Hd. consume. by rewrite (proj2 (Z.ltb_ge _ _)).
Qed.

Lemma encodes_fold opts parts d s :
  encodes d s → parts = sc_parts s →
  let pd := foldl apply_send_option (parts, d) opts in
  encodes (snd pd) (foldl send_effect s opts) ∧ fst pd = sc_parts (foldl send_effect s opts).
Proof.
  revert parts d s. induction opts as [|o opts IH]; intros parts d s Hd Hp; [done|]. cbn [foldl].
  destruct (encodes_apply o parts d s Hd Hp) as [Hd' Hp'].
  destruct (apply_send_option (parts, d) o) as [parts' d']. by apply IH.
Qed.

(** Options say nothing of the connection and the request. *)
Lemma send_effect_conn s o :
  sc_conn (send_effect s o) = sc_conn s ∧ sc_request (send_effect s o) = sc_request s.
Proof. induction o; cbn; repeat case_match; done. Qed.

Lemma send_meaning_conn to cmd opts :
  sc_conn (send_meaning to cmd opts) = sc_conn (send_default to cmd) ∧
  sc_request (send_meaning to cmd opts) = None.
Proof.
  unfold send_meaning. assert (sc_request (send_default to cmd) = None) as <- by done.
  generalize (send_default to cmd) as s. induction opts as [|o opts IH]; intros s; [done|]. cbn [foldl].
  destruct (IH (send_effect s o)) as [-> ->]. apply send_effect_conn.
Qed.

Lemma encodes_default to cmd : encodes ∅ (send_default to cmd).
Proof. split; try done. repeat constructor. Qed.

(** The dictionary of [build_send], its connection keys and its options. *)
Lemma build_send_reads to cmd opts :
  let d := build_send to cmd opts in
  let s := send_meaning to cmd opts in
  parse_conn d = Ret (sc_conn s) ∧ consume_list d (B "send") = Ret (sc_parts s) ∧
  has d (B "send") = true ∧
  consume_string d (B "hint") [] = Ret (sc_hint s) ∧
  consume_bool d (B "incoming") false = Ret (sc_incoming s) ∧
  consume_uint d (B "keep_alive") DEFAULT_SEND_KEEP_ALIVE = Ret (sc_keep_alive s) ∧
  consume_bool d (B "optional") false = Ret (sc_optional s) ∧
  consume_bool d (B "outgoing") false = Ret (sc_outgoing s) ∧
  consume_uint d (B "request_timeout") DEFAULT_REQUEST_TIMEOUT = Ret (sc_request_timeout s) ∧
  consume_object d (B "send_fail") = Ret (sc_fail s) ∧
  consume_object d (B "send_full_q") = Ret (sc_full s) ∧ d !! B "request" = None.
Proof.
  cbv zeta. unfold build_send.
  destruct (encodes_fold opts [cmd] ∅ (send_default to cmd) (encodes_default to cmd) eq_refl) as [Hd Hp].
  destruct (send_meaning_conn to cmd opts) as [Hc _]. rewrite Hc. fold (send_meaning to cmd opts) in Hd, Hp.
  destruct (foldl apply_send_option ([cmd], ∅) opts) as [parts d]. cbn [fst snd] in Hd, Hp. subst parts.
  destruct Hd as [? ? ? ? ? ? ? ? Hf]. apply Forall_cons in Hf as [K1 Hf]. apply Forall_cons in Hf as [K2 Hf].
  apply Forall_cons in Hf as [K3 Hf]. apply Forall_cons in Hf as [K4 _].
  unfold send_default, parse_conn. cbn [sc_conn]. destruct (conn_sn to) eqn:Hsn; cbv zeta; consume.
  - rewrite K1, K3. cbn. by split_and!.
  - unfold conn_sn, SN_ID in Hsn. rewrite K2. cbn. rewrite Hsn. cbn. by split_and!.
Qed.

Lemma parse_build_send to cmd opts :
  parse_send (build_send to cmd opts) =
    Ret ((send_meaning to cmd opts) <| sc_request_timeout := DEFAULT_REQUEST_TIMEOUT |>).
Proof.
  destruct (build_send_reads to cmd opts) as (H1 & H2 & H3 & H4 & H5 & H6 & H7 & H8 & H9 & H10 & H11 & H12).
  destruct (send_meaning_conn to cmd opts) as [_ Hr].
  unfold parse_send, parse_request. rewrite H1, H4, H5, H6, H7, H8. unfold consume_bool at 1. rewrite H12.
  cbn [mbind outcome_bind]. unfold require. rewrite H3, H2, H10, H11. cbn.
  destruct (send_meaning to cmd opts). cbn in *. by subst.
Qed.

Lemma parse_request_dict to cmd cb tag opts :
  parse_send (request to cmd cb tag opts) =
    Ret ((send_meaning to cmd (OString tag :: opts)) <| sc_request := Some (cb, tag) |>).
Proof.
  destruct (build_send_reads to cmd (OString tag :: opts))
    as (H1 & H2 & H3 & H4 & H5 & H6 & H7 & H8 & H9 & H10 & H11 & H12).
  unfold parse_send, parse_request, parse_request_data, request. set (d := build_send _ _ _) in *.
  assert (∀ k, k ≠ B "request_tag" → k ≠ B "request_callback" → k ≠ B "request" →
    <[ B "request_tag" := BStr tag ]> (<[ B "request_callback" := BObj cb ]>
      (<[ B "request" := BBool true ]> d)) !! k = d !! k) as Hk.
  { intros k ???. by rewrite !lookup_insert_ne. }
  set (d' := <[ B "request_tag" := _ ]> _) in *.
  assert (parse_conn d' = parse_conn d) as ->.
  { unfold parse_conn, consume_int, consume_string, has. rewrite !Hk by key_ne. done. }
  unfold consume_string, consume_bool, consume_uint, consume_object, consume_list, has in H2, H3, H4, H5, H6, H7, H8, H9, H10, H11.
  rewrite H1. cbn [mbind outcome_bind].
  unfold consume_string, consume_bool, consume_uint, consume_object, consume_list, require, has, parse_request_timeout, consume_uint.
  rewrite (Hk (B "hint")), (Hk (B "incoming")), (Hk (B "keep_alive")), (Hk (B "optional")),
    (Hk (B "outgoing")), (Hk (B "request_timeout")), (Hk (B "send")), (Hk (B "send_fail")),
    (Hk (B "send_full_q")) by key_ne.
  rewrite H4, H5, H6, H7, H8, H3. cbn [mbind outcome_bind].
  unfold d'. dict. cbn [BBool Z.b2z Z.eqb Pos.eqb mbind outcome_bind].
  rewrite !bool_decide_true by (by eexists). cbn [mbind outcome_bind].
  rewrite H9, H2, H10, H11. cbn [mbind outcome_bind].
  by destruct (send_meaning to cmd (OString tag :: opts)).
Qed.

(** C33: what a caller asks for is what the proxy does.  For every destination and
    option list, the dictionary that [send] or [request] builds is read back by
    [proxy_send] as exactly the meaning of the options: the command and the
    string arguments and data parts in order, the last of repeated options,
    defaults for absent ones, empty hints and negative times ignored. *)
Theorem send_roundtrip to cmd opts :
  parse_send (build_send to cmd opts) =
    Ret ((send_meaning to cmd opts) <| sc_request_timeout := DEFAULT_REQUEST_TIMEOUT |>) ∧
  (∀ cb tag, parse_send (request to cmd cb tag opts) =
    Ret ((send_meaning to cmd (OString tag :: opts)) <| sc_request := Some (cb, tag) |>)).
Proof. split; [apply parse_build_send|intros cb tag; apply parse_request_dict]. Qed.

(** * Connecting *)

(** The arguments [connect_remote], [connect_sn] and [connect_inproc] accept; the
    last two are the deprecated bare time and bare string. *)
Inductive connect_option :=
  | CAuth (auth : AuthLevel)
  | CEphemeral (use : bool)
  | CTimeout (time : Z)
  | CKeepAlive (time : Z)
  | CHint (address : bytes)
  | CMilliseconds (time : Z)
  | CString (hint : bytes).

(** The overloads of [apply_connect_option], less the warnings they log. *)
Definition apply_connect_option (remote : bool) (opts : bt_dict) (o : connect_option) : bt_dict :=
  match o with
  | CAuth a => if remote then <[ B "auth_level" := BInt a ]> opts else opts
  | CEphemeral b => <[ B "ephemeral_rid" := BBool b ]> opts
  | CTimeout t => if remote then <[ B "timeout" := BInt t ]> opts else opts
  | CKeepAlive t =>
      if (t <? 0)%Z then opts
      else if negb remote then <[ B "keep_alive" := BInt t ]> opts else opts
  | CHint h =>
      if bool_decide (h = []) then opts
      else if negb remote then <[ B "hint" := BStr h ]> opts else opts
  | CMilliseconds t =>
      if remote then <[ B "timeout" := BInt t ]> opts else <[ B "keep_alive" := BInt t ]> opts
  | CString h => if negb remote then <[ B "hint" := BStr h ]> opts else opts
  end.

(** [id] is the value taken from [next_conn_id]. *)
Definition connect_remote (remote : address) (on_connect on_failure : callback) (id : Z)
    (options : list connect_option) : bt_dict :=
  let opts := foldl (apply_connect_option true) ∅ options in
  let opts := <[ B "failure" := BObj on_failure ]>
    (<[ B "connect" := BObj on_connect ]> (<[ B "conn_id" := BInt id ]> opts)) in
  let opts := if is_curve remote then <[ B "pubkey" := BStr (pubkey remote) ]> opts else opts in
  <[ B "remote" := BStr (zmq_address remote) ]> opts.

(** [std::chrono::microseconds{DEFAULT_CONNECT_SN_KEEP_ALIVE}.count()]. *)
Definition connect_sn (ephemeral : bool) (pubkey : bytes) (options : list connect_option) : bt_dict :=
  let opts := <[ B "keep_alive" := BInt (DEFAULT_CONNECT_SN_KEEP_ALIVE * 1000) ]>
    (<[ B "ephemeral_rid" := BBool ephemeral ]> ∅) in
  <[ B "pubkey" := BStr pubkey ]> (foldl (apply_connect_option false) opts options).

Definition connect_inproc (on_connect on_failure : callback) (id : Z)
    (options : list connect_option) : bt_dict :=
  let opts := <[ B "timeout" := BInt INPROC_CONNECT_TIMEOUT ]>
    (<[ B "auth_level" := BInt admin ]> ∅) in
  let opts := foldl (apply_connect_option true) opts options in
  <[ B "remote" := BStr (B "inproc://sn-self") ]>
  (<[ B "failure" := BObj on_failure ]>
  (<[ B "connect" := BObj on_connect ]> (<[ B "conn_id" := BInt id ]> opts))).

Definition disconnect (id : ConnectionID) (linger : Z) : bt_dict :=
  <[ B "conn_id" := BInt (conn_id id) ]>
  (<[ B "linger_ms" := BInt linger ]> (<[ B "pubkey" := BStr (conn_pk id) ]> ∅)).

(** What [proxy_connect_remote] reads. *)
Record connect_command := mk_connect {
  cc_auth : AuthLevel;
  cc_conn_id : Z;
  cc_connect : option callback;
  cc_ephemeral : bool;
  cc_failure : option callback;
  cc_pubkey : bytes;
  cc_remote : bytes;
  cc_timeout : Z;
}.
#[export] Instance connect_command_rebuild : Rebuild connect_command := λ c,
  mk_connect (cc_auth c) (cc_conn_id c) (cc_connect c) (cc_ephemeral c) (cc_failure c)
    (cc_pubkey c) (cc_remote c) (cc_timeout c).

Definition parse_connect_remote (EPHEMERAL_ROUTING_ID : bool) (d : bt_dict) : outcome connect_command :=
  auth ← consume_int d (B "auth_level") none;
  id ← consume_int d (B "conn_id") (-1);
  connect ← consume_object d (B "connect");
  ephemeral ← consume_bool d (B "ephemeral_rid") EPHEMERAL_ROUTING_ID;
  failure ← consume_object d (B "failure");
  pk ← consume_string d (B "pubkey") [];
  if negb (length pk =? 32) && negb (bool_decide (pk = [])) then Undef (* assert *)
  else
    remote ← consume_string d (B "remote") [];
    timeout ← consume_uint d (B "timeout") REMOTE_CONNECT_TIMEOUT;
    if (id =? -1)%Z || bool_decide (remote = []) then
      Throw (runtime_error
        (B "Internal error: CONNECT_REMOTE proxy command missing required 'conn_id' and/or 'remote' value"))
    else Ret (mk_connect auth id connect ephemeral failure pk remote timeout).

(** What [proxy_connect_sn(bt_dict_consumer)] reads.  [keep_alive] has no
    initial value in the source: reading it without the key is undefined. *)
Record connect_sn_command := mk_connect_sn {
  cs_pubkey : bytes;
  cs_hint : bytes;
  cs_optional : bool;
  cs_incoming : bool;
  cs_outgoing : bool;
  cs_ephemeral : bool;
  cs_keep_alive : Z;
}.
#[export] Instance connect_sn_command_rebuild : Rebuild connect_sn_command := λ c,
  mk_connect_sn (cs_pubkey c) (cs_hint c) (cs_optional c) (cs_incoming c) (cs_outgoing c)
    (cs_ephemeral c) (cs_keep_alive c).

Definition parse_connect_sn (EPHEMERAL_ROUTING_ID : bool) (d : bt_dict) : outcome connect_sn_command :=
  ephemeral ← consume_bool d (B "ephemeral_rid") EPHEMERAL_ROUTING_ID;
  hint ← consume_string d (B "hint") [];
  incoming ← consume_bool d (B "incoming") false;
  keep_alive ← consume_uint d (B "keep_alive") 0;
  optional ← consume_bool d (B "optional") false;
  outgoing_only ← consume_bool d (B "outgoing_only") false;
  _ ← require d (B "pubkey") (B "Internal error: Invalid proxy_connect_sn command; pubkey missing");
  pk ← consume_string d (B "pubkey") [];
  if negb (has d (B "keep_alive")) then Undef
  else Ret (mk_connect_sn pk hint optional incoming outgoing_only ephemeral keep_alive).

Definition parse_disconnect (d : bt_dict) : outcome (ConnectionID * Z) :=
  id ← consume_int d (B "conn_id") (-1);
  linger ← consume_int d (B "linger_ms") 1000;
  pk ← consume_string d (B "pubkey") [];
  let connid := mk_conn id pk [] in
  if conn_sn connid && negb (length pk =? 32) then
    Throw (runtime_error (B "Error: invalid disconnect of SN without a valid pubkey"))
  else Ret (connid, linger).

(** The meaning of the options for [connect_sn]. *)
Definition connect_sn_effect (c : connect_sn_command) (o : connect_option) : connect_sn_command :=
  match o with
  | CEphemeral b => c <| cs_ephemeral := b |>
  | CKeepAlive t => if (t <? 0)%Z then c else c <| cs_keep_alive := t |>
  | CHint h => if bool_decide (h = []) then c else c <| cs_hint := h |>
  | CMilliseconds t => c <| cs_keep_alive := t |>
  | CString h => c <| cs_hint := h |>
  | CAuth _ | CTimeout _ => c
  end.

Record encodes_sn (d : bt_dict) (c : connect_sn_command) : Prop := {
  es_ephemeral : d !! B "ephemeral_rid" = Some (BBool (cs_ephemeral c));
  es_keep : d !! B "keep_alive" = Some (BInt (cs_keep_alive c));
  es_hint : consume_string d (B "hint") [] = Ret (cs_hint c);
  es_free : Forall (λ k, d !! k = None) [B "incoming"; B "optional"; B "outgoing_only"];
}.

(** One more key of the dictionary of [connect_sn]. *)
Ltac sn_key :=
  split; cbn [modify cs_ephemeral cs_keep_alive cs_hint]; unfold consume_string; dict; try done;
  repeat (apply Forall_cons; split); try apply Forall_nil; by dict.

Lemma encodes_sn_apply d c o :
  encodes_sn d c → encodes_sn (apply_connect_option false d o) (connect_sn_effect c o).
Proof.
  intros Hd. pose proof Hd as [H1 H2 H3 Hf]. apply Forall_cons in Hf as [K1 Hf].
  apply Forall_cons in Hf as [K2 Hf]. apply Forall_cons in Hf as [K3 _]. unfold consume_string in H3.
  destruct o as [a|b|t|t|h|t|h]; cbn [apply_connect_option connect_sn_effect negb]; [done|sn_key|done| | |sn_key|sn_key].
  - destruct (t <? 0)%Z; [done|sn_key].
  - destruct (bool_decide (h = [])); [done|sn_key].
Qed.

Lemma parse_connect_sn_dict EPH pk options :
  let c := foldl connect_sn_effect
    (mk_connect_sn pk [] false false false EPH (DEFAULT_CONNECT_SN_KEEP_ALIVE * 1000)) options in
  parse_connect_sn EPH (connect_sn EPH pk options) =
    (if (cs_keep_alive c <? 0)%Z then bt_invalid else Ret c) ∧
  cs_pubkey c = pk.
Proof.
  set (c0 := mk_connect_sn _ _ _ _ _ _ _). intros c.
  assert (∀ d c, encodes_sn d c → encodes_sn (foldl (apply_connect_option false) d options)
    (foldl connect_sn_effect c options)) as Hfold.
  { clear. induction options as [|o options IH]; intros d c Hd; [done|]. by apply IH, encodes_sn_apply. }
  unfold connect_sn. set (d0 := <[ B "keep_alive" := _ ]> _).
  destruct (Hfold d0 c0) as [H1 H2 H3 Hf].
  { split; unfold d0, consume_string; dict; try done. repeat constructor; by dict. }
  assert (cs_pubkey c = pk ∧ cs_optional c = false ∧ cs_incoming c = false ∧ cs_outgoing c = false) as (E1 & E2 & E3 & E4).
  { unfold c, c0. clear. generalize (DEFAULT_CONNECT_SN_KEEP_ALIVE * 1000)%Z as k, EPH as e, (@nil ascii) as h.
    induction options as [|o options IH]; intros k e h; [done|]. cbn [foldl].
    destruct o; cbn; repeat case_match; apply IH. }
  split; [|done]. fold c in H1, H2, H3. set (d := foldl _ d0 options) in *.
  apply Forall_cons in Hf as [K1 Hf]. apply Forall_cons in Hf as [K2 Hf]. apply Forall_cons in Hf as [K3 _].
  unfold parse_connect_sn, require, has, consume_bool, consume_uint, consume_string in *. dict.
  rewrite H1, H2, K1, K2, K3. cbn [BBool].
  replace (if (Z.b2z (cs_ephemeral c) =? 0)%Z then Ret false else if (Z.b2z (cs_ephemeral c) =? 1)%Z then Ret true else bt_invalid)
    with (Ret (cs_ephemeral c)) by (by destruct (cs_ephemeral c)).
  cbn [mbind outcome_bind]. rewrite H3. cbn [mbind outcome_bind].
  destruct (cs_keep_alive c <? 0)%Z; [done|]. cbn. destruct c. cbn in *. by subst.
Qed.

(** C34: [connect_sn] and [proxy_connect_sn] agree.  The dictionary is read back
    as the meaning of the options, the last one given winning; a negative
    keep-alive (possible only with the deprecated bare time) is refused.  Without
    an option the keep-alive read is [300000000] milliseconds: the default of five
    minutes is written as microseconds and read as milliseconds. *)
Theorem connect_sn_roundtrip EPH pk options :
  let c := foldl connect_sn_effect
    (mk_connect_sn pk [] false false false EPH (DEFAULT_CONNECT_SN_KEEP_ALIVE * 1000)) options in
  parse_connect_sn EPH (connect_sn EPH pk options) =
    (if (cs_keep_alive c <? 0)%Z then bt_invalid else Ret c) ∧
  (options = [] → cs_keep_alive c = 300000000%Z).
Proof. intros c. split; [apply parse_connect_sn_dict|by intros ->]. Qed.

(** * [connect_remote] *)

(** The meaning of the options for [connect_remote] and [connect_inproc]. *)
Definition connect_effect (c : connect_command) (o : connect_option) : connect_command :=
  match o with
  | CAuth a => c <| cc_auth := a |>
  | CEphemeral b => c <| cc_ephemeral := b |>
  | CTimeout t | CMilliseconds t => c <| cc_timeout := t |>
  | CKeepAlive _ | CHint _ | CString _ => c
  end.

Definition remote_keys : list bytes := [B "conn_id"; B "connect"; B "failure"; B "pubkey"; B "remote"].

Record encodes_remote (EPH : bool) (d : bt_dict) (c : connect_command) : Prop := {
  er_auth : consume_int d (B "auth_level") none = Ret (cc_auth c);
  er_ephemeral : consume_bool d (B "ephemeral_rid") EPH = Ret (cc_ephemeral c);
  er_timeout : consume_int d (B "timeout") REMOTE_CONNECT_TIMEOUT = Ret (cc_timeout c);
  er_free : Forall (λ k, d !! k = None) remote_keys;
}.

Ltac remote_key :=
  split; cbn [modify cc_auth cc_ephemeral cc_timeout]; rewrite ?consume_BBool;
  unfold consume_int, consume_bool in *; dict; try done;
  repeat (apply Forall_cons; split); try apply Forall_nil; by dict.

Lemma encodes_remote_apply EPH d c o :
  encodes_remote EPH d c → encodes_remote EPH (apply_connect_option true d o) (connect_effect c o).
Proof.
  intros Hd. pose proof Hd as [H1 H2 H3 Hf]. unfold remote_keys in Hf.
  apply Forall_cons in Hf as [K1 Hf]. apply Forall_cons in Hf as [K2 Hf]. apply Forall_cons in Hf as [K3 Hf].
  apply Forall_cons in Hf as [K4 Hf]. apply Forall_cons in Hf as [K5 _].
  destruct o as [a|b|t|t|h|t|h]; cbn [apply_connect_option connect_effect negb]; [remote_key|remote_key|remote_key| | |remote_key|done].
  - by destruct (t <? 0)%Z.
  - by destruct (bool_decide (h = [])).
Qed.

Lemma consume_uint_int d k x0 z : (0 ≤ x0)%Z → consume_int d k x0 = Ret z →
  consume_uint d k x0 = if (z <? 0)%Z then bt_invalid else Ret z.
Proof.
  unfold consume_int, consume_uint. intros Hx. destruct (d !! k) as [[]|]; intros [= <-]; try done.
  by rewrite (proj2 (Z.ltb_ge _ _) Hx).
Qed.

Lemma encodes_remote_fold EPH options d c :
  encodes_remote EPH d c →
  encodes_remote EPH (foldl (apply_connect_option true) d options) (foldl connect_effect c options).
Proof.
  revert d c. induction options as [|o options IH]; intros d c Hd; [done|]. by apply IH, encodes_remote_apply.
Qed.

(** The options leave the rest of the command alone. *)
Lemma connect_effects_keep options c :
  let c' := foldl connect_effect c options in
  cc_conn_id c' = cc_conn_id c ∧ cc_connect c' = cc_connect c ∧ cc_failure c' = cc_failure c ∧
  cc_pubkey c' = cc_pubkey c ∧ cc_remote c' = cc_remote c.
Proof.
  revert c. induction options as [|o options IH]; intros c; [done|]. cbn [foldl].
  destruct (IH (connect_effect c o)) as (-> & -> & -> & -> & ->). by destruct o.
Qed.

(** What [proxy_connect_remote] reads of the dictionary of [connect_inproc]. *)
Lemma parse_connect_inproc_dict EPH on_connect on_failure id options :
  id ≠ (-1)%Z →
  let c := foldl connect_effect (mk_connect admin id (Some on_connect) EPH (Some on_failure) []
    (B "inproc://sn-self") INPROC_CONNECT_TIMEOUT) options in
  parse_connect_remote EPH (connect_inproc on_connect on_failure id options) =
    if (cc_timeout c <? 0)%Z then bt_invalid else Ret c.
Proof.
  intros Hid. set (c0 := mk_connect _ _ _ _ _ _ _ _). intros c.
  set (d0 := <[ B "timeout" := BInt INPROC_CONNECT_TIMEOUT ]> (<[ B "auth_level" := BInt admin ]> (∅ : bt_dict))).
  destruct (encodes_remote_fold EPH options d0 c0) as [H1 H2 H3 Hf].
  { split; try done. repeat constructor. }
  destruct (connect_effects_keep options c0) as (E1 & E2 & E3 & E4 & E5). cbn in E1, E2, E3, E4, E5.
  fold c in H1, H2, H3, E1, E2, E3, E4, E5. apply consume_uint_int in H3; [|done].
  unfold parse_connect_remote, connect_inproc. fold d0. set (d := foldl _ d0 options) in *.
  unfold remote_keys in Hf. do 3 (apply Forall_cons in Hf as [_ Hf]). apply Forall_cons in Hf as [Hpk _].
  unfold consume_int, consume_bool, consume_uint, consume_string, consume_object in *. dict. rewrite H1.
  cbn [mbind outcome_bind]. dict. rewrite H2. cbn [mbind outcome_bind]. dict. rewrite Hpk.
  cbn [length Nat.eqb negb andb mbind outcome_bind]. rewrite bool_decide_true by done. cbn [negb andb].
  rewrite H3. destruct (cc_timeout c <? 0)%Z; [done|]. cbn [mbind outcome_bind].
  rewrite (proj2 (Z.eqb_neq _ _) Hid), bool_decide_false by done. cbn. destruct c. cbn in *. by subst.
Qed.

(** What [proxy_connect_remote] reads of the dictionary of [connect_remote]. *)
Lemma parse_connect_remote_dict EPH (a : address) on_connect on_failure id options :
  id ≠ (-1)%Z → zmq_address a ≠ [] → (is_curve a = true → length (pubkey a) = 32) →
  let c := foldl connect_effect (mk_connect none id (Some on_connect) EPH (Some on_failure)
    (if is_curve a then pubkey a else []) (zmq_address a) REMOTE_CONNECT_TIMEOUT) options in
  parse_connect_remote EPH (connect_remote a on_connect on_failure id options) =
    if (cc_timeout c <? 0)%Z then bt_invalid else Ret c.
Proof.
  intros Hid Ha Hpk. set (c0 := mk_connect _ _ _ _ _ _ _ _). intros c.
  destruct (encodes_remote_fold EPH options ∅ c0) as [H1 H2 H3 Hf].
  { split; try done. repeat constructor. }
  destruct (connect_effects_keep options c0) as (E1 & E2 & E3 & E4 & E5). cbn in E1, E2, E3, E4, E5.
  fold c in H1, H2, H3, E1, E2, E3, E4, E5. apply consume_uint_int in H3; [|done].
  unfold parse_connect_remote, connect_remote. set (d := foldl _ ∅ options) in *.
  unfold consume_int, consume_bool, consume_uint, consume_string, consume_object in *.
  destruct (is_curve a) eqn:Hc; dict; rewrite H1; cbn [mbind outcome_bind]; dict; rewrite H2; cbn [mbind outcome_bind]; dict.
  - rewrite Hpk by done. cbn [negb Nat.eqb andb mbind outcome_bind]. change (32 =? 32) with true. cbn [negb andb].
    rewrite H3. destruct (cc_timeout c <? 0)%Z; [done|]. cbn [mbind outcome_bind].
    rewrite (proj2 (Z.eqb_neq _ _) Hid), bool_decide_false by done. cbn. destruct c. cbn in *. by subst.
  - assert (d !! B "pubkey" = None) as ->.
    { unfold remote_keys in Hf.
      do 3 (apply Forall_cons in Hf as [_ Hf]). by apply Forall_cons in Hf as [Hf _]. }
    cbn [length Nat.eqb negb andb mbind outcome_bind]. rewrite bool_decide_true by done. cbn [negb andb].
    rewrite H3. destruct (cc_timeout c <? 0)%Z; [done|]. cbn [mbind outcome_bind].
    rewrite (proj2 (Z.eqb_neq _ _) Hid), bool_decide_false by done. cbn. destruct c. cbn in *. by subst.
Qed.
