(* ===== verification/Net.v ===== *)
(** * Net: connections, peers and requests

    [connections.cpp] and the network half of [proxy.cpp]: establishing, using
    and closing connections, sending, and the built-in commands.

    A [zmq::socket_t*] is the connection id of an entry of [connections]; an
    entry created by [operator[]] for a missing id is a null socket.  What zmq
    does in one call is the parameter [Zmq]; jobs the handlers schedule and
    messages they send are recorded in [scheduled] and [wire].  The hash
    container [peers] puts a new entry at an unspecified place. *)
From S2P Require Import Prelude Bytes Oxenc Auth ConnId Commands Batch Pool Options.
Open Scope Z_scope.
Open Scope nat_scope.

Inductive socket := Dealer | Router | NullSocket.
#[export] Instance socket_eq_dec : EqDecision socket.
Proof. solve_decision. Defined.

(** The outcome of sending a multi-part message. *)
Inductive send_result := Sent | WouldBlock | SendError (num : Z).

Definition EHOSTUNREACH : Z := 113.
Definition ENOTSOCK : Z := 88.

(** The environment of one call: the clock, what zmq does with a message given
    to an open socket and with a connect, and the user's address lookup. *)
Class Zmq := {
  now : Z;
  zsend : Z → list bytes → send_result;
  zconnect : bytes → option Z; (* the error, if any *)
  zsocket : bytes → option Z; (* creating and setting up the listener of an address; the error, if any *)
  zbind : bytes → bool;
  zchown : bytes → option Z; (* of an ipc socket; the error, if any *)
  strerror : Z → bytes;
  ztimer : Z; (* what zmq_timers_add returns *)
  sn_lookup : bytes → bytes;
  position : nat; (* where the hash table puts a new entry *)
}.

Record pending_connect := mk_pending_connect {
  pcn_id : Z;
  pcn_deadline : Z;
  pcn_success : option callback;
  pcn_failure : option callback;
}.

Record net := mk_net {
  peers : peer_map;
  outgoing_sn_conns : gmap Z ConnectionID;
  next_conn_id : Z;
  pending_connects : list pending_connect;
  pending_requests : gmap bytes (Z * callback);
  connections : gmap Z socket;
  connections_updated : bool;
  active_service_nodes : gset bytes;
  (* [job(f)], or [proxy_schedule_reply_job(f)] when the flag is set *)
  scheduled : list (bool * task);
  wire : list (Z * list bytes);
}.
#[export] Instance net_rebuild : Rebuild net := λ n,
  mk_net (peers n) (outgoing_sn_conns n) (next_conn_id n) (pending_connects n)
    (pending_requests n) (connections n) (connections_updated n) (active_service_nodes n)
    (scheduled n) (wire n).

Definition net_empty : net := mk_net [] ∅ 1 [] ∅ ∅ true ∅ [] [].

Definition schedule (reply : bool) (t : task) (n : net) : net :=
  n <| scheduled ::= (λ l, l ++ [(reply, t)]) |>.

(** A job that calls a possibly empty function. *)
Definition call (f : callback → task) (cb : option callback) : task :=
  match cb with Some cb => f cb | None => TBadCall end.

(** [connections[id]]. *)
Definition connections_at (id : Z) (n : net) : net :=
  match connections n !! id with
  | Some _ => n
  | None => n <| connections ::= <[ id := NullSocket ]> |>
  end.

Section env.
Context {Z0 : Zmq}.

(** [send_message_parts] on the socket of connection [id]; a null socket fails. *)
Definition send_on (id : Z) (parts : list bytes) (n : net) : net * send_result :=
  match connections n !! id with
  | Some Dealer | Some Router =>
      match zsend id parts with
      | Sent => (n <| wire ::= (λ l, l ++ [(id, parts)]) |>, Sent)
      | r => (n, r)
      end
  | _ => (n, SendError ENOTSOCK)
  end.

(** [peers.emplace]. *)
Definition emplace_peer (k : ConnectionID) (v : peer_info) (n : net) : net :=
  n <| peers ::= (λ m, take position m ++ (k, v) :: drop position m) |>.

(** [connections.emplace_hint]: an entry that is there already stays. *)
Definition emplace_socket (id : Z) (s : socket) (n : net) : net :=
  n <| connections ::= (λ m, match m !! id with Some _ => m | None => <[ id := s ]> m end) |>.

(** [build_send_parts]. *)
Definition build_send_parts (send : list bytes) (route : bytes) : list bytes :=
  (if bool_decide (route = []) then [] else [route]) ++ send.

(** ** Closing *)

(** What is left once a connection is closed. *)
Definition drop_connection (id : Z) (n : net) : net :=
  match connections n !! id with
  | None => n
  | Some _ =>
      n <| connections ::= delete id |> <| connections_updated := true |>
        <| outgoing_sn_conns ::= delete id |>
  end.

(** [set(zmq::sockopt::linger, ...)] of a time that fits an [int]: it only sets an
    option of an open socket, and throws on a null one. *)
Definition set_linger (s : socket) : outcome () :=
  if bool_decide (s = NullSocket) then Throw (zmq_error ENOTSOCK) else Ret ().

Definition proxy_close_connection (id : Z) (n : net) : outcome net :=
  match connections n !! id with
  | None => Ret n
  | Some s => _ ← set_linger s; Ret (drop_connection id n)
  end.

Definition idle_expired (p : peer_info) : bool :=
  outgoing p && (idle_expiry p <? now - last_activity p)%Z.

(** The loop over [peers]: [kept] are the entries it has passed. *)
Fixpoint expire_loop (kept rest : peer_map) (n : net) : outcome net :=
  match rest with
  | [] => Ret (n <| peers := kept |>)
  | (k, info) :: rest =>
      if idle_expired info then
        n ← proxy_close_connection (peer_conn_id info) n;
        expire_loop kept rest n
      else expire_loop (kept ++ [(k, info)]) rest n
  end.
Definition proxy_expire_idle_peers (n : net) : outcome net := expire_loop [] (peers n) n.

Definition connect_timed_out (pc : pending_connect) : task :=
  call (λ cb, TConnectFailed cb (conn_of_id (pcn_id pc)) (B "connection attempt timed out")) (pcn_failure pc).

Fixpoint connects_loop (kept rest : list pending_connect) (n : net) : outcome net :=
  match rest with
  | [] => Ret (n <| pending_connects := kept |>)
  | pc :: rest =>
      if (pcn_deadline pc <? now)%Z then
        n ← proxy_close_connection (pcn_id pc) (schedule false (connect_timed_out pc) n);
        connects_loop kept rest (n <| peers ::= erase_key (conn_of_id (pcn_id pc)) |>)
      else connects_loop (kept ++ [pc]) rest n
  end.

Definition timeout_task (cb : callback) : task := TReply cb false [B "TIMEOUT"].

Fixpoint requests_loop (rest : list (bytes * (Z * callback))) (n : net) : net :=
  match rest with
  | [] => n
  | (tag, (deadline, cb)) :: rest =>
      if (deadline <? now)%Z then
        requests_loop rest
          ((schedule false (timeout_task cb) n) <| pending_requests ::= delete tag |>)
      else requests_loop rest n
  end.

Definition proxy_conn_cleanup (n : net) : outcome net :=
  n ← proxy_expire_idle_peers n;
  n ← connects_loop [] (pending_connects n) n;
  Ret (requests_loop (map_to_list (pending_requests n)) n).

(** The first outgoing peer with key [conn] is closed and erased. *)
Definition proxy_disconnect (conn : ConnectionID) (n : net) : outcome net :=
  match list_find (λ e, ConnId.has_key conn e && outgoing (snd e)) (peers n) with
  | None => Ret n
  | Some (_, (_, peer)) =>
      n ← proxy_close_connection (peer_conn_id peer) n;
      Ret (n <| peers ::= erase_first (λ e, ConnId.has_key conn e && outgoing (snd e)) |>)
  end.

(** ** Connecting *)

(** Which peers [proxy_connect_sn] may use. *)
Definition usable (incoming_only outgoing_only : bool) (p : peer_info) : bool :=
  negb (incoming_only && bool_decide (peer_route p = [])) &&
  negb (outgoing_only && negb (bool_decide (peer_route p = []))).

Definition keep_longer (keep_alive : Z) (p : peer_info) : peer_info :=
  if bool_decide (peer_route p = []) then
    activity now (if (idle_expiry p <? keep_alive)%Z then p <| idle_expiry := keep_alive |> else p)
  else p.

(** A new outgoing connection to a service node. *)
Definition open_sn (remote_cid : ConnectionID) (remote : bytes) (keep_alive : Z) (n : net) : net * Z :=
  let id := next_conn_id n in
  let n := emplace_peer remote_cid (mk_peer remote true none id [] now keep_alive) n in
  let n := n <| next_conn_id ::= Z.succ |> <| connections_updated := true |>
             <| outgoing_sn_conns ::= <[ id := remote_cid ]> |> in
  (emplace_socket id Dealer n, id).

(** The socket's connection id and the route, or nothing.  The routing id
    option only affects the socket. *)
Definition proxy_connect_sn (remote hint : bytes) (optional incoming_only outgoing_only : bool)
    (keep_alive : Z) (n : net) : outcome (net * option (Z * bytes)) :=
  remote_cid ← conn_of_pubkey remote;
  let pred e := ConnId.has_key remote_cid e && usable incoming_only outgoing_only (snd e) in
  match list_find pred (peers n) with
  | Some (_, (_, peer)) =>
      let n := n <| peers ::= modify_first pred (keep_longer keep_alive) |> in
      Ret (connections_at (peer_conn_id peer) n, Some (peer_conn_id peer, peer_route peer))
  | None =>
      if optional || incoming_only then Ret (n, None)
      else
        let addr := if bool_decide (hint = []) then sn_lookup remote else hint in
        if bool_decide (addr = []) then Ret (n, None)
        else
          match zconnect addr with
          | Some _ => Ret (n, None)
          | None => let '(n, id) := open_sn remote_cid remote keep_alive n in Ret (n, Some (id, []))
          end
  end.

(** The exception of sending "HI" is not caught. *)
Definition proxy_connect_remote (c : connect_command) (n : net) : outcome net :=
  let id := cc_conn_id c in
  match zconnect (cc_remote c) with
  | Some e =>
      Ret (schedule true (call (λ cb, TConnectFailed cb (conn_of_id id)
        (B "connect() failed: " ++ strerror e)) (cc_failure c)) n)
  | None =>
      let n := (emplace_socket id Dealer n) <| connections_updated := true |> in
      match send_on id [B "HI"] n with
      | (_, SendError e) => Throw (zmq_error e)
      | (n, _) =>
          let n := n <| pending_connects ::= (λ l, l ++
            [mk_pending_connect id (now + cc_timeout c) (cc_connect c) (cc_failure c)]) |> in
          Ret (emplace_peer (mk_conn id (cc_pubkey c) [])
            (mk_peer (cc_pubkey c) false (cc_auth c) id [] now (24 * 10 * 365 * 3600000)) n)
      end
  end.

(** [proxy_bind]: the connection id stored in [b.conn_id], or nothing when
    binding fails, and the call made of [b.on_bind].  The listener is created and set
    up outside the [try]. *)
Definition proxy_bind (addr : bytes) (on_bind : option callback) (n : net) :
    outcome (net * option Z * option (callback * bool)) :=
  match zsocket addr with
  | Some e => Throw (zmq_error e)
  | None =>
      let good := zbind addr in
      let called := match on_bind with Some f => Some (f, good) | None => None end in
      if negb good then Ret (n, None, called)
      else
        let id := next_conn_id n in
        Ret ((emplace_socket id Router (n <| next_conn_id ::= Z.succ |>)) <| connections_updated := true |>,
             Some id, called)
  end.

(** ** Sending *)

(** How the loop of [proxy_send] ends: with the message accepted or not, and the
    error of the last attempt; or it does not end.  [NoFuel] is a bound of the
    model that is never reached. *)
Inductive send_end :=
  | Finished (n : net) (sent : bool) (err : option Z)
  | Hang
  | NoFuel.

(** Which socket to use, as [send_to] and the updated [conn_id.route]. *)
Definition send_target (c : send_command) (conn : ConnectionID) (n : net) :
    outcome (net * option (Z * bytes)) :=
  if conn_sn conn then
    proxy_connect_sn (conn_pk conn) (sc_hint c) (sc_optional c) (sc_incoming c) (sc_outgoing c)
      (sc_keep_alive c) n
  else if negb (bool_decide (conn_route conn = [])) then
    Ret (n, match connections n !! conn_id conn with
            | Some _ => Some (conn_id conn, conn_route conn)
            | None => None
            end)
  else
    Ret (n, match find_peer conn (peers n) with
            | Some (_, peer) =>
                match connections n !! peer_conn_id peer with
                | Some _ => Some (peer_conn_id peer, [])
                | None => None
                end
            | None => None
            end).

(** The handler of [EHOSTUNREACH] on an incoming connection: the peers left and
    whether to retry, or nothing when the inner loop, which never advances, does
    not end. *)
Definition drop_unreachable (conn : ConnectionID) (n : net) : option (net * bool) :=
  match equal_range conn (peers n) with
  | [] => Some (n, false)
  | (_, peer) :: _ =>
      if negb (conn_sn conn) then Some (n <| peers ::= erase_first (ConnId.has_key conn) |>, false)
      else if bool_decide (peer_route peer = conn_route conn) then
        Some (n <| peers ::= erase_first (ConnId.has_key conn) |>, true)
      else None
  end.

Fixpoint send_loop (fuel : nat) (c : send_command) (conn : ConnectionID) (n : net) :
    outcome send_end :=
  match fuel with
  | O => Ret NoFuel
  | S fuel =>
      target ← send_target c conn n;
      match target with
      | (n, None) => Ret (Finished n false None)
      | (n, Some (id, route)) =>
          let conn := conn <| conn_route := route |> in
          match send_on id (build_send_parts (sc_parts c) route) n with
          | (n, Sent) => Ret (Finished n true None)
          | (n, WouldBlock) => Ret (Finished n false None)
          | (n, SendError e) =>
              if (e =? EHOSTUNREACH)%Z && negb (bool_decide (route = [])) then
                match drop_unreachable conn n with
                | None => Ret Hang
                | Some (n, true) => send_loop fuel c conn n
                | Some (n, false) => Ret (Finished n false (Some e))
                end
              else Ret (Finished n false (Some e))
          end
      end
  end.

Definition schedule_opt (f : callback → task) (cb : option callback) (n : net) : net :=
  match cb with Some cb => schedule false (f cb) n | None => n end.

(** [pending_requests.insert]: an entry that is there already stays. *)
Definition insert_request (tag : bytes) (deadline : Z) (cb : callback) (n : net) : net :=
  match pending_requests n !! tag with
  | Some _ => n
  | None => n <| pending_requests ::= <[ tag := (deadline, cb) ]> |>
  end.

Definition register_request (c : send_command) (sent : bool) (n : net) : net :=
  match sc_request c with
  | None => n
  | Some (cb, tag) =>
      if sent then insert_request tag (now + sc_request_timeout c) cb n
      else schedule false (timeout_task cb) n
  end.

(** After the loop.  The failure callback is moved away when the loop called
    it. *)
Definition report_send (c : send_command) (sent : bool) (err : option Z) (n : net) : net :=
  let n := match err with
           | Some e => schedule_opt (λ cb, TSendFailed cb (Some e)) (sc_fail c) n
           | None => n
           end in
  let callback_nosend := match err with Some _ => None | None => sc_fail c end in
  let n := register_request c sent n in
  if sent then n
  else
    match callback_nosend with
    | Some cb => schedule false (TSendFailed cb None) n
    | None => schedule_opt TQueueFull (sc_full c) n
    end.

(** [None]: the proxy thread does not come back. *)
Definition proxy_send (c : send_command) (n : net) : outcome (option net) :=
  e ← send_loop (S (length (peers n))) c (sc_conn c) n;
  Ret (match e with
       | Finished n sent err => Some (report_send c sent err n)
       | Hang | NoFuel => None
       end).
(** ** Incoming messages *)

Definition is_error_response (cmd : bytes) : bool :=
  bool_decide (cmd ∈ [B "FORBIDDEN"; B "FORBIDDEN_SN"; B "NOT_A_SERVICE_NODE"; B "UNKNOWNCOMMAND";
                      B "NO_REPLY_TAG"]).

(** Schedules the callback of a pending request and forgets the request. *)
Definition answer (tag : bytes) (success : bool) (data : list bytes) (n : net) : net :=
  match pending_requests n !! tag with
  | None => n
  | Some (_, cb) => (schedule true (TReply cb success data) n) <| pending_requests ::= delete tag |>
  end.

Definition handle_HELLO (id : Z) (n : net) : net :=
  match list_find (λ pc, pcn_id pc = id) (pending_connects n) with
  | None => n
  | Some (i, pc) =>
      match find_peer (conn_of_id (pcn_id pc)) (peers n) with
      | None => n
      | Some (conn, _) =>
          (schedule true (call (λ cb, TConnected cb conn) (pcn_success pc)) n)
            <| pending_connects ::= delete i |>
      end
  end.

(** [args] are the parts after the command. *)
Definition handle_error_response (cmd : bytes) (args : list bytes) (n : net) : net :=
  match args with
  | [r; tag] => if bool_decide (r = B "REPLY") then answer tag false [cmd] n else n
  | _ => n
  end.

(** The route (of an incoming message), the command and the other parts. *)
Definition split_parts {A} (incoming : bool) (parts : list A) : option (option A * A * list A) :=
  match incoming, parts with
  | true, route :: cmd :: args => Some (Some route, cmd, args)
  | false, cmd :: args => Some (None, cmd, args)
  | _, _ => None
  end.

(** [HI] is answered on the socket it came from; [send_routed_message] asserts a
    route. *)
Definition handle_HI (id : Z) (route : option bytes) (n : net) : outcome net :=
  match route with
  | None => Ret n
  | Some [] => Undef
  | Some route => Ret (fst (send_on id [route; B "HELLO"] n))
  end.

Definition proxy_handle_builtin (id : Z) (incoming : bool) (parts : list bytes) (n : net) :
    outcome (net * bool) :=
  match split_parts incoming parts with
  | None => Ret (n, true)
  | Some (route, cmd, args) =>
      if bool_decide (cmd = B "REPLY") then
        Ret (match args with tag :: data => answer tag true data n | [] => n end, true)
      else if bool_decide (cmd = B "HI") then n ← handle_HI id route n; Ret (n, true)
      else if bool_decide (cmd = B "HELLO") then
        Ret (if incoming then n else handle_HELLO id n, true)
      else if bool_decide (cmd = B "BYE") then
        n ← (if incoming then Ret n else proxy_close_connection id n); Ret (n, true)
      else if is_error_response cmd then Ret (handle_error_response cmd args n, true)
      else Ret (n, false)
  end.

(** What the proxy knows of itself. *)
Record self_info := mk_self {
  self_pubkey : bytes;
  inproc_listener_connid : Z;
  local_service_node : bool;
}.

Definition is_sn (pk : bytes) (n : net) : bool := bool_decide (pk ∈ active_service_nodes n).

(** The peer of an outgoing connection, its service node status updated; its
    entry is the first one with the key. *)
Definition outgoing_key (id : Z) (n : net) : ConnectionID :=
  default (conn_of_id id) (outgoing_sn_conns n !! id).
Definition outgoing_peer (id : Z) (n : net) : option (net * peer_info) :=
  match find_peer (outgoing_key id n) (peers n) with
  | None => None
  | Some (_, peer) =>
      let peer := if bool_decide (peer_pubkey peer = []) then peer
                  else peer <| service_node := is_sn (peer_pubkey peer) n |> in
      Some (n <| peers ::= modify_first (ConnId.has_key (outgoing_key id n)) (λ _, peer) |>, peer)
  end.

(** [tmp_peer] of an incoming message. *)
Definition incoming_info `{Oxenc} (s : self_info) (id : Z) (route : bytes) (last : message) (n : net) : outcome peer_info :=
  if (id =? inproc_listener_connid s)%Z then
    Ret (mk_peer (self_pubkey s) (is_sn (self_pubkey s) n) admin id route 0 0)
  else
    '(pk, level) ← extract_metadata last;
    Ret (mk_peer pk ((length pk =? 32) && is_sn pk n) level id route 0 0).

Lemma incoming_info_at `{Oxenc} s id route last n tmp :
  incoming_info s id route last n = Ret tmp → peer_conn_id tmp = id ∧ peer_route tmp = route.
Proof.
  unfold incoming_info. destruct (_ =? _)%Z; [by intros [= <-]|]. destruct (extract_metadata _) as [[pk level]| |]; try done.
  by intros [= <-].
Qed.

(** The peer of an incoming message and the route left in [tmp_peer]: storing it
    as a new peer moves the route away. *)
Definition incoming_peer (tmp : peer_info) (n : net) : outcome (net * peer_info * bytes) :=
  if service_node tmp then
    cid ← conn_of_pubkey (peer_pubkey tmp);
    let same e := ConnId.has_key cid e && (peer_conn_id (snd e) =? peer_conn_id tmp)%Z &&
                  bool_decide (peer_route (snd e) = peer_route tmp) in
    match list_find same (peers n) with
    | Some (_, (_, peer)) =>
        let peer := peer <| auth_level := auth_level tmp |> <| service_node := true |> in
        Ret (n <| peers ::= modify_first same (λ _, peer) |>, peer, peer_route tmp)
    | None => Ret (emplace_peer cid tmp n, tmp, [])
    end
  else Ret (n, tmp, peer_route tmp).

Definition get_peer_address (msg : message) : bytes :=
  default (B "(unknown)") (Auth.msg_props msg !! B "Peer-Address").

(** [send_message_parts(connections.at(id), parts)] with zmq's exceptions ignored. *)
Definition send_at (id : Z) (parts : list bytes) (n : net) : outcome net :=
  match connections n !! id with
  | None => Throw (out_of_range (B "map::at"))
  | Some _ => Ret (fst (send_on id parts n))
  end.

(** From [get_command] on.  [route] is that of the connection to reply to. *)
Definition authorise_and_dispatch (s : self_info) (id : Z) (outgoing : bool) (peer : peer_info)
    (route : bytes) (cmd : message) (data : list bytes) (n : net) (p : pool) : outcome (net * pool) :=
  let '(command, cat_call) := get_command (reg p) (Auth.msg_data cmd) in
  match proxy_check_auth (reg p) (local_service_node s) outgoing peer (Auth.msg_data cmd) cat_call data with
  | (false, Some reply) => n ← send_at id reply n; Ret (n, p)
  | (false, None) => Ret (n, p)
  | (true, _) =>
      match cat_call with
      | None => Undef
      | Some (cat, entry) =>
          let conn := mk_conn (if service_node peer then SN_ID else id) (peer_pubkey peer) route in
          let acc := mk_Access (auth_level peer) (service_node peer) (local_service_node s) in
          let runs := match the_category p cat with
                      | Some c => slot_free p c && negb (snd entry && bool_decide (data = []))
                      | None => false
                      end in
          p ← dispatch_command cat command data entry conn acc (get_peer_address cmd) p;
          Ret (if outgoing && runs
               then n <| peers ::= modify_first (ConnId.has_key (outgoing_key id n)) (activity now) |>
               else n, p)
      end
  end.

Definition proxy_to_worker `{Oxenc} (s : self_info) (id : Z) (incoming : bool) (parts : list message)
    (n : net) (p : pool) : outcome (net * pool) :=
  match split_parts incoming parts with
  | None => Undef
  | Some (route, cmd, args) =>
      let data := Auth.msg_data <$> args in
      match route with
      | None =>
          match outgoing_peer id n with
          | None => Ret (n, p)
          | Some (n, peer) => authorise_and_dispatch s id true peer [] cmd data n p
          end
      | Some route =>
          tmp ← incoming_info s id (Auth.msg_data route) (List.last args cmd) n;
          r ← incoming_peer tmp n;
          let '(n, peer, route) := r in
          authorise_and_dispatch s id false peer route cmd data n p
      end
  end.

(** One message received on connection [id] by [proxy_loop]. *)
Definition proxy_message `{Oxenc} (s : self_info) (id : Z) (parts : list message) (n : net) (p : pool) :
    outcome (net * pool) :=
  let incoming := bool_decide (connections n !! id = Some Router) in
  if bool_decide (parts = []) then Ret (n, p)
  else
    r ← proxy_handle_builtin id incoming (Auth.msg_data <$> parts) n;
    let '(n, handled) := r in
    (if (handled : bool) then Ret (n, p) else proxy_to_worker s id incoming parts n p).
End env.
