(* ===== verification/Closing.v ===== *)
(** * Closing: what the handlers that close connections leave

    Closing a connection throws when its socket is a null one, which [connections[id]]
    creates for an id that was closed before.  The handlers of [Net] that close
    connections are described here by what they leave when they return, and by the
    one condition under which they do not: some socket in [connections] is null. *)
From S2P Require Import Prelude Bytes Auth ConnId Commands Batch Pool Options Net.
Open Scope Z_scope.
Open Scope nat_scope.

Definition has_null (n : net) : Prop := ∃ id, connections n !! id = Some NullSocket.

(** [r] is [n'], or the exception of a null socket of [n]. *)
Definition closing (n : net) (r : outcome net) (n' : net) : Prop :=
  r = Ret n' ∨ r = Throw (zmq_error ENOTSOCK) ∧ has_null n.

(** ** The results *)

Section results.
Context {env : Zmq}.

Fixpoint expire_drop (kept rest : peer_map) (n : net) : net :=
  match rest with
  | [] => n <| peers := kept |>
  | (k, info) :: rest =>
      if idle_expired info then expire_drop kept rest (drop_connection (peer_conn_id info) n)
      else expire_drop (kept ++ [(k, info)]) rest n
  end.
Definition idle_peers_drop (n : net) : net := expire_drop [] (peers n) n.

Fixpoint connects_drop (kept rest : list pending_connect) (n : net) : net :=
  match rest with
  | [] => n <| pending_connects := kept |>
  | pc :: rest =>
      if (pcn_deadline pc <? now)%Z then
        let n := drop_connection (pcn_id pc) (schedule false (connect_timed_out pc) n) in
        connects_drop kept rest (n <| peers ::= erase_key (conn_of_id (pcn_id pc)) |>)
      else connects_drop (kept ++ [pc]) rest n
  end.

Definition cleanup_drop (n : net) : net :=
  let n := idle_peers_drop n in
  let n := connects_drop [] (pending_connects n) n in
  requests_loop (map_to_list (pending_requests n)) n.
End results.

Definition disconnect_drop (conn : ConnectionID) (n : net) : net :=
  match list_find (λ e, ConnId.has_key conn e && outgoing (snd e)) (peers n) with
  | None => n
  | Some (_, (_, peer)) =>
      (drop_connection (peer_conn_id peer) n)
        <| peers ::= erase_first (λ e, ConnId.has_key conn e && outgoing (snd e)) |>
  end.

(** ** [closing] *)

Lemma closing_Ret n r n' m : closing n r n' → r = Ret m → m = n'.
Proof. by intros [->|[-> _]] [= <-]. Qed.
Lemma closing_open n r n' : closing n r n' → ¬ has_null n → r = Ret n'.
Proof. by intros [->|[_ ?]]. Qed.

Lemma has_null_subseteq n n' : connections n' ⊆ connections n → has_null n' → has_null n.
Proof. intros Hs [id Hid]. exists id. by eapply lookup_weaken. Qed.

Lemma closing_bind n r n1 k n2 :
  closing n r n1 → connections n1 ⊆ connections n → closing n1 (k n1) n2 → closing n (r ≫= k) n2.
Proof.
  intros [->|[-> Hn]] Hs Hk; [|by right]. cbn. destruct Hk as [->|[-> Hn]]; [by left|].
  right. split; [done|]. by eapply has_null_subseteq.
Qed.
Lemma closing_sub n m r n' : closing m r n' → connections m ⊆ connections n → closing n r n'.
Proof. intros [->|[-> Hn]] Hs; [by left|right]. split; [done|]. by eapply has_null_subseteq. Qed.

Lemma drop_subseteq id n : connections (drop_connection id n) ⊆ connections n.
Proof. unfold drop_connection. case_match; [apply delete_subseteq|done]. Qed.

(** ** The handlers *)

Lemma close_closing id n : closing n (proxy_close_connection id n) (drop_connection id n).
Proof.
  unfold proxy_close_connection. destruct (connections n !! id) as [s|] eqn:E.
  - unfold set_linger. case_bool_decide; [subst; right; split; [done|by exists id]|by left].
  - left. unfold drop_connection. by rewrite E.
Qed.

Section handlers.
Context {env : Zmq}.

Lemma expire_closing kept rest n : closing n (expire_loop kept rest n) (expire_drop kept rest n).
Proof.
  revert kept n. induction rest as [|[k info] rest IH]; intros kept n; cbn [expire_loop expire_drop]; [by left|].
  destruct (idle_expired info); [|apply IH].
  eapply closing_bind; [apply close_closing|apply drop_subseteq|apply IH].
Qed.
Lemma expire_subseteq kept rest n : connections (expire_drop kept rest n) ⊆ connections n.
Proof.
  revert kept n. induction rest as [|[k info] rest IH]; intros kept n; cbn [expire_drop]; [done|].
  destruct (idle_expired info); [|apply IH]. etrans; [apply IH|apply drop_subseteq].
Qed.

Lemma connects_closing kept rest n : closing n (connects_loop kept rest n) (connects_drop kept rest n).
Proof.
  revert kept n. induction rest as [|pc rest IH]; intros kept n; cbn [connects_loop connects_drop]; [by left|].
  destruct (pcn_deadline pc <? now)%Z; [|apply IH].
  set (n1 := schedule false (connect_timed_out pc) n).
  apply (closing_bind n _ (drop_connection (pcn_id pc) n1)); [exact (close_closing _ n1)|exact (drop_subseteq _ n1)|].
  eapply closing_sub; [apply IH|done].
Qed.
Lemma connects_subseteq kept rest n : connections (connects_drop kept rest n) ⊆ connections n.
Proof.
  revert kept n. induction rest as [|pc rest IH]; intros kept n; cbn [connects_drop]; [done|].
  destruct (pcn_deadline pc <? now)%Z; [|apply IH]. etrans; [apply IH|].
  exact (drop_subseteq (pcn_id pc) (schedule false (connect_timed_out pc) n)).
Qed.

Lemma cleanup_closing n : closing n (proxy_conn_cleanup n) (cleanup_drop n).
Proof.
  unfold proxy_conn_cleanup, cleanup_drop, proxy_expire_idle_peers.
  eapply closing_bind; [apply expire_closing|apply expire_subseteq|].
  eapply closing_bind; [apply connects_closing|apply connects_subseteq|]. by left.
Qed.

Lemma disconnect_closing conn n : closing n (proxy_disconnect conn n) (disconnect_drop conn n).
Proof.
  unfold proxy_disconnect, disconnect_drop. destruct (list_find _ _) as [(i & k & peer)|]; [|by left].
  eapply closing_bind; [apply close_closing|apply drop_subseteq|]. by left.
Qed.
End handlers.
