(* ===== verification/ServiceNodes.v ===== *)
(** * ServiceNodes: the set of active service nodes

    [set_active_sns], [update_active_sns] and what the proxy does with them
    ([auth.cpp]).  A [pubkey_set] is a [gset]; it is iterated in the order of
    its elements, and the theorems do not depend on which order that is. *)
From S2P Require Import Prelude Bytes Auth ConnId Net Closing.
Open Scope Z_scope.
Open Scope nat_scope.

Abbreviation pubkey_set := (gset bytes).

(** Removing the entries of the range of [c], closing outgoing connections. *)
Fixpoint close_range (c : ConnectionID) (range : peer_map) (n : net) : outcome net :=
  match range with
  | [] => Ret n
  | (_, peer) :: range =>
      let n := n <| peers ::= erase_first (ConnId.has_key c) |> in
      n ← (if outgoing peer then proxy_close_connection (peer_conn_id peer) n else Ret n);
      close_range c range n
  end.

Definition remove_sn (pk : bytes) (n : net) : outcome net :=
  c ← conn_of_pubkey pk;
  let n := n <| active_service_nodes ::= (λ s, s ∖ {[ pk ]}) |> in
  close_range c (equal_range c (peers n)) n.

Fixpoint remove_sns (pks : list bytes) (n : net) : outcome net :=
  match pks with
  | [] => Ret n
  | pk :: pks => n ← remove_sn pk n; remove_sns pks n
  end.

Definition proxy_update_active_sns_clean (added removed : pubkey_set) (n : net) : outcome net :=
  n ← remove_sns (elements removed) n;
  Ret (n <| active_service_nodes ::= (λ s, foldl (λ s pk, {[ pk ]} ∪ s) s (elements added)) |>).

(** The first loop of [proxy_set_active_sns]: drops malformed keys and collects
    the new ones. *)
Fixpoint scan_pubkeys (active : pubkey_set) (l : list bytes) (pubkeys added : pubkey_set) :
    pubkey_set * pubkey_set :=
  match l with
  | [] => (pubkeys, added)
  | pk :: l =>
      if negb (length pk =? 32) then scan_pubkeys active l (pubkeys ∖ {[ pk ]}) added
      else if bool_decide (pk ∈ active) then scan_pubkeys active l pubkeys added
      else scan_pubkeys active l pubkeys ({[ pk ]} ∪ added)
  end.

(** The second loop, which stops as soon as the sizes add up. *)
Fixpoint collect_removed (active pubkeys added : pubkey_set) (l : list bytes) (removed : pubkey_set) :
    pubkey_set :=
  match l with
  | [] => removed
  | pk :: l =>
      let removed := if bool_decide (pk ∈ pubkeys) then removed else {[ pk ]} ∪ removed in
      if (Z.of_nat (size active) + Z.of_nat (size added) - Z.of_nat (size removed) =?
          Z.of_nat (size pubkeys))%Z then removed
      else collect_removed active pubkeys added l removed
  end.

Definition proxy_set_active_sns (pubkeys : pubkey_set) (n : net) : outcome net :=
  let active := active_service_nodes n in
  let '(pubkeys, added) := scan_pubkeys active (elements pubkeys) pubkeys ∅ in
  if bool_decide (added = ∅) && (size active =? size pubkeys) then Ret n
  else proxy_update_active_sns_clean added (collect_removed active pubkeys added (elements active) ∅) n.

(** The filters of [proxy_update_active_sns]. *)
Fixpoint clean_removed (active added : pubkey_set) (l : list bytes) (removed : pubkey_set) : pubkey_set :=
  match l with
  | [] => removed
  | pk :: l =>
      clean_removed active added l
        (if negb (length pk =? 32) then removed ∖ {[ pk ]}
         else if negb (bool_decide (pk ∈ active)) || bool_decide (pk ∈ added) then removed ∖ {[ pk ]}
         else removed)
  end.
Fixpoint clean_added (active : pubkey_set) (l : list bytes) (added : pubkey_set) : pubkey_set :=
  match l with
  | [] => added
  | pk :: l =>
      clean_added active l
        (if negb (length pk =? 32) then added ∖ {[ pk ]}
         else if bool_decide (pk ∈ active) then added ∖ {[ pk ]}
         else added)
  end.
Definition proxy_update_active_sns (added removed : pubkey_set) (n : net) : outcome net :=
  let active := active_service_nodes n in
  let removed := clean_removed active added (elements removed) removed in
  let added := clean_added active (elements added) added in
  proxy_update_active_sns_clean added removed n.

(** * Specification *)

(** The peers that belong to a service node of [R]. *)
Definition removed_key (R : pubkey_set) (k : ConnectionID) : bool :=
  conn_sn k && bool_decide (conn_pk k ∈ R).

(** The outgoing connections of those peers. *)
Definition closed_ids (R : pubkey_set) (m : peer_map) : gset Z :=
  list_to_set ((peer_conn_id ∘ snd) <$>
    filter (λ e, removed_key R (fst e) && outgoing (snd e) = true) m).

(** One of those has a null socket. *)
Definition closes_null (R : pubkey_set) (n : net) : Prop :=
  set_Exists (λ id, connections n !! id = Some NullSocket) (closed_ids R (peers n)).
#[export] Instance closes_null_dec R n : Decision (closes_null R n).
Proof. unfold closes_null. apply _. Defined.

(** [n'] is [n] after the service nodes of [R] left and those of [A] joined. *)
Record sns_changed (R A : pubkey_set) (n n' : net) : Prop := {
  ch_active : active_service_nodes n' = (active_service_nodes n ∖ R) ∪ A;
  ch_peers : peers n' = filter (λ e, removed_key R (fst e) = false) (peers n);
  ch_connections id :
    connections n' !! id = if bool_decide (id ∈ closed_ids R (peers n)) then None else connections n !! id;
}.

Definition valid_keys (s : pubkey_set) : pubkey_set := filter (λ pk, length pk = 32) s.

(** * Lemmas *)

(** What [close_range] leaves. *)
Fixpoint close_range_drop (c : ConnectionID) (range : peer_map) (n : net) : net :=
  match range with
  | [] => n
  | (_, peer) :: range =>
      let n := n <| peers ::= erase_first (ConnId.has_key c) |> in
      close_range_drop c range (if outgoing peer then drop_connection (peer_conn_id peer) n else n)
  end.

Lemma drop_connection_frame id n :
  peers (drop_connection id n) = peers n ∧
  active_service_nodes (drop_connection id n) = active_service_nodes n ∧
  connections (drop_connection id n) = delete id (connections n).
Proof.
  unfold drop_connection. destruct (connections n !! id) eqn:E; [done|].
  by rewrite delete_id.
Qed.

(** The connections of a range that are closed. *)
Definition range_ids (range : peer_map) : list Z :=
  (peer_conn_id ∘ snd) <$> filter (λ e, outgoing (snd e) = true) range.

Lemma close_range_exact c range n :
  close_range c range n =
    if bool_decide (Exists (λ id, connections n !! id = Some NullSocket) (range_ids range))
    then Throw (zmq_error ENOTSOCK) else Ret (close_range_drop c range n).
Proof.
  revert n. induction range as [|[k peer] range IH]; intros n; cbn [close_range close_range_drop]; [done|].
  set (n1 := n <| peers ::= _ |>). unfold range_ids. rewrite filter_cons. cbn [snd].
  destruct (outgoing peer); [|exact (IH n1)]. rewrite decide_True by done. rewrite fmap_cons. cbn [compose snd].
  unfold proxy_close_connection. change (connections n1) with (connections n).
  set (id := peer_conn_id peer). destruct (decide (connections n !! id = Some NullSocket)) as [Hn|Hn].
  { rewrite Hn, bool_decide_true by (by left). done. }
  replace (match connections n !! id with Some s => _ | None => _ end) with (Ret (drop_connection id n1)).
  2: { unfold set_linger, drop_connection. change (connections n1) with (connections n).
       destruct (connections n !! id) as [s|]; [|done]. rewrite bool_decide_false by congruence. done. }
  cbn [mbind outcome_bind]. rewrite IH. destruct (drop_connection_frame id n1) as (_ & _ & ->).
  change (connections n1) with (connections n).
  rewrite (bool_decide_ext _ (Exists (λ id, connections n !! id = Some NullSocket) (id :: range_ids range))); [done|].
  rewrite Exists_cons, !Exists_exists. split.
  - intros (x & Hx & [_ Hl]%lookup_delete_Some). right. eauto.
  - intros [?|(x & Hx & Hl)]; [done|]. exists x. split; [done|]. rewrite lookup_delete_ne; [done|congruence].
Qed.
Lemma close_range_closing c range n : closing n (close_range c range n) (close_range_drop c range n).
Proof.
  rewrite close_range_exact. case_bool_decide as H; [right|by left]. split; [done|].
  apply Exists_exists in H as (id & _ & Hid). by exists id.
Qed.

Lemma erase_first_range c m e l :
  equal_range c m = e :: l →
  equal_range c (erase_first (ConnId.has_key c) m) = l ∧
  erase_key c (erase_first (ConnId.has_key c) m) = erase_key c m.
Proof.
  unfold equal_range, erase_key, erase_first. induction m as [|x m IH]; [done|]. rewrite !filter_cons.
  cbn [update_first]. destruct (ConnId.has_key c x) eqn:E; cbn; intros H.
  - injection H as -> <-. done.
  - destruct (IH H) as [H1 H2]. rewrite E. split; [exact H1|by apply f_equal].
Qed.

Lemma equal_range_nil c m : equal_range c m = [] → erase_key c m = m.
Proof.
  unfold equal_range, erase_key. induction m as [|x m IH]; [done|]. rewrite !filter_cons.
  destruct (ConnId.has_key c x) eqn:E; cbn; [done|]. intros H. by rewrite IH.
Qed.

Lemma close_range_spec c range n :
  equal_range c (peers n) = range →
  let n' := close_range_drop c range n in
  peers n' = erase_key c (peers n) ∧ active_service_nodes n' = active_service_nodes n ∧
  ∀ id, connections n' !! id =
    if bool_decide (id ∈ range_ids range)
    then None else connections n !! id.
Proof.
  unfold range_ids. revert n. induction range as [|[k peer] range IH]; intros n H; cbv zeta; cbn [close_range_drop].
  { by rewrite equal_range_nil. }
  destruct (erase_first_range _ _ _ _ H) as [H1 H2].
  set (n1 := n <| peers ::= _ |>). rewrite filter_cons. cbn [snd].
  destruct (outgoing peer) eqn:Eo; cbn.
  - destruct (drop_connection_frame (peer_conn_id peer) n1) as (F1 & F2 & F3).
    destruct (IH (drop_connection (peer_conn_id peer) n1)) as (I1 & I2 & I3); [by rewrite F1|].
    rewrite I1, I2, F1, F2. split; [done|]. split; [done|]. intros id. rewrite I3, F3. cbn [connections n1 modify].
    destruct (decide (id = peer_conn_id peer)) as [->|Hne].
    + rewrite lookup_delete_eq. do 2 case_bool_decide; set_solver.
    + rewrite lookup_delete_ne by done. do 2 case_bool_decide; set_solver.
  - destruct (IH n1 H1) as (I1 & I2 & I3). rewrite I1. by split; [|split].
Qed.

Lemma has_key_sn pk e :
  ConnId.has_key (mk_conn SN_ID pk []) e = removed_key {[ pk ]} (fst e).
Proof.
  unfold ConnId.has_key, removed_key, conn_eqb, conn_sn at 1 2. cbn [conn_id conn_pk conn_route].
  change (SN_ID =? SN_ID)%Z with true. rewrite andb_true_r. unfold conn_sn.
  destruct (conn_id (fst e) =? SN_ID)%Z; [|done]. cbn. apply bool_decide_ext. set_solver.
Qed.

Lemma removed_key_union R S k : removed_key (R ∪ S) k = removed_key R k || removed_key S k.
Proof.
  unfold removed_key. destruct (conn_sn k); [|done]. cbn.
  rewrite <-bool_decide_or. apply bool_decide_ext. set_solver.
Qed.

Lemma closed_ids_spec R m id :
  id ∈ closed_ids R m ↔
    ∃ e, e ∈ m ∧ removed_key R (fst e) = true ∧ outgoing (snd e) = true ∧ peer_conn_id (snd e) = id.
Proof.
  unfold closed_ids. rewrite elem_of_list_to_set, list_elem_of_fmap. setoid_rewrite list_elem_of_filter.
  split.
  - intros (e & -> & [? ?]%andb_true_iff & ?). by exists e.
  - intros (e & ? & ? & ? & <-). exists e. by rewrite andb_true_iff.
Qed.

Lemma range_ids_sn pk m id : id ∈ range_ids (equal_range (mk_conn SN_ID pk []) m) ↔ id ∈ closed_ids {[ pk ]} m.
Proof.
  unfold range_ids. rewrite closed_ids_spec, list_elem_of_fmap. setoid_rewrite list_elem_of_filter.
  unfold equal_range. setoid_rewrite list_elem_of_filter. setoid_rewrite has_key_sn. split.
  - intros (e & -> & ? & ? & ?). by exists e.
  - intros (e & ? & ? & ? & <-). by exists e.
Qed.

(** The service nodes of [R] leave: the exception of a null socket, or the result. *)
Definition sns_leave (R : pubkey_set) (n : net) (r : outcome net) : Prop :=
  if decide (closes_null R n) then r = Throw (zmq_error ENOTSOCK)
  else ∃ n', r = Ret n' ∧ sns_changed R ∅ n n'.

Lemma remove_sn_spec pk n : length pk = 32 → sns_leave {[ pk ]} n (remove_sn pk n).
Proof.
  intros Hpk. unfold remove_sn, conn_of_pubkey. rewrite Hpk. change (32 =? 32) with true. cbn [mbind outcome_bind].
  set (n1 := n <| active_service_nodes ::= _ |>). set (c := mk_conn SN_ID pk []).
  rewrite close_range_exact.
  rewrite (bool_decide_ext _ (closes_null {[ pk ]} n)).
  2: { unfold closes_null, set_Exists. rewrite Exists_exists. subst c. by setoid_rewrite range_ids_sn. }
  unfold sns_leave. destruct (decide _) as [Hn|Hn]; [by rewrite bool_decide_true|].
  rewrite bool_decide_false by done. eexists. split; [done|].
  destruct (close_range_spec c (equal_range c (peers n1)) n1 eq_refl) as (H1 & H2 & H3).
  split.
  - rewrite H2. cbn. set_solver.
  - rewrite H1. unfold erase_key. apply list_filter_iff. intros e. unfold c. by rewrite has_key_sn.
  - intros id. rewrite H3. change (connections n1) with (connections n). change (peers n1) with (peers n).
    pose proof (range_ids_sn pk (peers n) id) as Hid. fold c in Hid.
    do 2 case_bool_decide; try done; exfalso; tauto.
Qed.

Lemma sns_changed_trans R S n1 n2 n3 :
  sns_changed R ∅ n1 n2 → sns_changed S ∅ n2 n3 → sns_changed (R ∪ S) ∅ n1 n3.
Proof.
  intros [A1 P1 C1] [A2 P2 C2]. pose proof P1 as P2'. split.
  - rewrite A2, A1. set_solver.
  - rewrite P2, P1, list_filter_filter. apply list_filter_iff. intros e.
    rewrite removed_key_union, orb_false_iff. naive_solver.
  - intros id. rewrite C2, C1.
    assert (id ∈ closed_ids (R ∪ S) (peers n1) ↔
      id ∈ closed_ids R (peers n1) ∨ id ∈ closed_ids S (peers n2)) as Hiff.
    { rewrite P2', !closed_ids_spec. setoid_rewrite list_elem_of_filter. setoid_rewrite removed_key_union.
      setoid_rewrite orb_true_iff. split; [|naive_solver].
      intros (e & ? & Hrk & ? & ?). destruct (removed_key R e.1) eqn:E; [left; by exists e|right].
      exists e. destruct Hrk; [congruence|done]. }
    repeat case_bool_decide; try done; exfalso; tauto.
Qed.

Lemma sns_changed_refl n : sns_changed ∅ ∅ n n.
Proof.
  split.
  - set_solver.
  - induction (peers n) as [|e m IH]; [done|]. rewrite filter_cons, decide_True, <-IH; [done|].
    unfold removed_key. by rewrite andb_false_r.
  - intros id. rewrite bool_decide_false; [done|]. rewrite closed_ids_spec.
    intros (e & _ & H & _). unfold removed_key in H. by rewrite andb_false_r in H.
Qed.

Lemma closes_null_empty n : ¬ closes_null ∅ n.
Proof. intros (id & (e & _ & H & _)%closed_ids_spec & _). unfold removed_key in H. by rewrite andb_false_r in H. Qed.

(** A null socket is met by the rest of the removals, when not by the first. *)
Lemma closes_null_rest R S n n1 :
  sns_changed R ∅ n n1 → ¬ closes_null R n → closes_null (R ∪ S) n ↔ closes_null S n1.
Proof.
  intros [_ P1 C1] Hn. unfold closes_null, set_Exists in *. setoid_rewrite closed_ids_spec. rewrite P1. split.
  - intros (id & (e & He & Hr & Ho & <-) & Hid).
    assert (peer_conn_id e.2 ∉ closed_ids R (peers n)) as Hc by (intros Hc; apply Hn; eauto).
    exists (peer_conn_id e.2). split; [|by rewrite C1, bool_decide_false].
    exists e. rewrite list_elem_of_filter. rewrite removed_key_union in Hr. destruct (removed_key R e.1) eqn:Er; [|by cbn in Hr].
    destruct Hc. apply closed_ids_spec. by exists e.
  - intros (id & (e & [He1 He2]%list_elem_of_filter & Hr & Ho & <-) & Hid). exists (peer_conn_id e.2). split.
    + exists e. rewrite removed_key_union, Hr, orb_true_r. done.
    + rewrite C1 in Hid. by case_bool_decide.
Qed.

Lemma remove_sns_spec pks n : Forall (λ pk, length pk = 32) pks → sns_leave (list_to_set pks) n (remove_sns pks n).
Proof.
  intros Hpks. revert n. induction Hpks as [|pk pks Hpk _ IH]; intros n; cbn [remove_sns list_to_set].
  { unfold sns_leave. rewrite decide_False by apply closes_null_empty. exists n. split; [done|apply sns_changed_refl]. }
  pose proof (remove_sn_spec pk n Hpk) as H1. unfold sns_leave in *. destruct (decide (closes_null {[ pk ]} n)) as [Hn|Hn].
  { rewrite H1, decide_True; [done|]. destruct Hn as (id & (e & ? & Hr & ? & ?)%closed_ids_spec & ?).
    exists id. split; [|done]. apply closed_ids_spec. exists e. by rewrite removed_key_union, Hr. }
  destruct H1 as (n1 & -> & H1). cbn [mbind outcome_bind]. specialize (IH n1).
  pose proof (closes_null_rest _ (list_to_set pks) _ _ H1 Hn) as Hiff.
  destruct (decide (closes_null (list_to_set pks) n1)) as [H2|H2]; [rewrite decide_True by tauto; done|].
  rewrite decide_False by tauto. destruct IH as (n2 & E2 & H3). exists n2. split; [done|].
  by apply (sns_changed_trans _ _ n n1 n2).
Qed.

Lemma foldl_union (l : list bytes) (s : pubkey_set) :
  foldl (λ s pk, {[ pk ]} ∪ s) s l = s ∪ list_to_set l.
Proof. revert s. induction l as [|pk l IH]; intros s; cbn; [set_solver|]. rewrite IH. set_solver. Qed.

(** The outcome of a change of the service nodes: an exception when the connection of
    one that leaves has a null socket, and the change otherwise. *)
Definition sns_outcome (R A : pubkey_set) (n : net) (r : outcome net) : Prop :=
  (closes_null R n ∧ r = Throw (zmq_error ENOTSOCK)) ∨
  (¬ closes_null R n ∧ ∃ n', r = Ret n' ∧ sns_changed R A n n').

Lemma update_clean_spec added removed n :
  (∀ pk, pk ∈ removed → length pk = 32) →
  sns_outcome removed added n (proxy_update_active_sns_clean added removed n).
Proof.
  intros Hr. unfold proxy_update_active_sns_clean. pose proof (remove_sns_spec (elements removed) n) as H.
  unfold sns_leave in H. rewrite list_to_set_elements_L in H. unfold sns_outcome.
  destruct (decide (closes_null removed n)); [rewrite H; [by left|]|]; [apply Forall_forall; set_solver|].
  destruct H as (n1 & -> & [A1 P1 C1]); [apply Forall_forall; set_solver|].
  right. split; [done|]. eexists. split; [done|]. split; cbn.
  - rewrite foldl_union, list_to_set_elements_L, A1. set_solver.
  - done.
  - done.
Qed.

Lemma scan_pubkeys_spec active l P A :
  scan_pubkeys active l P A =
    (P ∖ list_to_set (filter (λ pk, length pk ≠ 32) l),
     A ∪ list_to_set (filter (λ pk, length pk = 32 ∧ pk ∉ active) l)).
Proof.
  revert P A. induction l as [|pk l IH]; intros P A; cbn [scan_pubkeys].
  { cbn. f_equal; set_solver. }
  rewrite !filter_cons. destruct (Nat.eqb_spec (length pk) 32) as [E|E]; cbn [negb].
  - rewrite (decide_False (P := length pk ≠ 32)) by naive_solver.
    case_bool_decide; rewrite IH.
    + by rewrite (decide_False (P := _ ∧ _)) by naive_solver.
    + rewrite (decide_True (P := _ ∧ _)) by naive_solver. cbn. f_equal. set_solver.
  - rewrite IH, (decide_True (P := length pk ≠ 32)), (decide_False (P := _ ∧ _)) by naive_solver.
    cbn. f_equal. set_solver.
Qed.

(** The loop may stop early: when the sizes add up nothing more is missing. *)
Lemma collect_removed_spec (active P A : pubkey_set) l R :
  P = (active ∩ P) ∪ A → A ## active → R ⊆ active ∖ P → active ∖ P ⊆ R ∪ list_to_set l →
  list_to_set l ⊆ active →
  collect_removed active P A l R = active ∖ P.
Proof.
  intros HP HA. revert R. induction l as [|pk l IH]; intros R HR Hl Hsub; cbn [collect_removed].
  { set_solver. }
  set (R' := if bool_decide (pk ∈ P) then R else {[ pk ]} ∪ R).
  assert (R' ⊆ active ∖ P) as HR' by (unfold R'; case_bool_decide; set_solver).
  assert (active ∖ P ⊆ R' ∪ list_to_set l) as Hl' by (unfold R'; case_bool_decide; set_solver).
  destruct (Z.eqb_spec (Z.of_nat (size active) + Z.of_nat (size A) - Z.of_nat (size R')) (Z.of_nat (size P))) as [E|E].
  - apply (set_subseteq_size_eq R' (active ∖ P)); [done|].
    assert (size P = size (active ∩ P) + size A) as HsP.
    { rewrite HP at 1. apply size_union. set_solver. }
    assert (size active = size (active ∩ P) + size (active ∖ P)) as Hsa.
    { rewrite <-size_union by set_solver. f_equal. apply set_eq. intros x. destruct (decide (x ∈ P)); set_solver. }
    lia.
  - apply IH; set_solver.
Qed.

Lemma clean_removed_spec active added l R :
  clean_removed active added l R =
    R ∖ list_to_set (filter (λ pk, length pk ≠ 32 ∨ pk ∉ active ∨ pk ∈ added) l).
Proof.
  revert R. induction l as [|pk l IH]; intros R; cbn [clean_removed]; [set_solver|].
  rewrite IH, filter_cons. destruct (Nat.eqb_spec (length pk) 32) as [E|E]; cbn [negb].
  - repeat case_bool_decide; cbn; case_decide; cbn; try set_solver; exfalso; tauto.
  - rewrite decide_True by tauto. cbn. set_solver.
Qed.

Lemma clean_added_spec active l A :
  clean_added active l A = A ∖ list_to_set (filter (λ pk, length pk ≠ 32 ∨ pk ∈ active) l).
Proof.
  revert A. induction l as [|pk l IH]; intros A; cbn [clean_added]; [set_solver|].
  rewrite IH, filter_cons. destruct (Nat.eqb_spec (length pk) 32) as [E|E]; cbn [negb].
  - repeat case_bool_decide; case_decide; cbn; try set_solver; exfalso; tauto.
  - rewrite decide_True by tauto. cbn. set_solver.
Qed.

Lemma set_active (pubkeys : pubkey_set) n :
  (∀ pk, pk ∈ active_service_nodes n → length pk = 32) →
  sns_outcome (active_service_nodes n ∖ valid_keys pubkeys) (valid_keys pubkeys ∖ active_service_nodes n) n
    (proxy_set_active_sns pubkeys n).
Proof.
  intros Hact. unfold proxy_set_active_sns. rewrite scan_pubkeys_spec.
  set (active := active_service_nodes n) in *.
  replace (pubkeys ∖ _) with (valid_keys pubkeys).
  2: { apply set_eq. intros x. unfold valid_keys. rewrite elem_of_filter, elem_of_difference,
         elem_of_list_to_set, list_elem_of_filter, elem_of_elements.
       destruct (decide (length x = 32)); tauto. }
  replace (∅ ∪ _) with (valid_keys pubkeys ∖ active).
  2: { apply set_eq. intros x. unfold valid_keys. rewrite elem_of_difference, elem_of_filter, elem_of_union,
         elem_of_list_to_set, list_elem_of_filter, elem_of_elements. set_solver. }
  set (P := valid_keys pubkeys). set (A := P ∖ active).
  assert (P = (active ∩ P) ∪ A) as HP.
  { apply set_eq. intros x. unfold A. destruct (decide (x ∈ active)); set_solver. }
  destruct (bool_decide (A = ∅) && (size active =? size P)) eqn:E.
  - apply andb_true_iff in E as [E1%bool_decide_eq_true E2%Nat.eqb_eq].
    assert (P = active) as HPa by (apply set_subseteq_size_eq; [set_solver|lia]).
    right. rewrite E1, HPa, difference_diag_L. split; [apply closes_null_empty|].
    exists n. split; [done|apply sns_changed_refl].
  - rewrite collect_removed_spec by (try rewrite list_to_set_elements_L; set_solver).
    apply update_clean_spec. set_solver.
Qed.

(** The new active set of [set_active_sns]. *)
Lemma changed_exactly (active P : pubkey_set) n n' :
  active = active_service_nodes n → sns_changed (active ∖ P) (P ∖ active) n n' → active_service_nodes n' = P.
Proof.
  intros -> Hc. rewrite (ch_active _ _ _ _ Hc). apply set_eq. intros x.
  destruct (decide (x ∈ active_service_nodes n)), (decide (x ∈ P)); set_solver.
Qed.

(** C24: [set_active_sns] makes the active set exactly the well-formed keys it is
    given, in spite of its shortcuts (the skip when nothing seems to change and
    the early end of the search for removed keys).  The peers of the nodes that
    left are forgotten, their outgoing connections closed, and nothing else is
    touched.  It fails in exactly one case: an outgoing connection of a node that
    leaves has a null socket (one that [connections[id]] made after a BYE), whose
    linger time cannot be set; the exception is zmq's ENOTSOCK. *)
Theorem set_active_exact (pubkeys : pubkey_set) n :
  (∀ pk, pk ∈ active_service_nodes n → length pk = 32) →
  let leaving := active_service_nodes n ∖ valid_keys pubkeys in
  (closes_null leaving n → proxy_set_active_sns pubkeys n = Throw (zmq_error ENOTSOCK)) ∧
  (¬ closes_null leaving n →
   ∃ n', proxy_set_active_sns pubkeys n = Ret n' ∧
     active_service_nodes n' = valid_keys pubkeys ∧
     sns_changed leaving (valid_keys pubkeys ∖ active_service_nodes n) n n').
Proof.
  intros Hact leaving. destruct (set_active pubkeys n Hact) as [[H1 H2]|(H1 & n' & H2 & Hc)]; (split; [|intros Hn]); try done.
  exists n'. split; [done|]. split; [|done]. by eapply changed_exactly.
Qed.

Lemma update_active (added removed : pubkey_set) n :
  (∀ pk, pk ∈ active_service_nodes n → length pk = 32) →
  sns_outcome (active_service_nodes n ∩ (removed ∖ added)) (valid_keys added ∖ active_service_nodes n) n
    (proxy_update_active_sns added removed n).
Proof.
  intros Hact. unfold proxy_update_active_sns. rewrite clean_removed_spec, clean_added_spec.
  set (active := active_service_nodes n) in *.
  match goal with |- context [removed ∖ list_to_set ?l] =>
    replace (removed ∖ list_to_set l) with (active ∩ (removed ∖ added)) end.
  2: { apply set_eq. intros x. rewrite elem_of_intersection, !elem_of_difference, elem_of_list_to_set,
         list_elem_of_filter, elem_of_elements.
       destruct (decide (x ∈ active)), (decide (x ∈ added)), (decide (length x = 32)); naive_solver. }
  match goal with |- context [added ∖ list_to_set ?l] =>
    replace (added ∖ list_to_set l) with (valid_keys added ∖ active) end.
  2: { apply set_eq. intros x. unfold valid_keys. rewrite !elem_of_difference, elem_of_filter,
         elem_of_list_to_set, list_elem_of_filter, elem_of_elements.
       destruct (decide (x ∈ active)), (decide (length x = 32)); naive_solver. }
  apply update_clean_spec. set_solver.
Qed.

(** [update_active_sns] removes and adds exactly the well-formed keys it is
    told to; a key in both lists is added.  An add of a node that is already
    active, or a removal of one that is not, changes nothing (in particular no
    connection is closed). *)
Theorem update_active_spec (added removed : pubkey_set) n :
  (∀ pk, pk ∈ active_service_nodes n → length pk = 32) →
  ¬ closes_null (active_service_nodes n ∩ (removed ∖ added)) n →
  ∃ n', proxy_update_active_sns added removed n = Ret n' ∧
    active_service_nodes n' = (active_service_nodes n ∖ (removed ∖ added)) ∪ valid_keys added ∧
    sns_changed (active_service_nodes n ∩ (removed ∖ added))
                (valid_keys added ∖ active_service_nodes n) n n'.
Proof.
  intros Hact Hn. destruct (update_active added removed n Hact) as [[? _]|(_ & n' & H & Hc)]; [done|].
  exists n'. split; [done|]. split; [|done]. rewrite (ch_active _ _ _ _ Hc). apply set_eq. intros x.
  destruct (decide (x ∈ active_service_nodes n)), (decide (x ∈ removed)), (decide (x ∈ added)); set_solver.
Qed.

(** Two active nodes, the first with an outgoing connection. *)
Definition sample_key (c : ascii) : bytes := replicate 32 c.
Definition sample_net_with (s : socket) : net :=
  net_empty <| active_service_nodes := {[ sample_key "a"; sample_key "b" ]} |>
    <| peers := [(mk_conn SN_ID (sample_key "a") [], mk_peer (sample_key "a") true Auth.none 1 [] 0 0)] |>
    <| connections := {[ 1%Z := s ]} |>.
Definition sample_net : net := sample_net_with Dealer.

Lemma sample_net_keys s pk : pk ∈ active_service_nodes (sample_net_with s) → length pk = 32.
Proof. unfold sample_net_with. cbn. rewrite elem_of_union, !elem_of_singleton. by intros [->| ->]. Qed.

Lemma set_active_exact_witness :
  (∃ n', proxy_set_active_sns {[ sample_key "b"; sample_key "c"; B "short" ]} sample_net = Ret n' ∧
     active_service_nodes n' = valid_keys {[ sample_key "b"; sample_key "c"; B "short" ]}) ∧
  proxy_set_active_sns ∅ (sample_net_with NullSocket) = Throw (zmq_error ENOTSOCK).
Proof.
  split.
  - destruct (set_active_exact {[ sample_key "b"; sample_key "c"; B "short" ]} sample_net (sample_net_keys _)) as [_ H].
    destruct H as (n' & H1 & H2 & _); [apply (bool_decide_eq_false_1 _); vm_compute; reflexivity|].
    exists n'. split; [exact H1|exact H2].
  - destruct (set_active_exact ∅ (sample_net_with NullSocket) (sample_net_keys _)) as [H _]. apply H.
    apply (bool_decide_eq_true_1 _). vm_compute. reflexivity.
Defined.

Lemma update_active_spec_witness :
  ∃ n', proxy_update_active_sns {[ sample_key "c" ]} {[ sample_key "a" ]} sample_net = Ret n' ∧
    peers n' = [].
Proof.
  destruct (update_active_spec {[ sample_key "c" ]} {[ sample_key "a" ]} sample_net (sample_net_keys _))
    as (n' & H1 & _ & [_ H2 _]); [apply (bool_decide_eq_false_1 _); vm_compute; reflexivity|].
  exists n'. split; [exact H1|]. rewrite H2. by vm_compute.
Defined.
