(* ===== verification/NetSteps.v ===== *)
(** * NetSteps: runs of the network handlers

    The proxy thread handles one control command, received message or timer at a
    time.  A run is a sequence of such events, each with its own environment.
    The theorems follow the callbacks of requests and connection attempts through
    every run: each is called exactly once or still waited for. *)
From S2P Require Import Prelude Bytes Oxenc Auth ConnId Commands Batch Pool Options Net Closing ServiceNodes.
Open Scope Z_scope.
Open Scope nat_scope.

Inductive event :=
  | EvSend (c : send_command)
  | EvConnectSn (c : connect_sn_command)
  | EvConnectRemote (c : connect_command)
  | EvDisconnect (conn : ConnectionID)
  | EvSetSns (pubkeys : pubkey_set)
  | EvUpdateSns (added removed : pubkey_set)
  | EvBind (addr : bytes) (on_bind : option callback)
  | EvCleanup
  | EvMessage (id : Z) (parts : list message).

Section run.
Context {O : Oxenc} (s : self_info).

Definition with_pool (p : pool) (r : outcome net) : outcome (option (net * pool)) :=
  n ← r; Ret (Some (n, p)).
Definition net_of {A C} (r : outcome (C * A)) : outcome C := x ← r; Ret (fst x).
Definition send_event (p : pool) (r : outcome (option net)) : outcome (option (net * pool)) :=
  x ← r; Ret (match x with Some n => Some (n, p) | None => None end).
Definition message_event (r : outcome (net * pool)) : outcome (option (net * pool)) :=
  st ← r; Ret (Some st).

(** [None]: the proxy thread hangs. *)
Definition net_step (env : Zmq) (ev : event) (st : net * pool) : outcome (option (net * pool)) :=
  let '(n, p) := st in
  match ev with
  | EvSend c => send_event p (proxy_send c n)
  | EvConnectSn c =>
      with_pool p (net_of (proxy_connect_sn (cs_pubkey c) (cs_hint c) (cs_optional c) (cs_incoming c)
            (cs_outgoing c) (cs_keep_alive c) n))
  | EvConnectRemote c => with_pool p (proxy_connect_remote c n)
  | EvDisconnect conn => with_pool p (proxy_disconnect conn n)
  | EvSetSns pks => with_pool p (proxy_set_active_sns pks n)
  | EvUpdateSns added removed => with_pool p (proxy_update_active_sns added removed n)
  | EvBind addr on_bind => with_pool p (net_of (net_of (proxy_bind addr on_bind n)))
  | EvCleanup => with_pool p (proxy_conn_cleanup n)
  | EvMessage id parts => message_event (proxy_message s id parts n p)
  end.

Fixpoint net_run (evs : list (Zmq * event)) (st : net * pool) : outcome (option (net * pool)) :=
  match evs with
  | [] => Ret (Some st)
  | (env, ev) :: evs =>
      r ← net_step env ev st;
      (match (r : option (net * pool)) with None => Ret None | Some st => net_run evs st end)
  end.
End run.

(** The requests and the connection attempts an event starts. *)
Definition event_request (ev : event) : option (callback * bytes) :=
  match ev with EvSend c => sc_request c | _ => None end.
Definition event_connect (ev : event) : option connect_command :=
  match ev with EvConnectRemote c => Some c | _ => None end.
Definition requests (evs : list (Zmq * event)) : list (callback * bytes) := omap (event_request ∘ snd) evs.
Definition connects (evs : list (Zmq * event)) : list connect_command := omap (event_connect ∘ snd) evs.

Lemma requests_cons env ev evs :
  requests ((env, ev) :: evs) = match event_request ev with Some r => r :: requests evs | None => requests evs end.
Proof. done. Qed.
Lemma connects_cons env ev evs :
  connects ((env, ev) :: evs) = match event_connect ev with Some c => c :: connects evs | None => connects evs end.
Proof. done. Qed.

(** * Nothing but the requests, the attempts and the schedule *)

Definition count {A} (f : A → bool) (l : list A) : nat := length (filter (λ x, f x = true) l).

Lemma count_nil {A} (f : A → bool) : count f [] = 0.
Proof. done. Qed.
Lemma count_cons {A} (f : A → bool) x l : count f (x :: l) = (if f x then 1 else 0) + count f l.
Proof. unfold count. rewrite filter_cons. by destruct (f x). Qed.
Lemma count_app {A} (f : A → bool) l k : count f (l ++ k) = count f l + count f k.
Proof. unfold count. by rewrite filter_app, length_app. Qed.
Lemma count_perm {A} (f : A → bool) l k : l ≡ₚ k → count f l = count f k.
Proof. unfold count. by intros ->. Qed.
Lemma count_delete {A} (f : A → bool) l i x :
  l !! i = Some x → count f l = (if f x then 1 else 0) + count f (delete i l).
Proof. intros H. rewrite (count_perm f _ _ (delete_Permutation _ _ _ H)). apply count_cons. Qed.

Record quiet (n n' : net) : Prop := {
  q_requests : pending_requests n' = pending_requests n;
  q_connects : pending_connects n' = pending_connects n;
  q_scheduled : scheduled n' = scheduled n;
}.
#[export] Instance quiet_preorder : PreOrder quiet.
Proof. split; [by split|]. intros a b c [] []. split; congruence. Qed.

Lemma quiet_close id n : quiet n (drop_connection id n).
Proof. unfold drop_connection. by case_match. Qed.
#[export] Hint Resolve quiet_close : omq.

Section quiet.
Context {env : Zmq}.

Lemma quiet_emplace_peer k v n : quiet n (emplace_peer k v n).
Proof. done. Qed.
Lemma quiet_emplace_socket id k n : quiet n (emplace_socket id k n).
Proof. done. Qed.
Lemma quiet_connections_at id n : quiet n (connections_at id n).
Proof. unfold connections_at. by case_match. Qed.
Lemma quiet_send_on id parts n : quiet n (fst (send_on id parts n)).
Proof. unfold send_on. repeat case_match; done. Qed.

Lemma quiet_expire_loop kept rest n : quiet n (expire_drop kept rest n).
Proof.
  revert kept n. induction rest as [|[k info] rest IH]; intros kept n; cbn [expire_drop]; [done|].
  case_match; [|apply IH]. etrans; [apply (quiet_close (peer_conn_id info))|apply IH].
Qed.

Lemma quiet_disconnect conn n : quiet n (disconnect_drop conn n).
Proof.
  unfold disconnect_drop. destruct (list_find _ _) as [(i & k & peer)|]; [|done].
  etrans; [apply (quiet_close (peer_conn_id peer))|done].
Qed.

Lemma quiet_connect_sn remote hint opt inc out keep n n' r :
  proxy_connect_sn remote hint opt inc out keep n = Ret (n', r) → quiet n n'.
Proof.
  unfold proxy_connect_sn, open_sn. intros H. inv_bind H. repeat case_match; simplify_eq; try done.
  etrans; [|apply quiet_connections_at]. done.
Qed.

Lemma quiet_send_target c conn n n' r : send_target c conn n = Ret (n', r) → quiet n n'.
Proof.
  unfold send_target. repeat case_match; intros; simplify_eq; try done. by eapply quiet_connect_sn.
Qed.

Lemma quiet_drop_unreachable conn n n' b : drop_unreachable conn n = Some (n', b) → quiet n n'.
Proof. unfold drop_unreachable. repeat case_match; intros; by simplify_eq. Qed.

Lemma quiet_send_loop fuel c conn n n' b e :
  send_loop fuel c conn n = Ret (Finished n' b e) → quiet n n'.
Proof.
  revert conn n. induction fuel as [|fuel IH]; intros conn n H; cbn [send_loop] in H; [done|].
  destruct (send_target c conn n) as [[n1 r]| |] eqn:Et; try done. cbn [mbind outcome_bind] in H.
  apply quiet_send_target in Et. destruct r as [[id route]|]; [|by simplify_eq].
  pose proof (quiet_send_on id (build_send_parts (sc_parts c) route) n1) as Hs.
  destruct (send_on _ _ _) as [n2 r]. cbn [fst] in Hs. assert (quiet n n2) as Hn2 by (by transitivity n1).
  destruct r; [by simplify_eq|by simplify_eq|].
  destruct ((num =? EHOSTUNREACH)%Z && _); [|by simplify_eq].
  destruct (drop_unreachable _ n2) as [[n3 []]|] eqn:Ed; [| |done]; apply quiet_drop_unreachable in Ed.
  - apply IH in H. by transitivity n2; [|transitivity n3].
  - simplify_eq. by transitivity n2.
Qed.

Lemma quiet_outgoing_peer id n n' p : outgoing_peer id n = Some (n', p) → quiet n n'.
Proof. unfold outgoing_peer. intros H. repeat case_match; by simplify_eq. Qed.

Lemma quiet_incoming_peer tmp n n' p r : incoming_peer tmp n = Ret (n', p, r) → quiet n n'.
Proof.
  unfold incoming_peer. intros H. destruct (service_node tmp); [|by simplify_eq].
  inv_bind H. repeat case_match; by simplify_eq.
Qed.

Lemma quiet_dispatch s id out peer route cmd data n p n' p' :
  authorise_and_dispatch s id out peer route cmd data n p = Ret (n', p') → quiet n n'.
Proof.
  unfold authorise_and_dispatch. destruct (get_command _ _) as [command cat_call].
  destruct (proxy_check_auth _ _ _ _ _ _ _) as [[] reply].
  - destruct cat_call as [[cat entry]|]; [|done]. intros H. inv_bind H. simplify_eq. by destruct (out && _).
  - destruct reply; intros H; [inv_bind H; unfold send_at in E; case_match; simplify_eq; apply quiet_send_on|by simplify_eq].
Qed.

Lemma quiet_to_worker `{OX : Oxenc} s id inc parts n p n' p' :
  proxy_to_worker s id inc parts n p = Ret (n', p') → quiet n n'.
Proof.
  unfold proxy_to_worker. destruct (split_parts inc parts) as [[[route cmd] args]|]; [|done].
  destruct route as [route|].
  - intros H. destruct (incoming_info _ _ _ _ n) as [tmp| |]; try done. cbn [mbind outcome_bind] in H.
    destruct (incoming_peer _ n) as [[[n1 peer] r]| |] eqn:E; try done. cbn in H.
    apply quiet_incoming_peer in E. apply quiet_dispatch in H. by transitivity n1.
  - destruct (outgoing_peer id n) as [[n1 peer]|] eqn:E; [|intros; by simplify_eq].
    intros H%quiet_dispatch. apply quiet_outgoing_peer in E. by transitivity n1.
Qed.
End quiet.

Lemma quiet_close_range c range n : quiet n (close_range_drop c range n).
Proof.
  revert n. induction range as [|[k peer] range IH]; intros n; cbn [close_range_drop]; [done|].
  etrans; [|apply IH]. case_match; [|done]. etrans; [|apply quiet_close]. done.
Qed.

Lemma quiet_remove_sns pks n n' : remove_sns pks n = Ret n' → quiet n n'.
Proof.
  revert n. induction pks as [|pk pks IH]; intros n H; cbn [remove_sns] in H; [by simplify_eq|].
  destruct (remove_sn pk n) as [n1| |] eqn:E; try done. cbn in H. unfold remove_sn in E. inv_bind E.
  apply (closing_Ret _ _ _ _ (close_range_closing _ _ _)) in E as ->.
  etrans; [|by apply IH]. etrans; [|apply quiet_close_range]. done.
Qed.

Lemma quiet_update_clean added removed n n' :
  proxy_update_active_sns_clean added removed n = Ret n' → quiet n n'.
Proof.
  unfold proxy_update_active_sns_clean. destruct (remove_sns _ n) as [n1| |] eqn:E; try done.
  apply quiet_remove_sns in E. cbn. intros. simplify_eq. by transitivity n1.
Qed.

Lemma quiet_set_sns pks n n' : proxy_set_active_sns pks n = Ret n' → quiet n n'.
Proof.
  unfold proxy_set_active_sns. destruct (scan_pubkeys _ _ _ _) as [P A].
  case_match; [intros; by simplify_eq|apply quiet_update_clean].
Qed.

(** * Every callback is accounted for *)

Section tally.
(** Which request callbacks, connection attempts (by id) and scheduled jobs to
    count; a job is counted when it is the end of something counted. *)
Context (cb_ok : callback → bool) (id_ok : Z → bool) (task_ok : task → bool).
Hypothesis ok_reply : ∀ cb b d, task_ok (TReply cb b d) = cb_ok cb.
Hypothesis ok_connected : ∀ cb conn, task_ok (TConnected cb conn) = id_ok (conn_id conn).
Hypothesis ok_failed : ∀ cb conn what, task_ok (TConnectFailed cb conn what) = id_ok (conn_id conn).
Hypothesis ok_send : ∀ cb e, task_ok (TSendFailed cb e) = false.
Hypothesis ok_full : ∀ cb, task_ok (TQueueFull cb) = false.

Definition waiting_requests (m : gmap bytes (Z * callback)) : nat :=
  count (λ e, cb_ok (snd (snd e))) (map_to_list m).
Definition waiting_connects (l : list pending_connect) : nat := count (λ pc, id_ok (pcn_id pc)) l.
Definition ended (l : list (bool * task)) : nat := count (λ e, task_ok (snd e)) l.
Definition tally (n : net) : nat :=
  waiting_requests (pending_requests n) + waiting_connects (pending_connects n) + ended (scheduled n).

Lemma waiting_insert m tag d cb : m !! tag = None →
  waiting_requests (<[ tag := (d, cb) ]> m) = Nat.b2n (cb_ok cb) + waiting_requests m.
Proof.
  intros H. unfold waiting_requests. rewrite (count_perm _ _ _ (map_to_list_insert _ _ _ H)), count_cons.
  cbn [snd]. by destruct (cb_ok cb).
Qed.

Lemma waiting_delete m tag d cb : m !! tag = Some (d, cb) →
  waiting_requests m = Nat.b2n (cb_ok cb) + waiting_requests (delete tag m).
Proof.
  intros H. rewrite <-(insert_delete_id _ _ _ H) at 1. apply waiting_insert, lookup_delete_eq.
Qed.

Lemma ended_snoc l b t : ended (l ++ [(b, t)]) = ended l + Nat.b2n (task_ok t).
Proof. unfold ended. rewrite count_app, count_cons, count_nil. cbn. destruct (task_ok t); cbn; lia. Qed.

Lemma tally_quiet n n' : quiet n n' → tally n' = tally n.
Proof. intros [H1 H2 H3]. unfold tally. by rewrite H1, H2, H3. Qed.

(** The attempts that have their callbacks. *)
Definition has_callbacks (pc : pending_connect) : Prop :=
  is_Some (pcn_success pc) ∧ is_Some (pcn_failure pc).

Lemma tally_connects_loop {env : Zmq} kept rest n :
  Forall has_callbacks (kept ++ rest) →
  let n' := connects_drop kept rest n in
  pending_requests n' = pending_requests n ∧ Forall has_callbacks (pending_connects n') ∧
  waiting_connects (pending_connects n') + ended (scheduled n') =
    waiting_connects (kept ++ rest) + ended (scheduled n).
Proof.
  revert kept n. induction rest as [|pc rest IH]; intros kept n Hcb; cbn [connects_drop]; cbv zeta.
  { cbn. rewrite app_nil_r in *. done. }
  destruct (pcn_deadline pc <? now)%Z.
  - apply Forall_app in Hcb as [Hk Hr]. apply Forall_cons in Hr as [[_ [cb Hcb]] Hr].
    set (n1 := _ <| peers ::= _ |>). destruct (IH kept n1) as (I1 & I2 & I3); [by apply Forall_app|].
    destruct (quiet_close (pcn_id pc) (schedule false (connect_timed_out pc) n)) as [Q1 Q2 Q3].
    rewrite I1, I3. split; [exact Q1|]. split; [done|]. unfold n1. cbn [scheduled modify]. rewrite Q3.
    unfold schedule. cbn [scheduled modify]. unfold connect_timed_out. rewrite ended_snoc, Hcb. cbn [call].
    rewrite ok_failed. cbn [conn_of_id conn_id]. unfold waiting_connects. rewrite !count_app, count_cons.
    destruct (id_ok (pcn_id pc)); cbn; lia.
  - destruct (IH (kept ++ [pc]) n) as (I1 & I2 & I3).
    + by rewrite <-app_assoc.
    + by rewrite <-app_assoc in I3.
Qed.

Lemma tally_requests_loop {env : Zmq} rest n :
  NoDup rest.*1 → (∀ tag v, (tag, v) ∈ rest → pending_requests n !! tag = Some v) →
  let n' := requests_loop rest n in
  tally n' = tally n ∧ pending_connects n' = pending_connects n ∧
  dom (pending_requests n') ⊆ dom (pending_requests n).
Proof.
  revert n. induction rest as [|[tag [deadline cb]] rest IH]; intros n Hnd Hin; cbn [requests_loop]; cbv zeta; [done|].
  cbn in Hnd. apply NoDup_cons in Hnd as [Hni Hnd].
  destruct (deadline <? now)%Z; [|apply IH; [done|]; intros; apply Hin; set_solver].
  set (n1 := _ <| pending_requests ::= _ |>). destruct (IH n1 Hnd) as (I1 & I2 & I3).
  { intros tag' v Hv. unfold n1. cbn [pending_requests modify]. rewrite lookup_delete_ne.
    - apply Hin. set_solver.
    - intros ->. apply Hni, list_elem_of_fmap. by exists (tag', v). }
  rewrite I1, I2. split; [|split; [done|]].
  - unfold tally, n1. cbn [pending_requests pending_connects scheduled modify schedule].
    rewrite ended_snoc. unfold timeout_task. rewrite ok_reply.
    assert (pending_requests n !! tag = Some (deadline, cb)) as Hl by (apply Hin; set_solver).
    rewrite (waiting_delete _ _ _ _ Hl). lia.
  - etrans; [exact I3|]. unfold n1. cbn. set_solver.
Qed.

Lemma tally_schedule b t n : tally (schedule b t n) = tally n + Nat.b2n (task_ok t).
Proof. unfold tally, schedule. cbn [scheduled pending_requests pending_connects modify]. rewrite ended_snoc. lia. Qed.

Lemma tally_schedule_opt f cb n :
  (∀ cb, task_ok (f cb) = false) → tally (schedule_opt f cb n) = tally n.
Proof. intros Hf. destruct cb; cbn; [|done]. rewrite tally_schedule, Hf. cbn. lia. Qed.

Definition request_weight (r : option (callback * bytes)) : nat :=
  match r with Some (cb, _) => Nat.b2n (cb_ok cb) | None => 0 end.
Definition tag_fresh (r : option (callback * bytes)) (n : net) : Prop :=
  match r with Some (_, tag) => pending_requests n !! tag = None | None => True end.
Definition tag_set (r : option (callback * bytes)) : gset bytes :=
  match r with Some (_, tag) => {[ tag ]} | None => ∅ end.

(** How a handler may move a network state: [w] callbacks are new, waited for
    under a tag of [T]. *)
Record moved (w : nat) (T : gset bytes) (n n' : net) : Prop := {
  mv_tally : tally n' = tally n + w;
  mv_tags : dom (pending_requests n') ⊆ dom (pending_requests n) ∪ T;
  mv_ok : Forall has_callbacks (pending_connects n) → Forall has_callbacks (pending_connects n');
}.

Lemma moved_quiet n n' : quiet n n' → moved 0 ∅ n n'.
Proof.
  intros H. split; [rewrite (tally_quiet _ _ H); lia| |]; destruct H as [H1 H2 H3]; rewrite ?H1, ?H2; [|done].
  set_solver.
Qed.

Lemma moved_trans w1 w2 T1 T2 n1 n2 n3 :
  moved w1 T1 n1 n2 → moved w2 T2 n2 n3 → moved (w1 + w2) (T1 ∪ T2) n1 n3.
Proof. intros [A1 B1 C1] [A2 B2 C2]. split; [lia|set_solver|tauto]. Qed.

Lemma moved_schedule b t n : moved (Nat.b2n (task_ok t)) ∅ n (schedule b t n).
Proof. split; [apply tally_schedule|unfold schedule; cbn; set_solver|done]. Qed.

Lemma moved_schedule_opt f cb n :
  (∀ cb, task_ok (f cb) = false) → moved 0 ∅ n (schedule_opt f cb n).
Proof.
  intros Hf. destruct cb as [cb|]; [|by apply moved_quiet]. cbn.
  pose proof (moved_schedule false (f cb) n) as H. by rewrite Hf in H.
Qed.

Section env.
Context {env : Zmq}.

Lemma moved_register c sent n : tag_fresh (sc_request c) n →
  moved (request_weight (sc_request c)) (tag_set (sc_request c)) n (register_request c sent n).
Proof.
  unfold register_request. destruct (sc_request c) as [[cb tag]|]; cbn [tag_fresh request_weight tag_set].
  2: { intros _. by apply moved_quiet. }
  intros Hf. destruct sent.
  - unfold insert_request. rewrite Hf. split; cbn; [|set_solver|done].
    unfold tally. cbn [pending_requests pending_connects scheduled modify]. rewrite waiting_insert by done. lia.
  - pose proof (moved_schedule false (timeout_task cb) n) as [A1 B1 C1]. unfold timeout_task in A1.
    rewrite ok_reply in A1. split; [done|set_solver|done].
Qed.

Lemma moved_report c sent err n : tag_fresh (sc_request c) n →
  moved (request_weight (sc_request c)) (tag_set (sc_request c)) n (report_send c sent err n).
Proof.
  intros Hf. unfold report_send. set (n1 := match err with Some _ => _ | None => _ end).
  assert (moved 0 ∅ n n1 ∧ pending_requests n1 = pending_requests n) as [H1 Hp1].
  { unfold n1. destruct err; [|split; [by apply moved_quiet|done]].
    split; [by apply moved_schedule_opt|]. by destruct (sc_fail c). }
  assert (tag_fresh (sc_request c) n1) as Hf1.
  { unfold tag_fresh in *. destruct (sc_request c) as [[]|]; [|done]. by rewrite Hp1. }
  pose proof (moved_trans _ _ _ _ _ _ _ H1 (moved_register c sent n1 Hf1)) as H2.
  rewrite (left_id_L ∅ (∪)) in H2. cbn [Nat.add] in H2.
  destruct sent; [done|].
  assert (∀ n2, moved 0 ∅ (register_request c false n1) n2 →
    moved (request_weight (sc_request c)) (tag_set (sc_request c)) n n2) as Hend.
  { intros n2 H3. pose proof (moved_trans _ _ _ _ _ _ _ H2 H3) as H4.
    by rewrite Nat.add_0_r, (right_id_L ∅ (∪)) in H4. }
  destruct err; apply Hend; [by apply moved_schedule_opt|].
  destruct (sc_fail c) as [cb|]; [|by apply moved_schedule_opt].
  pose proof (moved_schedule false (TSendFailed cb None) (register_request c false n1)) as H.
  by rewrite ok_send in H.
Qed.

Lemma moved_send c n n' : tag_fresh (sc_request c) n → proxy_send c n = Ret (Some n') →
  moved (request_weight (sc_request c)) (tag_set (sc_request c)) n n'.
Proof.
  intros Hf. unfold proxy_send. destruct (send_loop _ _ _ _) as [e| |] eqn:E; try done.
  destruct e as [n1 sent err| |]; try done. cbn. intros [= <-]. apply quiet_send_loop in E. pose proof (moved_quiet _ _ E) as H1.
  assert (tag_fresh (sc_request c) n1) as Hf1.
  { unfold tag_fresh in *. destruct (sc_request c) as [[]|]; [|done]. by rewrite (q_requests _ _ E). }
  pose proof (moved_trans _ _ _ _ _ _ _ H1 (moved_report c sent err n1 Hf1)) as H.
  by rewrite (left_id_L ∅ (∪)) in H.
Qed.

Lemma moved_answer tag b d n : moved 0 ∅ n (answer tag b d n).
Proof.
  unfold answer. destruct (pending_requests n !! tag) as [[dl cb]|] eqn:E; [|by apply moved_quiet].
  split; cbn; [|set_solver|done].
  unfold tally. cbn [pending_requests pending_connects scheduled modify schedule].
  rewrite ended_snoc, ok_reply, (waiting_delete _ _ _ _ E). lia.
Qed.

Lemma moved_cleanup n : Forall has_callbacks (pending_connects n) → moved 0 ∅ n (cleanup_drop n).
Proof.
  intros Hcb. unfold cleanup_drop. set (n1 := idle_peers_drop n).
  assert (quiet n n1) as Hq by apply quiet_expire_loop. pose proof Hq as [Q1 Q2 Q3].
  destruct (tally_connects_loop [] (pending_connects n1) n1) as (C1 & C2 & C3); [by rewrite Q2|].
  set (n2 := connects_drop [] (pending_connects n1) n1) in *.
  destruct (tally_requests_loop (map_to_list (pending_requests n2)) n2) as (R1 & R2 & R3).
  { apply NoDup_fst_map_to_list. }
  { intros tag v. by rewrite elem_of_map_to_list. }
  split.
  - rewrite R1, <-(tally_quiet _ _ Hq). unfold tally. rewrite C1. cbn [app] in C3. lia.
  - etrans; [exact R3|]. rewrite C1, Q1. apply union_subseteq_l.
  - intros _. by rewrite R2.
Qed.

Lemma moved_hello id n : Forall has_callbacks (pending_connects n) → moved 0 ∅ n (handle_HELLO id n).
Proof.
  intros Hcb. unfold handle_HELLO.
  destruct (list_find _ _) as [[i pc]|] eqn:E; [|by apply moved_quiet].
  apply list_find_Some in E as (Hi & Hid & _).
  destruct (find_peer _ _) as [[conn info]|] eqn:Ep; [|by apply moved_quiet].
  unfold find_peer in Ep. apply head_Some_elem_of, equal_range_spec in Ep as [_ Hkey].
  assert (conn_id conn = pcn_id pc) as Hconn.
  { unfold equiv, conn_equiv, conn_key in Hkey. by injection Hkey. }
  rewrite Forall_lookup in Hcb. destruct (Hcb _ _ Hi) as [[cb Hs] _]. rewrite Hs. cbn [call].
  split; cbn; [|set_solver|].
  - unfold tally. cbn [pending_requests pending_connects scheduled modify schedule].
    rewrite ended_snoc, ok_connected, Hconn. unfold waiting_connects.
    rewrite (count_delete _ _ _ _ Hi). destruct (id_ok (pcn_id pc)); cbn; lia.
  - intros _. by apply Forall_delete, Forall_lookup.
Qed.

Lemma moved_builtin id inc parts n n' b : Forall has_callbacks (pending_connects n) →
  proxy_handle_builtin id inc parts n = Ret (n', b) → moved 0 ∅ n n'.
Proof.
  intros Hcb. unfold proxy_handle_builtin.
  destruct (split_parts inc parts) as [[[route cmd] args]|].
  2: { intros. simplify_eq. by apply moved_quiet. }
  repeat case_bool_decide.
  - destruct args; intros; simplify_eq; [by apply moved_quiet|apply moved_answer].
  - unfold handle_HI. destruct route as [[|c route]|]; cbn; intros; simplify_eq;
      apply moved_quiet; [apply quiet_send_on|done].
  - destruct inc; intros; simplify_eq; [by apply moved_quiet|by apply moved_hello].
  - intros H'. inv_bind H'. simplify_eq. apply moved_quiet. destruct inc; [by simplify_eq|].
    apply (closing_Ret _ _ _ _ (close_closing _ _)) in E as ->. apply quiet_close.
  - destruct (is_error_response cmd); intros; simplify_eq; [|by apply moved_quiet].
    unfold handle_error_response. repeat case_match; try (by apply moved_quiet). apply moved_answer.
Qed.

Lemma moved_message {O : Oxenc} s id parts n p n' p' : Forall has_callbacks (pending_connects n) →
  proxy_message s id parts n p = Ret (n', p') → moved 0 ∅ n n'.
Proof.
  intros Hcb. unfold proxy_message. case_bool_decide; [intros; simplify_eq; by apply moved_quiet|].
  destruct (proxy_handle_builtin _ _ _ n) as [[n1 []]| |] eqn:E; try done; cbn;
    apply moved_builtin in E; try done; intros H1; [by simplify_eq|].
  apply quiet_to_worker, moved_quiet in H1. exact (moved_trans _ _ _ _ _ _ _ E H1).
Qed.

Lemma moved_connect_remote c n n' :
  is_Some (cc_connect c) → is_Some (cc_failure c) → proxy_connect_remote c n = Ret n' →
  moved (Nat.b2n (id_ok (cc_conn_id c))) ∅ n n'.
Proof.
  intros Hc [cb Hf]. unfold proxy_connect_remote. rewrite Hf. destruct (zconnect _).
  { intros. simplify_eq. cbn [call].
    pose proof (moved_schedule true (TConnectFailed cb (conn_of_id (cc_conn_id c))
      (B "connect() failed: " ++ strerror z)) n) as H. by rewrite ok_failed in H. }
  set (n1 := _ <| connections_updated := true |>).
  pose proof (quiet_send_on (cc_conn_id c) [B "HI"] n1) as Hq.
  destruct (send_on (cc_conn_id c) [B "HI"] n1) as [n2 r]. cbn [fst] in Hq.
  assert (moved 0 ∅ n n2) as H2 by (apply moved_quiet; etrans; [|exact Hq]; done).
  set (n3 := emplace_peer _ _ _).
  assert (moved (Nat.b2n (id_ok (cc_conn_id c))) ∅ n2 n3) as H3.
  { unfold n3. split; cbn; [|set_solver|].
    - unfold tally. cbn [pending_requests pending_connects scheduled modify emplace_peer].
      unfold waiting_connects. rewrite count_app, count_cons, count_nil. cbn [pcn_id].
      destruct (id_ok (cc_conn_id c)); cbn; lia.
    - intros H. apply Forall_app. split; [done|]. apply Forall_singleton. by split. }
  destruct r; intros; simplify_eq; exact (moved_trans _ _ _ _ _ _ _ H2 H3).
Qed.
End env.

(** The callbacks an event hands over; connection attempts always come with
    both (see [connect_remote]). *)
Definition event_ok (ev : event) : Prop :=
  match ev with EvConnectRemote c => is_Some (cc_connect c) ∧ is_Some (cc_failure c) | _ => True end.
Definition event_weight (ev : event) : nat :=
  request_weight (event_request ev) +
  match event_connect ev with Some c => Nat.b2n (id_ok (cc_conn_id c)) | None => 0 end.

Lemma moved_step {O : Oxenc} s env ev n p n' p' :
  Forall has_callbacks (pending_connects n) → event_ok ev → tag_fresh (event_request ev) n →
  net_step s env ev (n, p) = Ret (Some (n', p')) →
  moved (event_weight ev) (tag_set (event_request ev)) n n'.
Proof.
  intros Hcb Hok Hf. unfold event_weight.
  destruct ev as [c|c|c|conn|pks|added removed|addr on_bind| |id parts];
    cbn [net_step event_request event_connect request_weight tag_set Nat.add] in *.
  - unfold send_event. destruct (proxy_send c n) as [[n1|]| |] eqn:E; try done. cbn. intros. simplify_eq.
    rewrite Nat.add_0_r. by apply moved_send.
  - unfold with_pool, net_of. destruct (proxy_connect_sn _ _ _ _ _ _ _) as [[n1 r]| |] eqn:E; try done.
    cbn. intros. simplify_eq. by eapply moved_quiet, quiet_connect_sn.
  - unfold with_pool. destruct (proxy_connect_remote c n) eqn:E; try done. cbn. intros. simplify_eq.
    destruct Hok. by eapply moved_connect_remote.
  - unfold with_pool. destruct (proxy_disconnect conn n) eqn:E; try done. cbn. intros. simplify_eq.
    apply (closing_Ret _ _ _ _ (disconnect_closing _ _)) in E as ->. apply moved_quiet, quiet_disconnect.
  - unfold with_pool. destruct (proxy_set_active_sns pks n) eqn:E; try done. cbn. intros. simplify_eq.
    by eapply moved_quiet, quiet_set_sns.
  - unfold with_pool. destruct (proxy_update_active_sns added removed n) eqn:E; try done. cbn. intros.
    simplify_eq. by eapply moved_quiet, quiet_update_clean.
  - unfold proxy_bind. destruct (zsocket addr); [done|]. destruct (zbind addr); cbn; intros; simplify_eq; by apply moved_quiet.
  - unfold with_pool. destruct (proxy_conn_cleanup n) eqn:E; try done. cbn. intros. simplify_eq.
    apply (closing_Ret _ _ _ _ (cleanup_closing _)) in E as ->. by apply moved_cleanup.
  - unfold message_event. destruct (proxy_message s id parts n p) as [[n1 p1]| |] eqn:E; try done. cbn.
    intros. simplify_eq. by eapply moved_message.
Qed.

Fixpoint run_weight (evs : list (Zmq * event)) : nat :=
  match evs with [] => 0 | (_, ev) :: evs => event_weight ev + run_weight evs end.

Lemma tally_run {O : Oxenc} s evs n p n' p' :
  Forall has_callbacks (pending_connects n) →
  Forall (λ e, event_ok (snd e)) evs → NoDup (requests evs).*2 →
  (∀ r, r ∈ requests evs → r.2 ∉ dom (pending_requests n)) →
  net_run s evs (n, p) = Ret (Some (n', p')) →
  tally n' = tally n + run_weight evs.
Proof.
  revert n p. induction evs as [|[env ev] evs IH]; intros n p Hcb Hok Hnd Hfr H; cbn [net_run] in H.
  { simplify_eq. cbn. lia. }
  apply Forall_cons in Hok as [Hev Hok]. cbn [snd] in Hev.
  destruct (net_step s env ev (n, p)) as [[[n1 p1]|]| |] eqn:E; try done. cbn [mbind outcome_bind] in H.
  assert (tag_fresh (event_request ev) n ∧ NoDup (requests evs).*2 ∧
    (∀ r, r ∈ requests evs → r.2 ∉ dom (pending_requests n) ∪ tag_set (event_request ev)))
    as (Hf & Hnd' & Hfr').
  { rewrite requests_cons in Hnd, Hfr.
    destruct (event_request ev) as [[cb tag]|]; cbn in *.
    - apply NoDup_cons in Hnd as [Hni Hnd]. split; [|split; [done|]].
      + apply not_elem_of_dom. apply (Hfr (cb, tag)). set_solver.
      + intros r Hr. rewrite elem_of_union, elem_of_singleton. intros [Hd|Ht].
        * apply (Hfr r); [set_solver|done].
        * apply Hni. rewrite <-Ht. apply list_elem_of_fmap. by exists r.
    - split; [done|]. split; [done|]. intros r Hr. rewrite elem_of_union. intros [Hd|Ht]; [|set_solver].
      by apply (Hfr r). }
  destruct (moved_step _ _ _ _ _ _ _ Hcb Hev Hf E) as [M1 M2 M3].
  rewrite (IH n1 p1); [cbn [run_weight]; lia|by apply M3|done|done| |done].
  intros r Hr Hd. apply (Hfr' r Hr), M2, Hd.
Qed.
End tally.

(** * Theorems *)

(** The end of request [cb], and the outcome of the connection attempt [id]. *)
Definition is_reply (cb : callback) (t : task) : bool :=
  match t with TReply cb' _ _ => cb' =? cb | _ => false end.
Definition is_connect_result (id : Z) (t : task) : bool :=
  match t with
  | TConnected _ conn | TConnectFailed _ conn _ => (conn_id conn =? id)%Z
  | _ => false
  end.

Definition replies (cb : callback) (n : net) : nat := count (λ e, is_reply cb (snd e)) (scheduled n).
Definition connect_results (id : Z) (n : net) : nat :=
  count (λ e, is_connect_result id (snd e)) (scheduled n).
Definition outstanding (cb : callback) (n : net) : nat :=
  count (λ e, snd (snd e) =? cb) (map_to_list (pending_requests n)).
Definition attempts (id : Z) (n : net) : nat := count (λ pc, (pcn_id pc =? id)%Z) (pending_connects n).

Lemma count_none {A} (f : A → bool) l : (∀ x, f x = false) → count f l = 0.
Proof. intros H. induction l as [|x l IH]; [done|]. by rewrite count_cons, H, IH. Qed.

Lemma request_run_weight cb evs :
  run_weight (λ c, c =? cb) (λ _, false) evs = count (λ r, fst r =? cb) (requests evs).
Proof.
  induction evs as [|[env ev] evs IH]; [done|]. cbn [run_weight]. rewrite IH, requests_cons.
  unfold event_weight. destruct (event_connect ev) as [cc|]; cbn [Nat.b2n];
    rewrite Nat.add_0_r; destruct (event_request ev) as [[c t]|]; cbn [request_weight]; try done;
    rewrite count_cons; cbn [fst]; by destruct (c =? cb).
Qed.

Lemma connect_run_weight id evs :
  run_weight (λ _, false) (λ i, i =? id)%Z evs = count (λ c, cc_conn_id c =? id)%Z (connects evs).
Proof.
  induction evs as [|[env ev] evs IH]; [done|]. cbn [run_weight]. rewrite IH, connects_cons.
  unfold event_weight.
  replace (request_weight (λ _, false) (event_request ev)) with 0 by (by destruct (event_request ev) as [[]|]).
  cbn [Nat.add]. destruct (event_connect ev) as [c|]; [|done]. rewrite count_cons.
  by destruct (cc_conn_id c =? id)%Z.
Qed.

Section exactly_once.
Context {O : Oxenc} (s : self_info) (evs : list (Zmq * event)) (p : pool) (n' : net) (p' : pool).
Hypothesis callbacks_given : Forall (λ e, event_ok (snd e)) evs.
Hypothesis tags_distinct : NoDup (requests evs).*2.
Hypothesis run_ok : net_run s evs (net_empty, p) = Ret (Some (n', p')).

Lemma requests_balance cb :
  outstanding cb n' + replies cb n' = count (λ r, fst r =? cb) (requests evs).
Proof using All.
  pose proof (tally_run (λ c, c =? cb) (λ _, false) (is_reply cb)) as H.
  specialize (H ltac:(done) ltac:(done) ltac:(done) ltac:(done) ltac:(done) O s evs net_empty p n' p').
  rewrite request_run_weight in H. unfold tally, waiting_connects in H.
  rewrite (count_none (λ pc : pending_connect, false) (pending_connects n')) in H by done.
  rewrite Nat.add_0_r in H. apply H; done || set_solver.
Qed.

Lemma connects_balance id :
  attempts id n' + connect_results id n' = count (λ c, cc_conn_id c =? id)%Z (connects evs).
Proof using All.
  pose proof (tally_run (λ _, false) (λ i, i =? id)%Z (is_connect_result id)) as H.
  specialize (H ltac:(done) ltac:(done) ltac:(done) ltac:(done) ltac:(done) O s evs net_empty p n' p').
  rewrite connect_run_weight in H. unfold tally, waiting_requests in H.
  rewrite (count_none (λ e : bytes * (Z * callback), false) (map_to_list (pending_requests n'))) in H by done.
  apply H; done || set_solver.
Qed.
End exactly_once.

Lemma requests_loop_kept {env : Zmq} rest n tag v :
  pending_requests (requests_loop rest n) !! tag = Some v →
  pending_requests n !! tag = Some v ∧ ∀ w, (tag, w) ∈ rest → (now ≤ w.1)%Z.
Proof.
  revert n. induction rest as [|[tag' [d cb]] rest IH]; intros n H; cbn [requests_loop] in H.
  { split; [done|]. set_solver. }
  destruct (Z.ltb_spec d now) as [Hd|Hd]; apply IH in H as [H1 H2].
  - cbn [pending_requests modify] in H1. apply lookup_delete_Some in H1 as [Hne H1]. split; [done|].
    intros w [[= -> ->]|Hw]%elem_of_cons; [done|by apply H2].
  - split; [done|]. intros w [[= -> ->]|Hw]%elem_of_cons; [done|by apply H2].
Qed.

Lemma connects_loop_kept {env : Zmq} kept rest n :
  pending_connects (connects_drop kept rest n) = kept ++ filter (λ pc, (now ≤ pcn_deadline pc)%Z) rest.
Proof.
  revert kept n. induction rest as [|pc rest IH]; intros kept n; cbn [connects_drop].
  { cbn. by rewrite app_nil_r. }
  rewrite filter_cons. destruct (Z.ltb_spec (pcn_deadline pc) now); rewrite IH.
  - by rewrite decide_False by lia.
  - by rewrite decide_True, <-app_assoc by lia.
Qed.

Lemma connects_loop_requests {env : Zmq} kept rest n :
  pending_requests (connects_drop kept rest n) = pending_requests n.
Proof.
  revert kept n. induction rest as [|pc rest IH]; intros kept n; cbn [connects_drop]; [done|].
  destruct (_ <? _)%Z; rewrite IH; [|done]. cbn [pending_requests modify].
  by rewrite (q_requests _ _ (quiet_close _ _)).
Qed.

Lemma requests_loop_connects {env : Zmq} rest n :
  pending_connects (requests_loop rest n) = pending_connects n.
Proof.
  revert n. induction rest as [|[t [d cb]] rest IH]; intros n; cbn [requests_loop]; [done|].
  by destruct (_ <? _)%Z; rewrite IH.
Qed.

(** A cleanup after every deadline leaves nothing waiting. *)
Lemma cleanup_drains {env : Zmq} n :
  (∀ tag d cb, pending_requests n !! tag = Some (d, cb) → (d < now)%Z) →
  Forall (λ pc, (pcn_deadline pc < now)%Z) (pending_connects n) →
  pending_requests (cleanup_drop n) = ∅ ∧ pending_connects (cleanup_drop n) = [].
Proof.
  intros Hr Hc. unfold cleanup_drop. set (n1 := idle_peers_drop n).
  assert (quiet n n1) as [Q1 Q2 _] by apply quiet_expire_loop. split.
  - apply map_eq. intros tag. rewrite lookup_empty. apply eq_None_not_Some. intros [[d cb] H].
    apply requests_loop_kept in H as [H1 H2].
    specialize (H2 (d, cb)). rewrite elem_of_map_to_list in H2. specialize (H2 H1). cbn in H2.
    rewrite connects_loop_requests, Q1 in H1. apply Hr in H1. lia.
  - rewrite requests_loop_connects, connects_loop_kept, Q2. cbn.
    clear -Hc. induction Hc as [|pc l Hpc _ IH]; [done|]. by rewrite filter_cons, decide_False by lia.
Qed.

Lemma net_run_app {O : Oxenc} s evs1 evs2 st1 st2 :
  net_run s evs1 st1 = Ret (Some st2) → net_run s (evs1 ++ evs2) st1 = net_run s evs2 st2.
Proof.
  revert st1. induction evs1 as [|[env ev] evs1 IH]; intros st1 H; cbn [net_run app] in *; [by simplify_eq|].
  destruct (net_step s env ev st1) as [[st|]| |]; try done. by apply IH.
Qed.

Lemma requests_snoc_cleanup evs env : requests (evs ++ [(env, EvCleanup)]) = requests evs.
Proof. unfold requests. rewrite omap_app. cbn. by rewrite app_nil_r. Qed.
Lemma connects_snoc_cleanup evs env : connects (evs ++ [(env, EvCleanup)]) = connects evs.
Proof. unfold connects. rewrite omap_app. cbn. by rewrite app_nil_r. Qed.

Import Standard.

(** A run: a connection attempt and two requests to a service node; the attempt
    and the first request are answered. *)
Definition sample_env (t : Z) : Zmq := {|
  now := t; zsend _ _ := Sent; zconnect _ := None; zsocket _ := None; zbind _ := true; zchown _ := None; strerror _ := []; ztimer := t;
  sn_lookup _ := B "tcp://10.0.0.9:5555"; position := 0 |}.
Definition sample_sn : bytes := replicate 32 "s"%char.
Definition sample_request (cb : callback) (tag : bytes) : event :=
  EvSend (mk_send (mk_conn SN_ID sample_sn []) [] false 30000 false false (Some (cb, tag)) 15000
    [B "a.b"; tag] None None).
Definition sample_parts (parts : list bytes) : list message := (λ d, Auth.mk_message d ∅) <$> parts.
Definition sample_run : list (Zmq * event) :=
  [(sample_env 10, EvConnectRemote (mk_connect basic 7 (Some 1) false (Some 2) [] (B "tcp://10.0.0.7:1") 10000));
   (sample_env 11, EvMessage 7 (sample_parts [B "HELLO"]));
   (sample_env 12, sample_request 3 (B "tag-0001"));
   (sample_env 13, sample_request 3 (B "tag-0002"));
   (sample_env 14, EvMessage 1 (sample_parts [B "REPLY"; B "tag-0001"; B "data"]));
   (sample_env 15, EvMessage 1 (sample_parts [B "REPLY"; B "tag-0001"; B "again"]))].
Definition sample_self : self_info := mk_self [] 0 false.
Definition sample_result : option (net * pool) :=
  match net_run sample_self sample_run (net_empty, pool_new 2) with Ret r => r | _ => None end.

Lemma sample_run_ends : ∃ st, net_run sample_self sample_run (net_empty, pool_new 2) = Ret (Some st).
Proof. eexists. vm_compute. reflexivity. Qed.
Lemma sample_run_ok :
  Forall (λ e, event_ok (snd e)) sample_run ∧ NoDup (requests sample_run).*2.
Proof. split; [repeat constructor; by eexists|]. apply (bool_decide_unpack _). by vm_compute. Qed.

(** C15: no callback is lost and none is called twice.  Along every run of the
    proxy thread from a fresh object (sends, connections, service node updates,
    received messages of any content, cleanups, in any order and with any
    behaviour of zmq), if reply tags do not repeat then for every request callback
    the number of requests made equals the number of calls scheduled plus the
    number still waiting; and likewise for every connection attempt the success
    and failure callbacks. *)
Theorem callbacks_exactly_once {O : Oxenc} s evs p n' p' :
  Forall (λ e, event_ok (snd e)) evs → NoDup (requests evs).*2 →
  net_run s evs (net_empty, p) = Ret (Some (n', p')) →
  (∀ cb, outstanding cb n' + replies cb n' = count (λ r, fst r =? cb) (requests evs)) ∧
  (∀ id, attempts id n' + connect_results id n' = count (λ c, cc_conn_id c =? id)%Z (connects evs)).
Proof. intros Hok Hnd H. split; [by eapply requests_balance|by eapply connects_balance]. Qed.

Lemma callbacks_exactly_once_witness :
  ∃ n' p', net_run sample_self sample_run (net_empty, pool_new 2) = Ret (Some (n', p')) ∧
    outstanding 3 n' + replies 3 n' = 2 ∧ attempts 7 n' + connect_results 7 n' = 1.
Proof.
  destruct sample_run_ends as [[n' p'] H]. exists n', p'. split; [exact H|].
  destruct (callbacks_exactly_once sample_self sample_run (pool_new 2) n' p'
    (proj1 sample_run_ok) (proj2 sample_run_ok) H) as [H1 H2].
  split; [exact (H1 3)|exact (H2 7%Z)].
Defined.

(** C23: every request is answered in the end.  After any run as before, a cleanup
    at a time past all deadlines leaves no request and no connection attempt
    waiting: every callback has then been scheduled exactly as often as it was
    given.  The cleanup does not return in one case only: [connections] holds a null
    socket (as after a BYE and a later send to the same node), and closing it throws
    zmq's ENOTSOCK. *)
Theorem late_cleanup_answers_all {O : Oxenc} s evs p n' p' (env : Zmq) :
  Forall (λ e, event_ok (snd e)) evs → NoDup (requests evs).*2 →
  net_run s evs (net_empty, p) = Ret (Some (n', p')) →
  (∀ tag d cb, pending_requests n' !! tag = Some (d, cb) → (d < now)%Z) →
  Forall (λ pc, (pcn_deadline pc < now)%Z) (pending_connects n') →
  (net_run s (evs ++ [(env, EvCleanup)]) (net_empty, p) = Throw (zmq_error ENOTSOCK) ∧
   ∃ id, connections n' !! id = Some NullSocket) ∨
  ∃ n'', net_run s (evs ++ [(env, EvCleanup)]) (net_empty, p) = Ret (Some (n'', p')) ∧
    pending_requests n'' = ∅ ∧ pending_connects n'' = [] ∧
    (∀ cb, replies cb n'' = count (λ r, fst r =? cb) (requests evs)) ∧
    (∀ id, connect_results id n'' = count (λ c, cc_conn_id c =? id)%Z (connects evs)).
Proof.
  intros Hok Hnd H Hr Hc. pose proof (net_run_app s evs [(env, EvCleanup)] _ _ H) as Hrun.
  cbn [net_run net_step] in Hrun. unfold with_pool in Hrun.
  destruct (cleanup_closing n') as [Hcl|[Hcl Hnull]]; rewrite Hcl in Hrun; cbn [mbind outcome_bind] in Hrun; [right|by left].
  exists (cleanup_drop n').
  destruct (cleanup_drains n' Hr Hc) as [D1 D2].
  assert (Forall (λ e, event_ok (snd e)) (evs ++ [(env, EvCleanup)])) as Hok'.
  { apply Forall_app. split; [done|]. by apply Forall_singleton. }
  rewrite <-(requests_snoc_cleanup evs env) in Hnd. split; [done|]. split; [done|]. split; [done|]. split.
  - intros cb. pose proof (requests_balance s _ p _ _ Hok' Hnd Hrun cb) as Hb.
    rewrite requests_snoc_cleanup in Hb. unfold outstanding in Hb. rewrite D1, map_to_list_empty in Hb. exact Hb.
  - intros id. pose proof (connects_balance s _ p _ _ Hok' Hnd Hrun id) as Hb.
    rewrite connects_snoc_cleanup in Hb. unfold attempts in Hb. rewrite D2 in Hb. exact Hb.
Qed.

Lemma late_cleanup_answers_all_witness :
  ∃ n'', net_run sample_self (sample_run ++ [(sample_env 20000, EvCleanup)]) (net_empty, pool_new 2) =
      Ret (Some n'') ∧ replies 3 (fst n'') = 2.
Proof.
  destruct sample_result as [[n' p']|] eqn:E; [|exfalso; vm_compute in E; discriminate].
  assert (net_run sample_self sample_run (net_empty, pool_new 2) = Ret (Some (n', p'))) as H.
  { unfold sample_result in E. destruct sample_run_ends as [st Hst]. rewrite Hst in E |- *. by rewrite E. }
  vm_compute in E. injection E as E1 E2.
  destruct (late_cleanup_answers_all sample_self sample_run (pool_new 2) n' p' (sample_env 20000)
    (proj1 sample_run_ok) (proj2 sample_run_ok) H) as [[H1 _]|(n'' & H1 & _ & _ & H2 & _)].
  - subst n'. intros tag d cb. cbn [pending_requests]. intros Hl.
    apply elem_of_map_to_list in Hl. vm_compute in Hl.
    apply elem_of_cons in Hl as [[= -> -> ->]|Hl]; [by vm_compute|]. by apply elem_of_nil in Hl.
  - subst n'. constructor.
  - exfalso. vm_compute in H1. discriminate H1.
  - exists (n'', p'). split; [exact H1|exact (H2 3)].
Defined.
