(* ===== verification/NetProps.v ===== *)
(** * NetProps: what the connection handlers guarantee

    Termination of [proxy_send] and the case in which it does not return,
    delivery, idle connections, and the authorisation of incoming commands. *)
From S2P Require Import Prelude Bytes Oxenc Auth ConnId Commands Batch Pool Options Net Closing ServiceNodes NetSteps.
Open Scope Z_scope.
Open Scope nat_scope.

(** * Lemmas on [peers] *)

Lemma equal_range_cons c e m :
  equal_range c (e :: m) = if ConnId.has_key c e then e :: equal_range c m else equal_range c m.
Proof. unfold equal_range. rewrite filter_cons. by destruct (ConnId.has_key c e). Qed.

Lemma length_modify_first p f m : length (modify_first p f m) = length m.
Proof. unfold modify_first. induction m as [|e m IH]; cbn; [done|]. destruct (p e); cbn; by rewrite ?IH. Qed.

Lemma length_erase_first c m e l :
  equal_range c m = e :: l → length (erase_first (ConnId.has_key c) m) < length m.
Proof.
  unfold erase_first. induction m as [|x m IH]; [done|]. rewrite equal_range_cons. cbn [update_first].
  destruct (ConnId.has_key c x); cbn; [lia|]. intros H%IH. lia.
Qed.

(** The first entry of a range, after it was written through. *)
Lemma modify_first_range c f m i k p :
  list_find (λ e, ConnId.has_key c e) m = Some (i, (k, p)) →
  ∃ l, equal_range c (modify_first (ConnId.has_key c) f m) = (k, f p) :: l.
Proof.
  unfold modify_first. revert i. induction m as [|x m IH]; intros i; cbn [list_find]; [done|].
  cbn [update_first]. destruct (decide (ConnId.has_key c x)) as [Hx|Hx].
  - intros [= _ ->]. rewrite (Is_true_eq_true _ Hx). cbn [app fst snd]. rewrite equal_range_cons.
    replace (ConnId.has_key c (k, f p)) with (ConnId.has_key c (k, p)) by done.
    rewrite (Is_true_eq_true _ Hx). by eexists.
  - destruct (list_find _ m) as [[j y]|] eqn:E; [|done]. cbn. intros [= <- ->].
    destruct (ConnId.has_key c x) eqn:Ex; [done|].
    destruct (IH _ eq_refl) as [l Hl]. rewrite equal_range_cons, Ex. by exists l.
Qed.

(** * [proxy_send] *)

Section send.
Context {env : Zmq}.

Lemma keep_longer_route k p : peer_route (keep_longer k p) = peer_route p.
Proof. unfold keep_longer. repeat case_match; done. Qed.

Lemma send_on_peers id parts n : peers (fst (send_on id parts n)) = peers n.
Proof. unfold send_on. repeat case_match; done. Qed.
Lemma connections_at_peers id n : peers (connections_at id n) = peers n.
Proof. unfold connections_at. by case_match. Qed.

(** When incoming connections are not asked for, a route found for a service
    node is that of the first entry of its range. *)
Lemma target_first c conn n n1 id route :
  sc_incoming c = false → conn_sn conn = true → route ≠ [] →
  send_target c conn n = Ret (n1, Some (id, route)) →
  length (peers n1) = length (peers n) ∧
  ∃ k p l, equal_range conn (peers n1) = (k, p) :: l ∧ peer_route p = route.
Proof.
  intros Hinc Hsn Hr. unfold send_target. rewrite Hsn, Hinc. unfold proxy_connect_sn, conn_of_pubkey.
  destruct (length (conn_pk conn) =? 32); [|done]. cbn [mbind outcome_bind].
  set (cid := mk_conn SN_ID (conn_pk conn) []).
  assert (cid ≡ conn) as Hcid.
  { unfold equiv, conn_equiv, conn_key, cid, conn_sn in *. cbn. apply Z.eqb_eq in Hsn. by rewrite Hsn. }
  destruct (list_find _ (peers n)) as [(i & k & p)|] eqn:E.
  - intros [= <- <- <-]. rewrite connections_at_peers. cbn [peers modify]. rewrite length_modify_first.
    split; [done|].
    destruct (sc_outgoing c) eqn:Ho.
    { apply list_find_Some in E as (_ & Hp & _). cbn [snd] in Hp. unfold usable in Hp.
      rewrite (bool_decide_false (peer_route p = [])) in Hp by done. cbn in Hp. by rewrite andb_false_r in Hp. }
    assert (∀ e, ConnId.has_key cid e && usable false false (snd e) = ConnId.has_key cid e) as Hpred.
    { intros e. unfold usable. cbn. apply andb_true_r. }
    assert (∀ m f, modify_first (λ e, ConnId.has_key cid e && usable false false (snd e)) f m =
                   modify_first (ConnId.has_key cid) f m) as ->.
    { intros m f. unfold modify_first. induction m as [|e m IH]; cbn [update_first]; [done|].
      by rewrite Hpred, IH. }
    assert (list_find (λ e, ConnId.has_key cid e) (peers n) = Some (i, (k, p))) as E'.
    { rewrite <-E. apply list_find_ext. intros e. by rewrite Hpred. }
    destruct (modify_first_range cid (keep_longer (sc_keep_alive c)) _ _ _ _ E') as [l Hl].
    exists k, (keep_longer (sc_keep_alive c) p), l. rewrite <-Hcid. split; [done|]. apply keep_longer_route.
  - repeat case_match; intros; simplify_eq.
Qed.

Lemma send_loop_returns fuel c conn n :
  sc_incoming c = false → (conn_sn conn = true → length (conn_pk conn) = 32) →
  length (peers n) < fuel →
  ∃ n' sent err, send_loop fuel c conn n = Ret (Finished n' sent err).
Proof.
  intros Hinc. revert conn n. induction fuel as [|fuel IH]; intros conn n Hpk Hf; [lia|]. cbn [send_loop].
  assert (∃ n1 r, send_target c conn n = Ret (n1, r)) as (n1 & r & Ht).
  { unfold send_target. destruct (conn_sn conn); [|by case_match; do 2 eexists].
    unfold proxy_connect_sn, conn_of_pubkey. rewrite Hpk by done. cbn. repeat case_match; by do 2 eexists. }
  rewrite Ht. cbn [mbind outcome_bind]. destruct r as [[id route]|]; [|by do 3 eexists].
  pose proof (send_on_peers id (build_send_parts (sc_parts c) route) n1) as Hp.
  destruct (send_on id _ n1) as [n2 []]; [by do 3 eexists|by do 3 eexists|]. cbn [fst] in Hp.
  case_bool_decide; [rewrite andb_false_r; by do 3 eexists|]. rewrite andb_true_r.
  destruct (num =? EHOSTUNREACH)%Z; [|by do 3 eexists].
  set (conn' := conn <| conn_route := route |>).
  unfold drop_unreachable. change (conn_sn conn') with (conn_sn conn).
  destruct (conn_sn conn) eqn:Hsn; cbn [negb]; [|by destruct (equal_range _ _) as [|[]]; do 3 eexists].
  destruct (target_first c conn n n1 id route Hinc Hsn ltac:(done) Ht) as (Hlen & k & p & l & Hl & Hroute).
  assert (conn' ≡ conn) as Hc'.
  { unfold equiv, conn_equiv, conn_key, conn', conn_sn in *. cbn. by rewrite Hsn. }
  assert (equal_range conn' (peers n2) = (k, p) :: l) as Hl' by (rewrite Hc', Hp; exact Hl).
  rewrite Hl', bool_decide_true by exact Hroute. apply IH; [by intros _; apply Hpk|].
  cbn [peers modify]. apply length_erase_first in Hl'. rewrite Hp in *. lia.
Qed.

(** Where a message may go. *)
Definition destination (c : send_command) (n : net) (id : Z) (route : bytes) : Prop :=
  let conn := sc_conn c in
  if conn_sn conn then
    ∃ k p, (k, p) ∈ peers n ∧ k ≡ conn ∧ peer_conn_id p = id ∧ peer_route p = route ∧
      usable (sc_incoming c) (sc_outgoing c) p = true
  else if bool_decide (conn_route conn = []) then
    route = [] ∧ ∃ k p, (k, p) ∈ peers n ∧ k ≡ conn ∧ peer_conn_id p = id
  else route = conn_route conn ∧ id = conn_id conn.

Definition delivered (c : send_command) (sent : bool) (n n' : net) : Prop :=
  if sent then
    ∃ id route, wire n' = wire n ++ [(id, build_send_parts (sc_parts c) route)] ∧ destination c n' id route
  else wire n' = wire n.

Lemma modify_first_elem (p : ConnectionID * peer_info → bool) f m i k v :
  list_find (λ e, p e) m = Some (i, (k, v)) → (k, f v) ∈ modify_first p f m.
Proof.
  unfold modify_first. revert i. induction m as [|x m IH]; intros i; cbn [list_find update_first]; [done|].
  destruct (decide (p x)) as [Hx|Hx].
  - intros [= _ ->]. rewrite (Is_true_eq_true _ Hx). cbn. apply elem_of_cons. by left.
  - destruct (list_find _ m) as [[j y]|] eqn:E; [|done]. cbn. intros [= <- ->].
    destruct (p x); [done|]. apply elem_of_cons. right. by eapply IH.
Qed.

Lemma target_destination c conn n n1 id route :
  conn_sn conn = conn_sn (sc_conn c) → conn ≡ sc_conn c → (conn_sn conn = false → conn = sc_conn c) →
  send_target c conn n = Ret (n1, Some (id, route)) →
  wire n1 = wire n ∧ destination c n1 id route.
Proof.
  intros Hsn Hequiv Hconn. unfold send_target, destination. rewrite <-Hsn.
  destruct (conn_sn conn) eqn:E.
  - unfold proxy_connect_sn, conn_of_pubkey. destruct (length (conn_pk conn) =? 32); [|done]. cbn [mbind outcome_bind].
    set (cid := mk_conn SN_ID (conn_pk conn) []).
    assert (cid ≡ sc_conn c) as Hcid.
    { rewrite <-Hequiv. unfold equiv, conn_equiv, conn_key, cid, conn_sn in *. cbn.
      apply Z.eqb_eq in E. by rewrite E. }
    destruct (list_find _ (peers n)) as [(i & k & p)|] eqn:El.
    + intros [= <- <- <-]. rewrite connections_at_peers. split.
      { unfold connections_at. by case_match. }
      pose proof (modify_first_elem _ (keep_longer (sc_keep_alive c)) _ _ _ _ El) as Hin.
      apply list_find_Some in El as (_ & [Hk Hu]%andb_prop_elim & _).
      exists k, (keep_longer (sc_keep_alive c) p). split; [exact Hin|].
      apply Is_true_eq_true, conn_eqb_equiv in Hk. cbn in Hk. split; [by rewrite Hk|].
      rewrite keep_longer_route. split; [unfold keep_longer; by repeat case_match|]. split; [done|].
      unfold usable. rewrite keep_longer_route. by apply Is_true_eq_true in Hu.
    + destruct (sc_optional c || sc_incoming c) eqn:Eo; [done|].
      destruct (bool_decide _); [done|]. destruct (zconnect _); [done|]. cbn. intros [= <- <- <-].
      split; [done|]. eexists cid, _. cbn [peers modify emplace_peer emplace_socket].
      split; [apply elem_of_app; right; apply elem_of_cons; by left|]. split; [done|]. cbn.
      split; [done|]. split; [done|]. apply orb_false_iff in Eo as [_ Eo]. unfold usable. rewrite Eo. cbn.
      by rewrite andb_false_r.
  - rewrite Hconn by done. case_bool_decide; cbn [negb].
    + destruct (find_peer _ _) as [[k p]|] eqn:Ef; [|done]. destruct (connections n !! _); [|done].
      intros [= <- <- <-]. split; [done|]. split; [done|].
      unfold find_peer in Ef. apply head_Some_elem_of, equal_range_spec in Ef as [? ?]. by exists k, p.
    + destruct (connections n !! _); [|done]. by intros [= <- <- <-].
Qed.

Lemma destination_peers c n n' id route :
  peers n' = peers n → destination c n id route → destination c n' id route.
Proof. unfold destination. by intros ->. Qed.

Lemma drop_unreachable_wire conn n n' b : drop_unreachable conn n = Some (n', b) →
  wire n' = wire n ∧ (b = true → conn_sn conn = true).
Proof.
  unfold drop_unreachable. destruct (equal_range _ _) as [|[k p] l]; [intros [= <- <-]; done|].
  destruct (conn_sn conn); cbn; [case_bool_decide; [|done]|]; by intros [= <- <-].
Qed.

Lemma send_loop_delivers fuel c conn n n' sent err :
  conn_sn conn = conn_sn (sc_conn c) → conn ≡ sc_conn c → (conn_sn conn = false → conn = sc_conn c) →
  send_loop fuel c conn n = Ret (Finished n' sent err) →
  delivered c sent n n' ∧ (sent = true → err = None).
Proof.
  revert conn n. induction fuel as [|fuel IH]; intros conn n Hsn Heq Hconn H; cbn [send_loop] in H; [done|].
  destruct (send_target c conn n) as [[n1 [[id route]|]]| |] eqn:Et; try done; cbn [mbind outcome_bind] in H.
  2: { injection H as <- <- <-. split; [|done]. unfold send_target in Et. cbn.
       destruct (conn_sn conn).
       - unfold proxy_connect_sn in Et. inv_bind Et. repeat case_match; simplify_eq; done.
       - by repeat case_match; simplify_eq. }
  destruct (target_destination c conn n n1 id route Hsn Heq Hconn Et) as [Hw Hd].
  unfold send_on in H.
  assert (∀ e, Ret (Finished n1 false e) = Ret (Finished n' sent err) →
    delivered c sent n n' ∧ (sent = true → err = None)) as Hno.
  { intros e [= <- <- <-]. by split. }
  assert (∀ e, (if (e =? EHOSTUNREACH)%Z && negb (bool_decide (route = []))
    then match drop_unreachable (conn <| conn_route := route |>) n1 with
         | Some (n, true) => send_loop fuel c (conn <| conn_route := route |>) n
         | Some (n, false) => Ret (Finished n false (Some e))
         | None => Ret Hang
         end
    else Ret (Finished n1 false (Some e))) = Ret (Finished n' sent err) →
    delivered c sent n n' ∧ (sent = true → err = None)) as Herr.
  { intros e He. destruct ((e =? EHOSTUNREACH)%Z && negb (bool_decide (route = []))); [|exact (Hno _ He)].
    destruct (drop_unreachable _ n1) as [[n3 []]|] eqn:Ed; [| |done]; apply drop_unreachable_wire in Ed as [Hw3 Hb].
    - specialize (Hb eq_refl). change (conn_sn (conn <| conn_route := route |>)) with (conn_sn conn) in Hb.
      apply IH in He; cbn.
      + destruct He as [Hdel He]. split; [|done]. unfold delivered in *. by rewrite Hw3, Hw in Hdel.
      + done.
      + rewrite <-Heq. unfold equiv, conn_equiv, conn_key. change (conn_sn (conn <| conn_route := route |>)) with (conn_sn conn).
        by rewrite Hb.
      + change (conn_sn (conn <| conn_route := route |>)) with (conn_sn conn). by rewrite Hb.
    - injection He as <- <- <-. split; [|done]. cbn. by rewrite Hw3. }
  assert (Ret (Finished (n1 <| wire ::= (λ l, l ++ [(id, build_send_parts (sc_parts c) route)]) |>) true None) =
    Ret (Finished n' sent err) → delivered c sent n n' ∧ (sent = true → err = None)) as Hyes.
  { intros [= <- <- <-]. split; [|done]. exists id, route. cbn [wire modify]. rewrite Hw. split; [done|].
    by apply (destination_peers c n1). }
  destruct (connections n1 !! id) as [[]|]; [| |exact (Herr ENOTSOCK H)|exact (Herr ENOTSOCK H)];
    (destruct (zsend _ _) as [| |e]; [by apply Hyes|exact (Hno _ H)|exact (Herr e H)]).
Qed.

(** The callbacks that follow a send, in the order in which they are scheduled. *)
Definition send_reports (c : send_command) (sent : bool) (err : option Z) : list task :=
  if sent then []
  else
    match err, sc_fail c with Some e, Some cb => [TSendFailed cb (Some e)] | _, _ => [] end ++
    match sc_request c with Some (cb, _) => [TReply cb false [B "TIMEOUT"]] | None => [] end ++
    match err, sc_fail c, sc_full c with
    | None, Some cb, _ => [TSendFailed cb None]
    | _, _, Some cb => [TQueueFull cb]
    | _, _, None => []
    end.

Lemma report_send_spec c sent err n :
  (sent = true → err = None) →
  let n' := report_send c sent err n in
  wire n' = wire n ∧ peers n' = peers n ∧
  scheduled n' = scheduled n ++ ((λ t, (false, t)) <$> send_reports c sent err) ∧
  pending_requests n' =
    match sc_request c with
    | Some (cb, tag) =>
        if sent && bool_decide (pending_requests n !! tag = None)
        then <[ tag := ((now + sc_request_timeout c)%Z, cb) ]> (pending_requests n) else pending_requests n
    | None => pending_requests n
    end.
Proof.
  intros Herr. unfold report_send, send_reports, register_request, insert_request, schedule_opt, schedule.
  destruct sent; [rewrite Herr by done|];
    destruct (sc_request c) as [[cb tag]|]; try destruct err; destruct (sc_fail c), (sc_full c); cbn;
    rewrite ?app_nil_r, <-?app_assoc; try done.
  all: destruct (pending_requests n !! tag) eqn:E;
    [rewrite bool_decide_false by done|rewrite bool_decide_true by done]; done.
Qed.

(** C22: [proxy_send] returns.  Unless only incoming connections may be used, the
    retry loop ends, whatever zmq answers: every retry drops one peer. *)
Theorem send_terminates c n :
  sc_incoming c = false → (conn_sn (sc_conn c) = true → length (conn_pk (sc_conn c)) = 32) →
  ∃ n', proxy_send c n = Ret (Some n').
Proof.
  intros Hinc Hpk. unfold proxy_send.
  destruct (send_loop_returns (S (length (peers n))) c (sc_conn c) n Hinc Hpk ltac:(lia)) as (n' & sent & err & ->).
  by eexists.
Qed.

(** C19: what [proxy_send] does.  At most one message leaves, with exactly the
    parts given, and only on a connection of the destination: for a service node
    one whose peer entry has its key and the kind asked for, otherwise the
    connection named, whatever the options [incoming] and [outgoing] say.  A request
    becomes pending when the message was accepted, with its deadline; otherwise its
    callback is scheduled with TIMEOUT.  When nothing was sent the failure callbacks are
    scheduled as [send_reports] says: [queue_failure] with the exception if there was one
    and with a null pointer if the queue was full or there was no connection, and
    [queue_full] in each of these three cases unless [queue_failure] got the null
    pointer, so not only when the queue was full. *)
Theorem send_contract c n n' :
  proxy_send c n = Ret (Some n') →
  ∃ sent err, delivered c sent n n' ∧ (sent = true → err = None) ∧
    scheduled n' = scheduled n ++ ((λ t, (false, t)) <$> send_reports c sent err) ∧
    pending_requests n' =
      match sc_request c with
      | Some (cb, tag) =>
          if sent && bool_decide (pending_requests n !! tag = None)
          then <[ tag := ((now + sc_request_timeout c)%Z, cb) ]> (pending_requests n) else pending_requests n
      | None => pending_requests n
      end.
Proof.
  unfold proxy_send. destruct (send_loop _ _ _ _) as [e| |] eqn:E; try done.
  destruct e as [n1 sent err| |]; try done. cbn. intros [= <-]. exists sent, err.
  destruct (send_loop_delivers _ _ _ _ _ _ _ eq_refl (reflexivity _) ltac:(done) E) as [Hd Herr].
  destruct (report_send_spec c sent err n1 Herr) as (R1 & R2 & R3 & R4).
  apply quiet_send_loop in E as [Q1 Q2 Q3]. rewrite Q1 in R4. rewrite Q3 in R3. split; [|done].
  unfold delivered in *. destruct sent; [|congruence].
  destruct Hd as (id & route & Hw & Hd). exists id, route. split; [congruence|].
  by apply (destination_peers c n1).
Qed.
End send.

(** * Two ways to lose a connection *)

Lemma update_peers_id (f : peer_map → peer_map) n : f (peers n) = peers n → n <| peers ::= f |> = n.
Proof. intros H. destruct n. unfold modify. cbn in *. by rewrite H. Qed.

(** Asked for an incoming connection, [proxy_connect_sn] passes over an outgoing
    one. *)
Lemma connect_sn_incoming {env : Zmq} n pk hint opt keep k1 k2 p1 p2 :
  length pk = 32 → k1 ≡ mk_conn SN_ID pk [] → k2 ≡ mk_conn SN_ID pk [] →
  peers n = [(k1, p1); (k2, p2)] → peer_route p1 = [] → peer_route p2 ≠ [] →
  is_Some (connections n !! peer_conn_id p2) →
  proxy_connect_sn pk hint opt true false keep n = Ret (n, Some (peer_conn_id p2, peer_route p2)).
Proof.
  intros Hpk Hk1%conn_eqb_equiv Hk2%conn_eqb_equiv Hpeers Hr1 Hr2 [sock Hsock].
  unfold proxy_connect_sn, conn_of_pubkey. rewrite Hpk. change (32 =? 32) with true. cbn [mbind outcome_bind].
  assert (usable true false p1 = false) as U1 by (unfold usable; by rewrite bool_decide_true).
  assert (usable true false p2 = true) as U2 by (unfold usable; by rewrite bool_decide_false).
  rewrite Hpeers. cbn [list_find snd]. unfold ConnId.has_key. cbn [fst]. rewrite Hk1, Hk2, U1, U2.
  cbn [andb]. rewrite decide_False by (intros []). rewrite decide_True by exact I. cbn [fmap option_fmap option_map prod_map].
  rewrite update_peers_id; [cbn [id snd]; unfold connections_at; by rewrite Hsock|].
  rewrite Hpeers. unfold modify_first. cbn [update_first fst snd]. rewrite Hk1, Hk2, U1, U2. cbn [andb app].
  unfold keep_longer. by rewrite bool_decide_false.
Qed.

(** C38: a send that may only use incoming connections can hang the proxy
    thread.  When the service node has an outgoing connection before the incoming
    one and the incoming peer is gone, the loop that looks for the peer to drop
    never advances past the outgoing entry. *)
Theorem incoming_send_hangs {env : Zmq} c n pk k1 k2 p1 p2 :
  length pk = 32 → sc_conn c = mk_conn SN_ID pk [] → sc_incoming c = true → sc_outgoing c = false →
  k1 ≡ sc_conn c → k2 ≡ sc_conn c → peers n = [(k1, p1); (k2, p2)] →
  peer_route p1 = [] → peer_route p2 ≠ [] → connections n !! peer_conn_id p2 = Some Router →
  (∀ parts, zsend (peer_conn_id p2) parts = SendError EHOSTUNREACH) →
  proxy_send c n = Ret None.
Proof.
  intros Hpk Hconn Hinc Hout Hk1 Hk2 Hpeers Hr1 Hr2 Hsock Hz. rewrite Hconn in *.
  assert (ConnId.has_key ((mk_conn SN_ID pk []) <| conn_route := peer_route p2 |>) (k1, p1) = true) as E1
    by (by apply conn_eqb_equiv; rewrite Hk1).
  assert (proxy_connect_sn pk (sc_hint c) (sc_optional c) true false (sc_keep_alive c) n =
    Ret (n, Some (peer_conn_id p2, peer_route p2))) as Hsn by (by eapply (connect_sn_incoming _ _ _ _ _ k1 k2 p1)).
  unfold proxy_send. cbn [send_loop]. unfold send_target. rewrite Hconn, Hinc, Hout.
  change (conn_sn (mk_conn SN_ID pk [])) with true. cbn [conn_pk]. rewrite Hsn. cbn [mbind outcome_bind].
  unfold send_on. rewrite Hsock, Hz. change (EHOSTUNREACH =? EHOSTUNREACH)%Z with true.
  rewrite bool_decide_false by done. cbn [andb negb]. unfold drop_unreachable. rewrite Hpeers, equal_range_cons.
  rewrite E1. change (conn_sn _) with true. cbn [negb].
  rewrite bool_decide_false by (rewrite Hr1; intros Hf; by apply Hr2). done.
Qed.

(** BYE on an outgoing connection closes it; the peer stays. *)
Lemma bye_closes {env : Zmq} id args n :
  connections n !! id = Some Dealer →
  proxy_handle_builtin id false (B "BYE" :: args) n = Ret (drop_connection id n, true).
Proof. intros Hc. cbn. unfold proxy_close_connection. by rewrite Hc. Qed.

(** The entry a connection to the service node [pk] uses. *)
Definition chosen (pk : bytes) (inc out : bool) (n : net) (p : peer_info) : Prop :=
  ∃ i k, list_find (λ e, ConnId.has_key (mk_conn SN_ID pk []) e && usable inc out (snd e)) (peers n) = Some (i, (k, p)).

(** Connecting through an entry whose connection is closed makes a null socket. *)
Lemma connect_dead {env : Zmq} pk hint opt inc out keep n p :
  length pk = 32 → chosen pk inc out n p → connections n !! peer_conn_id p = None →
  ∃ n', proxy_connect_sn pk hint opt inc out keep n = Ret (n', Some (peer_conn_id p, peer_route p)) ∧
    connections n' = <[ peer_conn_id p := NullSocket ]> (connections n) ∧
    connections_updated n' = connections_updated n ∧ scheduled n' = scheduled n.
Proof.
  intros Hpk (i & k & Hf) Hgone. unfold proxy_connect_sn, conn_of_pubkey. rewrite Hpk.
  change (32 =? 32) with true. cbn [mbind outcome_bind]. rewrite Hf. eexists. split; [done|].
  unfold connections_at. cbn [connections modify]. by rewrite Hgone.
Qed.

(** A remote that says BYE leaves a dead entry behind.  The connection is
    closed but its peer entry stays, so the next use of that service node picks
    the entry, finds no socket, creates a null one, and every send fails with
    [ENOTSOCK] instead of opening a new connection. *)
Theorem bye_leaves_dead_peer {env : Zmq} n pk p args hint opt inc out keep parts :
  length pk = 32 → chosen pk inc out n p → connections n !! peer_conn_id p = Some Dealer →
  ∃ n1 n2, proxy_handle_builtin (peer_conn_id p) false (B "BYE" :: args) n = Ret (n1, true) ∧
    peers n1 = peers n ∧ connections n1 !! peer_conn_id p = None ∧
    proxy_connect_sn pk hint opt inc out keep n1 = Ret (n2, Some (peer_conn_id p, peer_route p)) ∧
    connections n2 !! peer_conn_id p = Some NullSocket ∧
    send_on (peer_conn_id p) parts n2 = (n2, SendError ENOTSOCK).
Proof.
  intros Hpk Hch Hsock. destruct (drop_connection_frame (peer_conn_id p) n) as (F1 & _ & F3).
  set (n1 := drop_connection (peer_conn_id p) n) in *.
  assert (connections n1 !! peer_conn_id p = None) as Hgone by (rewrite F3; apply lookup_delete_eq).
  destruct (connect_dead pk hint opt inc out keep n1 p Hpk) as (n2 & H2 & Hc & _); [by unfold chosen; rewrite F1|done|].
  assert (connections n2 !! peer_conn_id p = Some NullSocket) as Hnull by (rewrite Hc; apply lookup_insert_eq).
  exists n1, n2. split_and!; try done; [by apply bye_closes|]. unfold send_on. by rewrite Hnull.
Qed.

(** * Idle connections *)

Definition expired_ids {env : Zmq} (m : peer_map) : list Z :=
  (peer_conn_id ∘ snd) <$> filter (λ e, idle_expired (snd e) = true) m.

Lemma expired_ids_cons {env : Zmq} k p m :
  expired_ids ((k, p) :: m) = if idle_expired p then peer_conn_id p :: expired_ids m else expired_ids m.
Proof. unfold expired_ids. rewrite filter_cons. cbn [snd]. by destruct (idle_expired p). Qed.

Lemma expire_loop_spec {env : Zmq} kept rest n :
  let n' := expire_drop kept rest n in
  peers n' = kept ++ filter (λ e, idle_expired (snd e) = false) rest ∧
  ∀ id, connections n' !! id = if bool_decide (id ∈ expired_ids rest) then None else connections n !! id.
Proof.
  revert kept n. induction rest as [|[k info] rest IH]; intros kept n; cbn [expire_drop]; cbv zeta.
  { cbn. by rewrite app_nil_r. }
  rewrite expired_ids_cons, filter_cons. cbn [snd]. destruct (idle_expired info) eqn:E; cbn [decide].
  - destruct (IH kept (drop_connection (peer_conn_id info) n)) as [I1 I2]. rewrite I1. split; [done|].
    intros id. rewrite I2. destruct (drop_connection_frame (peer_conn_id info) n) as (_ & _ & ->).
    destruct (decide (id = peer_conn_id info)) as [->|Hne].
    + rewrite lookup_delete_eq, (bool_decide_true (_ ∈ _ :: _)) by (apply elem_of_cons; by left).
      by case_bool_decide.
    + rewrite lookup_delete_ne by done.
      rewrite (bool_decide_ext (id ∈ peer_conn_id info :: expired_ids rest) (id ∈ expired_ids rest)); [done|].
      rewrite elem_of_cons. tauto.
  - destruct (IH (kept ++ [(k, info)]) n) as [I1 I2]. by rewrite I1, <-app_assoc.
Qed.

(** Idle connections are closed, and only those.  When
    [proxy_expire_idle_peers] returns, the peers are exactly those that are incoming
    or have been active within their idle time, in the same order; the sockets that
    are gone are exactly the ones of the expired peers. *)
Lemma expire_idle_exact {env : Zmq} n n' :
  proxy_expire_idle_peers n = Ret n' →
  peers n' = filter (λ e, idle_expired (snd e) = false) (peers n) ∧
  (∀ id, connections n' !! id =
     if bool_decide (id ∈ expired_ids (peers n)) then None else connections n !! id) ∧
  (∀ k p, (k, p) ∈ peers n' → peer_route p ≠ [] ∨ (now - last_activity p ≤ idle_expiry p)%Z) ∧
  (∀ k p, (k, p) ∈ peers n → peer_route p ≠ [] → (k, p) ∈ peers n').
Proof.
  intros ->%(closing_Ret _ _ _ _ (expire_closing _ _ _)). destruct (expire_loop_spec [] (peers n) n) as [H1 H2].
  cbn [app] in H1.
  split; [done|]. split; [done|]. rewrite H1. setoid_rewrite list_elem_of_filter. cbn [snd].
  unfold idle_expired, outgoing. split.
  - intros k p [Hp _]. case_bool_decide; [|by left]. right. cbn in Hp. apply Z.ltb_ge in Hp. lia.
  - intros k p Hin Hr. by rewrite bool_decide_false by done.
Qed.

(** What an incoming message says of its sender: the inproc listener is the
    process itself, otherwise zmq's authentication metadata tells. *)
Definition sender `{Oxenc} (s : self_info) (id : Z) (last : message) : outcome (bytes * AuthLevel) :=
  if (id =? inproc_listener_connid s)%Z then Ret (self_pubkey s, admin) else extract_metadata last.

(** The level and the service node status that count for a message. *)
Definition standing `{Oxenc} (s : self_info) (id : Z) (incoming : bool) (parts : list message) (n : net)
    (level : AuthLevel) (sn : bool) : Prop :=
  if incoming then
    ∃ last pk, List.last parts (Auth.mk_message [] ∅) = last ∧ sender s id last = Ret (pk, level) ∧
      (sn = true → pk ∈ active_service_nodes n)
  else
    ∃ k p, (k, p) ∈ peers n ∧ k ≡ outgoing_key id n ∧ auth_level p = level ∧
      (sn = true → peer_pubkey p ∈ active_service_nodes n ∨ (peer_pubkey p = [] ∧ service_node p = true)).

Lemma dispatch_authorised {env : Zmq} s id out peer route cmd data n p n' p' :
  authorise_and_dispatch s id out peer route cmd data n p = Ret (n', p') → p' ≠ p →
  ∃ command cat entry c, get_command (reg p) (Auth.msg_data cmd) = (command, Some (cat, entry)) ∧
    the_category p cat = Some c ∧ (auth (access c) ≤ auth_level peer)%Z ∧
    (local_sn (access c) = true → local_service_node s = true) ∧
    (remote_sn (access c) = true → service_node peer = true) ∧ (snd entry = true → data ≠ []).
Proof.
  unfold authorise_and_dispatch, proxy_check_auth. destruct (get_command _ _) as [command cat_call] eqn:Eg.
  destruct (auth_reply _ _ _ _ _) as [reply|] eqn:Ea; [intros H; inv_bind H; by simplify_eq|].
  destruct cat_call as [[cat [cb is_req]]|]; [|done]. intros _ _.
  assert (∃ c, categories (reg p) !! cat = Some c) as [c Hc].
  { unfold auth_reply in Ea. destruct (categories (reg p) !! cat) as [c|]; [by exists c|done]. }
  destruct (auth_reply_known (reg p) (local_service_node s) peer cat cb is_req data c Hc) as [[Hk _] _].
  destruct (Hk Ea) as (H1 & H2 & H3 & H4). by exists command, cat, (cb, is_req), c.
Qed.

Lemma incoming_peer_standing {env : Zmq} tmp n n' peer r : incoming_peer tmp n = Ret (n', peer, r) →
  auth_level peer = auth_level tmp ∧ service_node peer = service_node tmp.
Proof.
  unfold incoming_peer. destruct (service_node tmp) eqn:E; [|intros; by simplify_eq].
  intros H. inv_bind H. destruct (list_find _ _) as [(i & k & q)|]; by simplify_eq.
Qed.

Lemma outgoing_peer_standing id n n' peer : outgoing_peer id n = Some (n', peer) →
  ∃ k q, (k, q) ∈ peers n ∧ k ≡ outgoing_key id n ∧ auth_level q = auth_level peer ∧
    (service_node peer = true →
     peer_pubkey q ∈ active_service_nodes n ∨ (peer_pubkey q = [] ∧ service_node q = true)).
Proof.
  unfold outgoing_peer. destruct (find_peer _ _) as [[k q]|] eqn:E; [|done]. intros H.
  unfold find_peer in E. apply head_Some_elem_of, equal_range_spec in E as [E1 E2]. exists k, q.
  split; [done|]. split; [done|]. case_bool_decide; simplify_eq; [by auto|]. cbn. split; [done|].
  unfold is_sn. rewrite bool_decide_eq_true. auto.
Qed.

Lemma last_cons {A} (x y : A) l d : List.last (x :: y :: l) d = List.last l y.
Proof.
  change (List.last (y :: l) d = List.last l y). revert y d.
  induction l as [|z l IH]; intros y d; [done|]. change (List.last (z :: l) d = List.last (z :: l) y).
  by rewrite !IH.
Qed.

(** C16: only what is permitted runs.  If a received message changes the worker
    pool at all (starts a worker or queues a command), then it names a registered
    command; the access level of its category is at most the level of the sender,
    which for an incoming message is what zmq's authentication attached to it
    (admin on the inproc listener) and for an outgoing connection the level given
    when connecting; a category restricted to service nodes is only reached by a
    sender whose key is an active service node; and a request carries a reply tag. *)
Theorem only_permitted_runs {env : Zmq} {O : Oxenc} s id incoming parts n p n' p' :
  proxy_to_worker s id incoming parts n p = Ret (n', p') → p' ≠ p →
  ∃ level sn cmd command cat entry c,
    standing s id incoming parts n level sn ∧ parts !! (if incoming then 1 else 0) = Some cmd ∧
    get_command (reg p) (Auth.msg_data cmd) = (command, Some (cat, entry)) ∧
    the_category p cat = Some c ∧ (auth (access c) ≤ level)%Z ∧
    (local_sn (access c) = true → local_service_node s = true) ∧ (remote_sn (access c) = true → sn = true) ∧
    (snd entry = true → (if incoming then 2 else 1) < length parts).
Proof.
  unfold proxy_to_worker. intros H Hne. destruct incoming, parts as [|x parts]; try done.
  - destruct parts as [|cmd args]; [done|]. cbn [split_parts] in H.
    destruct (incoming_info _ _ _ _ n) as [tmp| |] eqn:Et; try done. cbn [mbind outcome_bind] in H.
    destruct (incoming_peer _ n) as [[[n1 peer] route]| |] eqn:E; try done. cbn [mbind outcome_bind] in H.
    apply incoming_peer_standing in E as [E1 E2].
    destruct (dispatch_authorised _ _ _ _ _ _ _ _ _ _ _ H Hne) as (command & cat & entry & c & H1 & H2 & H3 & H4 & H5 & H6).
    exists (auth_level peer), (service_node peer), cmd, command, cat, entry, c. split; [|split; [done|]].
    + unfold incoming_info in Et. rewrite E1, E2. unfold standing, sender, is_sn in *. destruct (id =? inproc_listener_connid s)%Z.
      { injection Et as <-. eexists _, _. split; [done|]. split; [done|]. cbn. by rewrite bool_decide_eq_true. }
      destruct (extract_metadata _) as [[pk level]| |] eqn:Em; try done. cbn [mbind outcome_bind] in Et. injection Et as <-.
      eexists _, pk. split; [done|]. rewrite last_cons. split; [exact Em|]. cbn.
      rewrite andb_true_iff, bool_decide_eq_true. tauto.
    + repeat (split; [done|]). intros He. specialize (H6 He). destruct args; [done|cbn; lia].
  - cbn [split_parts] in H. destruct (outgoing_peer id n) as [[n1 peer]|] eqn:E; [|by simplify_eq].
    apply outgoing_peer_standing in E as (k & q & E1 & E2 & E3 & E4).
    destruct (dispatch_authorised _ _ _ _ _ _ _ _ _ _ _ H Hne) as (command & cat & entry & c & H1 & H2 & H3 & H4 & H5 & H6).
    exists (auth_level peer), (service_node peer), x, command, cat, entry, c. split; [by exists k, q|].
    repeat (split; [done|]). intros He. specialize (H6 He). destruct parts; [done|cbn; lia].
Qed.

Import Standard.

(** * Witnesses *)

(** A service node with an incoming connection that is gone. *)
Definition unreachable_env : Zmq := {|
  now := 0; zsend _ _ := SendError EHOSTUNREACH; zconnect _ := None; zsocket _ := None; zbind _ := true; zchown _ := None; strerror _ := []; ztimer := 0;
  sn_lookup _ := []; position := 0 |}.
Definition sample_peer (id : Z) (route : bytes) : ConnectionID * peer_info :=
  (mk_conn SN_ID sample_sn [], mk_peer sample_sn true none id route 0 1000).
Definition two_peers : net :=
  net_empty <| peers := [sample_peer 1 []; sample_peer 2 (B "r1")] |>
    <| connections := {[ 1%Z := Dealer; 2%Z := Router ]} |>.
Definition sample_send (incoming : bool) : send_command :=
  mk_send (mk_conn SN_ID sample_sn []) [] incoming 30000 false false None 15000 [B "a.b"] None None.

Lemma send_terminates_witness :
  ∃ n', @proxy_send unreachable_env (sample_send false) two_peers = Ret (Some n').
Proof. apply (@send_terminates unreachable_env); [reflexivity|intros _; reflexivity]. Defined.

Lemma send_contract_witness :
  ∃ n' sent (err : option Z), @proxy_send (sample_env 5) (sample_send false) two_peers = Ret (Some n') ∧
    @delivered (sample_send false) sent two_peers n' ∧ (sent = true → err = None).
Proof.
  assert (∃ n', @proxy_send (sample_env 5) (sample_send false) two_peers = Ret (Some n')) as [n' H]
    by (eexists; vm_compute; reflexivity).
  destruct (@send_contract (sample_env 5) (sample_send false) two_peers n' H) as (sent & err & H1 & H2 & _).
  exists n', sent, err. split; [exact H|]. split; [exact H1|exact H2].
Defined.

Lemma incoming_send_hangs_witness :
  @proxy_send unreachable_env (sample_send true) two_peers = Ret None.
Proof.
  apply (@incoming_send_hangs unreachable_env (sample_send true) two_peers sample_sn
    (mk_conn SN_ID sample_sn []) (mk_conn SN_ID sample_sn [])
    (snd (sample_peer 1 [])) (snd (sample_peer 2 (B "r1")))); try reflexivity; done.
Defined.

(** A pool whose workers are all busy, with one public command. *)
Definition busy_pool : pool :=
  (pool_new 2) <| reg := apply_ops [AddCategory (B "a") (mk_Access none false false) 0 10;
                                  AddCommand (B "a") (B "b") 4] |> <| general_workers := 0%Z |>.

Lemma only_permitted_runs_witness :
  ∃ n' p', @proxy_to_worker (sample_env 0) Standard.oxenc sample_self 2 true
      (sample_parts [B "r9"; B "a.b"; B "x"]) two_peers busy_pool = Ret (n', p') ∧
    ∃ level sn, standing sample_self 2 true (sample_parts [B "r9"; B "a.b"; B "x"]) two_peers level sn ∧
      (none ≤ level)%Z.
Proof.
  destruct (@proxy_to_worker (sample_env 0) Standard.oxenc sample_self 2 true
      (sample_parts [B "r9"; B "a.b"; B "x"]) two_peers busy_pool) as [[n' p']| |] eqn:E.
  2, 3: exfalso; vm_compute in E; discriminate.
  exists n', p'. split; [reflexivity|].
  assert (length (pending_commands p') = 1) as Hq by (vm_compute in E; injection E as _ <-; reflexivity).
  destruct (@only_permitted_runs (sample_env 0) Standard.oxenc _ _ _ _ _ _ _ _ E) as
    (level & sn & cmd & command & cat & entry & c & H1 & H2 & H3 & H4 & H5 & _).
  { intros ->. vm_compute in Hq. discriminate. }
  exists level, sn. split; [exact H1|]. injection H2 as <-. vm_compute in H3. injection H3 as <- <- <-.
  vm_compute in H4. injection H4 as <-. exact H5.
Defined.
