(* ===== verification/Tables.v ===== *)
(** * Tables: the connection tables fit together

    Connection ids come from one counter and are never used again.  [tables] is the
    invariant of [connections], [peers], [pending_connects] and [outgoing_sn_conns]
    that follows: every id in a table was handed out, ids handed out to a caller of
    [connect_remote] whose request is still on its way are in no table, an outgoing
    connection belongs to one peer, and a peer's socket has the kind of its
    direction.  Every handler keeps it. *)
From S2P Require Import Prelude Bytes Oxenc Address Auth ConnId Commands Batch Pool Options Net Closing ServiceNodes.
Open Scope Z_scope.
Open Scope nat_scope.

(** A peer's connection and whether it is an outgoing one. *)
Definition peer_tag (e : ConnectionID * peer_info) : Z * bool := (peer_conn_id (snd e), outgoing (snd e)).
Definition out_id (t : Z * bool) : option Z := if snd t then Some (fst t) else None.
(** The ids of the outgoing connections. *)
Definition out_ids (m : peer_map) : list Z := omap out_id (peer_tag <$> m).

(** [id] is in a table. *)
Definition used (n : net) (id : Z) : Prop :=
  is_Some (connections n !! id) ∨ id ∈ (fst ∘ peer_tag) <$> peers n ∨ id ∈ pcn_id <$> pending_connects n ∨
  is_Some (outgoing_sn_conns n !! id).

(** [R] are the ids handed out and not used yet. *)
Record tables (R : gset Z) (n : net) : Prop := {
  tb_next : (0 < next_conn_id n)%Z;
  tb_used id : used n id → (0 < id < next_conn_id n)%Z ∧ id ∉ R;
  tb_reserved id : id ∈ R → (0 < id < next_conn_id n)%Z;
  tb_kind (t : Z * bool) : t ∈ peer_tag <$> peers n → connections n !! fst t ≠ Some (if snd t then Router else Dealer);
  tb_distinct : NoDup (out_ids (peers n));
}.

(** Nothing new in any table. *)
Record shrinks (n n' : net) : Prop := {
  sh_next : next_conn_id n' = next_conn_id n;
  sh_connections : connections n' ⊆ connections n;
  sh_peers : peer_tag <$> peers n' ⊆+ peer_tag <$> peers n;
  sh_pending : pcn_id <$> pending_connects n' ⊆ pcn_id <$> pending_connects n;
  sh_sn : outgoing_sn_conns n' ⊆ outgoing_sn_conns n;
}.
#[export] Instance shrinks_preorder : PreOrder shrinks.
Proof.
  split; [by split|]. intros a b c [H1 H2 H3 H4 H5] [I1 I2 I3 I4 I5].
  split; [congruence|by etrans|by etrans|by etrans|by etrans].
Qed.

Lemma shrinks_used n n' id : shrinks n n' → used n' id → used n id.
Proof.
  intros [_ H2 H3 H4 H5] [[k Hk]|[Hp|[Hp|[k Hk]]]].
  - left. exists k. by eapply lookup_weaken.
  - right; left. rewrite list_fmap_compose in Hp |- *. apply list_elem_of_fmap in Hp as (t & -> & Ht).
    apply list_elem_of_fmap. exists t. split; [done|]. by eapply elem_of_submseteq.
  - right; right; left. by apply H4.
  - right; right; right. exists k. by eapply lookup_weaken.
Qed.

Lemma tables_shrinks R n n' : shrinks n n' → tables R n → tables R n'.
Proof.
  intros Hs [T1 T2 T3 T4 T5]. pose proof Hs as [H1 H2 H3 H4 H5]. split; rewrite ?H1; try done.
  - intros id Hu. by apply T2, (shrinks_used n n').
  - intros t Ht Hk. apply (T4 t); [by eapply elem_of_submseteq|]. by eapply lookup_weaken.
  - unfold out_ids in *. apply submseteq_Permutation in H3 as [k Hk]. rewrite Hk, omap_app in T5.
    by apply NoDup_app in T5 as [? _].
Qed.

(** ** Changes that keep the tags *)

Lemma tags_erase_first p m : peer_tag <$> erase_first p m ⊆+ peer_tag <$> m.
Proof.
  unfold erase_first. induction m as [|e m IH]; [done|]. cbn. destruct (p e); cbn.
  - by apply submseteq_cons.
  - by apply submseteq_skip.
Qed.
Lemma tags_filter (P : ConnectionID * peer_info → Prop) `{∀ e, Decision (P e)} m :
  peer_tag <$> filter P m ⊆+ peer_tag <$> m.
Proof. apply sublist_submseteq, fmap_sublist, sublist_filter. Qed.

(** Writing to the entry that was found. *)
Lemma tags_modify_first (p : ConnectionID * peer_info → bool) f m :
  (∀ i e, list_find p m = Some (i, e) → peer_tag (fst e, f (snd e)) = peer_tag e) →
  peer_tag <$> modify_first p f m = peer_tag <$> m.
Proof.
  unfold modify_first. induction m as [|e m IH]; intros Hf; [done|]. cbn. destruct (p e) eqn:Hp; cbn.
  - f_equal. apply (Hf 0). cbn. rewrite decide_True; [done|]. by rewrite Hp.
  - f_equal. apply IH. intros i e' Hi. apply (Hf (S i)). cbn. rewrite decide_False by (rewrite Hp; by intros []). by rewrite Hi.
Qed.

Lemma shrinks_peers n m : peer_tag <$> m ⊆+ peer_tag <$> peers n → shrinks n (n <| peers := m |>).
Proof. by split. Qed.

(** ** Handlers that only remove *)

#[local] Hint Extern 1 (PreOrder _) => apply shrinks_preorder : core.

Lemma shrinks_close id n : shrinks n (drop_connection id n).
Proof.
  unfold drop_connection. destruct (connections n !! id); [|done]. split; try done; apply delete_subseteq.
Qed.
Lemma shrinks_schedule b t n : shrinks n (schedule b t n).
Proof. by split. Qed.

Section env.
Context {env : Zmq}.

Lemma shrinks_send_on id parts n : shrinks n (fst (send_on id parts n)).
Proof. unfold send_on. repeat case_match; by split. Qed.

Lemma close_fields id n : peers (drop_connection id n) = peers n ∧
  pending_connects (drop_connection id n) = pending_connects n.
Proof. unfold drop_connection. by case_match. Qed.

Lemma shrinks_expire n : shrinks n (idle_peers_drop n).
Proof.
  unfold idle_peers_drop. assert (∀ rest kept n1, shrinks n n1 → kept ++ rest `sublist_of` peers n →
    peers n1 = peers n → shrinks n (expire_drop kept rest n1)) as H; [|by apply H].
  induction rest as [|[k info] rest IH]; intros kept n1 Hs Hk Hp; cbn [expire_drop].
  - etrans; [exact Hs|]. apply shrinks_peers. rewrite app_nil_r in Hk. rewrite Hp. by apply sublist_submseteq, fmap_sublist.
  - destruct (idle_expired info).
    + apply IH; [by etrans; [|apply shrinks_close]| |].
      * etrans; [|exact Hk]. apply sublist_app; [done|]. by apply sublist_cons.
      * by rewrite (proj1 (close_fields _ _)).
    + apply IH; [done|by rewrite <- app_assoc|done].
Qed.

Lemma shrinks_connects n : shrinks n (connects_drop [] (pending_connects n) n).
Proof.
  assert (∀ rest kept n1, shrinks n n1 → kept ++ rest `sublist_of` pending_connects n →
    pending_connects n1 = pending_connects n → shrinks n (connects_drop kept rest n1)) as H; [|by apply H].
  induction rest as [|pc rest IH]; intros kept n1 Hs Hk Hp; cbn [connects_drop].
  - rewrite app_nil_r in Hk. destruct Hs as [H1 H2 H3 H4 H5]. split; try done. cbn.
    intros x Hx. eapply elem_of_submseteq; [done|]. by apply sublist_submseteq, fmap_sublist.
  - destruct (pcn_deadline pc <? now)%Z; [|apply IH; [done|by rewrite <- app_assoc|done]].
    set (n2 := drop_connection (pcn_id pc) (schedule false _ n1)).
    assert (shrinks n n2) as Hs2 by (etrans; [exact Hs|]; etrans; [apply shrinks_schedule|apply shrinks_close]).
    apply IH.
    + etrans; [exact Hs2|]. apply shrinks_peers. apply tags_filter.
    + etrans; [|exact Hk]. apply sublist_app; [done|]. by apply sublist_cons.
    + cbn. unfold n2. by rewrite (proj2 (close_fields _ _)).
Qed.

Lemma shrinks_requests l n : shrinks n (requests_loop l n).
Proof.
  revert n. induction l as [|[tag [d cb]] l IH]; intros n; cbn [requests_loop]; [done|].
  destruct (d <? now)%Z; [|apply IH]. etrans; [|apply IH]. by split.
Qed.

Lemma shrinks_cleanup n n' : proxy_conn_cleanup n = Ret n' → shrinks n n'.
Proof.
  intros ->%(closing_Ret _ _ _ _ (cleanup_closing _)).
  unfold cleanup_drop. etrans; [apply shrinks_expire|]. etrans; [apply shrinks_connects|apply shrinks_requests].
Qed.

Lemma shrinks_disconnect conn n n' : proxy_disconnect conn n = Ret n' → shrinks n n'.
Proof.
  intros ->%(closing_Ret _ _ _ _ (disconnect_closing _ _)).
  unfold disconnect_drop. destruct (list_find _ _) as [(i & k & peer)|]; [|done].
  etrans; [apply (shrinks_close (peer_conn_id peer))|]. apply shrinks_peers. apply tags_erase_first.
Qed.

Lemma shrinks_report c sent err n : shrinks n (report_send c sent err n).
Proof.
  unfold report_send, schedule_opt, register_request, insert_request.
  destruct err, sent, (sc_request c) as [[]|], (sc_fail c), (sc_full c); repeat case_match; by split.
Qed.

Lemma shrinks_drop conn n n' b : drop_unreachable conn n = Some (n', b) → shrinks n n'.
Proof.
  unfold drop_unreachable. repeat case_match; intros; simplify_eq; try done; apply shrinks_peers, tags_erase_first.
Qed.

Lemma shrinks_builtin id inc parts n n' b : proxy_handle_builtin id inc parts n = Ret (n', b) → shrinks n n'.
Proof.
  assert (∀ t s d, shrinks n (answer t s d n)) as Ha.
  { intros t s d. unfold answer. repeat case_match; by split. }
  unfold proxy_handle_builtin. destruct (split_parts inc parts) as [[[route cmd] args]|]; [|intros; by simplify_eq].
  repeat case_bool_decide.
  - destruct args; intros; simplify_eq; [done|apply Ha].
  - unfold handle_HI. destruct route as [[|c route]|]; cbn; intros; simplify_eq; [apply shrinks_send_on|done].
  - destruct inc; intros; simplify_eq; [done|]. unfold handle_HELLO. destruct (list_find _ _) as [[i pc]|]; [|done].
    destruct (find_peer _ _) as [[conn p]|]; [|done]. split; try done. cbn. rewrite list_fmap_delete.
    intros x Hx. eapply elem_of_submseteq; [done|]. apply sublist_submseteq, sublist_delete.
  - intros H'. inv_bind H'. destruct inc; simplify_eq; [done|].
    apply (closing_Ret _ _ _ _ (close_closing _ _)) in E as ->. apply shrinks_close.
  - destruct (is_error_response cmd); intros; simplify_eq; [|done].
    unfold handle_error_response. repeat case_match; done || apply Ha.
Qed.
End env.

(** ** Handlers that add an entry *)

Lemma used_peer n e : e ∈ peers n → used n (peer_conn_id (snd e)).
Proof. intros He. right; left. apply list_elem_of_fmap. by exists e. Qed.

(** [connections[id]] for the connection of a peer. *)
Lemma tables_connections_at R n e : e ∈ peers n → tables R n → tables R (connections_at (peer_conn_id (snd e)) n).
Proof.
  intros He [T1 T2 T3 T4 T5]. unfold connections_at.
  destruct (connections n !! peer_conn_id (snd e)) eqn:Hc; [by split|]. split; try done; cbn.
  - intros id [[k Hk]|Hu]; [|apply T2; by right]. cbn in Hk.
    apply lookup_insert_Some in Hk as [[<- _]|[_ Hk]]; [by apply T2, used_peer|]. apply T2. left. by exists k.
  - intros t Ht. destruct (decide (peer_conn_id (snd e) = fst t)) as [<-|Hne].
    + rewrite lookup_insert_eq. by destruct (snd t).
    + rewrite lookup_insert_ne by done. by apply T4.
Qed.

(** A new socket with an id that is in no table. *)
Lemma used_emplace_socket id s n id' : used (emplace_socket id s n) id' → used n id' ∨ id' = id.
Proof.
  intros [[k Hk]|Hu]; [|left; by right]. cbn in Hk. destruct (connections n !! id) eqn:Hc; [left; left; by exists k|].
  apply lookup_insert_Some in Hk as [[<- _]|[_ Hk]]; [by right|]. left; left. by exists k.
Qed.

(** The next id is free. *)
Lemma next_unused R n : tables R n → ¬ used n (next_conn_id n) ∧ next_conn_id n ∉ R.
Proof.
  intros [T1 T2 T3 T4 T5]. split; [intros Hu; apply T2 in Hu as [? _]; lia|]. intros Hr. apply T3 in Hr. lia.
Qed.
Lemma unused_connection n id : ¬ used n id → connections n !! id = None.
Proof. intros Hn. destruct (connections n !! id) eqn:Hc; [|done]. destruct Hn. left. by rewrite Hc. Qed.
Lemma unused_tag n id t : ¬ used n id → t ∈ peer_tag <$> peers n → fst t ≠ id.
Proof.
  intros Hn Ht <-. apply Hn. right; left. rewrite list_fmap_compose. apply list_elem_of_fmap. by exists t.
Qed.

(** A caller takes an id. *)
Lemma tables_reserve R n :
  tables R n → tables ({[ next_conn_id n ]} ∪ R) (n <| next_conn_id ::= Z.succ |>).
Proof.
  intros Ht. destruct (next_unused R n Ht) as [Hu Hr]. destruct Ht as [T1 T2 T3 T4 T5]. split; try done; cbn.
  - lia.
  - intros id Hid. destruct (T2 id Hid) as [? ?]. split; [lia|]. rewrite not_elem_of_union, not_elem_of_singleton.
    split; [|done]. intros ->. done.
  - intros id. rewrite elem_of_union, elem_of_singleton. intros [->|Hid]; [lia|]. specialize (T3 id Hid). lia.
Qed.

(** A new socket with a reserved id. *)
Lemma tables_socket R n id s :
  tables ({[ id ]} ∪ R) n → id ∉ R → tables R (emplace_socket id s n).
Proof.
  intros [T1 T2 T3 T4 T5] Hr. assert (¬ used n id) as Hu.
  { intros Hu. apply T2 in Hu as [_ Hn]. set_solver. }
  split; try done; cbn.
  - intros id' [Hid| ->]%used_emplace_socket; [destruct (T2 id' Hid); set_solver|]. split; [|done]. apply T3. set_solver.
  - intros id' Hid. apply T3. set_solver.
  - intros t Ht. rewrite (unused_connection n id Hu), lookup_insert_ne by (by apply not_eq_sym, (unused_tag n)). by apply T4.
Qed.

Section grow.
Context {env : Zmq}.

Lemma tags_emplace k v n :
  peer_tag <$> peers (emplace_peer k v n) ≡ₚ peer_tag (k, v) :: (peer_tag <$> peers n).
Proof.
  unfold emplace_peer. cbn. rewrite fmap_app. cbn. rewrite <- Permutation_middle. apply perm_skip.
  by rewrite <- fmap_app, take_drop.
Qed.

(** A new peer on a connection that has none, or on a listener. *)
Lemma tables_emplace R n k v :
  tables R n → (0 < peer_conn_id v < next_conn_id n)%Z → peer_conn_id v ∉ R →
  connections n !! peer_conn_id v ≠ Some (if outgoing v then Router else Dealer) →
  (outgoing v = true → peer_conn_id v ∉ out_ids (peers n)) → tables R (emplace_peer k v n).
Proof.
  intros [T1 T2 T3 T4 T5] Hid Hr Hk Ho. pose proof (tags_emplace k v n) as Hp. split; try done.
  - intros id [Hu|[Hu|Hu]]; [apply T2; by left| |apply T2; by right; right].
    rewrite list_fmap_compose, Hp in Hu. apply elem_of_cons in Hu as [->|Hu]; [done|].
    apply T2. right; left. by rewrite list_fmap_compose.
  - intros t. rewrite Hp, elem_of_cons. intros [->|Ht]; [done|]. by apply T4.
  - unfold out_ids. rewrite Hp. cbn. unfold out_id at 1. cbn. destruct (outgoing v) eqn:Hv; [|done].
    apply NoDup_cons. split; [by apply Ho|done].
Qed.

Lemma out_ids_used n id : id ∈ out_ids (peers n) → used n id.
Proof.
  unfold out_ids. rewrite list_elem_of_omap. intros ([id' []] & Ht & [= <-]). right; left.
  rewrite list_fmap_compose. apply list_elem_of_fmap. by exists (id', true).
Qed.

Lemma tables_open_sn R cid remote keep n n' id :
  open_sn cid remote keep n = (n', id) → tables R n → tables R n'.
Proof.
  intros H Ht. destruct (next_unused R n Ht) as [Hu Hr]. unfold open_sn in H. injection H as <- <-.
  set (v := mk_peer remote true none (next_conn_id n) [] now keep).
  set (n1 := n <| next_conn_id ::= Z.succ |> <| connections_updated := true |>).
  assert (tables ({[ next_conn_id n ]} ∪ R) n1) as H1.
  { destruct (tables_reserve R n Ht) as [U1 U2 U3 U4 U5]. by split. }
  pose proof (tables_socket R n1 (next_conn_id n) Dealer H1 Hr) as H2.
  assert (tables R (emplace_peer cid v (emplace_socket (next_conn_id n) Dealer n1))) as H3.
  { apply tables_emplace; [done| |done| |].
    - pose proof (tb_next _ _ Ht). cbn. lia.
    - cbn. by rewrite (unused_connection n _ Hu), lookup_insert_eq.
    - intros _ Hin. apply Hu. by apply (out_ids_used n). }
  destruct H3 as [U1 U2 U3 U4 U5]. split; try done. intros id [Hu'|[Hu'|[Hu'|[k Hk]]]].
  - apply U2. by left.
  - apply U2. by right; left.
  - apply U2. by right; right; left.
  - cbn in Hk. apply lookup_insert_Some in Hk as [[<- _]|[_ Hk]].
    + pose proof (tb_next _ _ Ht). split; [cbn; lia|done].
    + apply U2. right; right; right. by exists k.
Qed.

Lemma keep_longer_tag k p ka : peer_tag (k, keep_longer ka p) = peer_tag (k, p).
Proof. unfold keep_longer. destruct (bool_decide _); [|done]. by destruct (_ <? _)%Z. Qed.

Lemma tables_connect_sn R remote hint opt inc out keep n n' r :
  proxy_connect_sn remote hint opt inc out keep n = Ret (n', r) → tables R n → tables R n'.
Proof.
  unfold proxy_connect_sn. intros H Ht. inv_bind H. destruct (list_find _ (peers n)) as [(i & k & p)|] eqn:Hf.
  - injection H as <- <-. set (pred := λ e, ConnId.has_key a e && usable inc out (snd e)) in *.
    set (n1 := n <| peers ::= _ |>).
    assert (peer_tag <$> peers n1 = peer_tag <$> peers n) as Htag.
    { apply tags_modify_first. intros _ [k' p'] _. apply keep_longer_tag. }
    assert (tables R n1) as H1 by (apply (tables_shrinks R n); [split; try done; by rewrite Htag|done]).
    apply list_find_Some in Hf as (Hi & _ & _). apply list_elem_of_lookup_2 in Hi.
    assert (∃ e, e ∈ peers n1 ∧ peer_conn_id (snd e) = peer_conn_id p) as (e & He & <-); [|by apply tables_connections_at].
    assert (peer_tag (k, p) ∈ peer_tag <$> peers n1) as Hin by (rewrite Htag; by apply list_elem_of_fmap_2).
    apply list_elem_of_fmap in Hin as (e & Heq & He). exists e. split; [done|]. by injection Heq as -> _.
  - destruct (opt || inc); [by simplify_eq|]. destruct (bool_decide _); [by simplify_eq|].
    destruct (zconnect _); [by simplify_eq|]. destruct (open_sn _ _ _ _) as [n1 id] eqn:Ho. simplify_eq.
    by eapply tables_open_sn.
Qed.

Lemma tables_send_loop R fuel c conn n n' b e :
  send_loop fuel c conn n = Ret (Finished n' b e) → tables R n → tables R n'.
Proof.
  revert conn n. induction fuel as [|fuel IH]; intros conn n H Ht; cbn [send_loop] in H; [done|].
  destruct (send_target c conn n) as [[n1 r]| |] eqn:Et; try done. cbn [mbind outcome_bind] in H.
  assert (tables R n1) as H1.
  { unfold send_target in Et. destruct (conn_sn conn); [by eapply tables_connect_sn|].
    destruct (negb _); by simplify_eq. }
  destruct r as [[id route]|]; [|by simplify_eq].
  pose proof (tables_shrinks R _ _ (shrinks_send_on id (build_send_parts (sc_parts c) route) n1) H1) as Hs.
  destruct (send_on _ _ _) as [n2 r]. cbn [fst] in Hs. destruct r; [by simplify_eq|by simplify_eq|].
  destruct ((num =? EHOSTUNREACH)%Z && _); [|by simplify_eq].
  destruct (drop_unreachable _ n2) as [[n3 []]|] eqn:Ed; [| |done];
    pose proof (tables_shrinks R _ _ (shrinks_drop _ _ _ _ Ed) Hs) as H3; [by eapply IH|by simplify_eq].
Qed.

Lemma tables_send R c n n' : proxy_send c n = Ret (Some n') → tables R n → tables R n'.
Proof.
  unfold proxy_send. destruct (send_loop _ _ _ _) as [e| |] eqn:E; try done.
  destruct e as [n1 sent err| |]; try done. cbn. intros [= <-] Ht.
  eapply tables_shrinks; [apply shrinks_report|]. by eapply tables_send_loop.
Qed.

Lemma tables_weaken R R' n : R' ⊆ R → tables R n → tables R' n.
Proof.
  intros HR [T1 T2 T3 T4 T5]. split; try done.
  - intros id Hu. destruct (T2 id Hu). set_solver.
  - intros id Hid. apply T3. set_solver.
Qed.

Lemma tables_connect_remote R c n n' :
  proxy_connect_remote c n = Ret n' → tables ({[ cc_conn_id c ]} ∪ R) n → cc_conn_id c ∉ R → tables R n'.
Proof.
  intros H Ht Hr. unfold proxy_connect_remote in H. set (id := cc_conn_id c) in *.
  destruct (zconnect _); [simplify_eq; eapply tables_shrinks; [apply shrinks_schedule|by eapply tables_weaken; [apply union_subseteq_r|]]|].
  assert (¬ used n id ∧ (0 < id < next_conn_id n)%Z) as [Hu Hid].
  { destruct Ht as [_ T2 T3 _ _]. split; [|apply T3; set_solver]. intros Hu%T2. set_solver. }
  set (n1 := (emplace_socket id Dealer n) <| connections_updated := true |>) in *.
  assert (tables R n1) as H1 by (by apply (tables_shrinks R (emplace_socket id Dealer n)); [split|apply tables_socket]).
  pose proof (shrinks_send_on id [B "HI"] n1) as Hs.
  assert (connections (fst (send_on id [B "HI"] n1)) = connections n1 ∧ peers (fst (send_on id [B "HI"] n1)) = peers n1 ∧
    next_conn_id (fst (send_on id [B "HI"] n1)) = next_conn_id n1) as (Hc & Hp & Hn).
  { unfold send_on. repeat case_match; done. }
  destruct (send_on id [B "HI"] n1) as [n2 r]. cbn [fst] in *. pose proof (tables_shrinks R _ _ Hs H1) as H2.
  destruct r; [| |done]; simplify_eq; (apply tables_emplace; cbn; rewrite ?Hc, ?Hp, ?Hn; try done;
    [| |intros _ Hin; apply Hu; by apply (out_ids_used n)]).
  1, 3: destruct H2 as [U1 U2 U3 U4 U5]; split; try done; intros id' [Hu'|[Hu'|[Hu'|Hu']]];
    [apply U2; by left|apply U2; by right; left| |apply U2; by right; right; right];
    cbn in Hu'; rewrite fmap_app in Hu'; apply elem_of_app in Hu' as [Hu'| ->%list_elem_of_singleton];
    [apply U2; by right; right; left|split; [cbn; by rewrite Hn|done]].
  all: cbn; by rewrite (unused_connection n id Hu), lookup_insert_eq.
Qed.

Lemma tables_next_socket R n s : tables R n → tables R (emplace_socket (next_conn_id n) s (n <| next_conn_id ::= Z.succ |>)).
Proof.
  intros Ht. apply tables_socket; [by apply tables_reserve|]. by apply next_unused.
Qed.

Lemma tables_bind R addr on_bind n n' id called : proxy_bind addr on_bind n = Ret (n', id, called) → tables R n → tables R n'.
Proof.
  unfold proxy_bind. destruct (zsocket addr); [done|]. destruct (zbind addr); cbn; intros H Ht; simplify_eq; [|done].
  by apply (tables_shrinks R (emplace_socket (next_conn_id n) Router (n <| next_conn_id ::= Z.succ |>)));
    [split|apply tables_next_socket].
Qed.

(** ** Incoming messages *)

Lemma find_peer_find k m e : find_peer k m = Some e → ∀ i e', list_find (λ e, ConnId.has_key k e) m = Some (i, e') → e' = e.
Proof.
  unfold find_peer, equal_range. induction m as [|x m IH]; [done|]. rewrite filter_cons. cbn.
  destruct (ConnId.has_key k x) eqn:Hx.
  - rewrite decide_True by done. rewrite decide_True by done. cbn. intros [= ->] i e' [= _ ->]. done.
  - rewrite decide_False by done. rewrite decide_False by (by intros []). intros H i e'.
    destruct (list_find _ m) as [[j y]|] eqn:Hj; [|done]. intros [= _ <-]. by eapply IH.
Qed.

Lemma shrinks_outgoing id n n' p : outgoing_peer id n = Some (n', p) → shrinks n n'.
Proof.
  unfold outgoing_peer. destruct (find_peer _ _) as [[k peer]|] eqn:Hf; [|done]. intros [= <- <-].
  apply shrinks_peers. rewrite tags_modify_first; [done|]. intros i e Hi.
  rewrite (find_peer_find _ _ _ Hf i e Hi). by destruct (bool_decide (peer_pubkey peer = [])).
Qed.

Lemma tables_incoming R tmp n n' p r :
  incoming_peer tmp n = Ret (n', p, r) → tables R n → connections n !! peer_conn_id tmp = Some Router →
  outgoing tmp = false → tables R n'.
Proof.
  intros H Ht Hc Ho. unfold incoming_peer in H. destruct (service_node tmp); [|by simplify_eq]. inv_bind H.
  destruct (list_find _ _) as [(i & k & peer)|] eqn:Hf; injection H as <- _ _.
  - apply (tables_shrinks R n); [|done]. apply shrinks_peers. rewrite tags_modify_first; [done|].
    intros j e Hj. rewrite Hf in Hj. by injection Hj as <- <-.
  - destruct (tb_used _ _ Ht (peer_conn_id tmp)) as [? ?]; [left; by rewrite Hc|].
    apply tables_emplace; try done; rewrite Ho; [by rewrite Hc|done].
Qed.

Lemma shrinks_dispatch s id out peer route cmd data n p n' p' :
  authorise_and_dispatch s id out peer route cmd data n p = Ret (n', p') → shrinks n n'.
Proof.
  unfold authorise_and_dispatch. destruct (get_command _ _) as [command cat_call].
  destruct (proxy_check_auth _ _ _ _ _ _ _) as [[] reply].
  - destruct cat_call as [[cat entry]|]; [|done]. intros H. inv_bind H. simplify_eq. destruct (out && _); [|done].
    apply shrinks_peers. rewrite tags_modify_first; [done|]. by intros.
  - destruct reply; intros H; [|by simplify_eq]. inv_bind H. unfold send_at in E. case_match; simplify_eq. apply shrinks_send_on.
Qed.

Lemma builtin_unhandled id inc parts n n' : proxy_handle_builtin id inc parts n = Ret (n', false) → n' = n.
Proof.
  unfold proxy_handle_builtin. destruct (split_parts inc parts) as [[[route cmd] args]|]; [|done].
  repeat case_bool_decide; try done.
  - intros Hb. inv_bind Hb. done.
  - intros Hb. inv_bind Hb. done.
  - destruct (is_error_response cmd); [done|]. by intros [= <-].
Qed.

Lemma tables_message `{OX : Oxenc} R s id parts n p n' p' :
  proxy_message s id parts n p = Ret (n', p') → tables R n →
  (connections n !! id = Some Router → Auth.msg_data <$> head parts ≠ Some []) → tables R n'.
Proof.
  intros H Ht Hroute. unfold proxy_message in H. destruct (bool_decide (parts = [])); [by simplify_eq|].
  inv_bind H. destruct a as [n1 []]; [simplify_eq; by eapply tables_shrinks; [eapply shrinks_builtin|]|].
  apply builtin_unhandled in E as ->. unfold proxy_to_worker in H.
  destruct (bool_decide (connections n !! id = Some Router)) eqn:Hin.
  - apply bool_decide_eq_true in Hin. destruct parts as [|x [|cmd args]]; try done. cbn [split_parts] in H.
    destruct (incoming_info s id _ _ n) as [tmp| |] eqn:Hi; try done. cbn [mbind outcome_bind] in H.
    destruct (incoming_info_at _ _ _ _ _ _ Hi) as [Hid Hrt].
    inv_bind H. destruct a as [[n1 peer] route].
    eapply tables_shrinks; [by eapply shrinks_dispatch|]. eapply (tables_incoming R); [done|done|by rewrite Hid|].
    unfold outgoing. rewrite Hrt. apply bool_decide_eq_false. intros He. apply (Hroute Hin). cbn. by rewrite He.
  - destruct parts as [|cmd args]; [done|]. cbn [split_parts] in H.
    destruct (outgoing_peer id n) as [[n1 peer]|] eqn:Ho; [|by simplify_eq].
    eapply tables_shrinks; [by eapply shrinks_dispatch|]. eapply tables_shrinks; [by eapply shrinks_outgoing|done].
Qed.
End grow.

(** ** Service nodes *)

Lemma shrinks_close_range c range n : shrinks n (close_range_drop c range n).
Proof.
  revert n. induction range as [|[k peer] range IH]; intros n; cbn [close_range_drop]; [done|].
  etrans; [|apply IH]. set (n1 := n <| peers ::= _ |>).
  assert (shrinks n n1) as H1 by (apply shrinks_peers, tags_erase_first).
  destruct (outgoing peer); [|done]. etrans; [exact H1|apply shrinks_close].
Qed.

Lemma shrinks_sns_clean added removed n n' : proxy_update_active_sns_clean added removed n = Ret n' → shrinks n n'.
Proof.
  unfold proxy_update_active_sns_clean. intros H. inv_bind H. injection H as <-.
  assert (∀ l m m', remove_sns l m = Ret m' → shrinks m m') as Hl.
  { clear. induction l as [|pk l IH]; intros m m' H; cbn in H; [by injection H as <-|]. inv_bind H.
    etrans; [|by eapply IH]. unfold remove_sn in E. inv_bind E.
    apply (closing_Ret _ _ _ _ (close_range_closing _ _ _)) in E as ->.
    etrans; [|apply shrinks_close_range]. by split. }
  etrans; [by eapply Hl|]. by split.
Qed.

Lemma shrinks_set_sns pks n n' : proxy_set_active_sns pks n = Ret n' → shrinks n n'.
Proof.
  unfold proxy_set_active_sns. destruct (scan_pubkeys _ _ _ _). destruct (_ && _); [by intros [= <-]|].
  apply shrinks_sns_clean.
Qed.
Lemma shrinks_update_sns added removed n n' : proxy_update_active_sns added removed n = Ret n' → shrinks n n'.
Proof. unfold proxy_update_active_sns. apply shrinks_sns_clean. Qed.

Lemma tables_empty : tables ∅ net_empty.
Proof.
  split; cbn.
  - done.
  - intros id [[k Hk]|[Hu|[Hu|[k Hk]]]]; try (by apply not_elem_of_nil in Hu); cbn in Hk; by rewrite lookup_empty in Hk.
  - intros id Hid. by apply elem_of_empty in Hid.
  - by intros t ?%not_elem_of_nil.
  - by apply NoDup_nil.
Qed.

(** One peer per outgoing connection. *)
Lemma out_ids_inj (m : peer_map) i j a b :
  NoDup (out_ids m) → m !! i = Some a → m !! j = Some b →
  outgoing (snd a) = true → outgoing (snd b) = true → peer_conn_id (snd a) = peer_conn_id (snd b) → i = j.
Proof.
  unfold out_ids. revert i j. induction m as [|e m IH]; intros i j Hnd Ha Hb Hoa Hob Hid; [done|].
  assert (∀ x k, outgoing (snd x) = true → m !! k = Some x → peer_conn_id (snd x) ∈ omap out_id (peer_tag <$> m)) as Hin.
  { intros x k Ho Hk. rewrite list_elem_of_omap. exists (peer_tag x). unfold out_id. cbn. rewrite Ho. split; [|done].
    apply list_elem_of_fmap_2. by eapply list_elem_of_lookup_2. }
  rewrite fmap_cons in Hnd. cbn in Hnd. unfold out_id at 1 in Hnd. cbn in Hnd.
  destruct i as [|i], j as [|j]; cbn in Ha, Hb; simplify_eq; try done.
  - rewrite Hoa in Hnd. apply NoDup_cons in Hnd as [Hn _]. destruct Hn. rewrite Hid. by eapply Hin.
  - rewrite Hob in Hnd. apply NoDup_cons in Hnd as [Hn _]. destruct Hn. rewrite <- Hid. by eapply Hin.
  - f_equal. apply IH; try done. destruct (outgoing (snd e)); [by apply NoDup_cons in Hnd as [_ ?]|done].
Qed.
