(* ===== verification/NetFrame.v ===== *)
(** * NetFrame: what the network handlers leave alone

    The handlers of [Net] are compositions of a few primitive updates: of the other
    tables, closing a connection, opening one (which announces itself in
    [connections_updated]) and [connections[id]].  A relation that holds across those
    holds across every handler. *)
From S2P Require Import Prelude Bytes Oxenc Auth ConnId Commands Batch Pool Options Net Closing ServiceNodes.
Open Scope Z_scope.
Open Scope nat_scope.

Class NetFrame (R : net → net → Prop) := {
  nf_preorder :: PreOrder R;
  nf_other n n' : connections n' = connections n → connections_updated n' = connections_updated n →
    active_service_nodes n' = active_service_nodes n → R n n';
  nf_close id n : R n (drop_connection id n);
  nf_open id s n n' : connections n' = connections (emplace_socket id s n) → connections_updated n' = true →
    active_service_nodes n' = active_service_nodes n → R n n';
  nf_at id n : R n (connections_at id n);
}.

Section frame.
Context (R : net → net → Prop) {F : NetFrame R} {env : Zmq}.
#[local] Hint Extern 1 (R _ _) => by apply nf_other : core.

Lemma frame_send_on id parts n : R n (fst (send_on id parts n)).
Proof. unfold send_on. repeat case_match; auto. Qed.

Lemma frame_connect_sn remote hint opt inc out keep n n' r :
  proxy_connect_sn remote hint opt inc out keep n = Ret (n', r) → R n n'.
Proof.
  unfold proxy_connect_sn. intros H. inv_bind H. destruct (list_find _ _) as [(i & k & p)|].
  - injection H as <- <-. etrans; [|apply nf_at]. auto.
  - destruct (opt || inc); [injection H as <- <-; auto|]. destruct (bool_decide _); [injection H as <- <-; auto|].
    destruct (zconnect _); [injection H as <- <-; auto|]. injection H as <- <-. by eapply nf_open.
Qed.

Lemma frame_send_loop fuel c conn n n' b e : send_loop fuel c conn n = Ret (Finished n' b e) → R n n'.
Proof.
  revert conn n. induction fuel as [|fuel IH]; intros conn n H; cbn [send_loop] in H; [done|].
  destruct (send_target c conn n) as [[n1 r]| |] eqn:Et; try done. cbn [mbind outcome_bind] in H.
  assert (R n n1) as H1.
  { unfold send_target in Et. destruct (conn_sn conn); [by eapply frame_connect_sn|].
    destruct (negb _); simplify_eq; auto. }
  destruct r as [[id route]|]; [|by simplify_eq].
  pose proof (frame_send_on id (build_send_parts (sc_parts c) route) n1) as Hs.
  destruct (send_on _ _ _) as [n2 r]. cbn [fst] in Hs. assert (R n n2) as Hn2 by (by transitivity n1).
  destruct r; [by simplify_eq|by simplify_eq|].
  destruct ((num =? EHOSTUNREACH)%Z && _); [|by simplify_eq].
  destruct (drop_unreachable _ n2) as [[n3 []]|] eqn:Ed; [| |done];
    (assert (R n2 n3) as H3 by (unfold drop_unreachable in Ed; repeat case_match; simplify_eq; auto)).
  - apply IH in H. by transitivity n2; [|transitivity n3].
  - simplify_eq. by transitivity n2.
Qed.

Lemma frame_report c sent err n : R n (report_send c sent err n).
Proof.
  unfold report_send, schedule_opt, register_request, insert_request.
  destruct err, sent, (sc_request c) as [[]|], (sc_fail c), (sc_full c); repeat case_match; auto.
Qed.

Lemma frame_send c n n' : proxy_send c n = Ret (Some n') → R n n'.
Proof.
  unfold proxy_send. destruct (send_loop _ _ _ _) as [e| |] eqn:E; try done.
  destruct e as [n1 sent err| |]; try done. cbn. intros [= <-]. apply frame_send_loop in E.
  etrans; [exact E|apply frame_report].
Qed.

Lemma frame_connect_remote c n n' : proxy_connect_remote c n = Ret n' → R n n'.
Proof.
  unfold proxy_connect_remote. destruct (zconnect _); [intros; simplify_eq; auto|].
  set (n1 := _ <| connections_updated := true |>). pose proof (frame_send_on (cc_conn_id c) [B "HI"] n1) as H.
  assert (R n n1) as H1 by (by eapply nf_open).
  destruct (send_on _ _ n1) as [n2 []]; intros; simplify_eq; (etrans; [exact H1|]; etrans; [exact H|]; auto).
Qed.

Lemma frame_bind addr on_bind n n' id called : proxy_bind addr on_bind n = Ret (n', id, called) → R n n'.
Proof.
  unfold proxy_bind. destruct (zsocket addr); [done|]. destruct (zbind addr); cbn; intros; simplify_eq; [by eapply nf_open|auto].
Qed.

Lemma frame_disconnect conn n n' : proxy_disconnect conn n = Ret n' → R n n'.
Proof.
  intros ->%(closing_Ret _ _ _ _ (disconnect_closing _ _)).
  unfold disconnect_drop. destruct (list_find _ _) as [(i & k & peer)|]; [|auto].
  etrans; [apply (nf_close (peer_conn_id peer))|auto].
Qed.

Lemma frame_cleanup n n' : proxy_conn_cleanup n = Ret n' → R n n'.
Proof.
  intros ->%(closing_Ret _ _ _ _ (cleanup_closing _)).
  assert (∀ kept rest n, R n (expire_drop kept rest n)) as H1.
  { intros kept rest. revert kept. induction rest as [|[k i] rest IH]; intros kept m; cbn [expire_drop]; [auto|].
    case_match; [|apply IH]. etrans; [apply (nf_close (peer_conn_id i))|apply IH]. }
  assert (∀ kept rest n, R n (connects_drop kept rest n)) as H2.
  { intros kept rest. revert kept. induction rest as [|pc rest IH]; intros kept m; cbn [connects_drop]; [auto|].
    case_match; [|apply IH]. etrans; [|apply IH]. set (m1 := schedule _ _ m).
    transitivity m1; [auto|]. transitivity (drop_connection (pcn_id pc) m1); [apply nf_close|auto]. }
  assert (∀ rest n, R n (requests_loop rest n)) as H3.
  { intros rest. induction rest as [|[t [d cb]] rest IH]; intros m; cbn [requests_loop]; [auto|].
    case_match; [|apply IH]. etrans; [|apply IH]. auto. }
  unfold cleanup_drop, idle_peers_drop. etrans; [apply H1|]. etrans; [apply H2|apply H3].
Qed.

Lemma frame_builtin id inc parts n n' b : proxy_handle_builtin id inc parts n = Ret (n', b) → R n n'.
Proof.
  assert (∀ t b d, R n (answer t b d n)) as Ha.
  { intros t b' d. unfold answer. repeat case_match; auto. }
  unfold proxy_handle_builtin. destruct (split_parts inc parts) as [[[route cmd] args]|]; [|intros; simplify_eq; auto].
  repeat case_bool_decide.
  - destruct args; intros; simplify_eq; [auto|apply Ha].
  - unfold handle_HI. destruct route as [[|c route]|]; cbn; intros; simplify_eq; [apply frame_send_on|auto].
  - destruct inc; intros; simplify_eq; [auto|]. unfold handle_HELLO. repeat case_match; auto.
  - intros H'. inv_bind H'. destruct inc; simplify_eq; [auto|].
    apply (closing_Ret _ _ _ _ (close_closing _ _)) in E as ->. apply nf_close.
  - destruct (is_error_response cmd); intros; simplify_eq; [|auto].
    unfold handle_error_response. repeat case_match; auto || apply Ha.
Qed.

Lemma frame_to_worker `{OX : Oxenc} s id inc parts n p n' p' :
  proxy_to_worker s id inc parts n p = Ret (n', p') → R n n'.
Proof.
  assert (∀ out peer route cmd data n p n' p',
    authorise_and_dispatch s id out peer route cmd data n p = Ret (n', p') → R n n') as Hd.
  { clear -F. intros out peer route cmd data n p n' p'. unfold authorise_and_dispatch.
    destruct (get_command _ _) as [command cat_call]. destruct (proxy_check_auth _ _ _ _ _ _ _) as [[] reply].
    - destruct cat_call as [[cat entry]|]; [|done]. intros H. inv_bind H. simplify_eq. destruct (out && _); auto.
    - destruct reply; intros H; [|simplify_eq; auto]. inv_bind H. unfold send_at in E. case_match; simplify_eq. apply frame_send_on. }
  unfold proxy_to_worker. destruct (split_parts inc parts) as [[[route cmd] args]|]; [|done].
  destruct route as [route|].
  - intros H. destruct (incoming_info _ _ _ _ n) as [tmp| |]; try done. cbn [mbind outcome_bind] in H.
    destruct (incoming_peer _ n) as [[[n1 peer] r]| |] eqn:E; try done. cbn in H. apply Hd in H.
    etrans; [|exact H]. unfold incoming_peer in E. destruct (service_node _); [|simplify_eq; auto].
    inv_bind E. repeat case_match; simplify_eq; auto.
  - destruct (outgoing_peer id n) as [[n1 peer]|] eqn:E; [|intros; simplify_eq; auto]. intros H%Hd.
    etrans; [|exact H]. unfold outgoing_peer in E. repeat case_match; simplify_eq; auto.
Qed.

Lemma frame_message `{OX : Oxenc} s id parts n p n' p' : proxy_message s id parts n p = Ret (n', p') → R n n'.
Proof.
  unfold proxy_message. destruct (bool_decide _); [intros; simplify_eq; auto|]. intros H.
  destruct (proxy_handle_builtin _ _ _ _) as [[n1 []]| |] eqn:Hb; try done; cbn in H.
  - simplify_eq. by eapply frame_builtin.
  - etrans; [by eapply frame_builtin|by eapply frame_to_worker].
Qed.
End frame.

(** ** The active service nodes are only changed by their own commands *)

Definition same_sns (n n' : net) : Prop := active_service_nodes n' = active_service_nodes n.
#[export] Instance same_sns_frame : NetFrame same_sns.
Proof.
  split; unfold same_sns; try done.
  - split; [done|]. intros a b c; congruence.
  - intros id n. unfold drop_connection. by case_match.
  - intros id n. unfold connections_at. by case_match.
Qed.

(** ** New connections are announced *)

(** An open socket that is new means that [connections_updated] is set; it stays set. *)
Record announces (n n' : net) : Prop := {
  an_kept : connections_updated n = true → connections_updated n' = true;
  an_new id k : connections n' !! id = Some k → k ≠ NullSocket → connections_updated n' = false →
    connections n !! id = Some k;
  an_old id k : connections n !! id = Some k → connections_updated n' = false → connections n' !! id = Some k;
}.
#[export] Instance announces_frame : NetFrame announces.
Proof.
  split.
  - split; [by split|]. intros a b c [H1 H2 H3] [I1 I2 I3].
    assert (connections_updated c = false → connections_updated b = false) as Hb.
    { destruct (connections_updated b); [|done]. rewrite I1; done. }
    split; [auto| |]; intros id k Hc; auto 6.
  - intros n n' Hc Hu _. split; rewrite ?Hc, ?Hu; done.
  - intros id n. unfold drop_connection. case_match; by split.
  - intros id s n n' _ Hu _. split; rewrite Hu; done.
  - intros id n. unfold connections_at. destruct (connections n !! id) as [k0|] eqn:Hi; [by split|]. split; [done| |]; cbn.
    + intros id' k [[_ <-]|[_ Hk]]%lookup_insert_Some; done.
    + intros id' k Hk _. rewrite lookup_insert_ne; [done|congruence].
Qed.

Lemma announces_sns_clean added removed n n' : proxy_update_active_sns_clean added removed n = Ret n' → announces n n'.
Proof.
  unfold proxy_update_active_sns_clean. intros H. inv_bind H. injection H as <-.
  assert (∀ n n', connections n' = connections n → connections_updated n' = connections_updated n → announces n n') as Ho.
  { intros m m' Hc Hu. split; rewrite ?Hc, ?Hu; done. }
  assert (∀ c range m, announces m (close_range_drop c range m)) as Hr.
  { intros c range. induction range as [|[k peer] range IH]; intros m; cbn [close_range_drop]; [by split|].
    etrans; [|apply IH]. destruct (outgoing peer); [|by apply Ho]. etrans; [|apply nf_close]. by apply Ho. }
  assert (∀ l m m', remove_sns l m = Ret m' → announces m m') as Hl.
  { clear -Hr Ho. induction l as [|pk l IH]; intros m m' H; cbn in H; [by injection H as <-|]. inv_bind H.
    etrans; [|by eapply IH]. unfold remove_sn in E. inv_bind E.
    apply (closing_Ret _ _ _ _ (close_range_closing _ _ _)) in E as ->. etrans; [|apply Hr]. by apply Ho. }
  etrans; [by eapply Hl|]. by apply Ho.
Qed.
Lemma announces_set_sns pks n n' : proxy_set_active_sns pks n = Ret n' → announces n n'.
Proof.
  unfold proxy_set_active_sns. destruct (scan_pubkeys _ _ _ _). destruct (_ && _); [by intros [= <-]|].
  apply announces_sns_clean.
Qed.
Lemma announces_update_sns added removed n n' : proxy_update_active_sns added removed n = Ret n' → announces n n'.
Proof. unfold proxy_update_active_sns. apply announces_sns_clean. Qed.
