(* ===== verification/ControlSockets.v ===== *)
(** * ControlSockets: the sockets the public calls use to reach the proxy

    zmq sockets must not be used by two threads.  Every thread that makes calls on an
    [OxenMQ] object gets its own control socket ([get_control_socket] in
    [oxenmq.cpp]): the object keeps a table from threads to sockets behind a mutex,
    and each thread caches the last socket it got together with the number of its
    object, so that the table is not needed again.  Here are all objects and threads
    of the program; a socket is named by a number given when it is created. *)
From S2P Require Import Prelude Bytes.
Open Scope Z_scope.
Open Scope nat_scope.

Abbreviation thread_id := Z.
Abbreviation socket_id := Z.

(** A 32-bit [int] after wrapping around. *)
Definition wrap_int (z : Z) : Z := ((z + 2 ^ 31) mod 2 ^ 32 - 2 ^ 31)%Z.

(** What an object has of this. *)
Record control_state := mk_control_state {
  control_sockets : gmap thread_id socket_id;
  proxy_shutting_down : bool;
  joinable_proxy : bool; (* [proxy_thread.joinable()] *)
}.
#[export] Instance control_state_rebuild : Rebuild control_state := λ c,
  mk_control_state (control_sockets c) (proxy_shutting_down c) (joinable_proxy c).

Record program := mk_program {
  next_id : Z; (* the counter of objects, a [std::atomic<int>] *)
  objects : gmap Z control_state;
  last : gmap thread_id (Z * socket_id); (* the thread-local last_id and last_socket, once set *)
  next_socket : socket_id;
}.
#[export] Instance program_rebuild : Rebuild program := λ w,
  mk_program (next_id w) (objects w) (last w) (next_socket w).

(** [object_id{next_id++}] in the constructor. *)
Definition construct (w : program) : program * Z :=
  (w <| next_id ::= (λ i, wrap_int (i + 1)) |>
     <| objects ::= <[ next_id w := mk_control_state ∅ false false ]> |>, next_id w).

(** What zmq does when a control socket is made: the socket cannot be created, or it
    can but not be set up and connected, or all is well. *)
Inductive opening := Opened | NotCreated (e : Z) | NotConnected (e : Z).

(** A call by thread [t] on object [o], with the state it leaves.  The [last_id] of a
    thread is -1 at first and its [last_socket] null. *)
Definition get_control_socket (z : opening) (o : Z) (t : thread_id) (w : program) : program * outcome socket_id :=
  match objects w !! o with
  | None => (w, Undef) (* the object was destroyed *)
  | Some c =>
      let use s w := (w <| last ::= <[ t := (o, s) ]> |>, Ret s) in
      let slow :=
        if proxy_shutting_down c then
          (w, Throw (runtime_error (B "Unable to obtain OxenMQ control socket: proxy thread is shutting down")))
        else
          match control_sockets c !! t with
          | Some s => use s w
          | None =>
              let s := next_socket w in
              let made := w <| next_socket ::= Z.succ |>
                            <| objects ::= <[ o := c <| control_sockets ::= <[ t := s ]> |> ]> |> in
              match z with
              | NotCreated e => (w, Throw (zmq_error e)) (* an empty pointer is left in the table *)
              | NotConnected e => (made, Throw (zmq_error e))
              | Opened => use s made
              end
          end in
      if negb (joinable_proxy c) then (w, Undef) (* assert *)
      else
        match last w !! t with
        | Some (last_id, last_socket) => if (o =? last_id)%Z then (w, Ret last_socket) else slow
        | None => if (o =? -1)%Z then (w, Undef) else slow
        end
  end.

(** [start]: the proxy thread runs; or it failed in its initialization and was joined. *)
Definition start_proxy (o : Z) (w : program) : program :=
  w <| objects ::= alter (λ c, c <| joinable_proxy := true |>) o |>.
Definition start_failed (o : Z) (w : program) : program :=
  w <| objects ::= alter (λ c, c <| joinable_proxy := false |>) o |>.

(** The part of [proxy_quit] that concerns the control sockets. *)
Definition stop_control (o : Z) (w : program) : program :=
  w <| objects ::= alter (λ c, c <| proxy_shutting_down := true |>) o |>.

(** The end of an object, which destroys its sockets, and of a thread. *)
Definition destroy (o : Z) (w : program) : program := w <| objects ::= delete o |>.
Definition thread_exit (t : thread_id) (w : program) : program := w <| last ::= delete t |>.

Inductive action :=
  | AConstruct
  | AStart (o : Z)
  | AStartFailed (o : Z)
  | AGet (z : opening) (o : Z) (t : thread_id)
  | AStop (o : Z)
  | ADestroy (o : Z)
  | AExit (t : thread_id).

(** A call is only made on an object that exists and was started. *)
Inductive act : program → action → program → Prop :=
  | act_construct w : act w AConstruct (fst (construct w))
  | act_start w o : act w (AStart o) (start_proxy o w)
  | act_start_failed w o : act w (AStartFailed o) (start_failed o w)
  | act_get w z o t c : objects w !! o = Some c → joinable_proxy c = true →
      act w (AGet z o t) (fst (get_control_socket z o t w))
  | act_stop w o : act w (AStop o) (stop_control o w)
  | act_destroy w o : act w (ADestroy o) (destroy o w)
  | act_exit w t : act w (AExit t) (thread_exit t w).

(** The states after [k] objects were constructed. *)
Inductive program_reaches : Z → program → Prop :=
  | pr_init : program_reaches 0 (mk_program 1 ∅ ∅ 0)
  | pr_act k w a w' : program_reaches k w → act w a w' →
      program_reaches (match a with AConstruct => k + 1 | _ => k end)%Z w'.

(** The most objects whose numbers differ from each other and from the -1 of a fresh
    thread. *)
Definition MAX_OBJECTS : Z := 2 ^ 32 - 2.

(** ** The numbers of objects *)

Lemma wrap_int_inj a b : (0 < a < 2 ^ 32)%Z → (0 < b < 2 ^ 32)%Z → wrap_int a = wrap_int b → a = b.
Proof.
  unfold wrap_int. intros Ha Hb H.
  pose proof (Z.div_mod (a + 2 ^ 31) (2 ^ 32) ltac:(lia)). pose proof (Z.div_mod (b + 2 ^ 31) (2 ^ 32) ltac:(lia)). lia.
Qed.
Lemma wrap_int_succ a : wrap_int (wrap_int a + 1) = wrap_int (a + 1).
Proof.
  unfold wrap_int. f_equal. replace ((a + 2 ^ 31) mod 2 ^ 32 - 2 ^ 31 + 1 + 2 ^ 31)%Z
    with ((a + 2 ^ 31) mod 2 ^ 32 + 1)%Z by lia. rewrite Z.add_mod_idemp_l by lia. f_equal. lia.
Qed.

(** The number of the [j]th object, of [k]. *)
Definition numbered (k o : Z) : Prop := ∃ j, (1 ≤ j ≤ k)%Z ∧ o = wrap_int j.
Lemma numbered_more k o : numbered k o → numbered (k + 1) o.
Proof. intros (j & Hj & ->). exists j. split; [lia|done]. Qed.
Lemma number_fresh k : (0 ≤ k < MAX_OBJECTS)%Z → ¬ numbered k (wrap_int (k + 1)).
Proof. unfold MAX_OBJECTS. intros Hk (j & Hj & H). apply wrap_int_inj in H; lia. Qed.
Lemma number_not_fresh_thread k o : (k ≤ MAX_OBJECTS)%Z → numbered k o → (o =? -1)%Z = false.
Proof.
  unfold MAX_OBJECTS. intros Hk (j & Hj & ->). apply Z.eqb_neq. change (-1)%Z with (wrap_int (2 ^ 32 - 1)).
  intros H%wrap_int_inj; lia.
Qed.

(** ** The invariant *)

Record control_ok (k : Z) (w : program) : Prop := {
  co_next : next_id w = wrap_int (k + 1);
  co_objects o c : objects w !! o = Some c → numbered k o;
  co_sockets o c t s : objects w !! o = Some c → control_sockets c !! t = Some s → (s < next_socket w)%Z;
  (* a socket is in one place *)
  co_unique o1 c1 t1 o2 c2 t2 s : objects w !! o1 = Some c1 → objects w !! o2 = Some c2 →
    control_sockets c1 !! t1 = Some s → control_sockets c2 !! t2 = Some s → o1 = o2 ∧ t1 = t2;
  (* what a thread remembers is what the table says, while the object exists *)
  co_last t o s : last w !! t = Some (o, s) →
    numbered k o ∧ ∀ c, objects w !! o = Some c → control_sockets c !! t = Some s;
}.

(** The table of every object keeps its entries, or gets one for a fresh socket. *)
Lemma add_socket_ok k o t c w :
  control_ok k w → objects w !! o = Some c → control_sockets c !! t = None →
  control_ok k (w <| next_socket ::= Z.succ |> <| objects ::= <[ o := c <| control_sockets ::= <[ t := next_socket w ]> |> ]> |>).
Proof.
  intros [H0 H1 H2 H3 H4] Ho Ht. set (c' := c <| control_sockets ::= _ |>).
  assert (∀ o' d, <[ o := c' ]> (objects w) !! o' = Some d → ∃ d0, objects w !! o' = Some d0 ∧
    ∀ t' s, control_sockets d !! t' = Some s →
      control_sockets d0 !! t' = Some s ∨ (o' = o ∧ t' = t ∧ s = next_socket w)) as Hin.
  { intros o' d [[<- <-]|[Hne Hd]]%lookup_insert_Some; [|exists d; auto]. exists c. split; [done|]. intros t' s. cbn.
    intros [[<- <-]|[_ Hs]]%lookup_insert_Some; auto. }
  split; cbn [objects next_id last next_socket modify]; [done|..].
  - intros o' d (d0 & Hd0 & _)%Hin. by eapply H1.
  - intros o' d t' s (d0 & Hd0 & Hs)%Hin Hts. destruct (Hs _ _ Hts) as [Hl|(_ & _ & ->)]; [|lia].
    specialize (H2 _ _ _ _ Hd0 Hl). lia.
  - intros o1 c1 t1 o2 c2 t2 s (d1 & Hd1 & Hs1)%Hin (d2 & Hd2 & Hs2)%Hin Ht1 Ht2.
    destruct (Hs1 _ _ Ht1) as [E1|(-> & -> & ->)], (Hs2 _ _ Ht2) as [E2|(-> & -> & E2)]; [by eapply H3| | |done].
    + subst s. specialize (H2 _ _ _ _ Hd1 E1). lia.
    + specialize (H2 _ _ _ _ Hd2 E2). lia.
  - intros t' o' s Hl. destruct (H4 _ _ _ Hl) as [Hlt Hc]. split; [done|].
    intros d [[<- <-]|[_ Hd]]%lookup_insert_Some; [|by apply Hc]. cbn. specialize (Hc _ Ho).
    rewrite lookup_insert_ne; [done|]. intros ->. congruence.
Qed.

Lemma remember_ok k o c t s w :
  control_ok k w → objects w !! o = Some c → control_sockets c !! t = Some s →
  control_ok k (w <| last ::= <[ t := (o, s) ]> |>).
Proof.
  intros [H0 H1 H2 H3 H4] Ho Hs. split; cbn [objects next_id last next_socket modify]; [done|done|done|done|].
  intros t' o' s' [[<- [= <- <-]]|[_ Hl]]%lookup_insert_Some; [|by apply H4]. split; [by eapply H1|]. intros d Hd. congruence.
Qed.

(** The results of a call: a socket, which the table of [o] has for [t]; the refusal of
    an object that shuts down; or zmq's error, for a thread without a socket. *)
Definition call_result (z : opening) (o : Z) (t : thread_id) (c : control_state) (w w' : program) (r : outcome socket_id) : Prop :=
  (∃ s c', r = Ret s ∧ objects w' !! o = Some c' ∧ control_sockets c' !! t = Some s ∧
     (∀ s0, control_sockets c !! t = Some s0 → s = s0)) ∨
  (proxy_shutting_down c = true ∧
   r = Throw (runtime_error (B "Unable to obtain OxenMQ control socket: proxy thread is shutting down")) ∧
   ∀ s, last w !! t ≠ Some (o, s)) ∨
  (control_sockets c !! t = None ∧ ∃ e, (z = NotCreated e ∨ z = NotConnected e) ∧ r = Throw (zmq_error e)).

Lemma get_control_socket_spec z k o t c w :
  (k ≤ MAX_OBJECTS)%Z → control_ok k w → objects w !! o = Some c → joinable_proxy c = true →
  let '(w', r) := get_control_socket z o t w in control_ok k w' ∧ call_result z o t c w w' r.
Proof.
  intros Hk Hok Ho Hj. unfold get_control_socket. rewrite Ho, Hj. cbn [negb].
  match goal with |- context [match last w !! t with Some _ => _ | None => if _ then _ else ?slow end] => set (sl := slow) end.
  assert ((∀ s, last w !! t ≠ Some (o, s)) → let '(w', r) := sl in control_ok k w' ∧ call_result z o t c w w' r) as Hslow.
  { intros Hl. subst sl. destruct (proxy_shutting_down c) eqn:Hsd; [split; [done|]; right; by left|].
    destruct (control_sockets c !! t) as [s|] eqn:Hs.
    - split; [by eapply remember_ok|]. left. exists s, c. split_and!; try done. congruence.
    - pose proof (add_socket_ok k o t c w Hok Ho Hs) as Hok1. set (c' := c <| control_sockets ::= _ |>) in *.
      assert (control_sockets c' !! t = Some (next_socket w)) as Hc' by apply lookup_insert_eq.
      destruct z as [|e|e]; (split; [|try (right; right; split; [done|]; by eauto)]); [| |done|done].
      + eapply (remember_ok k o c'); [exact Hok1| |exact Hc']. cbn. apply lookup_insert_eq.
      + left. exists (next_socket w), c'. split_and!; try done; [cbn; apply lookup_insert_eq|]. congruence. }
  destruct (last w !! t) as [[last_id last_socket]|] eqn:Hl.
  - destruct (Z.eqb_spec o last_id) as [<-|Hne]; [|apply Hslow; by intros s [= ? _]].
    split; [done|]. left. destruct (co_last _ _ Hok _ _ _ Hl) as [_ Hc]. exists last_socket, c.
    split_and!; try done; [by apply Hc|]. rewrite (Hc _ Ho). by intros s0 [= <-].
  - rewrite (number_not_fresh_thread k o Hk (co_objects _ _ Hok _ _ Ho)). by apply Hslow.
Qed.

(** A change of the flags of an object. *)
Lemma alter_ok (f : control_state → control_state) k o w :
  (∀ c, control_sockets (f c) = control_sockets c) → control_ok k w → control_ok k (w <| objects ::= alter f o |>).
Proof.
  intros Hf [H0 H1 H2 H3 H4].
  assert (∀ o' d, alter f o (objects w) !! o' = Some d →
    ∃ d0, objects w !! o' = Some d0 ∧ control_sockets d = control_sockets d0) as Hin.
  { intros o' d. destruct (decide (o' = o)) as [->|Hne].
    - rewrite lookup_alter_eq. intros (d0 & -> & ->)%fmap_Some. by exists d0.
    - rewrite lookup_alter_ne by done. eauto. }
  split; cbn [objects next_id last next_socket modify]; [done|..].
  - intros o' d (d0 & Hd & _)%Hin. by eapply H1.
  - intros o' d t s (d0 & Hd & ->)%Hin. by eapply H2.
  - intros o1 c1 t1 o2 c2 t2 s (d1 & Hd1 & ->)%Hin (d2 & Hd2 & ->)%Hin. by eapply H3.
  - intros t o' s Hl. destruct (H4 _ _ _ Hl) as [Hlt Hc]. split; [done|]. intros d (d0 & Hd & ->)%Hin. by apply Hc.
Qed.

Lemma construct_ok k w : (0 ≤ k < MAX_OBJECTS)%Z → control_ok k w → control_ok (k + 1) (fst (construct w)).
Proof.
  intros Hk [H0 H1 H2 H3 H4]. pose proof (number_fresh k Hk) as Hfresh. rewrite <- H0 in Hfresh.
  assert (numbered (k + 1) (next_id w)) as Hnew by (exists (k + 1)%Z; split; [lia|done]).
  unfold construct. split; cbn [fst objects next_id last next_socket modify].
  - by rewrite H0, wrap_int_succ.
  - intros o d [[<- _]|[_ Hd]]%lookup_insert_Some; [done|]. apply numbered_more. by eapply H1.
  - intros o d t s [[_ <-]|[_ Hd]]%lookup_insert_Some; [done|]. by eapply H2.
  - intros o1 c1 t1 o2 c2 t2 s [[_ <-]|[_ Hd1]]%lookup_insert_Some [[_ <-]|[_ Hd2]]%lookup_insert_Some; try done. by eapply H3.
  - intros t o s Hl. destruct (H4 _ _ _ Hl) as [Hn Hc]. split; [by apply numbered_more|].
    intros d [[<- _]|[_ Hd]]%lookup_insert_Some; [done|]. by apply Hc.
Qed.

Lemma act_ok k w a w' :
  (0 ≤ k ≤ MAX_OBJECTS)%Z → (a = AConstruct → k < MAX_OBJECTS)%Z → control_ok k w → act w a w' →
  control_ok (match a with AConstruct => k + 1 | _ => k end)%Z w'.
Proof.
  intros Hk Ha Hok H. pose proof Hok as [H0 H1 H2 H3 H4].
  destruct H as [w|w o|w o|w z o t c Ho Hj|w o|w o|w t].
  - apply construct_ok; [|done]. specialize (Ha eq_refl). lia.
  - by apply alter_ok.
  - by apply alter_ok.
  - pose proof (get_control_socket_spec z k o t c w (proj2 Hk) Hok Ho Hj) as Hg.
    destruct (get_control_socket z o t w). apply Hg.
  - by apply alter_ok.
  - split; cbn [objects next_id last next_socket destroy modify]; [done|..].
    + intros o' d [_ Hd]%lookup_delete_Some. by eapply H1.
    + intros o' d t s [_ Hd]%lookup_delete_Some. by eapply H2.
    + intros o1 c1 t1 o2 c2 t2 s [_ Hd1]%lookup_delete_Some [_ Hd2]%lookup_delete_Some. by eapply H3.
    + intros t o' s Hl. destruct (H4 _ _ _ Hl) as [Hlt Hc]. split; [done|]. intros d [_ Hd]%lookup_delete_Some. by apply Hc.
  - split; cbn [objects next_id last next_socket thread_exit modify]; [done|done|done|done|].
    intros t' o' s [_ Hl]%lookup_delete_Some. by apply H4.
Qed.

Lemma program_ok k w : program_reaches k w → (k ≤ MAX_OBJECTS)%Z → (0 ≤ k)%Z ∧ control_ok k w.
Proof.
  induction 1 as [|k w a w' _ IH Hact]; intros Hk.
  - split; [done|]. split; cbn; [done|intros *; by rewrite ?lookup_empty..].
  - destruct IH as [H0 Hok]; [destruct a; lia|]. split; [destruct a; lia|].
    eapply act_ok; [destruct a; lia|intros ->; lia|exact Hok|exact Hact].
Qed.

(** ** Theorems *)

(** C11: a control socket belongs to one thread.  Take a state of the program in which at
    most [2^32 - 2] objects were ever constructed (as many as the wrapping [int] counter
    can tell apart), and a call on an object whose proxy thread was started.  The call gets
    a socket that this object holds for the calling thread, the one it holds already if
    there is one, and that no table of any object holds for another thread, so no two
    threads ever use the same socket.  The socket a thread remembers for the object is
    returned whatever happens, also while the object shuts down.  Otherwise the call fails
    in two cases: the object is shutting down, or zmq cannot make the socket of a thread
    that has none.  The number a thread remembers never stands for a later object, so a
    socket of a destroyed object is not handed out. *)
Theorem control_socket_confined k w z o t c :
  program_reaches k w → (k ≤ MAX_OBJECTS)%Z → objects w !! o = Some c → joinable_proxy c = true →
  let '(w', r) := get_control_socket z o t w in
  (∀ s, last w !! t = Some (o, s) → r = Ret s) ∧
  ((∃ s c', r = Ret s ∧ objects w' !! o = Some c' ∧ control_sockets c' !! t = Some s ∧
      (∀ s0, control_sockets c !! t = Some s0 → s = s0) ∧
      (∀ o2 c2 t2, objects w' !! o2 = Some c2 → control_sockets c2 !! t2 = Some s → o2 = o ∧ t2 = t)) ∨
   (proxy_shutting_down c = true ∧
    r = Throw (runtime_error (B "Unable to obtain OxenMQ control socket: proxy thread is shutting down"))) ∨
   (control_sockets c !! t = None ∧ ∃ e, (z = NotCreated e ∨ z = NotConnected e) ∧ r = Throw (zmq_error e))).
Proof.
  intros Hw Hk Ho Hj. destruct (program_ok k w Hw Hk) as [_ Hok].
  pose proof (get_control_socket_spec z k o t c w Hk Hok Ho Hj) as Hg.
  assert (∀ s, last w !! t = Some (o, s) → get_control_socket z o t w = (w, Ret s)) as Hl.
  { intros s Hs. unfold get_control_socket. by rewrite Ho, Hj, Hs, Z.eqb_refl. }
  destruct (get_control_socket z o t w) as [w' r]. destruct Hg as [Hok' Hr].
  split; [intros s Hs%Hl; by injection Hs|]. destruct Hr as [(s & c' & Hr & Ho' & Hs & Hsame)|[(Hd & Hr & _)|Hr]].
  - left. exists s, c'. split_and!; try done. intros o2 c2 t2 Ho2 Ht2. by eapply co_unique.
  - right. by left.
  - right. by right.
Qed.

(** Thread 7 used the first object, which is gone; it calls the second. *)
Lemma control_socket_confined_witness :
  ∃ w w' s c', program_reaches 2 w ∧ last w !! 7%Z = Some (1%Z, 0%Z) ∧ get_control_socket Opened 2 7 w = (w', Ret s) ∧
    objects w' !! 2%Z = Some c' ∧ control_sockets c' !! 7%Z = Some s.
Proof.
  set (w1 := start_proxy 1 (fst (construct (mk_program 1 ∅ ∅ 0)))).
  set (w2 := fst (get_control_socket Opened 1 7 w1)).
  set (w3 := start_proxy 2 (fst (construct (destroy 1 w2)))). assert (program_reaches 2 w3) as H3.
  { eapply (pr_act 2 _ (AStart 2)); [|apply act_start]. eapply (pr_act 1 _ AConstruct); [|apply act_construct].
    eapply (pr_act 1 _ (ADestroy 1)); [|apply act_destroy]. eapply (pr_act 1 _ (AGet Opened 1 7)).
    - eapply (pr_act 1 _ (AStart 1)); [|apply act_start]. exact (pr_act 0 _ AConstruct _ pr_init (act_construct _)).
    - apply (act_get w1 Opened 1 7 (mk_control_state ∅ false true)); reflexivity. }
  assert (objects w3 !! 2%Z = Some (mk_control_state ∅ false true)) as Ho by reflexivity.
  pose proof (control_socket_confined 2 w3 Opened 2 7 _ H3 ltac:(by vm_compute) Ho eq_refl) as H.
  destruct (get_control_socket Opened 2 7 w3) as [w' r] eqn:Hg.
  destruct H as [_ [(s & c' & Hr & Ho' & Hs & _)|[[Hd _]|(_ & e & [He|He] & _)]]]; [|discriminate..].
  exists w3, w', s, c'. subst r. exact (conj H3 (conj eq_refl (conj Hg (conj Ho' Hs)))).
Defined.
