(* ===== verification/Transport.v ===== *)
(** * Transport: messages as frames on a socket

    zmq moves frames; a message is a run of frames in which all but the last say that
    more follow.  The senders and readers of [oxenmq-internal.h] and [send_control]
    ([oxenmq.cpp]) with what the router sockets of the proxy add and remove: the
    first frame of what they read is the route of the sender, the first frame of
    what they are given to send is the route of the receiver. *)
From S2P Require Import Prelude Bytes.
Open Scope Z_scope.
Open Scope nat_scope.

Record frame := mk_frame { fr_data : bytes; fr_more : bool }.

(** ** Senders *)

(** The frames [send_message_parts] hands to zmq; [accepts] are the results of the
    calls of [send], which stop at the first [false]. *)
Fixpoint send_message_parts (accepts : list bool) (parts : list bytes) : list frame * bool :=
  match parts with
  | [] => ([], true)
  | msg :: parts =>
      if default false (head accepts) then
        let '(fs, ok) := send_message_parts (tail accepts) parts in
        (mk_frame msg (negb (bool_decide (parts = []))) :: fs, ok)
      else ([], false)
  end.

Definition send_control (cmd data : bytes) : list frame :=
  if bool_decide (data = []) then [mk_frame cmd false] else [mk_frame cmd true; mk_frame data false].
Definition route_control (identity cmd data : bytes) : list frame := mk_frame identity true :: send_control cmd data.

Definition send_routed_message (accepts : list bool) (route msg data : bytes) : outcome (list frame * bool) :=
  if bool_decide (route = []) then Undef (* assert *)
  else Ret (send_message_parts accepts (if bool_decide (data = []) then [route; msg] else [route; msg; data])).
Definition send_direct_message (accepts : list bool) (msg data : bytes) : list frame * bool :=
  send_message_parts accepts (if bool_decide (data = []) then [msg] else [msg; data]).

(** ** Readers *)

(** [recv_message_parts] into a vector: the parts and the frames left, or nothing when
    the frames end. *)
Fixpoint recv_parts (fs : list frame) : option (list bytes * list frame) :=
  match fs with
  | [] => None
  | f :: fs =>
      if fr_more f then '(parts, rest) ← recv_parts fs; Some (fr_data f :: parts, rest)
      else Some ([fr_data f], fs)
  end.
(** Into an array of [n] parts, which is not checked. *)
Fixpoint recv_array (n : nat) (fs : list frame) : outcome (option (list bytes * list frame)) :=
  match n with
  | 0 => Undef
  | S n =>
      match fs with
      | [] => Ret None
      | f :: fs =>
          if fr_more f then
            r ← recv_array n fs;
            Ret ((λ r, (fr_data f :: fst r, snd r)) <$> (r : option (list bytes * list frame)))
          else Ret (Some ([fr_data f], fs))
      end
  end.

(** All messages on a socket, with either reader. *)
Fixpoint recv_all (fuel : nat) (fs : list frame) : list (list bytes) :=
  match fuel with
  | 0 => []
  | S fuel => match recv_parts fs with Some (parts, fs) => parts :: recv_all fuel fs | None => [] end
  end.
Fixpoint recv_all_array (n fuel : nat) (fs : list frame) : outcome (list (list bytes)) :=
  match fuel with
  | 0 => Ret []
  | S fuel =>
      r ← recv_array n fs;
      match (r : option (list bytes * list frame)) with
      | Some (parts, fs) => ms ← recv_all_array n fuel fs; Ret (parts :: ms)
      | None => Ret []
      end
  end.

(** What a router reads from the peer [route], and what reaches the peer of the frames
    a router is given. *)
Definition from_peer (route : bytes) (fs : list frame) : list frame := mk_frame route true :: fs.
Definition to_peer (fs : list frame) : option (bytes * list frame) :=
  match fs with f :: fs => Some (fr_data f, fs) | [] => None end.

(** ** Lemmas *)

(** The frames of a message. *)
Fixpoint frames (parts : list bytes) : list frame :=
  match parts with [] => [] | p :: ps => mk_frame p (negb (bool_decide (ps = []))) :: frames ps end.

Lemma send_accepted accepts parts :
  length accepts = length parts → Forall (.= true) accepts → send_message_parts accepts parts = (frames parts, true).
Proof.
  revert accepts. induction parts as [|p ps IH]; intros [|a accepts] Hl Ha; try done.
  apply Forall_cons in Ha as [-> Ha]. cbn [send_message_parts head tail default frames].
  rewrite IH by (done || injection Hl; done). done.
Qed.

Lemma recv_frames parts fs : parts ≠ [] → recv_parts (frames parts ++ fs) = Some (parts, fs).
Proof.
  induction parts as [|p ps IH]; intros Hne; [done|]. cbn [frames app recv_parts fr_more fr_data].
  destruct ps as [|p' ps]; [done|]. rewrite bool_decide_false by done. cbn [negb]. by rewrite IH.
Qed.

Lemma recv_array_frames n parts fs :
  parts ≠ [] → recv_array n (frames parts ++ fs) = if length parts <=? n then Ret (Some (parts, fs)) else Undef.
Proof.
  revert n. induction parts as [|p ps IH]; intros [|n] Hne; [done|done|done|].
  cbn [frames app recv_array fr_more fr_data length Nat.leb]. destruct ps as [|p' ps]; [done|].
  rewrite bool_decide_false by done. cbn [negb]. rewrite IH by done. by destruct (_ <=? n).
Qed.

Lemma recv_all_frames msgs fuel :
  Forall (λ m, m ≠ []) msgs → length msgs ≤ fuel → recv_all fuel (concat (frames <$> msgs)) = msgs.
Proof.
  revert fuel. induction msgs as [|m msgs IH]; intros fuel Hne Hf; [by destruct fuel|].
  destruct fuel as [|fuel]; [cbn in Hf; lia|]. apply Forall_cons in Hne as [Hm Hne].
  rewrite fmap_cons. cbn [concat recv_all]. rewrite recv_frames by done. f_equal. apply IH; [done|]. cbn in Hf. lia.
Qed.
Lemma recv_all_array_frames n msgs fuel :
  Forall (λ m, m ≠ []) msgs → Forall (λ m, length m ≤ n) msgs → length msgs ≤ fuel → 0 < n →
  recv_all_array n fuel (concat (frames <$> msgs)) = Ret msgs.
Proof.
  intros Hne Hn Hf Hpos. revert fuel Hf. induction msgs as [|m msgs IH]; intros fuel Hf.
  { destruct fuel; [done|]. by destruct n; [lia|]. }
  destruct fuel as [|fuel]; [cbn in Hf; lia|]. apply Forall_cons in Hne as [Hm Hne]. apply Forall_cons in Hn as [Hmn Hn].
  rewrite fmap_cons. cbn [concat recv_all_array]. rewrite recv_array_frames, (proj2 (Nat.leb_le _ _) Hmn) by done.
  cbn [mbind outcome_bind]. rewrite IH; [done|done|done|]. cbn in Hf. lia.
Qed.

Lemma control_frames cmd data :
  send_control cmd data = frames (if bool_decide (data = []) then [cmd] else [cmd; data]).
Proof. unfold send_control. by destruct (bool_decide (data = [])). Qed.

Lemma from_peer_frames route parts : parts ≠ [] → from_peer route (frames parts) = frames (route :: parts).
Proof. intros H. unfold from_peer. cbn. by rewrite (bool_decide_false (parts = [])). Qed.
Lemma to_peer_frames route parts : to_peer (frames (route :: parts)) = Some (route, frames parts).
Proof. done. Qed.

(** ** Theorems *)

(** C35: framing loses nothing.  Whatever messages are sent on a socket, of any number
    of parts of any content, empty ones included, the other side reads the same
    messages in the same order, with the growing reader always and with the reader
    into an array of [n] parts if none has more; one with more is written out of
    bounds. *)
Theorem messages_roundtrip msgs n :
  Forall (λ m, m ≠ []) msgs → 0 < n →
  let sent := concat ((λ m, fst (send_message_parts (replicate (length m) true) m)) <$> msgs) in
  recv_all (length msgs) sent = msgs ∧
  (Forall (λ m, length m ≤ n) msgs → recv_all_array n (length msgs) sent = Ret msgs) ∧
  (∀ m rest, msgs = m :: rest → n < length m → recv_array n sent = Undef).
Proof.
  intros Hne Hn sent. assert (sent = concat (frames <$> msgs)) as ->.
  { subst sent. f_equal. apply list_fmap_ext. intros i m _. by rewrite send_accepted by (rewrite ?length_replicate; done || by apply Forall_replicate). }
  split; [by apply recv_all_frames|]. split; [intros; by apply recv_all_array_frames|].
  intros m rest -> Hlt. apply Forall_cons in Hne as [Hm _]. rewrite fmap_cons. cbn [concat].
  by rewrite recv_array_frames, (proj2 (Nat.leb_gt _ _) Hlt).
Qed.

(** The internal protocols fit together.  A control message of a public call, of
    any command and data, reaches the proxy as two parts, or three if there is data,
    within the array it reads into; a worker's message as two; and START, RUN and
    QUIT, sent by the proxy with a route in either way, reach the worker as the single
    part it waits for. *)
Theorem internal_protocol route cmd data :
  route ≠ [] →
  recv_array 3 (from_peer route (send_control cmd data)) =
    Ret (Some (if bool_decide (data = []) then [route; cmd] else [route; cmd; data], [])) ∧
  to_peer (route_control route cmd []) = Some (route, send_control cmd []) ∧
  recv_parts (send_control cmd []) = Some ([cmd], []) ∧
  send_routed_message [true; true] route cmd [] = Ret (route_control route cmd [], true).
Proof.
  intros Hr. split_and!.
  - unfold from_peer, send_control. by destruct (bool_decide (data = [])).
  - done.
  - done.
  - unfold send_routed_message. by rewrite bool_decide_false.
Qed.

Lemma messages_roundtrip_witness :
  recv_all 2 (concat ((λ m, fst (send_message_parts (replicate (length m) true) m)) <$> [[B "a"; []]; [[]]])) =
    [[B "a"; []]; [[]]].
Proof.
  destruct (messages_roundtrip [[B "a"; []]; [[]]] 3) as [H _]; [|lia|exact H].
  repeat constructor; discriminate.
Defined.
Lemma internal_protocol_witness :
  recv_array 3 (from_peer (B "w0000") (send_control (B "RAN") [])) = Ret (Some ([B "w0000"; B "RAN"], [])).
Proof. destruct (internal_protocol (B "w0000") (B "RAN") []) as [H _]; [discriminate|exact H]. Defined.
