(* ===== verification/Tags.v ===== *)
(** * Tags: reply tags

    [make_random_string] ([oxenmq.cpp]) makes the tag of a request from the 64-bit
    outputs of a generator; the generator is third-party code and appears as the
    sequence of its outputs. *)
From S2P Require Import Prelude Bytes.
Open Scope Z_scope.
Open Scope nat_scope.

(** The bytes of a [uint64_t] in memory. *)
Definition raw64 (x : Z) : bytes := (λ i, chr (Z.land (Z.shiftr x (8 * i)) 255)) <$> [0; 1; 2; 3; 4; 5; 6; 7]%Z.

Section tags.
(** The outputs of the generator from now on. *)
Context (rng : nat → Z).

(** The loop; [used] outputs were taken.  The second component is the number taken at
    the end, [None] is running out of fuel. *)
Fixpoint random_loop (fuel used : nat) (size : nat) (rando : bytes) : option (bytes * nat) :=
  match fuel with
  | 0 => None
  | S fuel =>
      if length rando <? size then
        random_loop fuel (S used) size (rando ++ take (Nat.min (size - length rando) 8) (raw64 (rng used)))
      else Some (rando, used)
  end.
Definition make_random_string (size : nat) : option (bytes * nat) := random_loop (S size) 0 size [].

(** The outputs of the generator as one string. *)
Definition random_bytes (n : nat) : bytes := concat ((λ i, raw64 (rng i)) <$> seq 0 n).

Lemma length_raw64 x : length (raw64 x) = 8.
Proof. done. Qed.
Lemma length_random_bytes n : length (random_bytes n) = 8 * n.
Proof.
  unfold random_bytes. induction n as [|n IH]; [done|]. rewrite seq_S, fmap_app. cbn [fmap list_fmap]. rewrite concat_app, length_app, IH.
  cbn. lia.
Qed.
Lemma random_bytes_S n : random_bytes (S n) = random_bytes n ++ raw64 (rng n).
Proof. unfold random_bytes. rewrite seq_S, fmap_app, concat_app. done. Qed.

Lemma random_loop_spec fuel used size rando :
  size - length rando < fuel → rando = take size (random_bytes used) → (used = 0 ∨ 8 * (used - 1) < size) →
  ∃ n, random_loop fuel used size rando = Some (take size (random_bytes n), n) ∧ size ≤ 8 * n ∧ (n = 0 ∨ 8 * (n - 1) < size).
Proof.
  revert used rando. induction fuel as [|fuel IH]; intros used rando Hf Hr Hu; [lia|]. cbn [random_loop].
  pose proof (length_random_bytes used) as Hl. assert (length rando = Nat.min size (8 * used)) as Hlen.
  { rewrite Hr, length_take. lia. }
  destruct (Nat.ltb_spec (length rando) size) as [Hlt|Hge].
  - assert (8 * used < size) as Hlt' by lia. apply IH.
    + rewrite length_app, length_take, length_raw64. lia.
    + rewrite Hr, random_bytes_S, (take_ge (random_bytes used)) by lia. rewrite take_app, Hl. f_equal; [by rewrite take_ge by lia|].
      destruct (decide (8 ≤ size - 8 * used)); [rewrite !take_ge by (rewrite length_raw64; lia); done|f_equal; lia].
    + right. lia.
  - exists used. split; [by rewrite Hr|]. split; [lia|done].
Qed.

(** A tag of the length asked for is always made.  The loop ends, the string has
    exactly [size] bytes, they are the outputs of the generator in order, low bytes
    first, and no more outputs are used than needed. *)
Theorem random_string_exact size :
  ∃ n, make_random_string size = Some (take size (random_bytes n), n) ∧ length (take size (random_bytes n)) = size ∧
    8 * n < size + 8.
Proof.
  destruct (random_loop_spec (S size) 0 size []) as (n & Hn & H1 & H2); [cbn; lia|by destruct size|by left|].
  exists n. split; [done|]. split; [|lia]. rewrite length_take, length_random_bytes. lia.
Qed.
End tags.
