(* ===== verification/SocketOptions.v ===== *)
(** * SocketOptions: what is set on a new connection

    [setup_external_socket], [setup_outgoing_socket] and [setup_incoming_socket]
    ([connections.cpp]) as the options they set, in order, from the settings of the
    object ([oxenmq.h]).  Times are milliseconds. *)
From S2P Require Import Prelude Bytes.
Open Scope Z_scope.
Open Scope nat_scope.

(** A count cast to [int]. *)
Definition to_int (z : Z) : Z := ((z + 2 ^ 31) mod 2 ^ 32 - 2 ^ 31)%Z.

(** The public settings with their defaults. *)
Record settings := mk_settings {
  HANDSHAKE_TIME : Z;
  EPHEMERAL_ROUTING_ID : bool;
  MAX_MSG_SIZE : Z;
  MAX_SOCKETS : Z;
  RECONNECT_INTERVAL : Z;
  RECONNECT_INTERVAL_MAX : Z;
  CLOSE_LINGER : Z;
  CONN_CHECK_INTERVAL : Z;
  CONN_HEARTBEAT : Z;
  CONN_HEARTBEAT_TIMEOUT : Z;
  USE_EPOLL : bool;
  STARTUP_UMASK : Z;
  SOCKET_GID : Z;
  SOCKET_UID : Z;
  IPV6 : bool;
}.
Definition default_settings : settings :=
  mk_settings 10000 false (1 * 1024 * 1024) 10000 250 5000 5000 250 15000 30000 false (-1) (-1) (-1) false.

Inductive sockopt :=
  | SoReconnectIvl (ms : Z)
  | SoReconnectIvlMax (ms : Z)
  | SoHandshakeIvl (ms : Z)
  | SoMaxMsgSize (n : Z)
  | SoIpv6 (on : Z)
  | SoHeartbeatIvl (ms : Z)
  | SoHeartbeatTimeout (ms : Z)
  | SoCurveServerKey (pk : bytes)
  | SoCurvePublicKey (pk : bytes)
  | SoCurveSecretKey (sk : bytes)
  | SoRoutingId (id : bytes)
  | SoZapDomain (d : bytes)
  | SoCurveServer (on : bool)
  | SoRouterHandover (on : bool)
  | SoRouterMandatory (on : bool).

Section setup.
Context (cfg : settings) (pubkey privkey : bytes).

Definition setup_external_socket : list sockopt :=
  [SoReconnectIvl (to_int (RECONNECT_INTERVAL cfg)); SoReconnectIvlMax (to_int (RECONNECT_INTERVAL_MAX cfg));
   SoHandshakeIvl (to_int (HANDSHAKE_TIME cfg)); SoMaxMsgSize (MAX_MSG_SIZE cfg)] ++
  (if IPV6 cfg then [SoIpv6 1] else []) ++
  (if (0 <? CONN_HEARTBEAT cfg)%Z then
     SoHeartbeatIvl (to_int (CONN_HEARTBEAT cfg)) ::
     (if (0 <? CONN_HEARTBEAT_TIMEOUT cfg)%Z then [SoHeartbeatTimeout (to_int (CONN_HEARTBEAT_TIMEOUT cfg))] else [])
   else []).

(** The routing id of connections that do not use a random one. *)
Definition own_routing_id : bytes := B "L" ++ pubkey.

Definition setup_outgoing_socket (remote_pubkey : bytes) (use_ephemeral_routing_id : bool) : list sockopt :=
  setup_external_socket ++
  (if bool_decide (remote_pubkey = []) then []
   else [SoCurveServerKey remote_pubkey; SoCurvePublicKey pubkey; SoCurveSecretKey privkey]) ++
  (if use_ephemeral_routing_id then [] else [SoRoutingId own_routing_id]).

(** [domain] is the serialized index of the listener. *)
Definition setup_incoming_socket (curve : bool) (domain : bytes) : list sockopt :=
  setup_external_socket ++ [SoZapDomain domain] ++
  (if curve then [SoCurveServer true; SoCurvePublicKey pubkey; SoCurveSecretKey privkey] else []) ++
  [SoRouterHandover true; SoRouterMandatory true].

(** ** Properties *)

Lemma to_int_id z : (- 2 ^ 31 ≤ z < 2 ^ 31)%Z → to_int z = z.
Proof. intros Hz. unfold to_int. rewrite Z.mod_small by lia. lia. Qed.

(** A secret key is set on a socket exactly when the socket is encrypted, and then with
    the key of the remote (or as the server); the routing id is one zmq accepts: it
    does not start with a zero byte and has at most 255 bytes. *)
Theorem outgoing_secure remote eph :
  length pubkey = 32 →
  let o := setup_outgoing_socket remote eph in
  (∀ sk, SoCurveSecretKey sk ∈ o ↔ remote ≠ [] ∧ sk = privkey) ∧
  (∀ pk, SoCurveServerKey pk ∈ o ↔ remote ≠ [] ∧ pk = remote) ∧
  (∀ id, SoRoutingId id ∈ o → eph = false ∧ length id = 33 ∧ head id = Some "L"%char).
Proof.
  intros Hl o. subst o. unfold setup_outgoing_socket.
  assert (∀ x, x ∈ setup_external_socket → match x with SoCurveSecretKey _ | SoCurveServerKey _ | SoRoutingId _ => False | _ => True end) as Hext.
  { unfold setup_external_socket. intros x.
    destruct (IPV6 cfg), (0 <? CONN_HEARTBEAT cfg)%Z, (0 <? CONN_HEARTBEAT_TIMEOUT cfg)%Z; cbn [app];
      rewrite !elem_of_cons, elem_of_nil; naive_solver. }
  split_and!; intros x; rewrite !elem_of_app.
  - split; [intros [H|[H|H]]; [by apply Hext in H| |]|intros [H ->]; right; left].
    + case_bool_decide; rewrite ?elem_of_cons, elem_of_nil in H; naive_solver.
    + destruct eph; rewrite ?elem_of_cons, elem_of_nil in H; naive_solver.
    + rewrite bool_decide_false by done. rewrite !elem_of_cons. auto.
  - split; [intros [H|[H|H]]; [by apply Hext in H| |]|intros [H ->]; right; left].
    + case_bool_decide; rewrite ?elem_of_cons, elem_of_nil in H; naive_solver.
    + destruct eph; rewrite ?elem_of_cons, elem_of_nil in H; naive_solver.
    + rewrite bool_decide_false by done. rewrite !elem_of_cons. auto.
  - intros [H|[H|H]]; [by apply Hext in H| |].
    + case_bool_decide; rewrite ?elem_of_cons, elem_of_nil in H; naive_solver.
    + destruct eph; [by apply elem_of_nil in H|]. apply list_elem_of_singleton in H as [= ->].
      split; [done|]. split; [|done]. unfold own_routing_id. rewrite length_app, Hl. done.
Qed.
End setup.
