(* ===== verification/PubSub.v ===== *)
(** * PubSub: [oxenmq/pubsub.h]

    The class [Subscription<UserData>].  Its hash map is keyed by connection ids
    compared with [operator==], that is by [conn_key]; an entry keeps the id it
    was created with.  [D] is [UserData] ([unit] for [void]).  [publish] works in
    two critical sections, modelled as two operations that other threads' calls
    may separate: scanning under the shared lock and pruning under the unique
    one.  The specification below has no cleanup at all, and the refinement
    theorem shows that no sequence of calls can tell the difference. *)
From S2P Require Import Prelude Bytes ConnId.
Open Scope Z_scope.
Open Scope nat_scope.

Section pubsub.
Context {D : Type} `{EqDecision D}.

Record SubData := mk_sub { sub_conn : ConnectionID; expiry : Z; user_data : D }.
Abbreviation sub_map := (gmap (Z * bytes) SubData).

(** ** The class *)

(** [subscribe]: whether the subscription is new or its data changed. *)
Definition subscribe (now sub_duration : Z) (conn : ConnectionID) (data : D) (subs : sub_map) :
    sub_map * bool :=
  let e := (now + sub_duration)%Z in
  match subs !! conn_key conn with
  | None => (<[ conn_key conn := mk_sub conn e data ]> subs, true)
  | Some v =>
      if bool_decide (user_data v = data)
      then (<[ conn_key conn := mk_sub (sub_conn v) e (user_data v) ]> subs, false)
      else (<[ conn_key conn := mk_sub (sub_conn v) e data ]> subs, true)
  end.

Definition unsubscribe (conn : ConnectionID) (subs : sub_map) : sub_map * option D :=
  match subs !! conn_key conn with
  | Some v => (delete (conn_key conn) subs, Some (user_data v))
  | None => (subs, None)
  end.

(** The loop of [remove_expired] over the entries. *)
Fixpoint remove_loop (now : Z) (l : list ((Z * bytes) * SubData)) (subs : sub_map) : sub_map :=
  match l with
  | [] => subs
  | (k, v) :: l => remove_loop now l (if (expiry v <? now)%Z then delete k subs else subs)
  end.
Definition remove_expired (now : Z) (subs : sub_map) : sub_map := remove_loop now (map_to_list subs) subs.

(** The first critical section of [publish]: the connections to remove and the
    calls of [func]. *)
Fixpoint scan_loop (now : Z) (l : list ((Z * bytes) * SubData)) (to_remove : list ConnectionID)
    (calls : list (ConnectionID * D)) : list ConnectionID * list (ConnectionID * D) :=
  match l with
  | [] => (to_remove, calls)
  | (_, v) :: l =>
      if (expiry v <? now)%Z then scan_loop now l (to_remove ++ [sub_conn v]) calls
      else scan_loop now l to_remove (calls ++ [(sub_conn v, user_data v)])
  end.
Definition publish_scan (now : Z) (subs : sub_map) : list ConnectionID * list (ConnectionID * D) :=
  scan_loop now (map_to_list subs) [] [].

(** The second one, which checks again. *)
Fixpoint publish_prune (now : Z) (to_remove : list ConnectionID) (subs : sub_map) : sub_map :=
  match to_remove with
  | [] => subs
  | conn :: to_remove =>
      publish_prune now to_remove
        (match subs !! conn_key conn with
         | Some v => if (expiry v <? now)%Z then delete (conn_key conn) subs else subs
         | None => subs
         end)
  end.

(** Without another thread in between. *)
Definition publish (now now' : Z) (subs : sub_map) : sub_map * list (ConnectionID * D) :=
  let '(to_remove, calls) := publish_scan now subs in
  (publish_prune now' to_remove subs, calls).

(** ** Sequences of calls *)

Inductive op :=
  | Subscribe (conn : ConnectionID) (data : D)
  | Unsubscribe (conn : ConnectionID)
  | RemoveExpired
  | Scan
  | Prune (to_remove : list ConnectionID).

Definition apply_op (sub_duration now : Z) (o : op) (subs : sub_map) :
    sub_map * option (list (ConnectionID * D)) :=
  match o with
  | Subscribe conn data => (fst (subscribe now sub_duration conn data subs), None)
  | Unsubscribe conn => (fst (unsubscribe conn subs), None)
  | RemoveExpired => (remove_expired now subs, None)
  | Scan => (subs, Some (snd (publish_scan now subs)))
  | Prune to_remove => (publish_prune now to_remove subs, None)
  end.

(** The calls of [func], one list for every [publish]. *)
Fixpoint run_ops (sub_duration : Z) (ops : list (Z * op)) (subs : sub_map) :
    list (list (ConnectionID * D)) :=
  match ops with
  | [] => []
  | (now, o) :: ops =>
      let '(subs, out) := apply_op sub_duration now o subs in
      option_list out ++ run_ops sub_duration ops subs
  end.

(** ** Specification *)

(** What was last asked for: no entry is ever cleaned up. *)
Abbreviation spec := (gmap (Z * bytes) (Z * D)).

Definition live (now : Z) (m : spec) : gmap (Z * bytes) D := snd <$> filter (λ e, (now ≤ fst (snd e))%Z) m.

Definition spec_op (sub_duration now : Z) (o : op) (m : spec) : spec * option (gmap (Z * bytes) D) :=
  match o with
  | Subscribe conn data => (<[ conn_key conn := ((now + sub_duration)%Z, data) ]> m, None)
  | Unsubscribe conn => (delete (conn_key conn) m, None)
  | Scan => (m, Some (live now m))
  | RemoveExpired | Prune _ => (m, None)
  end.
Fixpoint spec_run (sub_duration : Z) (ops : list (Z * op)) (m : spec) : list (gmap (Z * bytes) D) :=
  match ops with
  | [] => []
  | (now, o) :: ops =>
      let '(m, out) := spec_op sub_duration now o m in
      option_list out ++ spec_run sub_duration ops m
  end.

(** The calls are the live subscriptions, each once. *)
Definition published (calls : list (ConnectionID * D)) (m : gmap (Z * bytes) D) : Prop :=
  NoDup (conn_key ∘ fst <$> calls) ∧
  ∀ k d, m !! k = Some d ↔ ∃ conn, (conn, d) ∈ calls ∧ conn_key conn = k.

(** The clock does not go back. *)
Fixpoint clock_ok (t : Z) (ops : list (Z * op)) : Prop :=
  match ops with [] => True | (now, _) :: ops => (t ≤ now)%Z ∧ clock_ok now ops end.

(** ** Lemmas *)

Definition alive (now : Z) (v : SubData) : Prop := (now ≤ expiry v)%Z.
#[local] Instance alive_dec now v : Decision (alive now v).
Proof using. unfold alive. apply _. Defined.

Lemma remove_loop_lookup now l subs k :
  NoDup l.*1 → (∀ k v, (k, v) ∈ l → subs !! k = Some v) →
  remove_loop now l subs !! k =
    match subs !! k with
    | Some v => if bool_decide (k ∈ l.*1 ∧ ¬ alive now v) then None else Some v
    | None => None
    end.
Proof using.
  revert subs. induction l as [|[k' v'] l IH]; intros subs Hnd Hin; cbn [remove_loop].
  { destruct (subs !! k); [|done]. rewrite bool_decide_false; [done|]. intros [H _]. by apply elem_of_nil in H. }
  cbn in Hnd. apply NoDup_cons in Hnd as [Hni Hnd].
  assert (subs !! k' = Some v') as Hk' by (apply Hin, elem_of_cons; by left).
  assert (∀ k v, (k, v) ∈ l → k ≠ k') as Hne.
  { intros k0 v0 Hl ->. apply Hni, list_elem_of_fmap. by exists (k', v0). }
  cbn [fmap list_fmap]. destruct (Z.ltb_spec (expiry v') now) as [He|He]; rewrite IH; try done.
  - destruct (decide (k = k')) as [->|Hkk].
    + rewrite lookup_delete_eq, Hk', bool_decide_true; [done|].
      split; [apply elem_of_cons; by left|]. unfold alive. lia.
    + rewrite lookup_delete_ne by done. destruct (subs !! k); [|done].
      erewrite bool_decide_ext; [done|]. rewrite elem_of_cons. cbn. intuition congruence.
  - intros k0 v0 Hl. rewrite lookup_delete_ne by (intros ->; by apply (Hne k0 v0)).
    apply Hin, elem_of_cons. by right.
  - destruct (subs !! k) as [v|] eqn:Ek; [|done]. erewrite bool_decide_ext; [done|].
    rewrite elem_of_cons. cbn. split; [tauto|]. intros [[->|Hl] Ha]; [|done]. rewrite Hk' in Ek. simplify_eq.
    unfold alive in Ha. lia.
  - intros k0 v0 Hl. apply Hin, elem_of_cons. by right.
Qed.

Lemma remove_expired_filter now subs : remove_expired now subs = filter (λ e, alive now (snd e)) subs.
Proof using.
  apply map_eq. intros k. unfold remove_expired. rewrite remove_loop_lookup.
  - rewrite map_lookup_filter. destruct (subs !! k) as [v|] eqn:E; [|done]. cbn.
    case_bool_decide as Hb; case_guard; try done; exfalso; [naive_solver|].
    apply Hb. split; [|done]. apply list_elem_of_fmap. exists (k, v). by rewrite elem_of_map_to_list.
  - apply NoDup_fst_map_to_list.
  - intros k' v. by rewrite elem_of_map_to_list.
Qed.

Lemma scan_loop_spec now l R C :
  scan_loop now l R C =
    (R ++ (sub_conn ∘ snd <$> filter (λ e, ¬ alive now (snd e)) l),
     C ++ ((λ e, (sub_conn (snd e), user_data (snd e))) <$> filter (λ e, alive now (snd e)) l)).
Proof using.
  revert R C. induction l as [|[k v] l IH]; intros R C; cbn [scan_loop].
  { cbn. by rewrite !app_nil_r. }
  rewrite !filter_cons. cbn [snd]. destruct (Z.ltb_spec (expiry v) now); rewrite IH.
  - rewrite (decide_True (P := ¬ alive now v)), (decide_False (P := alive now v)) by (unfold alive; lia).
    cbn. by rewrite <-app_assoc.
  - rewrite (decide_False (P := ¬ alive now v)), (decide_True (P := alive now v)) by (unfold alive; lia).
    cbn. by rewrite <-app_assoc.
Qed.

(** Pruning removes named entries that have expired, and nothing else. *)
Lemma publish_prune_lookup now l subs k :
  publish_prune now l subs !! k =
    match subs !! k with
    | Some v => if bool_decide (k ∈ conn_key <$> l ∧ ¬ alive now v) then None else Some v
    | None => None
    end.
Proof using.
  revert subs. induction l as [|conn l IH]; intros subs; cbn [publish_prune].
  { destruct (subs !! k); [|done]. rewrite bool_decide_false; [done|]. intros [H _]. by apply elem_of_nil in H. }
  rewrite IH. cbn [fmap list_fmap]. destruct (subs !! conn_key conn) as [v|] eqn:E.
  - destruct (Z.ltb_spec (expiry v) now) as [He|He].
    + destruct (decide (k = conn_key conn)) as [->|Hk].
      * rewrite lookup_delete_eq, E, bool_decide_true; [done|].
        split; [apply elem_of_cons; by left|]. unfold alive. lia.
      * rewrite lookup_delete_ne by done. destruct (subs !! k); [|done].
        erewrite bool_decide_ext; [done|]. rewrite elem_of_cons. intuition congruence.
    + destruct (subs !! k) as [v'|] eqn:Ek; [|done]. erewrite bool_decide_ext; [done|].
      rewrite elem_of_cons. split; [tauto|]. intros [[->|Hl] Ha]; [|done]. rewrite E in Ek. simplify_eq.
      unfold alive in Ha. lia.
  - destruct (subs !! k) as [v'|] eqn:Ek; [|done]. erewrite bool_decide_ext; [done|].
    rewrite elem_of_cons. split; [tauto|]. intros [[->|Hl] Ha]; [congruence|done].
Qed.

(** ** Refinement *)

Definition visible (now : Z) (x : option (Z * D)) : option (Z * D) :=
  match x with Some (e, d) => if (now <=? e)%Z then Some (e, d) else None | None => None end.
Definition sub_view (subs : sub_map) (k : Z * bytes) : option (Z * D) :=
  (λ v, (expiry v, user_data v)) <$> subs !! k.

(** The class and the specification agree on what is visible from [t] on. *)
Record sim (t : Z) (subs : sub_map) (m : spec) : Prop := {
  sim_keys k v : subs !! k = Some v → conn_key (sub_conn v) = k;
  sim_view k : visible t (sub_view subs k) = visible t (m !! k);
}.

Lemma visible_later t t' x y : (t ≤ t')%Z → visible t x = visible t y → visible t' x = visible t' y.
Proof using.
  intros Ht. unfold visible. destruct x as [[e d]|], y as [[e' d']|]; repeat case_match; intros; simplify_eq; try done;
    rewrite ?Z.leb_le, ?Z.leb_gt in *; lia.
Qed.

Lemma sim_later t t' subs m : (t ≤ t')%Z → sim t subs m → sim t' subs m.
Proof using. intros Ht [H1 H2]. split; [done|]. intros k. by apply (visible_later t). Qed.

(** An operation that only drops expired entries cannot be seen. *)
Lemma sim_drop now subs subs' m :
  (∀ k, subs' !! k = subs !! k ∨ (subs' !! k = None ∧ ∃ v, subs !! k = Some v ∧ ¬ alive now v)) →
  sim now subs m → sim now subs' m.
Proof using.
  intros Hdrop [H1 H2]. split.
  - intros k v Hv. apply H1. destruct (Hdrop k) as [<-|[Hn _]]; [done|congruence].
  - intros k. rewrite <-H2. unfold sub_view. destruct (Hdrop k) as [->|(-> & v & -> & Ha)]; [done|].
    cbn. unfold alive in Ha. destruct (Z.leb_spec now (expiry v)); [lia|done].
Qed.

Lemma sim_insert t subs m k v e d :
  conn_key (sub_conn v) = k → expiry v = e → user_data v = d →
  sim t subs m → sim t (<[ k := v ]> subs) (<[ k := (e, d) ]> m).
Proof using.
  intros Hk <- <- [H1 H2]. split.
  - intros k' v'. rewrite lookup_insert_Some. intros [[<- <-]|[_ Hl]]; [done|by apply H1].
  - intros k'. unfold sub_view. destruct (decide (k = k')) as [<-|Hne].
    + by rewrite !lookup_insert_eq.
    + rewrite !lookup_insert_ne by done. apply H2.
Qed.

Lemma sim_subscribe now dur conn data subs m :
  sim now subs m →
  sim now (fst (subscribe now dur conn data subs)) (<[ conn_key conn := ((now + dur)%Z, data) ]> m).
Proof using.
  intros H. unfold subscribe. destruct (subs !! conn_key conn) as [v|] eqn:E; [|by apply sim_insert].
  pose proof (sim_keys _ _ _ H _ _ E). case_bool_decide; by apply sim_insert.
Qed.

Lemma sim_unsubscribe now conn subs m :
  sim now subs m → sim now (fst (unsubscribe conn subs)) (delete (conn_key conn) m).
Proof using.
  intros [H1 H2].
  assert (fst (unsubscribe conn subs) = delete (conn_key conn) subs) as ->.
  { unfold unsubscribe. destruct (subs !! conn_key conn) eqn:E; [done|]. by rewrite delete_id. }
  split.
  - intros k v [_ Hv]%lookup_delete_Some. by apply H1.
  - intros k. unfold sub_view. destruct (decide (conn_key conn = k)) as [<-|Hne].
    + by rewrite !lookup_delete_eq.
    + rewrite !lookup_delete_ne by done. apply H2.
Qed.

Lemma live_lookup (now : Z) (m : spec) k d : live now m !! k = Some d ↔ ∃ e, m !! k = Some (e, d) ∧ (now ≤ e)%Z.
Proof using.
  unfold live. rewrite lookup_fmap, fmap_Some. setoid_rewrite map_lookup_filter_Some. split.
  - intros ([e d'] & [Hm He] & ->). by exists e.
  - intros (e & Hm & He). by exists (e, d).
Qed.

Lemma sim_published now subs m : sim now subs m → published (snd (publish_scan now subs)) (live now m).
Proof using.
  intros [H1 H2]. unfold publish_scan. rewrite scan_loop_spec. cbn [snd app]. split.
  - rewrite <-list_fmap_compose.
    replace ((conn_key ∘ fst ∘ (λ e, (sub_conn (snd e), user_data (snd e)))) <$> _) with
      ((filter (λ e, alive now (snd e)) (map_to_list subs)).*1).
    2: { apply list_fmap_ext. intros i [k v] Hi. apply list_elem_of_lookup_2, list_elem_of_filter in Hi as [_ Hi].
         apply elem_of_map_to_list in Hi. symmetry. by apply H1. }
    eapply sublist_NoDup; [apply (NoDup_fst_map_to_list subs)|]. apply fmap_sublist, sublist_filter.
  - intros k d. rewrite live_lookup. specialize (H2 k). unfold visible, sub_view in H2. split.
    + intros (e & Hm & He). rewrite Hm in H2. rewrite (proj2 (Z.leb_le _ _) He) in H2.
      destruct (subs !! k) as [v|] eqn:E; [|done]. cbn in H2. destruct (Z.leb_spec now (expiry v)) as [Hv|]; [|done].
      simplify_eq. exists (sub_conn v). split; [|by apply H1]. apply list_elem_of_fmap. exists (k, v). split; [done|].
      apply list_elem_of_filter. split; [done|]. by apply elem_of_map_to_list.
    + intros (conn & Hc & <-). apply list_elem_of_fmap in Hc as ([k' v] & [= -> ->] & Hf).
      apply list_elem_of_filter in Hf as [Ha Hl]. apply elem_of_map_to_list in Hl. cbn in Ha.
      rewrite (H1 _ _ Hl) in H2. rewrite Hl in H2. cbn in H2. rewrite (proj2 (Z.leb_le _ _) Ha) in H2.
      rewrite (H1 _ _ Hl). destruct (m !! k') as [[e d]|]; [|done].
      destruct (Z.leb_spec now e); [|done]. injection H2 as <- <-. by eexists.
Qed.

Lemma sim_step dur now o subs m :
  sim now subs m →
  sim now (fst (apply_op dur now o subs)) (fst (spec_op dur now o m)) ∧
  match snd (apply_op dur now o subs), snd (spec_op dur now o m) with
  | Some calls, Some l => published calls l
  | None, None => True
  | _, _ => False
  end.
Proof using.
  intros H. destruct o as [conn data|conn| | |l]; cbn [apply_op spec_op fst snd].
  - split; [by apply sim_subscribe|done].
  - split; [by apply sim_unsubscribe|done].
  - split; [|done]. apply (sim_drop now subs); [|done]. intros k. rewrite remove_expired_filter, map_lookup_filter.
    destruct (subs !! k) as [v|]; [|by left]. cbn. case_guard; [by left|]. right. split; [done|]. by exists v.
  - split; [done|by apply sim_published].
  - split; [|done]. apply (sim_drop now subs); [|done]. intros k. rewrite publish_prune_lookup.
    destruct (subs !! k) as [v|]; [|by left]. case_bool_decide as Hb; [|by left]. right. split; [done|].
    exists v. tauto.
Qed.

Lemma sim_run dur t ops subs m :
  sim t subs m → clock_ok t ops → Forall2 published (run_ops dur ops subs) (spec_run dur ops m).
Proof using.
  revert t subs m. induction ops as [|[now o] ops IH]; intros t subs m H Hc; cbn [run_ops spec_run]; [done|].
  destruct Hc as [Ht Hc]. apply (sim_later t now) in H; [|done].
  destruct (sim_step dur now o subs m H) as [H1 H2].
  destruct (apply_op dur now o subs) as [subs' out], (spec_op dur now o m) as [m' out']. cbn [fst snd] in *.
  apply Forall2_app; [|by apply (IH now)]. destruct out, out'; try done. cbn. by constructor.
Qed.

(** * Theorems *)

(** C20: [Subscription] implements "last request wins until it expires".  For
    every sequence of subscribe, unsubscribe, remove_expired and publish calls
    with a clock that does not go back, where the two critical sections of publish
    may be separated by any other calls and pruning may be given any list, every
    publish calls the function exactly once for every connection whose last
    subscription has neither expired nor been cancelled, with its latest data,
    and for no other. *)
Theorem subscription_refines (dur t : Z) (ops : list (Z * op)) :
  clock_ok t ops → Forall2 published (run_ops dur ops ∅) (spec_run dur ops ∅).
Proof using. apply sim_run. by split. Qed.

(** The results of the calls and the end of expired entries.  [subscribe]
    returns [false] exactly when there is an entry with the same data; it extends
    it in any case.  [unsubscribe] returns the data of the entry it removes.  After
    [remove_expired], and after a [publish] that no other call interrupts, only
    entries that have not expired are left, unchanged. *)
Theorem subscription_calls (now dur : Z) (conn : ConnectionID) (data : D) (subs : sub_map) :
  (snd (subscribe now dur conn data subs) = false ↔
     ∃ v, subs !! conn_key conn = Some v ∧ user_data v = data) ∧
  sub_view (fst (subscribe now dur conn data subs)) (conn_key conn) = Some ((now + dur)%Z, data) ∧
  snd (unsubscribe conn subs) = user_data <$> subs !! conn_key conn ∧
  fst (unsubscribe conn subs) = delete (conn_key conn) subs ∧
  remove_expired now subs = filter (λ e, (now ≤ expiry (snd e))%Z) subs ∧
  (∀ now', (now ≤ now')%Z → (∀ k v, subs !! k = Some v → conn_key (sub_conn v) = k) →
     fst (publish now now' subs) = filter (λ e, (now ≤ expiry (snd e))%Z) subs).
Proof using.
  split; [|split; [|split; [|split; [|split]]]].
  - unfold subscribe. destruct (subs !! conn_key conn) as [v|]; [|naive_solver].
    case_bool_decide; cbn; naive_solver.
  - unfold subscribe, sub_view. destruct (subs !! conn_key conn) as [v|].
    + case_bool_decide; cbn; rewrite lookup_insert_eq; cbn; congruence.
    + cbn. by rewrite lookup_insert_eq.
  - unfold unsubscribe. by destruct (subs !! conn_key conn).
  - unfold unsubscribe. destruct (subs !! conn_key conn) eqn:E; [done|]. by rewrite delete_id.
  - apply remove_expired_filter.
  - intros now' Hnow Hkeys. unfold publish, publish_scan. rewrite scan_loop_spec. cbn [fst app].
    apply map_eq. intros k. rewrite publish_prune_lookup, map_lookup_filter.
    destruct (subs !! k) as [v|] eqn:E; [|done]. cbn.
    assert (k ∈ conn_key <$> ((sub_conn ∘ snd) <$> filter (λ e, ¬ alive now (snd e)) (map_to_list subs)) ↔
      ¬ alive now v) as Hk.
    { rewrite <-list_fmap_compose, list_elem_of_fmap. setoid_rewrite list_elem_of_filter. split.
      - intros ([k' v'] & -> & Ha & Hl). apply elem_of_map_to_list in Hl. cbn in *. unfold compose in E. cbn in E.
        rewrite (Hkeys _ _ Hl), Hl in E. by simplify_eq.
      - intros Ha. exists (k, v). rewrite elem_of_map_to_list. split; [symmetry; by apply Hkeys|done]. }
    unfold alive in *. case_bool_decide as Hb; case_guard as Hg; try done; exfalso; [tauto|].
    apply Hb. split; [tauto|]. lia.
Qed.
End pubsub.
Arguments SubData : clear implicits.
Arguments op : clear implicits.

(** A subscriber that comes back between the two halves of a publish. *)
Definition sample_ops : list (Z * op bytes) :=
  [(0%Z, Subscribe (conn_of_id 1) (B "a")); (5%Z, Subscribe (conn_of_id 2) (B "b"));
   (11%Z, Scan); (12%Z, Subscribe (conn_of_id 1) (B "c")); (13%Z, Prune [conn_of_id 1]); (14%Z, Scan)].

Lemma subscription_refines_witness :
  clock_ok 0 sample_ops ∧ Forall2 published (run_ops 10 sample_ops ∅) (spec_run 10 sample_ops ∅) ∧
  length (run_ops 10 sample_ops ∅) = 2.
Proof.
  assert (clock_ok 0 sample_ops) as H by (cbn; lia).
  split; [exact H|]. split; [exact (subscription_refines 10 0 sample_ops H)|reflexivity].
Defined.
