(* ===== verification/Loop.v ===== *)
(** * Loop: how [proxy_loop] takes messages from the sockets

    After handling its control messages, [proxy_loop] (proxy.cpp) serves the
    sockets that have input.  [queue] is a vector with one slot more than there
    are ready sockets, used as a circular buffer: a socket is taken from [pos], one
    message is read, and the socket is put back at [end]; a socket without a
    message is dropped; the loop stops early when the set of connections changed.

    What is waiting on a socket is a list of messages.  The handler is a parameter
    of the loop and is given at the end as [proxy_message]. *)
From S2P Require Import Prelude Bytes Oxenc Auth ConnId Commands Batch Pool Options Net.
Open Scope Z_scope.
Open Scope nat_scope.

Abbreviation mailboxes := (gmap Z (list (list message))).

Definition box (mb : mailboxes) (id : Z) : list (list message) := default [] (mb !! id).

(** [recv_message_parts(sock, parts, dontwait)]. *)
Definition recv (id : Z) (mb : mailboxes) : option (list message * mailboxes) :=
  match box mb id with
  | [] => None
  | parts :: rest => Some (parts, <[ id := rest ]> mb)
  end.

(** ** The work left and the order of service *)

(** The work left: one step for every queued socket and every waiting message. *)
Definition waiting (l : list Z) (mb : mailboxes) : nat := sum_list ((λ id, length (box mb id)) <$> l).
Definition work (l : list Z) (mb : mailboxes) : nat := length l + waiting l mb.

Lemma box_recv id mb parts mb' id' :
  recv id mb = Some (parts, mb') →
  box mb id = parts :: box mb' id ∧ (id' ≠ id → box mb' id' = box mb id').
Proof.
  unfold recv. destruct (box mb id) as [|p rest] eqn:E; [done|]. intros [= <- <-].
  unfold box. rewrite lookup_insert_eq. split; [done|]. intros Hne. by rewrite lookup_insert_ne.
Qed.

Lemma waiting_recv id mb parts mb' l :
  recv id mb = Some (parts, mb') → id ∉ l → waiting l mb' = waiting l mb.
Proof.
  intros Hr. unfold waiting. induction l as [|x l IH]; [done|]. intros Hn. cbn.
  apply not_elem_of_cons in Hn as [Hne Hn]. rewrite (proj2 (box_recv _ _ _ _ x Hr)) by done. by rewrite IH.
Qed.

Lemma waiting_app l k mb : waiting (l ++ k) mb = waiting l mb + waiting k mb.
Proof. unfold waiting. rewrite fmap_app. induction l; cbn; lia. Qed.

Lemma rotate_work id l mb parts mb' :
  recv id mb = Some (parts, mb') → NoDup (id :: l) →
  NoDup (l ++ [id]) ∧ work (l ++ [id]) mb' < work (id :: l) mb.
Proof.
  intros Er [Hni Hnd]%NoDup_cons. split.
  - apply NoDup_app. split; [done|]. split; [|apply NoDup_singleton]. by intros x Hx ->%list_elem_of_singleton.
  - unfold work. rewrite length_app, waiting_app, (waiting_recv _ _ _ _ _ Er Hni).
    destruct (box_recv _ _ _ _ id Er) as [Hb _]. unfold waiting. cbn. rewrite Hb. cbn. lia.
Qed.

(** The order in which the queue takes messages. *)
Fixpoint fifo_order (fuel : nat) (l : list Z) (mb : mailboxes) : list (Z * list message) :=
  match fuel with
  | O => []
  | Datatypes.S fuel =>
      match l with
      | [] => []
      | id :: l =>
          match recv id mb with
          | None => fifo_order fuel l mb
          | Some (parts, mb) => (id, parts) :: fifo_order fuel (l ++ [id]) mb
          end
      end
  end.

(** Round [r] takes the [r]th message of every socket that has one, in the order
    of the sockets. *)
Definition round (l : list Z) (mb : mailboxes) (r : nat) : list (Z * list message) :=
  omap (λ id, (λ parts, (id, parts)) <$> box mb id !! r) l.
Definition round_robin (n : nat) (l : list Z) (mb : mailboxes) : list (Z * list message) :=
  concat (round l mb <$> seq 0 n).

Lemma fifo_order_fuel f1 f2 l mb :
  NoDup l → work l mb < f1 → work l mb < f2 → fifo_order f1 l mb = fifo_order f2 l mb.
Proof.
  revert f2 l mb. induction f1 as [|f1 IH]; intros [|f2] l mb Hnd H1 H2; [lia|lia|lia|]. cbn [fifo_order].
  destruct l as [|id l]; [done|]. pose proof Hnd as [Hni Hnd']%NoDup_cons.
  destruct (recv id mb) as [[parts mb']|] eqn:Er.
  - destruct (rotate_work id l mb parts mb' Er Hnd) as [Hnd2 Hw]. f_equal. apply IH; [done|lia|lia].
  - apply IH; [done| |]; unfold work, waiting in *; cbn in *; lia.
Qed.

Definition order (l : list Z) (mb : mailboxes) : list (Z * list message) :=
  fifo_order (Datatypes.S (work l mb)) l mb.

Lemma order_none id l mb : NoDup (id :: l) → recv id mb = None → order (id :: l) mb = order l mb.
Proof.
  intros Hnd Er. unfold order at 1. cbn [fifo_order]. rewrite Er. apply NoDup_cons in Hnd as [_ Hnd].
  apply fifo_order_fuel; [done| |lia]. unfold work, waiting. cbn. lia.
Qed.
Lemma order_some id l mb parts mb' : NoDup (id :: l) → recv id mb = Some (parts, mb') →
  order (id :: l) mb = (id, parts) :: order (l ++ [id]) mb'.
Proof.
  intros Hnd Er. unfold order at 1. cbn [fifo_order]. rewrite Er. f_equal.
  destruct (rotate_work id l mb parts mb' Er Hnd) as [Hnd' Hw]. apply fifo_order_fuel; [done|lia|lia].
Qed.

#[local] Arguments order : simpl never.

(** The mailboxes after one message was taken from each socket. *)
Definition pop_all (l : list Z) (mb : mailboxes) : mailboxes :=
  foldl (λ mb id, match recv id mb with Some (_, mb) => mb | None => mb end) mb l.

Lemma box_pop_all l mb id :
  NoDup l → box (pop_all l mb) id = if bool_decide (id ∈ l) then tail (box mb id) else box mb id.
Proof.
  unfold pop_all. revert mb. induction l as [|x l IH]; intros mb Hnd; [done|]. cbn [foldl].
  apply NoDup_cons in Hnd as [Hni Hnd]. rewrite IH by done.
  assert (box (match recv x mb with Some (_, mb) => mb | None => mb end) id =
    if bool_decide (id = x) then tail (box mb id) else box mb id) as ->.
  { clear IH. destruct (recv x mb) as [[p mb']|] eqn:Er.
    - destruct (box_recv _ _ _ _ id Er) as [H1 H2]. case_bool_decide as Hx; [rewrite Hx; by rewrite H1|by apply H2].
    - unfold recv in Er. case_bool_decide as Hx; [|done]. rewrite Hx. by destruct (box mb x). }
  destruct (decide (id = x)) as [->|Hne].
  - rewrite (bool_decide_false (x ∈ l)), (bool_decide_true (x = x)), bool_decide_true; [done| |done|done].
    apply elem_of_cons. by left.
  - rewrite (bool_decide_false (id = x)) by done.
    rewrite (bool_decide_ext (id ∈ x :: l) (id ∈ l)); [done|]. rewrite elem_of_cons. tauto.
Qed.

Definition has_message (mb : mailboxes) (id : Z) : bool := negb (bool_decide (box mb id = [])).

Lemma list_filter_iff_elem {A} (P Q : A → Prop) `{∀ x, Decision (P x), ∀ x, Decision (Q x)} (l : list A) :
  (∀ x, x ∈ l → P x ↔ Q x) → filter P l = filter Q l.
Proof.
  induction l as [|x l IH]; intros HPQ; [done|]. rewrite !filter_cons.
  rewrite (decide_ext (P x) (Q x)) by (apply HPQ, elem_of_cons; by left).
  rewrite IH; [done|]. intros y Hy. apply HPQ, elem_of_cons. by right.
Qed.

Lemma order_pass l k mb :
  NoDup (l ++ k) →
  order (l ++ k) mb = round l mb 0 ++ order (k ++ filter (λ id, has_message mb id = true) l) (pop_all l mb).
Proof.
  revert k mb. induction l as [|id l IH]; intros k mb Hnd.
  { cbn. by rewrite app_nil_r. }
  cbn [app] in *. unfold round, pop_all. cbn [omap list_omap foldl]. rewrite filter_cons. fold (round l mb 0).
  pose proof Hnd as [Hni Hnd']%NoDup_cons.
  destruct (recv id mb) as [[parts mb']|] eqn:Er.
  - rewrite (order_some _ _ _ _ _ Hnd Er). destruct (box_recv _ _ _ _ id Er) as [Hb _].
    assert (has_message mb id = true) as Hm by (unfold has_message; by rewrite Hb).
    rewrite (decide_True (P := has_message mb id = true)), Hb by done. cbn. f_equal.
    rewrite <-(app_assoc l k [id]), IH.
    2: { rewrite app_assoc. apply NoDup_app. split; [done|]. split; [|apply NoDup_singleton].
         by intros x Hx ->%list_elem_of_singleton. }
    assert (∀ x, x ∈ l → box mb' x = box mb x) as Hsame.
    { intros x Hx. apply (box_recv _ _ _ _ x Er). intros ->. apply Hni, elem_of_app. by left. }
    f_equal.
    + unfold round. clear -Hsame. induction l as [|x l IH]; [done|]. cbn.
      rewrite Hsame by (apply elem_of_cons; by left). rewrite IH; [done|]. intros y Hy. apply Hsame, elem_of_cons. by right.
    + fold (pop_all l mb'). f_equal. rewrite <-app_assoc. f_equal. cbn. f_equal. clear -Hsame.
      apply list_filter_iff_elem. intros x Hx. unfold has_message. by rewrite Hsame.
  - assert (box mb id = []) as Hb by (unfold recv in Er; by destruct (box mb id)).
    assert (has_message mb id = false) as Hm by (unfold has_message; by rewrite Hb).
    rewrite (order_none _ _ _ Hnd Er), Hb, (decide_False (P := has_message mb id = true)) by (by rewrite Hm).
    cbn. by apply IH.
Qed.

(** One more round comes first. *)
Lemma round_robin_succ n l mb :
  NoDup l →
  round_robin (S n) l mb =
    round l mb 0 ++ round_robin n (filter (λ id, has_message mb id = true) l) (pop_all l mb).
Proof.
  intros Hnd. unfold round_robin. rewrite <-cons_seq. cbn [fmap list_fmap concat]. f_equal.
  rewrite <-fmap_S_seq, <-list_fmap_compose. f_equal. apply list_fmap_ext. intros _ r _. unfold compose, round.
  assert (∀ k, k ⊆ l → omap (λ id, (λ parts, (id, parts)) <$> box mb id !! S r) k =
    omap (λ id, (λ parts, (id, parts)) <$> box (pop_all l mb) id !! r)
      (filter (λ id, has_message mb id = true) k)) as Hk; [|by apply Hk].
  induction k as [|id k IH]; intros Hsub; [done|]. rewrite filter_cons. cbn [omap list_omap].
  assert (id ∈ l) as Hid by (apply Hsub, elem_of_cons; by left).
  assert (k ⊆ l) as Hsub' by (intros x Hx; apply Hsub, elem_of_cons; by right).
  destruct (has_message mb id) eqn:Hm; unfold has_message in Hm.
  - rewrite decide_True by done. cbn [omap list_omap]. rewrite box_pop_all, bool_decide_true by done.
    destruct (box mb id) as [|p rest]; [done|]. cbn [tail lookup list_lookup]. by rewrite IH.
  - rewrite decide_False by done. apply negb_false_iff, bool_decide_eq_true in Hm. rewrite Hm. cbn.
    by apply IH.
Qed.

Lemma order_round_robin n l mb :
  NoDup l → (∀ id, id ∈ l → length (box mb id) ≤ n) → order l mb = round_robin n l mb.
Proof.
  revert l mb. induction n as [|n IH]; intros l mb Hnd Hlen.
  - induction l as [|id l IHl]; [done|]. rewrite order_none; [|done|].
    + apply NoDup_cons in Hnd as [_ Hnd]. apply IHl; [done|]. intros x Hx. apply Hlen, elem_of_cons. by right.
    + unfold recv. specialize (Hlen id). destruct (box mb id); [done|].
      cbn in Hlen. exfalso. assert (id ∈ id :: l) as Hin by (apply elem_of_cons; by left). specialize (Hlen Hin). lia.
  - pose proof (order_pass l [] mb) as Hp. rewrite app_nil_r in Hp. rewrite Hp by done.
    rewrite round_robin_succ by done. f_equal. cbn [app]. apply IH.
    + by apply NoDup_filter.
    + intros id [Hm Hid]%list_elem_of_filter. rewrite box_pop_all, bool_decide_true by done.
      specialize (Hlen id Hid). destruct (box mb id); cbn in *; lia.
Qed.
(** ** The loop *)

(** How the loop ends; [LoopFuel] is a bound of the model. *)
Inductive loop_end {S : Type} :=
  | LoopDone (mb : mailboxes) (st : S)
  | LoopFuel.
Arguments loop_end : clear implicits.

Section loop.
Context {S : Type} (handle : Z → list message → S → outcome S) (connections_updated : S → bool).

(** [queue] holds pointers; following a null one, or an index that is out of
    range, is undefined.  The mailboxes are those at the start of the pass and only get
    emptier: what arrives meanwhile is in [serve_step] of [ProxyLoop], one turn of the
    same loop. *)
Fixpoint ring_loop (fuel : nat) (queue : list (option Z)) (pos end_ : nat) (mb : mailboxes) (st : S) :
    outcome (loop_end S) :=
  match fuel with
  | O => Ret LoopFuel
  | Datatypes.S fuel =>
      if pos =? end_ then Ret (LoopDone mb st)
      else
        let next := (pos + 1) mod length queue in
        match queue !! pos with
        | Some (Some id) =>
            match recv id mb with
            | None => ring_loop fuel queue next end_ mb st
            | Some (parts, mb) =>
                if length queue <=? end_ then Undef
                else
                  let queue := <[ end_ := Some id ]> queue in
                  let end_ := (end_ + 1) mod length queue in
                  if bool_decide (parts = []) then ring_loop fuel queue next end_ mb st
                  else
                    st ← handle id parts st;
                    (if connections_updated st then Ret (LoopDone mb st)
                     else ring_loop fuel queue next end_ mb st)
            end
        | _ => Undef
        end
  end.

(** The queue as filled before the loop: the ready sockets and a null pointer. *)
Definition ring_start (ready : list Z) : list (option Z) := (Some <$> ready) ++ [None].
Definition serve_ring (fuel : nat) (ready : list Z) (mb : mailboxes) (st : S) : outcome (loop_end S) :=
  ring_loop fuel (ring_start ready) 0 (length (ring_start ready) - 1) mb st.

(** ** Specification: a first-in first-out queue *)

Fixpoint serve_fifo (fuel : nat) (l : list Z) (mb : mailboxes) (st : S) : outcome (loop_end S) :=
  match fuel with
  | O => Ret LoopFuel
  | Datatypes.S fuel =>
      match l with
      | [] => Ret (LoopDone mb st)
      | id :: l =>
          match recv id mb with
          | None => serve_fifo fuel l mb st
          | Some (parts, mb) =>
              if bool_decide (parts = []) then serve_fifo fuel (l ++ [id]) mb st
              else
                st ← handle id parts st;
                (if connections_updated st then Ret (LoopDone mb st)
                 else serve_fifo fuel (l ++ [id]) mb st)
          end
      end
  end.

(** The buffer holds the sockets [l] from [pos] up to [end_], around its end. *)
Record holds (queue : list (option Z)) (pos end_ : nat) (l : list Z) : Prop := {
  h_size : length l < length queue;
  h_pos : pos < length queue;
  h_end : end_ = (pos + length l) mod length queue;
  h_slot i id : l !! i = Some id → queue !! ((pos + i) mod length queue) = Some (Some id);
}.

Lemma holds_start ready : holds (ring_start ready) 0 (length (ring_start ready) - 1) ready.
Proof.
  unfold ring_start. split; rewrite length_app, length_fmap; cbn [length]; try lia.
  - rewrite Nat.mod_small; lia.
  - intros i id Hi. pose proof (lookup_lt_Some _ _ _ Hi). cbn [Nat.add]. rewrite Nat.mod_small by lia.
    rewrite lookup_app_l by (rewrite length_fmap; lia). by rewrite list_lookup_fmap, Hi.
Qed.

Lemma mod_add_inj a i j n : i < n → j < n → (a + i) mod n = (a + j) mod n → i = j.
Proof.
  intros Hi Hj H. assert (n ≠ 0) by lia.
  pose proof (Nat.div_mod_eq (a + i) n). pose proof (Nat.div_mod_eq (a + j) n).
  assert ((a + i) / n = (a + j) / n ∨ (a + i) / n < (a + j) / n ∨ (a + j) / n < (a + i) / n) as [?|[?|?]] by lia; nia.
Qed.

Lemma mod_succ_add a i n : 0 < n → (((a + 1) mod n) + i) mod n = (a + Datatypes.S i) mod n.
Proof. intros Hn. rewrite Nat.Div0.add_mod_idemp_l. f_equal. lia. Qed.

Lemma holds_empty queue pos end_ l : holds queue pos end_ l → (pos =? end_) = bool_decide (l = []).
Proof.
  intros [H1 H2 H3 _]. destruct (Nat.eqb_spec pos end_) as [E|E].
  - symmetry. apply bool_decide_eq_true. rewrite H3 in E. rewrite <-(Nat.add_0_r pos) in E at 1.
    rewrite <-(Nat.mod_small pos (length queue)) in E at 1 by lia.
    rewrite Nat.add_0_r in E. rewrite <-(Nat.add_0_r pos) in E at 1.
    apply mod_add_inj in E; [|lia|lia]. by destruct l.
  - symmetry. apply bool_decide_eq_false. intros ->. cbn in H3. rewrite Nat.add_0_r, Nat.mod_small in H3 by lia. lia.
Qed.

Lemma holds_head queue pos end_ id l : holds queue pos end_ (id :: l) → queue !! pos = Some (Some id).
Proof. intros [H1 H2 H3 H4]. specialize (H4 0 id eq_refl). by rewrite Nat.add_0_r, Nat.mod_small in H4 by lia. Qed.

(** A socket without a message is dropped. *)
Lemma holds_pop queue pos end_ id l :
  holds queue pos end_ (id :: l) → holds queue ((pos + 1) mod length queue) end_ l.
Proof.
  intros [H1 H2 H3 H4]. cbn [length] in *. split; [lia|apply Nat.mod_upper_bound; lia| |].
  - rewrite mod_succ_add by lia. done.
  - intros i x Hi. rewrite mod_succ_add by lia. by apply (H4 (Datatypes.S i)).
Qed.

(** A socket that had one is put back at the end; the free slot keeps the buffer
    from overwriting itself. *)
Lemma holds_rotate queue pos end_ id l :
  holds queue pos end_ (id :: l) →
  end_ < length queue ∧
  holds (<[ end_ := Some id ]> queue) ((pos + 1) mod length (<[ end_ := Some id ]> queue))
    ((end_ + 1) mod length (<[ end_ := Some id ]> queue)) (l ++ [id]).
Proof.
  intros H. pose proof (holds_pop _ _ _ _ _ H) as [_ P2 P3 P4]. destruct H as [H1 H2 H3 H4]. cbn [length] in *.
  assert (end_ < length queue) as He by (rewrite H3; apply Nat.mod_upper_bound; lia).
  split; [done|]. rewrite length_insert. split; rewrite ?length_insert, ?length_app; cbn [length]; [lia|done| |].
  - rewrite H3, mod_succ_add, Nat.Div0.add_mod_idemp_l by lia. f_equal. lia.
  - intros i x Hi. apply lookup_app_Some in Hi as [Hi|[Hlen Hi]].
    + rewrite list_lookup_insert_ne; [by apply P4|]. rewrite H3, mod_succ_add by lia.
      apply lookup_lt_Some in Hi. intros E. apply mod_add_inj in E; lia.
    + apply list_lookup_singleton_Some in Hi as [Hi <-].
      replace i with (length l) by lia. rewrite <-P3. by apply list_lookup_insert_eq.
Qed.

(** The circular buffer behaves as the queue. *)
Lemma ring_is_fifo fuel queue pos end_ l mb st :
  holds queue pos end_ l → ring_loop fuel queue pos end_ mb st = serve_fifo fuel l mb st.
Proof.
  revert queue pos end_ l mb st. induction fuel as [|fuel IH]; intros queue pos end_ l mb st H; [done|].
  cbn [ring_loop serve_fifo]. rewrite (holds_empty _ _ _ _ H). destruct l as [|id l]; [done|].
  rewrite bool_decide_false by done. rewrite (holds_head _ _ _ _ _ H).
  destruct (recv id mb) as [[parts mb']|]; [|by apply IH; apply holds_pop in H].
  destruct (holds_rotate _ _ _ _ _ H) as [He Hr]. rewrite (proj2 (Nat.leb_gt _ _) He).
  assert (length (<[ end_ := Some id ]> queue) = length queue) as Hl by apply length_insert.
  rewrite Hl in Hr |- *.
  destruct (bool_decide (parts = [])); [by apply IH|].
  destruct (handle id parts st) as [st'| |]; try done. cbn. destruct (connections_updated st'); [done|by apply IH].
Qed.

(** ** Fairness *)

(** Handling messages in a given order. *)
Fixpoint serve_order (order : list (Z * list message)) (st : S) : outcome S :=
  match order with
  | [] => Ret st
  | (id, parts) :: order =>
      if bool_decide (parts = []) then serve_order order st
      else
        st ← handle id parts st;
        (if connections_updated st then Ret st else serve_order order st)
  end.

Lemma serve_fifo_order fuel l mb st :
  NoDup l → work l mb < fuel →
  match serve_order (fifo_order fuel l mb) st with
  | Ret st' => ∃ mb', serve_fifo fuel l mb st = Ret (LoopDone mb' st')
  | Throw e => serve_fifo fuel l mb st = Throw e
  | Undef => serve_fifo fuel l mb st = Undef
  end.
Proof.
  revert l mb st. induction fuel as [|fuel IH]; intros l mb st Hnd Hf; [lia|]. cbn [serve_fifo fifo_order].
  destruct l as [|id l]; [by eexists|]. pose proof Hnd as [Hni Hnd']%NoDup_cons.
  destruct (recv id mb) as [[parts mb']|] eqn:Er.
  - destruct (rotate_work id l mb parts mb' Er Hnd) as [Hnd2 Hw]. cbn [serve_order].
    destruct (bool_decide (parts = [])); [apply IH; [done|lia]|].
    destruct (handle id parts st) as [st'| |]; try done. cbn.
    destruct (connections_updated st'); [by eexists|]. apply IH; [done|lia].
  - apply IH; [done|]. unfold work, waiting in *. cbn in *. lia.
Qed.


(** ** Theorems *)

(** C21: the sockets are served fairly and the loop ends.  Whatever the handler
    does, the circular buffer is never overrun and no null pointer is followed:
    with one step for every ready socket and every waiting message the loop ends,
    having handled the messages in round-robin order (the first message of every
    socket, then the second of every socket that has one, and so on), up to the
    message after which the set of connections changed or the handler failed. *)
Theorem round_robin_service ready mb st fuel n :
  NoDup ready → (∀ id, id ∈ ready → length (box mb id) ≤ n) → work ready mb < fuel →
  match serve_order (round_robin n ready mb) st with
  | Ret st' => ∃ mb', serve_ring fuel ready mb st = Ret (LoopDone mb' st')
  | Throw e => serve_ring fuel ready mb st = Throw e
  | Undef => serve_ring fuel ready mb st = Undef
  end.
Proof.
  intros Hnd Hlen Hf. unfold serve_ring. rewrite (ring_is_fifo _ _ _ _ ready) by apply holds_start.
  rewrite <-(order_round_robin n ready mb) by done. unfold order.
  rewrite (fifo_order_fuel _ fuel) by (done || lia). by apply serve_fifo_order.
Qed.
End loop.

(** The handler of the loop, and the loop as [proxy_loop] runs it over the
    connections that have input. *)
Definition proxy_handle {O : Oxenc} {env : Zmq} (s : self_info) (id : Z) (parts : list message)
    (st : net * pool) : outcome (net * pool) := proxy_message s id parts (fst st) (snd st).
Definition proxy_serve {O : Oxenc} {env : Zmq} (s : self_info) (fuel : nat) (ready : list Z) (mb : mailboxes)
    (st : net * pool) : outcome (loop_end (net * pool)) :=
  serve_ring (proxy_handle s) (λ st, connections_updated (fst st)) fuel ready mb st.

(** Two sockets with two and one messages. *)
Definition sample_boxes : mailboxes :=
  {[ 1%Z := [[Auth.mk_message (B "a") ∅]; [Auth.mk_message (B "b") ∅]]; 2%Z := [[Auth.mk_message (B "c") ∅]] ]}.
Definition sample_handle (id : Z) (parts : list message) (st : list (Z * bytes)) : outcome (list (Z * bytes)) :=
  Ret (st ++ ((λ m, (id, Auth.msg_data m)) <$> parts)).

Lemma round_robin_service_witness :
  ∃ mb', serve_ring sample_handle (λ _, false) 10 [1%Z; 2%Z] sample_boxes [] =
    Ret (LoopDone mb' [(1%Z, B "a"); (2%Z, B "c"); (1%Z, B "b")]).
Proof.
  apply (round_robin_service sample_handle (λ _, false) [1%Z; 2%Z] sample_boxes [] 10 2).
  - apply (bool_decide_unpack _). by vm_compute.
  - intros id [->|[->|[]%elem_of_nil]%elem_of_cons]%elem_of_cons; vm_compute; lia.
  - vm_compute. lia.
Defined.
