(* ===== verification/Proxy.v ===== *)
(** * Proxy: control messages and the whole proxy thread

    The public calls hand their work to the proxy thread as control messages;
    [proxy_control_message] ([proxy.cpp]) is the dispatcher.  This file puts the
    parts together: a state of the proxy is the network tables of [Net], the
    scheduler and its workers of [Threads], and the control messages the proxy has
    sent to itself ([job] called in the proxy thread).  An object passed by pointer
    is part of the message. *)
From S2P Require Import Prelude Bytes Oxenc Address Auth ConnId Commands Batch Pool Options Net Closing ServiceNodes NetSteps.
From S2P Require Import Threads PoolInv PoolSteps PoolSafe.
Open Scope Z_scope.
Open Scope nat_scope.

Inductive control_data :=
  | DDict (d : bt_dict)
  | DBatch (o : batch_obj)
  | DTask (cat command remote : bytes) (f : callback)
  | DKeys (pubkeys : pubkey_set)
  | DKeyPair (added removed : pubkey_set)
  | DTimer (id : Z) (job : callback) (interval : Z) (squelch : bool) (thread : Z)
  | DInt (z : Z)
  | DBind (b : bind_data) (on_bind : option callback).

(** The command and the data part, if any. *)
Abbreviation control := (bytes * option control_data)%type.

(** What [setup_incoming_socket] sets on a listening socket that matters to
    authentication: the ZAP domain (the serialized index into [bind]) and the
    mechanism; with the address it is bound to. *)
Record listener := mk_listener {
  ls_address : bytes;
  ls_domain : bytes;
  ls_curve : bool;
}.

Record proxy_state := mk_proxy_state {
  px_net : net;
  px_sys : system;
  px_control : list control;
  px_bind : list bind_data;
  px_listeners : gmap Z listener;
  px_bound : list (callback * bool); (* the calls of on_bind functions *)
  px_replies : list bytes; (* what was sent on the command socket *)
  px_connecting : gset Z; (* ids of [connect_remote] calls whose message is on its way *)
}.
#[export] Instance proxy_state_rebuild : Rebuild proxy_state := λ s,
  mk_proxy_state (px_net s) (px_sys s) (px_control s) (px_bind s) (px_listeners s) (px_bound s) (px_replies s)
    (px_connecting s).

Section proxy.
Context {E : TaskEval} {O : Oxenc} {env : Zmq} (self : self_info) (EPHEMERAL_ROUTING_ID : bool).
(** [oxenc::bt_serialize] of a [size_t]. *)
Context (bt_index : nat → bytes).

Definition lift_sys (e : Threads.event) (st : proxy_state) : outcome proxy_state :=
  s ← step (px_sys st) e; Ret (st <| px_sys := s |>).

(** [job(f)] makes a [Job] and sends its address as a BATCH message to the proxy
    itself. *)
Definition job_message (f : task) : control := (B "BATCH", Some (DBatch (OJob (mk_job f 0)))).

(** The jobs a network handler scheduled. *)
Fixpoint settle (l : list (bool * task)) (st : proxy_state) : outcome proxy_state :=
  match l with
  | [] => Ret st
  | (true, f) :: l => st ← lift_sys (EvReply f) st; settle l st
  | (false, f) :: l => settle l (st <| px_control ::= (λ c, c ++ [job_message f]) |>)
  end.
Definition after_net (n : net) (st : proxy_state) : outcome proxy_state :=
  settle (scheduled n) (st <| px_net := n <| scheduled := [] |> |>).

Definition done_with (r : outcome proxy_state) : outcome (option proxy_state) := st ← r; Ret (Some st).
Definition net_handler (r : outcome net) (st : proxy_state) : outcome (option proxy_state) :=
  n ← r; done_with (after_net n st).

(** ** Commands *)

Definition control_SEND (d : bt_dict) (st : proxy_state) : outcome (option proxy_state) :=
  c ← parse_send d;
  r ← proxy_send c (px_net st);
  (match (r : option net) with
   | Some n => done_with (after_net n st)
   | None => Ret None
   end).
Definition control_CONNECT_SN (d : bt_dict) (st : proxy_state) : outcome (option proxy_state) :=
  c ← parse_connect_sn EPHEMERAL_ROUTING_ID d;
  net_handler (net_of (proxy_connect_sn (cs_pubkey c) (cs_hint c) (cs_optional c) (cs_incoming c)
    (cs_outgoing c) (cs_keep_alive c) (px_net st))) st.
Definition control_CONNECT_REMOTE (d : bt_dict) (st : proxy_state) : outcome (option proxy_state) :=
  c ← parse_connect_remote EPHEMERAL_ROUTING_ID d;
  net_handler (proxy_connect_remote c (px_net st)) st.
Definition control_DISCONNECT (d : bt_dict) (st : proxy_state) : outcome (option proxy_state) :=
  c ← parse_disconnect d;
  net_handler (proxy_disconnect (fst c) (px_net st)) st.

(** [proxy_bind(b, bind_index)] with the listener it sets up. *)
Definition bind_listener (b : bind_data) (on_bind : option callback) (bind_index : nat) (st : proxy_state) :
    outcome (proxy_state * net * option bind_data) :=
  r ← proxy_bind (bind_address b) on_bind (px_net st);
  let '(n, id, called) := r in
  let st := st <| px_bound ::= (λ l, l ++ option_list called) |> in
  Ret (match id with
       | None => (st, n, None)
       | Some id =>
           (st <| px_listeners ::= <[ id := mk_listener (bind_address b) (bt_index bind_index) (bind_curve b) ]> |>,
            n, Some (mk_bind_data (bind_address b) (bind_curve b) id (bind_allow b)))
       end).
Definition control_BIND (b : bind_data) (on_bind : option callback) (st : proxy_state) :
    outcome (option proxy_state) :=
  r ← bind_listener b on_bind (length (px_bind st)) st;
  match r with
  | (st, n, Some b) => done_with (after_net n (st <| px_bind ::= (λ l, l ++ [b]) |>))
  | (st, n, None) => done_with (after_net n st)
  end.

(** ** [proxy_reply] *)

Definition parse_reply (d : bt_dict) : outcome (ConnectionID * list bytes) :=
  id ← consume_int d (B "conn_id") 0;
  if has d (B "conn_id") && (id =? -1)%Z then
    Throw (runtime_error (B "Invalid error: invalid conn_id value (-1)"))
  else if has d (B "conn_pubkey") && has d (B "conn_id") then
    Throw (runtime_error
      (B "Internal error: Invalid proxy reply command; conn_id and conn_pubkey are exclusive"))
  else if negb (has d (B "conn_pubkey")) && negb (has d (B "conn_id")) then
    Throw (runtime_error
      (B "Internal error: Invalid proxy reply command; conn_pubkey or conn_id missing"))
  else
    pk ← consume_string d (B "conn_pubkey") [];
    _ ← require d (B "send") (B "Internal error: Invalid proxy reply command; send parts missing");
    parts ← consume_list d (B "send");
    Ret (mk_conn (if has d (B "conn_pubkey") then SN_ID else id) pk [], parts).

(** [peers.erase(it)] where [it] is entry [i] of the range of [conn]. *)
Fixpoint erase_entry (conn : ConnectionID) (i : nat) (m : peer_map) : peer_map :=
  match m with
  | [] => []
  | e :: m =>
      if ConnId.has_key conn e then
        match i with 0 => m | S i => e :: erase_entry conn i m end
      else e :: erase_entry conn i m
  end.

(** The loop over the range: [i] entries were passed and left in place, [rest]
    begins at the iterator.  After an outgoing entry the iterator is advanced
    twice; when that leaves the range nothing is said of what follows. *)
Fixpoint reply_loop (conn : ConnectionID) (parts : list bytes) (i : nat) (rest : peer_map) (n : net) :
    outcome net :=
  match rest with
  | [] => Ret n
  | (_, peer) :: rest =>
      match send_on (peer_conn_id peer) (build_send_parts parts (peer_route peer))
              (connections_at (peer_conn_id peer) n) with
      | (n, Sent) | (n, WouldBlock) => Ret n
      | (n, SendError e) =>
          if (e =? EHOSTUNREACH)%Z then
            if outgoing peer then
              n ← proxy_close_connection (peer_conn_id peer) n;
              let n := n <| peers ::= erase_entry conn i |> in
              match rest with
              | [] => Undef
              | _ :: rest => reply_loop conn parts (S i) rest n
              end
            else reply_loop conn parts i rest (n <| peers ::= erase_entry conn i |>)
          else reply_loop conn parts (S i) rest n
      end
  end.

Definition proxy_reply (c : ConnectionID * list bytes) (n : net) : outcome net :=
  reply_loop (fst c) (snd c) 0 (equal_range (fst c) (peers n)) n.
Definition control_REPLY (d : bt_dict) (st : proxy_state) : outcome (option proxy_state) :=
  c ← parse_reply d;
  net_handler (proxy_reply c (px_net st)) st.

Definition invalid_control {A} (cmd : bytes) (len : Z) : outcome A :=
  Throw (runtime_error (B "OxenMQ bug: Proxy received invalid control command: " ++ cmd ++ B " (" ++
    to_string len ++ B ")")).

(** A dictionary that is not one does not parse; a pointer to an object of another
    type is undefined. *)
Definition control_with_data (cmd : bytes) (data : control_data) (st : proxy_state) :
    outcome (option proxy_state) :=
  if bool_decide (cmd = B "SEND") then
    match data with DDict d => control_SEND d st | _ => bt_invalid end
  else if bool_decide (cmd = B "REPLY") then
    match data with DDict d => control_REPLY d st | _ => bt_invalid end
  else if bool_decide (cmd = B "BATCH") then
    match data with DBatch o => done_with (lift_sys (EvBatch o) st) | _ => Undef end
  else if bool_decide (cmd = B "INJECT") then
    match data with
    | DTask cat command remote f => done_with (lift_sys (EvInject cat command remote f) st)
    | _ => Undef
    end
  else if bool_decide (cmd = B "SET_SNS") then
    match data with DKeys pks => net_handler (proxy_set_active_sns pks (px_net st)) st | _ => Undef end
  else if bool_decide (cmd = B "UPDATE_SNS") then
    match data with
    | DKeyPair added removed => net_handler (proxy_update_active_sns added removed (px_net st)) st
    | _ => Undef
    end
  else if bool_decide (cmd = B "CONNECT_SN") then
    match data with DDict d => control_CONNECT_SN d st | _ => bt_invalid end
  else if bool_decide (cmd = B "CONNECT_REMOTE") then
    match data with DDict d => control_CONNECT_REMOTE d st | _ => bt_invalid end
  else if bool_decide (cmd = B "DISCONNECT") then
    match data with DDict d => control_DISCONNECT d st | _ => bt_invalid end
  else if bool_decide (cmd = B "TIMER") then
    match data with
    | DTimer id job interval squelch thread =>
        if (interval <? 0)%Z then bt_invalid
        else done_with (lift_sys (EvTimerAdd id job squelch thread ztimer) st)
    | _ => bt_invalid
    end
  else if bool_decide (cmd = B "TIMER_DEL") then
    match data with DInt id => done_with (lift_sys (EvTimerDel id) st) | _ => bt_invalid end
  else if bool_decide (cmd = B "BIND") then
    match data with DBind b on_bind => control_BIND b on_bind st | _ => Undef end
  else invalid_control cmd 3.

Definition proxy_control_message (c : control) (st : proxy_state) : outcome (option proxy_state) :=
  match c with
  | (cmd, Some data) => control_with_data cmd data st
  | (cmd, None) =>
      if bool_decide (cmd = B "START") then Ret (Some (st <| px_replies ::= (λ l, l ++ [B "READY"]) |>))
      else if bool_decide (cmd = B "QUIT") then done_with (lift_sys EvQuit st)
      else invalid_control cmd 2
  end.

(** ** The public calls *)

Inductive api_call :=
  | ASend (to : ConnectionID) (cmd : bytes) (opts : list send_option)
  | ARequest (to : ConnectionID) (cmd : bytes) (cb : callback) (tag : bytes) (opts : list send_option)
  | AConnectSn (pk : bytes) (options : list connect_option)
  | AConnectRemote (remote : address) (on_connect on_failure : callback) (id : Z) (options : list connect_option)
  | AConnectInproc (on_connect on_failure : callback) (id : Z) (options : list connect_option)
  | ADisconnect (id : ConnectionID) (linger : Z)
  | AInject (cat command remote : bytes) (f : callback)
  | ASetSns (pubkeys : pubkey_set)
  | AUpdateSns (added removed : pubkey_set)
  | ABatch (o : batch_obj)
  | ATimer (id : Z) (job : callback) (interval : Z) (squelch : bool) (thread : Z)
  | ACancelTimer (id : Z)
  | AListen (b : bind_data) (on_bind : option callback).

Definition control_of (c : api_call) : control :=
  match c with
  | ASend to cmd opts => (B "SEND", Some (DDict (build_send to cmd opts)))
  | ARequest to cmd cb tag opts => (B "SEND", Some (DDict (request to cmd cb tag opts)))
  | AConnectSn pk options => (B "CONNECT_SN", Some (DDict (connect_sn EPHEMERAL_ROUTING_ID pk options)))
  | AConnectRemote remote f g id options =>
      (B "CONNECT_REMOTE", Some (DDict (connect_remote remote f g id options)))
  | AConnectInproc f g id options => (B "CONNECT_REMOTE", Some (DDict (connect_inproc f g id options)))
  | ADisconnect id linger => (B "DISCONNECT", Some (DDict (disconnect id linger)))
  | AInject cat command remote f => (B "INJECT", Some (DTask cat command remote f))
  | ASetSns pks => (B "SET_SNS", Some (DKeys pks))
  | AUpdateSns added removed => (B "UPDATE_SNS", Some (DKeyPair added removed))
  | ABatch o => (B "BATCH", Some (DBatch o))
  | ATimer id job interval squelch thread => (B "TIMER", Some (DTimer id job interval squelch thread))
  | ACancelTimer id => (B "TIMER_DEL", Some (DInt id))
  | AListen b on_bind => (B "BIND", Some (DBind b on_bind))
  end.

(** ** One turn of the proxy thread *)

Inductive proxy_event :=
  | PxTakeId (* [next_conn_id++] in a call of [connect_remote] or [connect_inproc] *)
  | PxCall (c : api_call)
  | PxSelf
  | PxMessage (id : Z) (parts : list message)
  | PxCleanup
  | PxTimer (timer_id : Z)
  | PxQueue
  | PxTurn (tagged : bool) (wid : Z)
  | PxRan (tagged : bool) (wid : Z)
  | PxPoll (skip : bool)
  | PxRebuild.

Definition handle_message (id : Z) (parts : list message) (st : proxy_state) : outcome proxy_state :=
  r ← proxy_message self id parts (px_net st) (proxy (px_sys st));
  s ← on_proxy (px_sys st) (Ret (snd r));
  after_net (fst r) (st <| px_sys := s |>).

(** The id of the connection a call asks for. *)
Definition connecting_id (c : api_call) : option Z :=
  match c with AConnectRemote _ _ _ id _ | AConnectInproc _ _ id _ => Some id | _ => None end.
Definition take_id (st : proxy_state) : proxy_state :=
  let id := next_conn_id (px_net st) in
  st <| px_net ::= (λ n, n <| next_conn_id ::= Z.succ |>) |> <| px_connecting ::= ({[ id ]} ∪.) |>.
Definition arrives (c : api_call) (st : proxy_state) : proxy_state :=
  match connecting_id c with Some id => st <| px_connecting ::= (.∖ {[ id ]}) |> | None => st end.

Definition proxy_step (e : proxy_event) (st : proxy_state) : outcome (option proxy_state) :=
  match e with
  | PxTakeId => Ret (Some (take_id st))
  | PxCall c => proxy_control_message (control_of c) (arrives c st)
  | PxSelf =>
      match px_control st with
      | [] => Ret (Some st)
      | c :: cs => proxy_control_message c (st <| px_control := cs |>)
      end
  | PxMessage id parts => done_with (handle_message id parts st)
  | PxCleanup => net_handler (proxy_conn_cleanup (px_net st)) st
  | PxTimer t => done_with (lift_sys (EvTimer t) st)
  | PxQueue => done_with (lift_sys EvQueue st)
  | PxTurn tg wid => done_with (lift_sys (EvTurn tg wid) st)
  | PxRan tg wid => done_with (lift_sys (EvRan tg wid) st)
  | PxPoll skip => done_with (lift_sys (EvPoll skip) st)
  | PxRebuild => done_with (lift_sys (EvPoll true) (st <| px_net ::= (λ n, n <| connections_updated := false |>) |>))
  end.
End proxy.
