(* ===== verification/Handover.v ===== *)
(** * Handover: objects that travel as addresses

    A callback, a key set, a task or a listener that a public call gives to the proxy is
    moved into a new object ([serialize_object], [oxenmq.h]) whose address is a number in
    the control message; the proxy takes it out and deletes it ([deserialize_object]).
    [Options] and [Proxy] put the object itself into the message.  Here messages carry
    addresses into a heap, the calls allocate and the readers of [proxy.cpp],
    [connections.cpp], [auth.cpp] and [jobs.cpp] free; messages of different threads
    arrive in any order.  Reading an address that holds no object, or one of another type,
    is undefined. *)
From S2P Require Import Prelude Bytes Oxenc Address Auth ConnId Commands Batch Pool Options Net ServiceNodes NetSteps.
From S2P Require Import Threads PoolInv PoolSteps PoolSafe Proxy.
Open Scope Z_scope.
Open Scope nat_scope.

(** The function types: [ReplyCallback], [queue_failure::callback_t],
    [queue_full::callback_t], [ConnectSuccess], [ConnectFailure] and
    [std::function<void()>]. *)
Inductive function_type := FReply | FSendFail | FQueueFull | FConnected | FFailed | FVoid.
#[export] Instance function_type_eq_dec : EqDecision function_type.
Proof. solve_decision. Defined.

Inductive heap_object :=
  | ObFunction (t : function_type) (cb : callback)
  | ObKeys (pubkeys : pubkey_set)
  | ObTask (cat command remote : bytes) (f : callback)
  | ObBind (b : bind_data) (on_bind : option callback)
  | ObBatch (o : batch_obj).
Abbreviation object_heap := (gmap N heap_object).

(** [new T{std::forward<T>(obj)}] at an unused address. *)
Definition serialize_object (o : heap_object) (h : object_heap) : object_heap * N :=
  let p := fresh (dom h) in (<[ p := o ]> h, p).

(** [T ret{std::move( *ptr)}; delete ptr], where [cast] tells the objects of type [T]. *)
Definition deserialize_object {A} (cast : heap_object → option A) (p : N) (h : object_heap) : outcome (object_heap * A) :=
  match h !! p with
  | Some o => match cast o with Some x => Ret (delete p h, x) | None => Undef end
  | None => Undef
  end.

Definition as_function (t : function_type) (o : heap_object) : option callback :=
  match o with ObFunction t' cb => if decide (t' = t) then Some cb else None | _ => None end.
Definition as_keys (o : heap_object) : option pubkey_set := match o with ObKeys x => Some x | _ => None end.
Definition as_task (o : heap_object) : option (bytes * bytes * bytes * callback) :=
  match o with ObTask cat command remote f => Some (cat, command, remote, f) | _ => None end.
Definition as_bind (o : heap_object) : option (bind_data * option callback) :=
  match o with ObBind b f => Some (b, f) | _ => None end.
Definition as_batch (o : heap_object) : option batch_obj := match o with ObBatch x => Some x | _ => None end.

Definition BPtr (p : N) : bt_value := BInt (Z.of_N p).

(** ** Writing *)

(** The data part of a control message: a dictionary, a number, or a list of numbers. *)
Inductive wire_data :=
  | WDict (d : bt_dict)
  | WNumber (z : Z)
  | WNumbers (l : list Z).

(** [control_data[key] = serialize_object(std::move(f))]. *)
Definition put_function (t : function_type) (key : bytes) (cb : callback) (dh : bt_dict * object_heap) : bt_dict * object_heap :=
  let '(h, p) := serialize_object (ObFunction t cb) (snd dh) in (<[ key := BPtr p ]> (fst dh), h).

Fixpoint write_send_option (pd : list bytes * (bt_dict * object_heap)) (o : send_option) :
    list bytes * (bt_dict * object_heap) :=
  let '(parts, (d, h)) := pd in
  match o with
  | OSome o => write_send_option pd o
  | OQueueFailure cb => (parts, put_function FSendFail (B "send_fail") cb (d, h))
  | OQueueFull cb => (parts, put_function FQueueFull (B "send_full_q") cb (d, h))
  | o => let '(parts, d) := apply_send_option (parts, d) o in (parts, (d, h))
  end.

Definition write_build_send (to : ConnectionID) (cmd : bytes) (opts : list send_option) (h : object_heap) : bt_dict * object_heap :=
  let '(parts, (control_data, h)) := foldl write_send_option ([cmd], (∅, h)) opts in
  let control_data :=
    if conn_sn to then <[ B "conn_pubkey" := BStr (conn_pk to) ]> control_data
    else <[ B "conn_route" := BStr (conn_route to) ]>
         (<[ B "conn_id" := BInt (conn_id to) ]> control_data) in
  (<[ B "send" := BList parts ]> control_data, h).

Definition write_request (to : ConnectionID) (cmd : bytes) (cb : callback) (reply_tag : bytes) (opts : list send_option)
    (h : object_heap) : bt_dict * object_heap :=
  let '(d, h) := write_build_send to cmd (OString reply_tag :: opts) h in
  let '(d, h) := put_function FReply (B "request_callback") cb (<[ B "request" := BBool true ]> d, h) in
  (<[ B "request_tag" := BStr reply_tag ]> d, h).

Definition put_callbacks (on_connect on_failure : callback) (dh : bt_dict * object_heap) : bt_dict * object_heap :=
  put_function FFailed (B "failure") on_failure (put_function FConnected (B "connect") on_connect dh).
Definition write_connect_remote (remote : address) (on_connect on_failure : callback) (id : Z)
    (options : list connect_option) (h : object_heap) : bt_dict * object_heap :=
  let opts := foldl (apply_connect_option true) ∅ options in
  let '(opts, h) := put_callbacks on_connect on_failure (<[ B "conn_id" := BInt id ]> opts, h) in
  let opts := if is_curve remote then <[ B "pubkey" := BStr (pubkey remote) ]> opts else opts in
  (<[ B "remote" := BStr (zmq_address remote) ]> opts, h).
Definition write_connect_inproc (on_connect on_failure : callback) (id : Z) (options : list connect_option)
    (h : object_heap) : bt_dict * object_heap :=
  let opts := <[ B "timeout" := BInt INPROC_CONNECT_TIMEOUT ]> (<[ B "auth_level" := BInt admin ]> ∅) in
  let opts := foldl (apply_connect_option true) opts options in
  let '(opts, h) := put_callbacks on_connect on_failure (<[ B "conn_id" := BInt id ]> opts, h) in
  (<[ B "remote" := BStr (B "inproc://sn-self") ]> opts, h).

(** A message whose data is the address of one object. *)
Definition one_object (cmd : bytes) (o : heap_object) (h : object_heap) : bytes * wire_data * object_heap :=
  let '(h, p) := serialize_object o h in (cmd, WNumber (Z.of_N p), h).

Definition update_sns_message (added removed : pubkey_set) (h : object_heap) : bytes * wire_data * object_heap :=
  let '(h, p) := serialize_object (ObKeys added) h in
  let '(h, q) := serialize_object (ObKeys removed) h in
  (B "UPDATE_SNS", WNumbers [Z.of_N p; Z.of_N q], h).
Definition timer_message (id : Z) (job : callback) (interval : Z) (squelch : bool) (thread : Z) (h : object_heap) :
    bytes * wire_data * object_heap :=
  let '(h, p) := serialize_object (ObFunction FVoid job) h in
  (B "TIMER", WNumbers [id; Z.of_N p; interval; Z.b2z squelch; thread], h).

(** What each public call sends, with the objects it allocates. *)
Definition wire_of (EPHEMERAL_ROUTING_ID : bool) (c : api_call) (h : object_heap) : bytes * wire_data * object_heap :=
  match c with
  | ASend to cmd opts => let '(d, h) := write_build_send to cmd opts h in (B "SEND", WDict d, h)
  | ARequest to cmd cb tag opts => let '(d, h) := write_request to cmd cb tag opts h in (B "SEND", WDict d, h)
  | AConnectSn pk options => (B "CONNECT_SN", WDict (connect_sn EPHEMERAL_ROUTING_ID pk options), h)
  | AConnectRemote remote f g id options =>
      let '(d, h) := write_connect_remote remote f g id options h in (B "CONNECT_REMOTE", WDict d, h)
  | AConnectInproc f g id options =>
      let '(d, h) := write_connect_inproc f g id options h in (B "CONNECT_REMOTE", WDict d, h)
  | ADisconnect id linger => (B "DISCONNECT", WDict (disconnect id linger), h)
  | AInject cat command remote f => one_object (B "INJECT") (ObTask cat command remote f) h
  | ASetSns pks => one_object (B "SET_SNS") (ObKeys pks) h
  | AUpdateSns added removed => update_sns_message added removed h
  | ABatch o => one_object (B "BATCH") (ObBatch o) h
  | ATimer id job interval squelch thread => timer_message id job interval squelch thread h
  | ACancelTimer id => (B "TIMER_DEL", WNumber id, h)
  | AListen b on_bind => one_object (B "BIND") (ObBind b on_bind) h
  end.

(** ** Reading *)

(** [if (data.skip_until(key)) x = deserialize_object<T>(data.consume_integer<uintptr_t>())]. *)
Definition take_function (t : function_type) (d : bt_dict) (key : bytes) (h : object_heap) :
    outcome (object_heap * option callback) :=
  match d !! key with
  | None => Ret (h, None)
  | Some (BInt z) =>
      if (z <? 0)%Z then bt_invalid
      else '(h, cb) ← deserialize_object (as_function t) (Z.to_N z) h; Ret (h, Some cb)
  | Some _ => bt_invalid
  end.

Definition read_request_data (d : bt_dict) (h : object_heap) : outcome (object_heap * option (callback * bytes)) :=
  _ ← require d (B "request_callback") (B "Internal error: received request without request_callback");
  '(h, cb) ← take_function FReply d (B "request_callback") h;
  _ ← require d (B "request_tag") (B "Internal error: received request without request_name");
  tag ← consume_string d (B "request_tag") [];
  Ret (h, match cb with Some c => Some (c, tag) | None => None end).
Definition read_request (d : bt_dict) (h : object_heap) : outcome (object_heap * option (callback * bytes)) :=
  request ← consume_bool d (B "request") false;
  (if (request : bool) then read_request_data d h else Ret (h, None)).

(** The first part of [proxy_send]. *)
Definition read_send (d : bt_dict) (h : object_heap) : outcome (object_heap * send_command) :=
  conn ← parse_conn d;
  hint ← consume_string d (B "hint") [];
  incoming ← consume_bool d (B "incoming") false;
  keep_alive ← consume_uint d (B "keep_alive") DEFAULT_SEND_KEEP_ALIVE;
  optional ← consume_bool d (B "optional") false;
  outgoing ← consume_bool d (B "outgoing") false;
  '(h, request) ← read_request d h;
  request_timeout ← parse_request_timeout d (bool_decide (is_Some request));
  _ ← require d (B "send") (B "Internal error: Invalid proxy send command; send parts missing");
  parts ← consume_list d (B "send");
  '(h, fail) ← take_function FSendFail d (B "send_fail") h;
  '(h, full) ← take_function FQueueFull d (B "send_full_q") h;
  Ret (h, mk_send conn hint incoming keep_alive optional outgoing request request_timeout parts fail full).

(** The first part of [proxy_connect_remote]. *)
Definition read_connect_remote (EPHEMERAL_ROUTING_ID : bool) (d : bt_dict) (h : object_heap) :
    outcome (object_heap * connect_command) :=
  auth ← consume_int d (B "auth_level") none;
  id ← consume_int d (B "conn_id") (-1);
  '(h, connect) ← take_function FConnected d (B "connect") h;
  ephemeral ← consume_bool d (B "ephemeral_rid") EPHEMERAL_ROUTING_ID;
  '(h, failure) ← take_function FFailed d (B "failure") h;
  pk ← consume_string d (B "pubkey") [];
  if negb (length pk =? 32) && negb (bool_decide (pk = [])) then Undef (* assert *)
  else
    remote ← consume_string d (B "remote") [];
    timeout ← consume_uint d (B "timeout") REMOTE_CONNECT_TIMEOUT;
    if (id =? -1)%Z || bool_decide (remote = []) then
      Throw (runtime_error
        (B "Internal error: CONNECT_REMOTE proxy command missing required 'conn_id' and/or 'remote' value"))
    else Ret (h, mk_connect auth id connect ephemeral failure pk remote timeout).

(** [deserialize_object<T>(consume_integer<uintptr_t>())]. *)
Definition take_number {A} (cast : heap_object → option A) (z : Z) (h : object_heap) : outcome (object_heap * A) :=
  if (z <? 0)%Z then bt_invalid else deserialize_object cast (Z.to_N z) h.

Section reading.
Context {E : TaskEval} {env : Zmq} (EPHEMERAL_ROUTING_ID : bool) (bt_index : nat → bytes).

(** A handler that leaves the heap alone. *)
Definition with_heap (h : object_heap) (r : outcome (option proxy_state)) : outcome (option (object_heap * proxy_state)) :=
  o ← r; Ret ((λ st, (h, st)) <$> (o : option proxy_state)).

(** The rest of [proxy_send]. *)
Definition do_send (c : send_command) (st : proxy_state) : outcome (option proxy_state) :=
  r ← proxy_send c (px_net st);
  (match (r : option net) with
   | Some n => done_with (after_net n st)
   | None => Ret None
   end).

(** [proxy_control_message] on a message with addresses.  The batch of a BATCH message
    is not deleted: it passes to the scheduler, which has a heap of its own. *)
Definition wire_control (cmd : bytes) (data : wire_data) (h : object_heap) (st : proxy_state) :
    outcome (option (object_heap * proxy_state)) :=
  match data with
  | WDict d =>
      if bool_decide (cmd = B "SEND") then
        '(h, c) ← read_send d h; with_heap h (do_send c st)
      else if bool_decide (cmd = B "CONNECT_REMOTE") then
        '(h, c) ← read_connect_remote EPHEMERAL_ROUTING_ID d h;
        with_heap h (net_handler (proxy_connect_remote c (px_net st)) st)
      else with_heap h (control_with_data EPHEMERAL_ROUTING_ID bt_index cmd (DDict d) st)
  | WNumber z =>
      if bool_decide (cmd = B "BATCH") then
        '(h, o) ← take_number as_batch z h; with_heap h (done_with (lift_sys (EvBatch o) st))
      else if bool_decide (cmd = B "INJECT") then
        '(h, t) ← take_number as_task z h;
        let '(cat, command, remote, f) := t in
        with_heap h (done_with (lift_sys (EvInject cat command remote f) st))
      else if bool_decide (cmd = B "SET_SNS") then
        '(h, pks) ← take_number as_keys z h; with_heap h (net_handler (proxy_set_active_sns pks (px_net st)) st)
      else if bool_decide (cmd = B "BIND") then
        '(h, b) ← take_number as_bind z h; with_heap h (control_BIND bt_index (fst b) (snd b) st)
      else with_heap h (control_with_data EPHEMERAL_ROUTING_ID bt_index cmd (DInt z) st)
  | WNumbers [p; q] =>
      if bool_decide (cmd = B "UPDATE_SNS") then
        '(h, added) ← take_number as_keys p h;
        '(h, removed) ← take_number as_keys q h;
        with_heap h (net_handler (proxy_update_active_sns added removed (px_net st)) st)
      else bt_invalid
  | WNumbers [id; p; interval; squelch; thread] =>
      if bool_decide (cmd = B "TIMER") then
        '(h, job) ← take_number (as_function FVoid) p h;
        if (interval <? 0)%Z then bt_invalid
        else if (squelch =? 0)%Z then with_heap h (done_with (lift_sys (EvTimerAdd id job false thread ztimer) st))
        else if (squelch =? 1)%Z then with_heap h (done_with (lift_sys (EvTimerAdd id job true thread ztimer) st))
        else bt_invalid
      else bt_invalid
  | WNumbers _ => bt_invalid
  end.
End reading.

(** ** Messages in transit *)

Record transit := mk_transit {
  tr_heap : object_heap;
  tr_queue : list (bytes * wire_data);
  tr_state : proxy_state;
}.

(** A thread makes a call, or the proxy handles one of the messages sent to it; they
    come from different threads, so it may be any of them. *)
Inductive transit_event :=
  | TrCall (c : api_call)
  | TrHandle (E : TaskEval) (env : Zmq) (i : nat).

Section transit.
Context (EPHEMERAL_ROUTING_ID : bool) (bt_index : nat → bytes).

Definition transit_step (e : transit_event) (t : transit) : outcome (option transit) :=
  match e with
  | TrCall c =>
      let '(cmd, data, h) := wire_of EPHEMERAL_ROUTING_ID c (tr_heap t) in
      Ret (Some (mk_transit h (tr_queue t ++ [(cmd, data)]) (tr_state t)))
  | TrHandle E env i =>
      match tr_queue t !! i with
      | None => Ret (Some t)
      | Some (cmd, data) =>
          r ← wire_control EPHEMERAL_ROUTING_ID bt_index cmd data (tr_heap t) (tr_state t);
          Ret ((λ hs, mk_transit (fst hs) (delete i (tr_queue t)) (snd hs)) <$> (r : option (object_heap * proxy_state)))
      end
  end.
Fixpoint transit_run (es : list transit_event) (t : transit) : outcome (option transit) :=
  match es with
  | [] => Ret (Some t)
  | e :: es =>
      r ← transit_step e t;
      match (r : option transit) with Some t => transit_run es t | None => Ret None end
  end.

(** The same with the calls themselves in transit. *)
Definition calls_step (e : transit_event) (s : list api_call * proxy_state) : outcome (option (list api_call * proxy_state)) :=
  match e with
  | TrCall c => Ret (Some (fst s ++ [c], snd s))
  | TrHandle E env i =>
      match fst s !! i with
      | None => Ret (Some s)
      | Some c =>
          r ← proxy_control_message EPHEMERAL_ROUTING_ID bt_index (control_of EPHEMERAL_ROUTING_ID c) (snd s);
          Ret ((λ st, (delete i (fst s), st)) <$> (r : option proxy_state))
      end
  end.
Fixpoint calls_run (es : list transit_event) (s : list api_call * proxy_state) : outcome (option (list api_call * proxy_state)) :=
  match es with
  | [] => Ret (Some s)
  | e :: es =>
      r ← calls_step e s;
      match (r : option (list api_call * proxy_state)) with Some s => calls_run es s | None => Ret None end
  end.
End transit.

(** * Lemmas *)

(** ** Ownership *)

(** [m] holds exactly the functions that [d] has at the keys [ks], where [dw] has their
    addresses. *)
Fixpoint owns (ks : list (bytes * function_type)) (dw d : bt_dict) (m : object_heap) : Prop :=
  match ks with
  | [] => m = ∅
  | (k, t) :: ks =>
      match d !! k with
      | None => dw !! k = None ∧ owns ks dw d m
      | Some (BObj cb) =>
          ∃ p m', dw !! k = Some (BPtr p) ∧ m' !! p = None ∧ m = <[ p := ObFunction t cb ]> m' ∧ owns ks dw d m'
      | Some _ => False
      end
  end.

Lemma owns_ext ks dw d dw' d' m :
  (∀ k, k ∈ ks.*1 → dw' !! k = dw !! k ∧ d' !! k = d !! k) → owns ks dw d m → owns ks dw' d' m.
Proof.
  revert m. induction ks as [|[k t] ks IH]; intros m Hk; [done|]. cbn [owns].
  destruct (Hk k) as [-> ->]; [by left|]. assert (∀ m, owns ks dw d m → owns ks dw' d' m) as IH'.
  { intros m'. apply IH. intros k' Hk'. apply Hk. by right. }
  destruct (d !! k) as [[]|]; try done.
  - intros (p & m' & H1 & H2 & H3 & H4). exists p, m'. auto.
  - intros [H1 H2]. auto.
Qed.

(** Keys that hold no object may be written. *)
Lemma owns_other ks dw d m k v : k ∉ ks.*1 → owns ks dw d m → owns ks (<[ k := v ]> dw) (<[ k := v ]> d) m.
Proof.
  intros Hk. apply owns_ext. intros k' Hk'. rewrite !lookup_insert_ne by (intros ->; done). done.
Qed.

(** Writing a new address at a key of [ks]; an object that was there stays behind. *)
Lemma owns_write ks dw d m k t cb p :
  NoDup ks.*1 → (k, t) ∈ ks → m !! p = None → owns ks dw d m →
  ∃ old m', owns ks (<[ k := BPtr p ]> dw) (<[ k := BObj cb ]> d) (<[ p := ObFunction t cb ]> m') ∧
    m = old ∪ m' ∧ old ##ₘ m' ∧ base.size old = Nat.b2n (has d k).
Proof.
  unfold has. revert m. induction ks as [|[k' t'] ks IH]; intros m Hnd Hin Hp Ho; [by apply not_elem_of_nil in Hin|].
  cbn [fmap list_fmap fst] in Hnd. apply NoDup_cons in Hnd as [Hk' Hnd]. cbn [owns] in Ho |- *.
  destruct (decide (k' = k)) as [->|Hne].
  - assert (t' = t) as ->.
    { apply elem_of_cons in Hin as [[= ->]|Hin]; [done|]. destruct Hk'. apply list_elem_of_fmap. by exists (k, t). }
    rewrite !lookup_insert_eq.
    assert (∀ m', owns ks dw d m' → owns ks (<[ k := BPtr p ]> dw) (<[ k := BObj cb ]> d) m') as Htail.
    { intros m'. apply owns_ext. intros x Hx. rewrite !lookup_insert_ne by (intros ->; done). done. }
    destruct (d !! k) as [[]|]; try done.
    + destruct Ho as (q & m' & H1 & H2 & -> & H4). apply lookup_insert_None in Hp as [Hp _].
      exists {[ q := ObFunction t cb0 ]}, m'. split_and!.
      * exists p, m'. auto.
      * by rewrite insert_union_singleton_l.
      * by apply map_disjoint_singleton_l.
      * by rewrite map_size_singleton.
    + destruct Ho as [H1 H2]. exists ∅, m. split_and!.
      * exists p, m. auto.
      * by rewrite map_empty_union.
      * apply map_disjoint_empty_l.
      * done.
  - apply elem_of_cons in Hin as [[=]|Hin]; [congruence|]. rewrite !lookup_insert_ne by done.
    destruct (d !! k') as [[]|]; try done.
    + destruct Ho as (q & m' & H1 & H2 & -> & H4). apply lookup_insert_None in Hp as [Hp Hqp].
      destruct (IH m' Hnd Hin Hp H4) as (old & m'' & Ho' & -> & Hd & Hsz).
      apply lookup_union_None in H2 as [H2 H2']. exists old, (<[ q := ObFunction t' cb0 ]> m''). split_and!; [|..|done].
      * exists q, (<[ p := ObFunction t cb ]> m''). rewrite lookup_insert_ne by done.
        split_and!; [done|done|by rewrite insert_insert_ne|done].
      * by rewrite insert_union_r.
      * by apply map_disjoint_insert_r_2.
    + destruct Ho as [H1 H2]. destruct (IH m Hnd Hin Hp H2) as (old & m' & Ho' & H3 & H4 & H5).
      exists old, m'. auto.
Qed.

(** Taking out the object of the first key. *)
Lemma deserialize_owned {A} (cast : heap_object → option A) p o x m h :
  cast o = Some x → m !! p = None → h !! p = None →
  deserialize_object cast p (<[ p := o ]> m ∪ h) = Ret (m ∪ h, x).
Proof.
  intros Hc Hm Hh. unfold deserialize_object. rewrite <- insert_union_l, lookup_insert_eq, Hc.
  rewrite delete_insert_id; [done|]. by apply lookup_union_None.
Qed.

Lemma take_owned k t ks dw d m h :
  owns ((k, t) :: ks) dw d m → m ##ₘ h →
  ∃ m' x, owns ks dw d m' ∧ m' ##ₘ h ∧ consume_object d k = Ret x ∧ take_function t dw k (m ∪ h) = Ret (m' ∪ h, x).
Proof.
  cbn [owns]. unfold consume_object, take_function. destruct (d !! k) as [[]|]; try done.
  - intros (p & m' & -> & Hp & -> & Ho) Hd. apply map_disjoint_insert_l in Hd as [Hh Hd].
    exists m', (Some cb). split_and!; try done. unfold BPtr. rewrite (proj2 (Z.ltb_ge _ _)) by lia. rewrite N2Z.id.
    rewrite (deserialize_owned _ p _ cb); [done| |done|done]. cbn. by rewrite decide_True.
  - intros [-> Ho] Hd. by exists m, None.
Qed.

(** ** Writers *)

(** [h] is the heap [r] with the objects of the message [dw], which stands for [d], and
    [lost] objects nobody refers to. *)
Definition written (ks : list (bytes * function_type)) (r : object_heap) (dw d : bt_dict) (h : object_heap) (lost : nat) : Prop :=
  (∀ k, k ∉ ks.*1 → dw !! k = d !! k) ∧
  ∃ m lk, owns ks dw d m ∧ m ##ₘ lk ∧ m ##ₘ r ∧ lk ##ₘ r ∧ h = m ∪ (lk ∪ r) ∧ base.size lk = lost.

Lemma written_start ks r d : Forall (λ k, d !! k = None) ks.*1 → written ks r d d r 0.
Proof.
  intros Hks. split; [done|]. exists ∅, ∅. split_and!; try apply map_disjoint_empty_l; [|by rewrite !map_empty_union|done].
  induction ks as [|[k t] ks IH]; [done|]. apply Forall_cons in Hks as [Hk Hks]. cbn in Hk |- *. rewrite Hk. auto.
Qed.

Lemma written_other ks r dw d h lost k v :
  k ∉ ks.*1 → written ks r dw d h lost → written ks r (<[ k := v ]> dw) (<[ k := v ]> d) h lost.
Proof.
  intros Hk [Hs (m & lk & Ho & Hrest)]. split.
  - intros k' Hk'. destruct (decide (k' = k)) as [->|]; [by rewrite !lookup_insert_eq|].
    rewrite !lookup_insert_ne by done. by apply Hs.
  - exists m, lk. split; [by apply owns_other|done].
Qed.

Lemma fresh_none (h : object_heap) : h !! fresh (dom h) = None.
Proof. apply not_elem_of_dom, is_fresh. Qed.

Lemma written_put ks r dw d h lost k t cb :
  NoDup ks.*1 → (k, t) ∈ ks → written ks r dw d h lost →
  let dh := put_function t k cb (dw, h) in
  written ks r (fst dh) (<[ k := BObj cb ]> d) (snd dh) (lost + Nat.b2n (has d k)).
Proof.
  intros Hnd Hin [Hs (m & lk & Ho & H1 & H2 & H3 & -> & Hsz)]. set (h := m ∪ (lk ∪ r)).
  pose proof (fresh_none h) as Hp. cbn. set (p := fresh (dom h)) in *. unfold h in Hp.
  apply lookup_union_None in Hp as [Hpm Hp]. apply lookup_union_None in Hp as [Hplk Hpr].
  destruct (owns_write ks dw d m k t cb p Hnd Hin Hpm Ho) as (old & m' & Ho' & -> & Hd & Hold).
  apply lookup_union_None in Hpm as [Hpo Hpm]. apply map_disjoint_union_l in H1 as [H1 H1'], H2 as [H2 H2'].
  assert (k ∈ ks.*1) as Hk by (apply list_elem_of_fmap; by exists (k, t)). split.
  - intros k' Hk'. rewrite !lookup_insert_ne by (intros ->; done). by apply Hs.
  - exists (<[ p := ObFunction t cb ]> m'), (old ∪ lk). split_and!; [done|..].
    + apply map_disjoint_union_r_2; by apply map_disjoint_insert_l_2.
    + by apply map_disjoint_insert_l_2.
    + by apply map_disjoint_union_l_2.
    + unfold h. rewrite <- insert_union_l. f_equal. rewrite (map_union_comm old m') by done. rewrite <- !(assoc_L (∪)). done.
    + rewrite map_size_disj_union by done. lia.
Qed.

(** *** [send] and [request] *)

Definition send_keys : list (bytes * function_type) :=
  [(B "request_callback", FReply); (B "send_fail", FSendFail); (B "send_full_q", FQueueFull)].
Definition connect_keys : list (bytes * function_type) := [(B "connect", FConnected); (B "failure", FFailed)].

(** The [queue_failure] and [queue_full] options; only the last of each counts. *)
Fixpoint failure_option (o : send_option) : nat :=
  match o with OSome o => failure_option o | OQueueFailure _ => 1 | _ => 0 end.
Fixpoint full_option (o : send_option) : nat :=
  match o with OSome o => full_option o | OQueueFull _ => 1 | _ => 0 end.
Definition failure_options (opts : list send_option) : nat := sum_list (failure_option <$> opts).
Definition full_options (opts : list send_option) : nat := sum_list (full_option <$> opts).
Definition repeated (opts : list send_option) : nat := (failure_options opts - 1) + (full_options opts - 1).

Lemma send_keys_nodup : NoDup send_keys.*1.
Proof. apply (bool_decide_unpack _). by vm_compute. Qed.
Lemma connect_keys_nodup : NoDup connect_keys.*1.
Proof. apply (bool_decide_unpack _). by vm_compute. Qed.
Ltac not_key := apply (bool_decide_unpack (_ ∉ _)); vm_compute; done.

Lemma has_insert d k v : has (<[ k := v ]> d) k = true.
Proof. unfold has. rewrite lookup_insert_eq. apply bool_decide_true. by eexists. Qed.
Lemma has_insert_ne d k k' v : k' ≠ k → has (<[ k' := v ]> d) k = has d k.
Proof. intros Hk. unfold has. by rewrite lookup_insert_ne. Qed.

(** [a] and [b] options with a function were applied. *)
Definition send_written (r : object_heap) (pw : list bytes * (bt_dict * object_heap)) (p : list bytes * bt_dict) (a b : nat) : Prop :=
  fst pw = fst p ∧ written send_keys r (fst (snd pw)) (snd p) (snd (snd pw)) ((a - 1) + (b - 1)) ∧
  has (snd p) (B "send_fail") = (0 <? a) ∧ has (snd p) (B "send_full_q") = (0 <? b).

(** A key without an object, or none, is written. *)
Lemma send_written_key r parts parts' dw d h a b k v :
  k ∉ send_keys.*1 → send_written r (parts, (dw, h)) (parts, d) a b →
  send_written r (parts', (<[ k := v ]> dw, h)) (parts', <[ k := v ]> d) a b.
Proof.
  intros Hk (_ & Hw & H1 & H2). unfold send_written. cbn [fst snd] in *.
  rewrite !has_insert_ne by (intros ->; apply Hk; apply (bool_decide_unpack (_ ∈ _)); by vm_compute).
  split_and!; try done. by apply written_other.
Qed.
Lemma send_written_parts r parts parts' dw d h a b :
  send_written r (parts, (dw, h)) (parts, d) a b → send_written r (parts', (dw, h)) (parts', d) a b.
Proof. intros (_ & Hw & H1 & H2). by split_and!. Qed.

Lemma b2n_pred a : Nat.b2n (0 <? a) + (a - 1) = a.
Proof. destruct a; cbn; lia. Qed.

Lemma send_written_option r pw p a b o :
  send_written r pw p a b →
  send_written r (write_send_option pw o) (apply_send_option p o) (a + failure_option o) (b + full_option o).
Proof.
  destruct pw as [parts [dw h]], p as [parts' d]. intros Hw. pose proof Hw as (E & Hw' & H1 & H2). cbn in E. subst parts'.
  induction o as [arg| |o IH|data|hint|x|x|x|time|time|cb|cb]; cbn [write_send_option apply_send_option failure_option full_option];
    rewrite ?Nat.add_0_r; try exact IH.
  - by eapply send_written_parts.
  - done.
  - by eapply send_written_parts.
  - case_bool_decide; [done|]. eapply send_written_key; [not_key|done].
  - eapply send_written_key; [not_key|done].
  - eapply send_written_key; [not_key|done].
  - eapply send_written_key; [not_key|done].
  - destruct (0 <=? time)%Z; [eapply send_written_key; [not_key|done]|done].
  - destruct (0 <=? time)%Z; [eapply send_written_key; [not_key|done]|done].
  - pose proof (written_put send_keys r dw d h _ (B "send_fail") FSendFail cb send_keys_nodup ltac:(set_solver) Hw') as Hp.
    split_and!; [done| |cbn [snd]|cbn [snd]].
    + cbn [snd fst] in *. rewrite H1 in Hp. pose proof (b2n_pred a). replace (a + 1 - 1 + (b - 1)) with (a - 1 + (b - 1) + Nat.b2n (0 <? a)) by lia. exact Hp.
    + rewrite has_insert. symmetry. apply Nat.ltb_lt. lia.
    + rewrite has_insert_ne by key_ne. exact H2.
  - pose proof (written_put send_keys r dw d h _ (B "send_full_q") FQueueFull cb send_keys_nodup ltac:(set_solver) Hw') as Hp.
    split_and!; [done| |cbn [snd]|cbn [snd]].
    + cbn [snd fst] in *. rewrite H2 in Hp. pose proof (b2n_pred b). replace (a - 1 + (b + 1 - 1)) with (a - 1 + (b - 1) + Nat.b2n (0 <? b)) by lia. exact Hp.
    + rewrite has_insert_ne by key_ne. exact H1.
    + rewrite has_insert. symmetry. apply Nat.ltb_lt. lia.
Qed.

Lemma send_written_fold r opts pw p a b :
  send_written r pw p a b →
  send_written r (foldl write_send_option pw opts) (foldl apply_send_option p opts) (a + failure_options opts) (b + full_options opts).
Proof.
  revert pw p a b. induction opts as [|o opts IH]; intros pw p a b Hw.
  { unfold failure_options, full_options. cbn. by rewrite !Nat.add_0_r. }
  unfold failure_options, full_options in *. rewrite !sum_fmap_cons, !Nat.add_assoc. cbn [foldl]. by apply IH, send_written_option.
Qed.

Lemma build_send_written to cmd opts r :
  let dh := write_build_send to cmd opts r in
  written send_keys r (fst dh) (build_send to cmd opts) (snd dh) (repeated opts).
Proof.
  unfold write_build_send, build_send.
  assert (send_written r ([cmd], (∅, r)) ([cmd], ∅) 0 0) as Hw
    by (split_and!; try done; apply written_start; repeat constructor).
  apply (send_written_fold r opts) in Hw. destruct (foldl write_send_option _ _) as [parts [dw h]].
  destruct (foldl apply_send_option _ _) as [parts' d]. destruct Hw as (E & Hw & _). cbn [fst snd] in *. subst parts'.
  apply written_other; [not_key|]. destruct (conn_sn to); repeat (apply written_other; [not_key|]); exact Hw.
Qed.

Lemma build_send_no_callback to cmd opts : build_send to cmd opts !! B "request_callback" = None.
Proof.
  unfold build_send. destruct (encodes_fold opts [cmd] ∅ (send_default to cmd) (encodes_default to cmd) eq_refl) as [Hd _].
  destruct (foldl apply_send_option ([cmd], ∅) opts) as [parts d]. pose proof (en_free _ _ Hd) as Hf. cbn [snd] in Hf.
  rewrite Forall_forall in Hf. assert (d !! B "request_callback" = None) as Hn by (apply Hf; set_solver).
  destruct (conn_sn to); by dict.
Qed.

Lemma request_written to cmd cb tag opts r :
  let dh := write_request to cmd cb tag opts r in
  written send_keys r (fst dh) (request to cmd cb tag opts) (snd dh) (repeated opts).
Proof.
  unfold write_request, request. pose proof (build_send_written to cmd (OString tag :: opts) r) as Hw.
  destruct (write_build_send _ _ _ _) as [dw h]. cbn [fst snd] in Hw.
  change (repeated (OString tag :: opts)) with (repeated opts) in Hw.
  pose proof (build_send_no_callback to cmd (OString tag :: opts)) as Hn. set (d := build_send _ _ _) in *.
  apply (written_other _ _ _ _ _ _ (B "request") (BBool true)) in Hw; [|not_key].
  apply (written_put _ _ _ _ _ _ (B "request_callback") FReply cb send_keys_nodup) in Hw; [|set_solver].
  rewrite has_insert_ne in Hw by key_ne. unfold has in Hw. rewrite Hn in Hw. rewrite (bool_decide_false (is_Some None)) in Hw by (by intros []).
  rewrite Nat.add_0_r in Hw. destruct (put_function _ _ _ _) as [dw' h']. cbn [fst snd] in *. apply written_other; [not_key|done].
Qed.

(** *** Connecting *)

Lemma connect_options_free options d k :
  k ∈ connect_keys.*1 → foldl (apply_connect_option true) d options !! k = d !! k.
Proof.
  intros Hk. revert d. induction options as [|o options IH]; intros d; [done|]. cbn [foldl]. rewrite IH.
  assert (k = B "connect" ∨ k = B "failure") as Hk' by set_solver.
  destruct o; cbn [apply_connect_option negb]; repeat case_match; try done; destruct Hk' as [-> | ->]; by dict.
Qed.

Lemma callbacks_written d r f g :
  d !! B "connect" = None → d !! B "failure" = None →
  let dh := put_callbacks f g (d, r) in
  written connect_keys r (fst dh) (<[ B "failure" := BObj g ]> (<[ B "connect" := BObj f ]> d)) (snd dh) 0.
Proof.
  intros H1 H2. assert (written connect_keys r d d r 0) as Hw by (apply written_start; by repeat constructor).
  apply (written_put _ _ _ _ _ _ (B "connect") FConnected f connect_keys_nodup) in Hw; [|set_solver].
  unfold put_callbacks. destruct (put_function FConnected _ _ _) as [dw h]. cbn [fst snd] in Hw.
  apply (written_put _ _ _ _ _ _ (B "failure") FFailed g connect_keys_nodup) in Hw; [|set_solver].
  rewrite has_insert_ne in Hw by key_ne. unfold has in Hw. rewrite H1, H2, (bool_decide_false (is_Some None)) in Hw by (by intros []).
  exact Hw.
Qed.

Lemma connect_remote_written remote f g id options r :
  let dh := write_connect_remote remote f g id options r in
  written connect_keys r (fst dh) (connect_remote remote f g id options) (snd dh) 0.
Proof.
  unfold write_connect_remote, connect_remote. set (opts := <[ B "conn_id" := _ ]> _).
  pose proof (callbacks_written opts r f g) as Hw. destruct (put_callbacks f g (opts, r)) as [dw h].
  apply written_other; [not_key|]. cbn [fst snd] in *.
  assert (written connect_keys r dw (<[ B "failure" := BObj g ]> (<[ B "connect" := BObj f ]> opts)) h 0) as Hw'.
  { apply Hw; unfold opts; dict; rewrite connect_options_free by set_solver; done. }
  destruct (is_curve remote); [apply written_other; [not_key|]|]; exact Hw'.
Qed.
Lemma connect_inproc_written f g id options r :
  let dh := write_connect_inproc f g id options r in
  written connect_keys r (fst dh) (connect_inproc f g id options) (snd dh) 0.
Proof.
  unfold write_connect_inproc, connect_inproc. set (opts := <[ B "conn_id" := _ ]> _).
  pose proof (callbacks_written opts r f g) as Hw. destruct (put_callbacks f g (opts, r)) as [dw h].
  apply written_other; [not_key|]. apply Hw; unfold opts; dict; rewrite connect_options_free by set_solver; by dict.
Qed.

(** ** Readers *)

Section readers.
Context (ks : list (bytes * function_type)) (dw d : bt_dict) (Hs : ∀ k, k ∉ ks.*1 → dw !! k = d !! k).

Lemma same_int k x : k ∉ ks.*1 → consume_int dw k x = consume_int d k x.
Proof using Hs. intros Hk. unfold consume_int. by rewrite Hs. Qed.
Lemma same_uint k x : k ∉ ks.*1 → consume_uint dw k x = consume_uint d k x.
Proof using Hs. intros Hk. unfold consume_uint. by rewrite Hs. Qed.
Lemma same_bool k x : k ∉ ks.*1 → consume_bool dw k x = consume_bool d k x.
Proof using Hs. intros Hk. unfold consume_bool. by rewrite Hs. Qed.
Lemma same_string k x : k ∉ ks.*1 → consume_string dw k x = consume_string d k x.
Proof using Hs. intros Hk. unfold consume_string. by rewrite Hs. Qed.
Lemma same_list k : k ∉ ks.*1 → consume_list dw k = consume_list d k.
Proof using Hs. intros Hk. unfold consume_list. by rewrite Hs. Qed.
Lemma same_has k : k ∉ ks.*1 → has dw k = has d k.
Proof using Hs. intros Hk. unfold has. by rewrite Hs. Qed.
End readers.

(** The next key of a reader, in the reader of the object dictionary and in the goal. *)
Ltac next_key H :=
  match type of H with
  | (mbind _ ?r) = Ret _ => let E := fresh "E" in destruct r as [?| |] eqn:E; [|done|done]; cbn [mbind outcome_bind] in H |- *
  end.

Lemma owned_has k t ks dw d m : owns ((k, t) :: ks) dw d m → has dw k = has d k.
Proof.
  cbn [owns]. unfold has. destruct (d !! k) as [[]|]; try done.
  - intros (p & m' & -> & _). rewrite !bool_decide_true by (by eexists). done.
  - by intros [-> _].
Qed.

(** What is read before the addresses. *)
Lemma same_conn dw d : (∀ k, k ∉ send_keys.*1 → dw !! k = d !! k) → parse_conn dw = parse_conn d.
Proof.
  intros Hs. unfold parse_conn. rewrite (same_int send_keys dw d Hs), !(same_string send_keys dw d Hs), !(same_has send_keys dw d Hs) by not_key. done.
Qed.

Lemma read_send_owned dw d m h c :
  (∀ k, k ∉ send_keys.*1 → dw !! k = d !! k) → owns send_keys dw d m → m ##ₘ h →
  (consume_bool d (B "request") false = Ret false → d !! B "request_callback" = None) →
  parse_send d = Ret c → read_send dw (m ∪ h) = Ret (h, c).
Proof.
  intros Hs Ho Hd Hreq H. unfold parse_send, read_send in *. rewrite (same_conn dw d Hs). next_key H.
  rewrite (same_string send_keys dw d Hs), !(same_bool send_keys dw d Hs), (same_uint send_keys dw d Hs) by not_key.
  do 5 next_key H. unfold read_request, parse_request in *. rewrite (same_bool send_keys dw d Hs) by not_key.
  assert (∃ m1 x, owns [(B "send_fail", FSendFail); (B "send_full_q", FQueueFull)] dw d m1 ∧ m1 ##ₘ h ∧
    (request ← consume_bool d (B "request") false; (if (request : bool) then parse_request_data d else Ret None)) = Ret x ∧
    (request ← consume_bool d (B "request") false; (if (request : bool) then read_request_data dw (m ∪ h) else Ret (m ∪ h, None))) =
      Ret (m1 ∪ h, x)) as (m1 & x & Ho1 & Hd1 & Hx & ->).
  { destruct (consume_bool d (B "request") false) as [b| |]; [|done|done]. cbn [mbind outcome_bind] in H |- *. destruct b.
    - unfold parse_request_data, read_request_data, require in *. rewrite (owned_has _ _ _ _ _ _ Ho), (same_has send_keys dw d Hs) by not_key.
      destruct (take_owned _ _ _ _ _ _ _ Ho Hd) as (m1 & y & Ho1 & Hd1 & Hy & Ht). exists m1.
      destruct (has d (B "request_callback")); [|done]. cbn [mbind outcome_bind] in H |- *. rewrite Hy, Ht in *. cbn [mbind outcome_bind] in H |- *.
      destruct (has d (B "request_tag")); [|done]. cbn [mbind outcome_bind] in H |- *.
      rewrite (same_string send_keys dw d Hs) by not_key. destruct (consume_string d (B "request_tag") []); [|done|done].
      eexists. split_and!; done.
    - exists m, None. cbn [send_keys owns] in Ho. rewrite (Hreq eq_refl) in Ho. destruct Ho as [_ Ho]. by split_and!. }
  rewrite Hx in H. cbn [mbind outcome_bind] in H |- *. unfold parse_request_timeout, require in *.
  rewrite (same_uint send_keys dw d Hs), (same_has send_keys dw d Hs), (same_list send_keys dw d Hs) by not_key. do 3 next_key H.
  destruct (take_owned _ _ _ _ _ _ _ Ho1 Hd1) as (m2 & y & Ho2 & Hd2 & Hy & ->). rewrite Hy in H. cbn [mbind outcome_bind] in H |- *.
  destruct (take_owned _ _ _ _ _ _ _ Ho2 Hd2) as (m3 & z & Ho3 & Hd3 & Hz & ->). rewrite Hz in H. cbn [mbind outcome_bind] in H |- *.
  injection H as <-. cbn in Ho3. subst m3. by rewrite map_empty_union.
Qed.

Lemma read_connect_owned EPH dw d m h :
  (∀ k, k ∉ connect_keys.*1 → dw !! k = d !! k) → owns connect_keys dw d m → m ##ₘ h →
  read_connect_remote EPH dw (m ∪ h) = (c ← parse_connect_remote EPH d; Ret (h, c)).
Proof.
  intros Hs Ho Hd. unfold read_connect_remote, parse_connect_remote.
  rewrite !(same_int connect_keys dw d Hs), (same_bool connect_keys dw d Hs), !(same_string connect_keys dw d Hs),
    (same_uint connect_keys dw d Hs) by not_key.
  destruct (consume_int d (B "auth_level") none); [|done|done]. destruct (consume_int d (B "conn_id") (-1)); [|done|done].
  cbn [mbind outcome_bind]. destruct (take_owned _ _ _ _ _ _ _ Ho Hd) as (m1 & x & Ho1 & Hd1 & -> & ->). cbn [mbind outcome_bind].
  destruct (consume_bool d _ _); [|done|done]. cbn [mbind outcome_bind].
  destruct (take_owned _ _ _ _ _ _ _ Ho1 Hd1) as (m2 & y & Ho2 & Hd2 & -> & ->). cbn [mbind outcome_bind]. cbn in Ho2. subst m2.
  rewrite map_empty_union. destruct (consume_string d (B "pubkey") []); [|done|done]. cbn [mbind outcome_bind].
  destruct (negb _ && negb _); [done|]. destruct (consume_string d (B "remote") []); [|done|done]. cbn [mbind outcome_bind].
  destruct (consume_uint d _ _); [|done|done]. cbn [mbind outcome_bind]. by destruct (_ || _).
Qed.

(** ** A message and its objects *)

(** The objects a call gives to the proxy, and those it loses. *)
Definition objects_of (c : api_call) : nat :=
  match c with
  | ASend _ _ opts => Nat.b2n (0 <? failure_options opts) + Nat.b2n (0 <? full_options opts)
  | ARequest _ _ _ _ opts => S (Nat.b2n (0 <? failure_options opts) + Nat.b2n (0 <? full_options opts))
  | AConnectRemote _ _ _ _ _ | AConnectInproc _ _ _ _ | AUpdateSns _ _ => 2
  | AInject _ _ _ _ | ASetSns _ | ABatch _ | ATimer _ _ _ _ _ | AListen _ _ => 1
  | AConnectSn _ _ | ADisconnect _ _ | ACancelTimer _ => 0
  end.
Definition lost_by (c : api_call) : nat :=
  match c with ASend _ _ opts | ARequest _ _ _ _ opts => repeated opts | _ => 0 end.

Lemma owns_size ks dw d m : owns ks dw d m → base.size m = sum_list ((λ kt, Nat.b2n (has d (fst kt))) <$> ks).
Proof.
  revert m. induction ks as [|[k t] ks IH]; intros m; [by intros ->|]. rewrite sum_fmap_cons. cbn [owns fst]. unfold has at 1.
  destruct (d !! k) as [[]|]; try done.
  - intros (p & m' & _ & Hp & -> & Ho). rewrite map_size_insert_None by done. rewrite bool_decide_true by (by eexists).
    by rewrite (IH m' Ho).
  - intros [_ Ho]. rewrite bool_decide_false by (by intros []). by rewrite (IH m Ho).
Qed.

Lemma owns_send_size dw d m : owns send_keys dw d m → base.size m =
  Nat.b2n (has d (B "request_callback")) + (Nat.b2n (has d (B "send_fail")) + (Nat.b2n (has d (B "send_full_q")) + 0)).
Proof. apply owns_size. Qed.
Lemma owns_connect_size dw d m : owns connect_keys dw d m → base.size m =
  Nat.b2n (has d (B "connect")) + (Nat.b2n (has d (B "failure")) + 0).
Proof. apply owns_size. Qed.

Lemma build_send_has to cmd opts :
  has (build_send to cmd opts) (B "send_fail") = (0 <? failure_options opts) ∧
  has (build_send to cmd opts) (B "send_full_q") = (0 <? full_options opts) ∧
  has (build_send to cmd opts) (B "request_callback") = false.
Proof.
  split_and!; [| |unfold has; rewrite build_send_no_callback; by apply bool_decide_false; intros []].
  all: unfold build_send.
  all: assert (send_written ∅ ([cmd], (∅, ∅)) ([cmd], ∅) 0 0) as Hw by (split_and!; try done; apply written_start; repeat constructor).
  all: apply (send_written_fold ∅ opts) in Hw; destruct (foldl apply_send_option _ _) as [parts d]; destruct Hw as (_ & _ & H1 & H2).
  all: cbn [snd] in *; destruct (conn_sn to); rewrite !has_insert_ne by key_ne; done.
Qed.

Section carried.
Context (EPH : bool) (bt_index : nat → bytes).

(** The message [w] of call [c] with its objects [m]: handling it frees exactly these,
    whatever else the heap holds, and does what the call asks for. *)
Definition carried (c : api_call) (w : bytes * wire_data) (m : object_heap) : Prop :=
  base.size m = objects_of c ∧
  ∀ (E : TaskEval) (env : Zmq) h st, m ##ₘ h →
    wire_control EPH bt_index (fst w) (snd w) (m ∪ h) st =
      with_heap h (proxy_control_message EPH bt_index (control_of EPH c) st).

Lemma take_number_owned {A} (cast : heap_object → option A) o x p m h :
  cast o = Some x → m !! p = None → h !! p = None → take_number cast (Z.of_N p) (<[ p := o ]> m ∪ h) = Ret (m ∪ h, x).
Proof using.
  intros Hc Hm Hh. unfold take_number. rewrite (proj2 (Z.ltb_ge _ _)) by lia. rewrite N2Z.id. by apply deserialize_owned.
Qed.
Lemma take_single {A} (cast : heap_object → option A) o x p h :
  cast o = Some x → {[ p := o ]} ##ₘ h → take_number cast (Z.of_N p) ({[ p := o ]} ∪ h) = Ret (h, x).
Proof using.
  intros Hc Hd%map_disjoint_singleton_l. rewrite <- insert_empty, (take_number_owned cast o x); [by rewrite map_empty_union|done|done|done].
Qed.

Lemma send_carried d dw m c :
  (∀ k, k ∉ send_keys.*1 → dw !! k = d !! k) → owns send_keys dw d m →
  (consume_bool d (B "request") false = Ret false → d !! B "request_callback" = None) → (∃ x, parse_send d = Ret x) →
  control_of EPH c = (B "SEND", Some (DDict d)) → base.size m = objects_of c → carried c (B "SEND", WDict dw) m.
Proof using.
  intros Hs Ho Hreq [x Hx] Hc Hsz. split; [done|]. intros E env h st Hd. rewrite Hc. cbn [fst snd wire_control].
  rewrite bool_decide_true by done. rewrite (read_send_owned dw d m h x Hs Ho Hd Hreq Hx). cbn [mbind outcome_bind].
  change (proxy_control_message EPH bt_index (B "SEND", Some (DDict d)) st) with (control_SEND d st).
  unfold control_SEND. by rewrite Hx.
Qed.
Lemma connect_carried d dw m c :
  (∀ k, k ∉ connect_keys.*1 → dw !! k = d !! k) → owns connect_keys dw d m →
  control_of EPH c = (B "CONNECT_REMOTE", Some (DDict d)) → base.size m = objects_of c →
  carried c (B "CONNECT_REMOTE", WDict dw) m.
Proof using.
  intros Hs Ho Hc Hsz. split; [done|]. intros E env h st Hd. rewrite Hc. cbn [fst snd wire_control].
  rewrite bool_decide_false by key_ne. rewrite bool_decide_true by done. rewrite (read_connect_owned EPH dw d m h Hs Ho Hd).
  change (proxy_control_message EPH bt_index (B "CONNECT_REMOTE", Some (DDict d)) st) with (control_CONNECT_REMOTE EPH d st).
  unfold control_CONNECT_REMOTE. by destruct (parse_connect_remote EPH d).
Qed.
Lemma single_carried c cmd (o : heap_object) p :
  objects_of c = 1 →
  (∀ (E : TaskEval) (env : Zmq) h st, {[ p := o ]} ##ₘ h → wire_control EPH bt_index cmd (WNumber (Z.of_N p)) ({[ p := o ]} ∪ h) st =
     with_heap h (proxy_control_message EPH bt_index (control_of EPH c) st)) →
  carried c (cmd, WNumber (Z.of_N p)) {[ p := o ]}.
Proof using. intros H1 H2. split; [by rewrite map_size_singleton, H1|exact H2]. Qed.

(** The call leaves the heap [r] as it was, with the objects [m] of its message and the
    lost ones. *)
Definition sends (c : api_call) (w : bytes * wire_data) (r h : object_heap) : Prop :=
  ∃ m lk, carried c w m ∧ m ##ₘ lk ∧ m ##ₘ r ∧ lk ##ₘ r ∧ h = m ∪ (lk ∪ r) ∧ base.size lk = lost_by c.

Lemma no_objects c w r : (∀ h (E : TaskEval) (env : Zmq) st, wire_control EPH bt_index (fst w) (snd w) h st =
  with_heap h (proxy_control_message EPH bt_index (control_of EPH c) st)) → objects_of c = 0 → lost_by c = 0 → sends c w r r.
Proof using.
  intros Hw H1 H2. exists ∅, ∅. split_and!; try apply map_disjoint_empty_l; [|by rewrite !map_empty_union|by rewrite H2].
  split; [by rewrite H1|]. intros E env h st _. rewrite map_empty_union. apply Hw.
Qed.
Lemma one_sends c cmd o r :
  lost_by c = 0 → (∀ p, carried c (cmd, WNumber (Z.of_N p)) {[ p := o ]}) →
  let '(cmd, data, h) := one_object cmd o r in sends c (cmd, data) r h.
Proof using.
  intros H1 Hc. unfold one_object. cbn. pose proof (fresh_none r) as Hp. set (p := fresh (dom r)) in *.
  exists {[ p := o ]}, ∅. split_and!; try apply map_disjoint_empty_l; try apply map_disjoint_empty_r.
  - apply Hc.
  - by apply map_disjoint_singleton_l.
  - by rewrite map_empty_union, insert_union_singleton_l.
  - by rewrite H1.
Qed.

Lemma written_sends ks dw d r h lost c w :
  written ks r dw d h lost → lost_by c = lost →
  (∀ m, (∀ k, k ∉ ks.*1 → dw !! k = d !! k) → owns ks dw d m → carried c w m) → sends c w r h.
Proof using. intros [Hs (m & lk & Ho & Hrest)] <- Hc. exists m, lk. split; [by apply Hc|done]. Qed.

Lemma update_sends added removed r :
  let '(cmd, data, h) := update_sns_message added removed r in sends (AUpdateSns added removed) (cmd, data) r h.
Proof using.
  cbn. pose proof (fresh_none r) as Hp. set (p := fresh (dom r)) in *. set (r1 := <[ p := ObKeys added ]> r).
  pose proof (fresh_none r1) as Hq. set (q := fresh (dom r1)) in *. apply lookup_insert_None in Hq as [Hq Hpq].
  exists (<[ p := ObKeys added ]> {[ q := ObKeys removed ]}), ∅. split_and!; try apply map_disjoint_empty_l; try apply map_disjoint_empty_r.
  - split; [by rewrite map_size_insert_None, map_size_singleton by (by apply lookup_singleton_None)|].
    intros E env h st Hd. apply map_disjoint_insert_l in Hd as [Hph Hd]. cbn [fst snd wire_control]. rewrite bool_decide_true by done.
    rewrite (take_number_owned as_keys (ObKeys added) added); [|done|by apply lookup_singleton_None|done]. cbn [mbind outcome_bind].
    by rewrite (take_single as_keys (ObKeys removed) removed).
  - apply map_disjoint_insert_l_2; [done|]. by apply map_disjoint_singleton_l.
  - rewrite map_empty_union. unfold r1. rewrite <- insert_union_l, <- insert_union_singleton_l. by rewrite insert_insert_ne.
  - done.
Qed.
Lemma timer_sends id job interval squelch thread r :
  let '(cmd, data, h) := timer_message id job interval squelch thread r in
  sends (ATimer id job interval squelch thread) (cmd, data) r h.
Proof using.
  cbn. pose proof (fresh_none r) as Hp. set (p := fresh (dom r)) in *.
  exists {[ p := ObFunction FVoid job ]}, ∅. split_and!; try apply map_disjoint_empty_l; try apply map_disjoint_empty_r.
  - split; [by rewrite map_size_singleton|]. intros E env h st Hd. cbn [fst snd wire_control]. rewrite bool_decide_true by done.
    rewrite (take_single (as_function FVoid) (ObFunction FVoid job) job) by done. cbn [mbind outcome_bind control_of].
    change (proxy_control_message _ _ _ _) with
      (if (interval <? 0)%Z then bt_invalid else done_with (lift_sys (EvTimerAdd id job squelch thread ztimer) st)).
    destruct (interval <? 0)%Z; [done|]. by destruct squelch.
  - by apply map_disjoint_singleton_l.
  - by rewrite map_empty_union, insert_union_singleton_l.
  - done.
Qed.

(** An object that travels alone. *)
Ltac single cast o x :=
  apply one_sends; [done|]; intros p; apply single_carried; [done|]; intros E env h st Hd;
  cbn [wire_control]; repeat (rewrite bool_decide_false by key_ne); rewrite bool_decide_true by done;
  rewrite (take_single cast o x) by done; reflexivity.

Lemma call_sends c r : let '(cmd, data, h) := wire_of EPH c r in sends c (cmd, data) r h.
Proof using.
  destruct c as [to cmd opts|to cmd cb tag opts|pk options|remote f g id options|f g id options|id linger|cat command remote f|pks|
    added removed|o|id job interval squelch thread|id|b on_bind]; cbn [wire_of].
  - pose proof (build_send_written to cmd opts r) as Hw. destruct (write_build_send to cmd opts r) as [dw h]. cbn [fst snd] in Hw.
    eapply written_sends; [exact Hw|done|]. intros m Hs Ho. eapply send_carried; [exact Hs|exact Ho| | |done|].
    + intros _. apply build_send_no_callback.
    + eexists. apply parse_build_send.
    + rewrite (owns_send_size _ _ _ Ho). destruct (build_send_has to cmd opts) as (-> & -> & ->). cbn. lia.
  - pose proof (request_written to cmd cb tag opts r) as Hw. destruct (write_request to cmd cb tag opts r) as [dw h]. cbn [fst snd] in Hw.
    eapply written_sends; [exact Hw|done|]. intros m Hs Ho. eapply send_carried; [exact Hs|exact Ho| | |done|].
    + unfold request, consume_bool. dict. done.
    + eexists. apply parse_request_dict.
    + rewrite (owns_send_size _ _ _ Ho). unfold request. rewrite !(has_insert_ne _ _ (B "request_tag")) by key_ne. rewrite has_insert.
      rewrite !has_insert_ne by key_ne. destruct (build_send_has to cmd (OString tag :: opts)) as (-> & -> & _).
      change (failure_options (OString tag :: opts)) with (failure_options opts). change (full_options (OString tag :: opts)) with (full_options opts). cbn. lia.
  - by apply no_objects.
  - pose proof (connect_remote_written remote f g id options r) as Hw. destruct (write_connect_remote _ _ _ _ _ _) as [dw h]. cbn [fst snd] in Hw.
    eapply written_sends; [exact Hw|done|]. intros m Hs Ho. eapply connect_carried; [exact Hs|exact Ho|done|].
    rewrite (owns_connect_size _ _ _ Ho). unfold connect_remote. destruct (is_curve remote); repeat first [rewrite has_insert | rewrite has_insert_ne by key_ne]; done.
  - pose proof (connect_inproc_written f g id options r) as Hw. destruct (write_connect_inproc _ _ _ _ _) as [dw h]. cbn [fst snd] in Hw.
    eapply written_sends; [exact Hw|done|]. intros m Hs Ho. eapply connect_carried; [exact Hs|exact Ho|done|].
    rewrite (owns_connect_size _ _ _ Ho). unfold connect_inproc. repeat first [rewrite has_insert | rewrite has_insert_ne by key_ne]; done.
  - by apply no_objects.
  - single as_task (ObTask cat command remote f) (cat, command, remote, f).
  - single as_keys (ObKeys pks) pks.
  - apply update_sends.
  - single as_batch (ObBatch o) o.
  - apply timer_sends.
  - by apply no_objects.
  - single as_bind (ObBind b on_bind) (b, on_bind).
Qed.
End carried.

(** ** Runs *)

Section flight.
Context (EPH : bool) (bt_index : nat → bytes).

(** The calls [q] are in transit as the messages [ws], with the objects [h]. *)
Inductive flight : list api_call → list (bytes * wire_data) → object_heap → Prop :=
  | flight_nil : flight [] [] ∅
  | flight_cons c w m q ws h :
      carried EPH bt_index c w m → m ##ₘ h → flight q ws h → flight (c :: q) (w :: ws) (m ∪ h).

Lemma flight_send q ws h c w m :
  flight q ws h → carried EPH bt_index c w m → m ##ₘ h → flight (q ++ [c]) (ws ++ [w]) (m ∪ h).
Proof using.
  intros Hf Hc. induction Hf as [|c' w' m' q ws h Hc' Hd Hf IH]; intros Hm.
  - cbn. apply flight_cons; [done|apply map_disjoint_empty_r|constructor].
  - apply map_disjoint_union_r in Hm as [Hm1 Hm2]. cbn. rewrite (assoc_L (∪)), (map_union_comm m m') by done.
    rewrite <- (assoc_L (∪)). apply flight_cons; [done| |by apply IH]. by apply map_disjoint_union_r_2.
Qed.

Lemma flight_take q ws h i c :
  flight q ws h → q !! i = Some c →
  ∃ w m h', ws !! i = Some w ∧ carried EPH bt_index c w m ∧ m ##ₘ h' ∧ h = m ∪ h' ∧ flight (delete i q) (delete i ws) h'.
Proof using.
  intros Hf. revert i. induction Hf as [|c' w' m' q ws h Hc' Hd Hf IH]; intros i Hi; [done|]. destruct i as [|i].
  - injection Hi as <-. exists w', m', h. by split_and!.
  - destruct (IH i Hi) as (w & m & h' & Hw & Hc & Hm & -> & Hf'). exists w, m, (m' ∪ h').
    apply map_disjoint_union_r in Hd as [Hd1 Hd2]. split_and!; [done|done| | |].
    + by apply map_disjoint_union_r_2.
    + rewrite !(assoc_L (∪)). by rewrite (map_union_comm m' m).
    + by apply flight_cons.
Qed.

Lemma flight_length q ws h : flight q ws h → length ws = length q.
Proof using. induction 1; cbn; congruence. Qed.
Lemma flight_size q ws h : flight q ws h → base.size h = sum_list (objects_of <$> q).
Proof using.
  induction 1 as [|c w m q ws h [Hs _] Hd Hf IH]; [done|]. rewrite map_size_disj_union by done. rewrite sum_fmap_cons. lia.
Qed.

(** The objects lost in a run. *)
Definition lost_in (es : list transit_event) : nat :=
  sum_list ((λ e, match e with TrCall c => lost_by c | TrHandle _ _ _ => 0 end) <$> es).

(** [t] is [s] with messages in place of calls; [lost] objects were lost. *)
Definition carries (t : transit) (s : list api_call * proxy_state) (lost : nat) : Prop :=
  tr_state t = snd s ∧ ∃ hq lk, flight (fst s) (tr_queue t) hq ∧ hq ##ₘ lk ∧ tr_heap t = hq ∪ lk ∧ base.size lk = lost.

Lemma carries_call t s lost c :
  carries t s lost → ∃ t', transit_step EPH bt_index (TrCall c) t = Ret (Some t') ∧
    carries t' (fst s ++ [c], snd s) (lost_by c + lost).
Proof using.
  intros [Hst (hq & lk & Hf & Hd & Hh & Hsz)]. cbn [transit_step]. pose proof (call_sends EPH bt_index c (tr_heap t)) as Hs.
  destruct (wire_of EPH c (tr_heap t)) as [[cmd data] h]. destruct Hs as (m & lk' & Hc & H1 & H2 & H3 & -> & Hl).
  eexists. split; [done|]. split; [done|]. rewrite Hh in *. apply map_disjoint_union_r in H2 as [H2 H2'], H3 as [H3 H3'].
  exists (m ∪ hq), (lk' ∪ lk). cbn. split_and!.
  - by apply flight_send.
  - apply map_disjoint_union_l_2; by apply map_disjoint_union_r_2.
  - rewrite !(assoc_L (∪)). f_equal. rewrite <- !(assoc_L (∪)). by rewrite (map_union_comm hq lk').
  - rewrite map_size_disj_union by done. lia.
Qed.

Lemma carries_handle t s lost (E : TaskEval) (env : Zmq) i :
  carries t s lost →
  match calls_step EPH bt_index (TrHandle E env i) s with
  | Ret (Some s') => ∃ t', transit_step EPH bt_index (TrHandle E env i) t = Ret (Some t') ∧ carries t' s' lost
  | Ret None => transit_step EPH bt_index (TrHandle E env i) t = Ret None
  | Throw x => transit_step EPH bt_index (TrHandle E env i) t = Throw x
  | Undef => transit_step EPH bt_index (TrHandle E env i) t = Undef
  end.
Proof using.
  intros [Hst (hq & lk & Hf & Hd & Hh & Hsz)]. cbn [calls_step transit_step]. destruct (fst s !! i) as [c|] eqn:Hi.
  - destruct (flight_take _ _ _ _ _ Hf Hi) as ([cmd data] & m & h' & -> & [_ Hc] & Hm & -> & Hf').
    apply map_disjoint_union_l in Hd as [Hd1 Hd2]. rewrite Hh, <- (assoc_L (∪)), Hst.
    pose proof (Hc E env (h' ∪ lk) (snd s)) as Hw. cbn [fst snd] in Hw. rewrite Hw by (by apply map_disjoint_union_r_2).
    destruct (proxy_control_message _ _ _ _) as [[st|]| |]; try done. eexists. split; [done|].
    split; [done|]. exists h', lk. by split_and!.
  - assert (tr_queue t !! i = None) as ->.
    { apply lookup_ge_None. rewrite (flight_length _ _ _ Hf). by apply lookup_ge_None. }
    eexists. split; [done|]. split; [done|]. exists hq, lk. by split_and!.
Qed.

Lemma carries_run es t s lost :
  carries t s lost →
  match calls_run EPH bt_index es s with
  | Ret (Some s') => ∃ t', transit_run EPH bt_index es t = Ret (Some t') ∧ carries t' s' (lost_in es + lost)
  | Ret None => transit_run EPH bt_index es t = Ret None
  | Throw x => transit_run EPH bt_index es t = Throw x
  | Undef => transit_run EPH bt_index es t = Undef
  end.
Proof using.
  revert t s lost. induction es as [|e es IH]; intros t s lost Hc; [by exists t|]. cbn [calls_run transit_run].
  unfold lost_in. rewrite sum_fmap_cons. fold (lost_in es). destruct e as [c|E env i].
  - destruct (carries_call t s lost c Hc) as (t' & -> & Hc'). cbn [calls_step mbind outcome_bind]. specialize (IH _ _ _ Hc').
    replace (lost_by c + lost_in es + lost) with (lost_in es + (lost_by c + lost)) by lia. exact IH.
  - pose proof (carries_handle t s lost E env i Hc) as Hh. destruct (calls_step _ _ _ _) as [[s'|]| |]; cbn [mbind outcome_bind].
    + destruct Hh as (t' & -> & Hc'). exact (IH _ _ _ Hc').
    + by rewrite Hh.
    + by rewrite Hh.
    + by rewrite Hh.
Qed.

(** C12: passing objects by address is as good as passing them by value.  Let threads
    make any calls and the proxy handle the messages in any order, under any behaviour of
    zmq.  Then the proxy does exactly what it does when the messages carry the objects
    themselves: it never reads an address that holds nothing or an object of another
    type, and fails only where a handler itself does.  And memory is accounted for: at
    every moment the heap holds the objects of the messages in transit, one for each
    callback, key set, task, listener or batch that was passed, and beyond these only the
    functions of repeated [queue_failure] or [queue_full] options of one call, which are
    overwritten in the dictionary and lost. *)
Theorem objects_handed_over es st :
  match calls_run EPH bt_index es ([], st) with
  | Ret (Some (q, st')) =>
      ∃ t, transit_run EPH bt_index es (mk_transit ∅ [] st) = Ret (Some t) ∧ tr_state t = st' ∧
        length (tr_queue t) = length q ∧ base.size (tr_heap t) = sum_list (objects_of <$> q) + lost_in es
  | Ret None => transit_run EPH bt_index es (mk_transit ∅ [] st) = Ret None
  | Throw x => transit_run EPH bt_index es (mk_transit ∅ [] st) = Throw x
  | Undef => transit_run EPH bt_index es (mk_transit ∅ [] st) = Undef
  end.
Proof using.
  assert (carries (mk_transit ∅ [] st) ([], st) 0) as Hc.
  { split; [done|]. exists ∅, ∅. split_and!; [constructor|apply map_disjoint_empty_l|by rewrite map_empty_union|done]. }
  pose proof (carries_run es _ _ _ Hc) as H. destruct (calls_run _ _ _ _) as [[[q st']|]| |]; try done.
  destruct H as (t & Ht & Hst & hq & lk & Hf & Hd & Hh & Hsz). exists t. split_and!; [done|done| |].
  - exact (flight_length _ _ _ Hf).
  - rewrite Hh, map_size_disj_union by done. rewrite (flight_size _ _ _ Hf). cbn [fst]. lia.
Qed.
End flight.

(** A message with one failure callback too many: the first is never freed. *)
Example repeated_option_lost :
  lost_in [TrCall (ASend (conn_of_id 4) (B "c.x") [OQueueFailure 1; OQueueFailure 2])] = 1.
Proof. reflexivity. Qed.
