(* ===== verification/Calls.v ===== *)
(** * Calls: public calls that work before and after [start]

    [add_timer] and [cancel_timer] ([jobs.cpp]), [set_active_sns] and
    [update_active_sns] ([auth.cpp]) call the function of the proxy directly before
    [start] and send it a control message afterwards.  Also the short forms of other
    calls: [CatHelper] ([oxenmq.h]) and the deprecated overloads of [connect_remote]
    ([connections.cpp]). *)
From S2P Require Import Prelude Bytes Oxenc Address Auth ConnId Commands Batch Pool Options Net ServiceNodes NetSteps.
From S2P Require Import Threads PoolInv PoolSteps PoolSafe Proxy.
Open Scope Z_scope.
Open Scope nat_scope.

Section calls.
Context {E : TaskEval} {O : Oxenc} {env : Zmq} (EPHEMERAL_ROUTING_ID : bool) (bt_index : nat → bytes).

(** [thread ? thread->_id : 0]. *)
Definition timer_thread_id (thread : option Z) : Z := default 0%Z thread.

(** The id of the new timer and the counter after; then the call. *)
Definition new_timer_id (next_timer_id : Z) : Z * Z := (next_timer_id, Z.succ next_timer_id).
Definition add_timer (joinable : bool) (id : Z) (job : callback) (interval : Z) (squelch : bool) (thread : option Z)
    (st : proxy_state) : outcome (option proxy_state) :=
  if joinable then
    proxy_control_message EPHEMERAL_ROUTING_ID bt_index
      (control_of EPHEMERAL_ROUTING_ID (ATimer id job interval squelch (timer_thread_id thread))) st
  else done_with (lift_sys (EvTimerAdd id job squelch (timer_thread_id thread) ztimer) st).
Definition cancel_timer (joinable : bool) (id : Z) (st : proxy_state) : outcome (option proxy_state) :=
  if joinable then
    proxy_control_message EPHEMERAL_ROUTING_ID bt_index (control_of EPHEMERAL_ROUTING_ID (ACancelTimer id)) st
  else done_with (lift_sys (EvTimerDel id) st).

Definition set_active_sns (joinable : bool) (pubkeys : pubkey_set) (st : proxy_state) : outcome (option proxy_state) :=
  if joinable then
    proxy_control_message EPHEMERAL_ROUTING_ID bt_index (control_of EPHEMERAL_ROUTING_ID (ASetSns pubkeys)) st
  else net_handler (proxy_set_active_sns pubkeys (px_net st)) st.
Definition update_active_sns (joinable : bool) (added removed : pubkey_set) (st : proxy_state) :
    outcome (option proxy_state) :=
  if joinable then
    proxy_control_message EPHEMERAL_ROUTING_ID bt_index (control_of EPHEMERAL_ROUTING_ID (AUpdateSns added removed)) st
  else net_handler (proxy_update_active_sns added removed (px_net st)) st.

(** The two ways do the same, except that a negative interval is only refused, in the
    proxy thread, after [start]. *)
Theorem timer_calls_agree id job interval squelch thread st :
  ((0 ≤ interval)%Z →
    add_timer true id job interval squelch thread st = add_timer false id job interval squelch thread st) ∧
  ((interval < 0)%Z → add_timer true id job interval squelch thread st = bt_invalid) ∧
  cancel_timer true id st = cancel_timer false id st.
Proof.
  unfold add_timer, cancel_timer. cbn [control_of proxy_control_message].
  assert (∀ d, control_with_data EPHEMERAL_ROUTING_ID bt_index (B "TIMER") d st =
    match d with
    | DTimer id job interval squelch thread =>
        if (interval <? 0)%Z then bt_invalid else done_with (lift_sys (EvTimerAdd id job squelch thread ztimer) st)
    | _ => bt_invalid
    end) as Ht by reflexivity.
  assert (∀ d, control_with_data EPHEMERAL_ROUTING_ID bt_index (B "TIMER_DEL") d st =
    match d with DInt id => done_with (lift_sys (EvTimerDel id) st) | _ => bt_invalid end) as Hd by reflexivity.
  rewrite Ht, Hd. split_and!; [intros H; by rewrite (proj2 (Z.ltb_ge _ _))|intros H; by rewrite (proj2 (Z.ltb_lt _ _))|done].
Qed.
Theorem sns_calls_agree pubkeys added removed st :
  set_active_sns true pubkeys st = set_active_sns false pubkeys st ∧
  update_active_sns true added removed st = update_active_sns false added removed st.
Proof. split; reflexivity. Qed.
End calls.

(** ** [CatHelper] *)

(** [add_category(...)] returns a helper that remembers the category; its methods
    return it again. *)
Record CatHelper := mk_helper { helper_omq : registry; helper_cat : bytes }.
Definition category_helper (r : registry) (name : bytes) (acc : Access) (reserved max_q : Z) : outcome CatHelper :=
  r ← add_category r name acc reserved max_q; Ret (mk_helper r name).
Definition helper_add_command (h : CatHelper) (name : bytes) (cb : callback) : outcome CatHelper :=
  r ← add_command (helper_omq h) (helper_cat h) name cb; Ret (mk_helper r (helper_cat h)).
Definition helper_add_request_command (h : CatHelper) (name : bytes) (cb : callback) : outcome CatHelper :=
  r ← add_request_command (helper_omq h) (helper_cat h) name cb; Ret (mk_helper r (helper_cat h)).

Definition helper_call (h : CatHelper) (c : bytes * callback * bool) : outcome CatHelper :=
  let '(name, cb, is_request) := c in
  if (is_request : bool) then helper_add_request_command h name cb else helper_add_command h name cb.
Fixpoint helper_chain (h : CatHelper) (cs : list (bytes * callback * bool)) : outcome CatHelper :=
  match cs with
  | [] => Ret h
  | c :: cs => h ← helper_call h c; helper_chain h cs
  end.
(** The calls the chain is short for. *)
Definition chain_ops (cat : bytes) (cs : list (bytes * callback * bool)) : list setup :=
  (λ '(name, cb, is_request), Register (if is_request : bool then AddRequestCommand cat name cb else AddCommand cat name cb)) <$> cs.

(** A chain of the helper is the sequence of calls it is short for, errors included. *)
Lemma helper_chain_spec cs p cat :
  (h ← helper_chain (mk_helper (reg p) cat) cs; Ret (p <| reg := helper_omq h |>)) = run_setups p (chain_ops cat cs).
Proof.
  revert p. induction cs as [|[[name cb] b] cs IH]; intros p; [by destruct p|]. cbn [helper_chain chain_ops fmap list_fmap run_setups].
  fold (chain_ops cat cs).
  assert (∀ o : outcome registry, (h ← (h ← (r ← o; Ret (mk_helper r cat)); helper_chain h cs); Ret (p <| reg := helper_omq h |>)) =
    (p' ← (r ← o; Ret (p <| reg := r |>)); run_setups p' (chain_ops cat cs))) as Hgen.
  { intros [r| |]; try done. cbn [mbind outcome_bind]. rewrite <- IH. done. }
  destruct b; apply Hgen.
Qed.

(** ** The deprecated overloads of [connect_remote] *)

Section legacy.
Context {O : Oxenc}.

Definition connect_remote_string (remote : bytes) (on_connect on_failure : callback) (id : Z) (auth_level : AuthLevel)
    (timeout : Z) : outcome bt_dict :=
  a ← parse_address remote;
  Ret (connect_remote a on_connect on_failure id [CAuth auth_level; CTimeout timeout]).
Definition connect_remote_pubkey (remote : bytes) (on_connect on_failure : callback) (id : Z) (pubkey : bytes)
    (auth_level : AuthLevel) (timeout : Z) : outcome bt_dict :=
  a ← parse_address remote;
  a ← set_pubkey a pubkey;
  Ret (connect_remote a on_connect on_failure id [CAuth auth_level; CTimeout timeout]).

Lemma set_pubkey_sound a pk a' : set_pubkey a pk = Ret a' →
  (length pk = 0 ∨ length pk = 32) ∧ pubkey a' = pk ∧ (is_curve a' = true ↔ pk ≠ []).
Proof using.
  unfold set_pubkey. destruct (Nat.eqb_spec (length pk) 0) as [H0|H0].
  - intros [= <-]. split_and!; [by left|done|]. apply nil_length_inv in H0 as ->. unfold is_curve. cbn. by destruct (protocol a).
  - destruct (Nat.eqb_spec (length pk) 32) as [H1|H1]; [|done]. intros [= <-]. split_and!; [by right|done|].
    unfold is_curve. cbn. split; [by intros _ ->|]. by destruct (protocol a).
Qed.

(** The key given overrides the one of the address, and the proxy reads the level, the
    key and the timeout that were given; a bad address or key is refused by the call. *)
Lemma legacy_connect EPH remote f g id pk auth timeout :
  id ≠ (-1)%Z → (0 ≤ timeout)%Z →
  match connect_remote_pubkey remote f g id pk auth timeout with
  | Ret d => ∃ a, parse_address_pubkey remote pk = Ret a ∧
      parse_connect_remote EPH d = Ret (mk_connect auth id (Some f) EPH (Some g) pk (zmq_address a) timeout)
  | Throw e => parse_address_pubkey remote pk = Throw e
  | Undef => parse_address_pubkey remote pk = Undef
  end.
Proof using.
  intros Hid Ht. unfold connect_remote_pubkey, parse_address_pubkey. destruct (parse_address remote) as [a0| |]; try done.
  cbn [mbind outcome_bind]. destruct (set_pubkey a0 pk) as [a| |] eqn:Ha; try done. cbn [mbind outcome_bind].
  destruct (set_pubkey_sound a0 pk a Ha) as (Hlen & Hpk & Hcurve). exists a. split; [done|].
  rewrite parse_connect_remote_dict; [|done| |].
  - cbn. rewrite (proj2 (Z.ltb_ge _ _)) by lia. destruct (is_curve a); [by rewrite Hpk|].
    destruct pk; [done|]. discriminate (proj2 Hcurve ltac:(done)).
  - unfold zmq_address. by destruct (is_tcp a).
  - intros Hc%Hcurve. rewrite Hpk. destruct Hlen as [Hl|Hl]; [|done]. by apply nil_length_inv in Hl.
Qed.
End legacy.
