(* ===== verification/Start.v ===== *)
(** * Start: construction, configuration and start of an [OxenMQ] object

    The constructor's key checks, the calls that configure an object before
    [start] ([listen_curve], [listen_plain], [set_active_sns], [update_active_sns]
    and the settings of [PoolSafe]), [start] itself with [proxy_loop_init]
    ([oxenmq.cpp], [proxy.cpp]): the internal listener, the configured listeners,
    the handshake with the tagged threads; and the end of the proxy loop.
    libsodium is the class [Sodium]. *)
From S2P Require Import Prelude Bytes Oxenc Address Auth ConnId Commands Batch Pool Options Net Closing ServiceNodes NetSteps Tables.
From S2P Require Import PoolSlots Threads PoolInv PoolSteps PoolSafe Proxy.
Open Scope Z_scope.
Open Scope nat_scope.

(** ** The constructor *)

Definition crypto_box_PUBLICKEYBYTES : nat := 32.
Definition crypto_box_SECRETKEYBYTES : nat := 32.

Class Sodium := {
  sodium_init : Z;
  crypto_box_keypair : bytes * bytes;
  crypto_scalarmult_base : bytes → bytes;
}.

(** What libsodium documents: a generated pair has its sizes and fits together. *)
Class SodiumLaws (S : Sodium) := {
  keypair_sizes : length (fst crypto_box_keypair) = crypto_box_PUBLICKEYBYTES ∧
    length (snd crypto_box_keypair) = crypto_box_SECRETKEYBYTES;
  keypair_matches : crypto_scalarmult_base (snd crypto_box_keypair) = fst crypto_box_keypair;
}.

(** The keys of the new object. *)
Definition OxenMQ_keys `{Sodium} (pubkey privkey : bytes) (service_node : bool) : outcome (bytes * bytes) :=
  if (sodium_init =? -1)%Z then Throw (runtime_error (B "libsodium initialization failed"))
  else if negb (Bool.eqb (bool_decide (pubkey = [])) (bool_decide (privkey = []))) then
    Throw (invalid_argument (B "OxenMQ construction failed: one (and only one) of pubkey/privkey is empty. Both must be specified, or both empty to generate a key."))
  else if bool_decide (pubkey = []) then
    if service_node then
      Throw (invalid_argument (B "Cannot construct a service node mode OxenMQ without a keypair"))
    else Ret crypto_box_keypair
  else if negb (length pubkey =? crypto_box_PUBLICKEYBYTES) then
    Throw (invalid_argument (B "pubkey has invalid size " ++ to_string (Z.of_nat (length pubkey)) ++
      B ", expected " ++ to_string (Z.of_nat crypto_box_PUBLICKEYBYTES)))
  else if negb (length privkey =? crypto_box_SECRETKEYBYTES) then
    Throw (invalid_argument (B "privkey has invalid size " ++ to_string (Z.of_nat (length privkey)) ++
      B ", expected " ++ to_string (Z.of_nat crypto_box_SECRETKEYBYTES)))
  else if negb (bool_decide (crypto_scalarmult_base privkey = pubkey)) then
    Throw (invalid_argument (B "Invalid pubkey/privkey values given to OxenMQ construction: pubkey verification failed"))
  else Ret (pubkey, privkey).

(** ** Before [start] *)

Record object := mk_object {
  ob_pool : pool;
  ob_net : net;
  ob_bind : list (bind_data * option callback);
  ob_owned : bool; (* SOCKET_GID or SOCKET_UID is set *)
}.
#[export] Instance object_rebuild : Rebuild object := λ o,
  mk_object (ob_pool o) (ob_net o) (ob_bind o) (ob_owned o).
Definition object_new (hw : Z) : object := mk_object (pool_new hw) net_empty [] false.

(** [substr(0, 9) == "inproc://"]. *)
Definition is_inproc (addr : bytes) : bool := bool_decide (substr addr 0 9 = B "inproc://").
(** The policy of a listener without one. *)
Definition allow_none : AllowFunc := λ _ _ _, none.

Definition listen_curve (bind_addr : bytes) (allow_connection : option AllowFunc) : outcome bind_data :=
  if is_inproc bind_addr then Throw (logic_error (B "inproc:// cannot be used with listen_curve"))
  else Ret (mk_bind_data bind_addr true 0 (default allow_none allow_connection)).
Definition listen_plain (bind_addr : bytes) (allow_connection : option AllowFunc) : outcome bind_data :=
  if is_inproc bind_addr then Throw (logic_error (B "inproc:// cannot be used with listen_plain"))
  else Ret (mk_bind_data bind_addr false 0 (default allow_none allow_connection)).

Inductive config :=
  | CPool (op : setup)
  | CSns (pubkeys : pubkey_set)
  | CUpdateSns (added removed : pubkey_set)
  | CListenCurve (addr : bytes) (allow : option AllowFunc) (on_bind : option callback)
  | CListenPlain (addr : bytes) (allow : option AllowFunc) (on_bind : option callback)
  | COwner (uid gid : Z).

(** The branches of these calls for a proxy thread that is not running. *)
Definition run_config (ob : object) (c : config) : outcome object :=
  match c with
  | CPool op => p ← run_setup (ob_pool ob) op; Ret (ob <| ob_pool := p |>)
  | CSns pks => n ← proxy_set_active_sns pks (ob_net ob); Ret (ob <| ob_net := n |>)
  | CUpdateSns added removed => n ← proxy_update_active_sns added removed (ob_net ob); Ret (ob <| ob_net := n |>)
  | CListenCurve addr allow f => b ← listen_curve addr allow; Ret (ob <| ob_bind ::= (λ l, l ++ [(b, f)]) |>)
  | CListenPlain addr allow f => b ← listen_plain addr allow; Ret (ob <| ob_bind ::= (λ l, l ++ [(b, f)]) |>)
  | COwner uid gid => Ret (ob <| ob_owned := negb (gid =? -1)%Z || negb (uid =? -1)%Z |>)
  end.
Fixpoint run_configs (ob : object) (cs : list config) : outcome object :=
  match cs with
  | [] => Ret ob
  | c :: cs => ob ← run_config ob c; run_configs ob cs
  end.

(** ** [start] *)

(** The socket limit [start] gives to the zmq context; [int] and [size_t]
    arithmetic are exact below [2^31]. *)
Definition want_sockets (MAX_SOCKETS zmq_socket_limit max_workers tagged : Z) : option Z :=
  if (MAX_SOCKETS =? 0)%Z then None
  else if (MAX_SOCKETS <? 0)%Z then Some zmq_socket_limit
  else Some (Z.min zmq_socket_limit (MAX_SOCKETS + max_workers + tagged + 4)).

(** Waiting for STARTING from every tagged thread; [None] when the messages run
    out first, that is, the proxy waits on. *)
Fixpoint wait_tagged (waiting_on : list bytes) (msgs : list (list bytes)) : option (list (list bytes)) :=
  match waiting_on, msgs with
  | [], _ => Some msgs
  | _ :: _, [] => None
  | _ :: _, [route; cmd] :: msgs =>
      if bool_decide (cmd = B "STARTING") then wait_tagged (filter (λ r, r ≠ route) waiting_on) msgs
      else wait_tagged waiting_on msgs
  | _ :: _, _ :: msgs => wait_tagged waiting_on msgs
  end.

(** The connection to the object itself. *)
Definition inproc_listener (n : net) : net :=
  emplace_socket (next_conn_id n) Router (n <| next_conn_id ::= Z.succ |>).

Section start.
Context {E : TaskEval} {O : Oxenc} {env : Zmq} (EPHEMERAL_ROUTING_ID : bool) (bt_index : nat → bytes).

(** The listeners that were configured, [i] of them already done. *)
Fixpoint bind_all (i : nat) (todo : list (bind_data * option callback)) (st : proxy_state) : outcome proxy_state :=
  match todo with
  | [] => Ret st
  | (b, f) :: todo =>
      r ← bind_listener bt_index b f i st;
      match r with
      | (st, n, Some b) => bind_all (S i) todo (st <| px_net := n |> <| px_bind ::= (λ l, l ++ [b]) |>)
      | (_, _, None) => Throw (zmq_error 0)
      end
  end.

(** The owner of the ipc sockets is changed. *)
Fixpoint own_sockets (todo : list bind_data) : outcome () :=
  match todo with
  | [] => Ret ()
  | b :: todo =>
      addr ← parse_address (bind_address b);
      match (if is_ipc addr then zchown (Address.socket addr) else None) with
      | Some e => Throw (runtime_error (B "cannot set group on " ++ Address.socket addr ++ B ": " ++ strerror e))
      | None => own_sockets todo
      end
  end.

(** [msgs] is what arrives on the workers socket, [conn_check] the result of
    [zmq_timers_add] for the periodic [proxy_conn_cleanup]; [None] means that the
    thread waits for ever.  For the umask see [umask_after]. *)
Definition proxy_loop_init (conn_check : Z) (msgs : list (list bytes)) (ob : object) :
    outcome (option proxy_state) :=
  s ← system_start (ob_pool ob);
  st ← bind_all 0 (ob_bind ob) (mk_proxy_state (inproc_listener (ob_net ob)) s [] [] ∅ [] [] ∅);
  _ ← (if ob_owned ob then own_sockets (fst <$> ob_bind ob) else Ret ());
  if (conn_check =? -1)%Z then Throw (zmq_error 0)
  else
    match wait_tagged ((λ w, worker_routing_id (fst (fst w))) <$> tagged_workers (ob_pool ob)) msgs with
    | None => Ret None
    | Some _ => Ret (Some (st <| px_net ::= (λ n, n <| connections_updated := true |>) |>))
    end.

(** The umask of the process after [proxy_loop_init]: STARTUP_UMASK is in force while
    the listeners are bound, and the old one is put back after the last of them. *)
Definition umask_after (STARTUP_UMASK umask : Z) (ob : object) : Z :=
  match system_start (ob_pool ob) with
  | Ret s =>
      if (STARTUP_UMASK <? 0)%Z then umask
      else
        match bind_all 0 (ob_bind ob) (mk_proxy_state (inproc_listener (ob_net ob)) s [] [] ∅ [] [] ∅) with
        | Ret _ => umask
        | Throw _ | Undef => Z.land STARTUP_UMASK 511
        end
  | Throw _ | Undef => umask
  end.

(** An exception of the initialization is rethrown by [start]. *)
Definition OxenMQ_start (conn_check : Z) (msgs : list (list bytes)) (ob : object) :
    outcome (option proxy_state) :=
  r ← proxy_loop_init conn_check msgs ob;
  match (r : option proxy_state) with
  | None => Ret None
  | Some st =>
      o ← proxy_control_message EPHEMERAL_ROUTING_ID bt_index (B "START", None) st;
      match (o : option proxy_state) with
      | None => Ret None
      | Some st =>
          if bool_decide (px_replies st = [B "READY"]) then Ret (Some st)
          else Throw (runtime_error
            (B "Invalid startup message from proxy thread (didn't get expected READY message)"))
      end
  end.

(** ** The end of the loop *)

(** No worker thread is joinable any more. *)
Definition workers_done (p : pool) : bool :=
  forallb (λ r, negb (joinable r)) (workers p) && forallb (λ w, negb (joinable (fst (fst w)))) (tagged_workers p).
(** The test at the head of the loop of [proxy_loop]. *)
Definition loop_ends (p : pool) : bool := (max_workers p =? 0)%Z && workers_done p.

Fixpoint linger_all (l : list socket) : outcome () :=
  match l with
  | [] => Ret ()
  | s :: l => _ ← set_linger s; linger_all l
  end.

(** What [proxy_quit] does in the proxy's own tables (for the control sockets see
    [ControlSockets]). *)
Definition proxy_quit (st : proxy_state) : outcome proxy_state :=
  if negb (workers_done (proxy (px_sys st))) then Undef (* assert *)
  else
    _ ← linger_all (snd <$> map_to_list (connections (px_net st)));
    Ret (st <| px_net ::= (λ n, n <| connections := ∅ |> <| peers := [] |>) |>).
End start.

(** * Lemmas *)

Lemma linger_all_spec l :
  linger_all l = if bool_decide (NullSocket ∈ l) then Throw (zmq_error ENOTSOCK) else Ret ().
Proof.
  induction l as [|s l IH]; [done|]. cbn [linger_all]. unfold set_linger. destruct (decide (s = NullSocket)) as [->|Hs].
  - rewrite (bool_decide_true (_ ∈ _)) by constructor. done.
  - rewrite bool_decide_false by done. cbn [mbind outcome_bind]. rewrite IH.
    rewrite (bool_decide_ext (NullSocket ∈ s :: l) (NullSocket ∈ l)); [done|]. rewrite elem_of_cons. naive_solver.
Qed.

(** [proxy_quit] once the workers are gone. *)
Lemma quit_cases st : workers_done (proxy (px_sys st)) = true →
  (∃ st', proxy_quit st = Ret st' ∧ connections (px_net st') = ∅ ∧ peers (px_net st') = []) ∨
  proxy_quit st = Throw (zmq_error ENOTSOCK) ∧ has_null (px_net st).
Proof.
  intros Hw. unfold proxy_quit. rewrite Hw, linger_all_spec. case_bool_decide as Hn; [right|left; by eexists].
  split; [done|]. apply list_elem_of_fmap in Hn as ([id s] & Hs & Hin). cbn in Hs. subst s.
  exists id. by apply elem_of_map_to_list.
Qed.

Lemma wait_tagged_spec ws msgs :
  is_Some (wait_tagged ws msgs) ↔ ∀ r, r ∈ ws → [r; B "STARTING"] ∈ msgs.
Proof.
  revert ws. induction msgs as [|m msgs IH]; intros [|w ws].
  - split; [by intros _ r ?%not_elem_of_nil|by eexists].
  - split; [by intros []|intros H]. specialize (H w (list_elem_of_here _ _)). by apply not_elem_of_nil in H.
  - split; [by intros _ r ?%not_elem_of_nil|by eexists].
  - assert ((∀ r, m ≠ [r; B "STARTING"]) → wait_tagged (w :: ws) (m :: msgs) = wait_tagged (w :: ws) msgs) as Hskip.
    { intros Hm. destruct m as [|r [|c [|]]]; try done. cbn [wait_tagged]. case_bool_decide; [subst|done].
      by destruct (Hm r). }
    assert ((∃ r, m = [r; B "STARTING"]) ∨ ¬ ∃ r, m = [r; B "STARTING"]) as [[r ->]|Hm].
    { destruct m as [|r [|c [|]]]; try (right; by intros [? ?]).
      destruct (decide (c = B "STARTING")) as [->|Hc]; [left; by exists r|right; intros [? [= _ ?]]; done]. }
    + cbn [wait_tagged]. rewrite bool_decide_true by done. rewrite IH. setoid_rewrite list_elem_of_filter.
      split.
      * intros H r' Hr'. apply elem_of_cons. destruct (decide (r' = r)) as [->|Hne]; [by left|right]. by apply H.
      * intros H r' [Hne Hr']. destruct (proj1 (elem_of_cons _ _ _) (H r' Hr')) as [[=]|?]; done.
    + rewrite Hskip by (intros r ->; apply Hm; by exists r). rewrite IH.
      split; intros H r Hr; [right; by apply H|].
      destruct (proj1 (elem_of_cons _ _ _) (H r Hr)) as [<-|?]; [|done]. destruct Hm. by exists r.
Qed.

(** ** Configurations *)

(** The scheduler settings among the calls. *)
Definition pool_ops (cs : list config) : list setup :=
  omap (λ c, match c with CPool op => Some op | _ => None end) cs.

Fixpoint configs_ok (ob : object) (cs : list config) : Prop :=
  match cs with
  | [] => True
  | c :: cs =>
      match c with CPool op => setup_ok (ob_pool ob) op | _ => True end ∧
      ∀ ob', run_config ob c = Ret ob' → configs_ok ob' cs
  end.

Lemma run_configs_pool cs ob ob' :
  run_configs ob cs = Ret ob' → configs_ok ob cs →
  run_setups (ob_pool ob) (pool_ops cs) = Ret (ob_pool ob') ∧ setups_ok (ob_pool ob) (pool_ops cs).
Proof.
  revert ob. induction cs as [|c cs IH]; intros ob H; cbn [run_configs] in H; [by injection H as ->|].
  inv_bind H. intros [Hop Hcs]. specialize (Hcs a E). destruct (IH a H Hcs) as [IH1 IH2].
  destruct c as [op|pks|a' r|addr allow f|addr allow f|uid gid]; cbn in E; try (inv_bind E); injection E as <-; cbn in *; try done.
  rewrite E0. cbn. split; [done|]. split; [done|]. intros p' [= <-]. done.
Qed.

(** Configuring makes no connection, and keeps the keys well-formed. *)
Record fresh_net (n : net) : Prop := {
  fn_keys : ∀ pk, pk ∈ active_service_nodes n → length pk = 32;
  fn_connections : ∀ id, connections n !! id = None;
  fn_tables : tables ∅ n;
}.

Lemma fresh_sns R A n n' :
  fresh_net n → (∀ pk, pk ∈ A → length pk = 32) → sns_changed R A n n' → shrinks n n' → fresh_net n'.
Proof.
  intros [Hk Hc Ht] HA [H1 _ H3] Hs. split; [| |by eapply tables_shrinks].
  - intros pk. rewrite H1, elem_of_union, elem_of_difference. intros [[? _]|?]; auto.
  - intros id. rewrite H3, Hc. by case_bool_decide.
Qed.

Lemma valid_keys_length s pk X : pk ∈ valid_keys s ∖ X → length pk = 32.
Proof. unfold valid_keys. rewrite elem_of_difference, elem_of_filter. tauto. Qed.

Lemma run_configs_net cs ob ob' : run_configs ob cs = Ret ob' → fresh_net (ob_net ob) → fresh_net (ob_net ob').
Proof.
  revert ob. induction cs as [|c cs IH]; intros ob H Hf; cbn [run_configs] in H; [by injection H as <-|].
  inv_bind H. apply (IH a H). clear IH H. destruct c as [op|pks|added removed|addr allow f|addr allow f|uid gid]; cbn in E; try (inv_bind E);
    injection E as <-; cbn; try done.
  - destruct (set_active pks (ob_net ob) (fn_keys _ Hf)) as [[_ Hn]|(_ & n' & Hn & Hc)]; rewrite Hn in E0; [done|]. injection E0 as <-.
    eapply fresh_sns; [done|by intros ? ?%valid_keys_length|done|by eapply shrinks_set_sns].
  - destruct (update_active added removed (ob_net ob) (fn_keys _ Hf)) as [[_ Hn]|(_ & n' & Hn & Hc)]; rewrite Hn in E0; [done|]. injection E0 as <-.
    eapply fresh_sns; [done|by intros ? ?%valid_keys_length|done|by eapply shrinks_update_sns].
Qed.

Lemma fresh_empty : fresh_net net_empty.
Proof. split; [intros pk; cbn; set_solver|intros; apply lookup_empty|apply tables_empty]. Qed.

(** ** Listeners *)

Definition bound_to (b : bind_data) (id : Z) : bind_data :=
  mk_bind_data (bind_address b) (bind_curve b) id (bind_allow b).

Section listeners.
Context {env : Zmq} (bt_index : nat → bytes).

(** The socket of a listener can be made and bound. *)
Definition can_bind (bf : bind_data * option callback) : Prop :=
  zsocket (bind_address (fst bf)) = None ∧ zbind (bind_address (fst bf)) = true.
#[export] Instance can_bind_dec bf : Decision (can_bind bf).
Proof. unfold can_bind. apply _. Defined.

(** [todo] was bound in [st], giving [st']; [i] is the index of the first one. *)
Record bound (i : nat) (todo : list (bind_data * option callback)) (st st' : proxy_state) : Prop := {
  bd_sys : px_sys st' = px_sys st;
  bd_control : px_control st' = px_control st;
  bd_replies : px_replies st' = px_replies st;
  bd_connecting : px_connecting st' = px_connecting st;
  bd_sns : active_service_nodes (px_net st') = active_service_nodes (px_net st);
  bd_bound : px_bound st' = px_bound st ++ ((λ f, (f, true)) <$> omap snd todo);
  bd_bind : px_bind st' =
    px_bind st ++ imap (λ j bf, bound_to (fst bf) (next_conn_id (px_net st) + Z.of_nat j)) todo;
  bd_listener : ∀ j b f, todo !! j = Some (b, f) →
    let id := (next_conn_id (px_net st) + Z.of_nat j)%Z in
    px_listeners st' !! id = Some (mk_listener (bind_address b) (bt_index (i + j)) (bind_curve b)) ∧
    connections (px_net st') !! id = Some Router;
  bd_older : ∀ id, (id < next_conn_id (px_net st))%Z →
    px_listeners st' !! id = px_listeners st !! id ∧
    connections (px_net st') !! id = connections (px_net st) !! id;
}.

Lemma bind_all_spec todo i st :
  Forall can_bind todo →
  (∀ id, (next_conn_id (px_net st) ≤ id)%Z → connections (px_net st) !! id = None) →
  ∃ st', bind_all bt_index i todo st = Ret st' ∧ bound i todo st st'.
Proof.
  revert i st. induction todo as [|[b f] todo IH]; intros i st Hz Hn.
  { exists st. split; [done|]. split; rewrite ?app_nil_r; try done. }
  apply Forall_cons in Hz as [[Ho Hb] Hz]. cbn [fst] in Ho, Hb. cbn [bind_all]. unfold bind_listener, proxy_bind.
  rewrite Ho, Hb. cbn [negb mbind outcome_bind].
  set (nx := next_conn_id (px_net st)) in *.
  match goal with |- context [bind_all bt_index (S i) todo ?s] => set (st1 := s) end.
  assert (next_conn_id (px_net st1) = nx + 1)%Z as Hnx by (unfold nx; cbn; lia).
  assert (connections (px_net st1) = <[ nx := Router ]> (connections (px_net st))) as Hconn.
  { cbn. fold nx. by rewrite Hn by lia. }
  destruct (IH (S i) st1 Hz) as (st' & Hst & [H1 H2 H3 H3b H4 H5 H6 H7 H8]).
  { intros id Hid. rewrite Hnx in Hid. rewrite Hconn, lookup_insert_ne by lia. apply Hn. lia. }
  exists st'. split; [exact Hst|]. rewrite Hnx in *. split; try done.
  - rewrite H5. cbn. rewrite <- app_assoc. by destruct f.
  - rewrite H6, imap_cons. cbn. rewrite <- app_assoc. f_equal. cbn. f_equal; [unfold bound_to; f_equal; fold nx; lia|].
    apply imap_ext. intros j [b' f'] _. cbn. f_equal. fold nx. lia.
  - intros [|j] b' f'; cbn [lookup list_lookup]; cbn zeta; fold nx.
    + intros [= <- <-]. destruct (H8 nx) as [H8l H8c]; [lia|]. replace (nx + Z.of_nat 0)%Z with nx by lia.
      rewrite H8l, H8c, Hconn, lookup_insert_eq. split; [|done]. cbn. fold nx. rewrite lookup_insert_eq.
      by rewrite Nat.add_0_r.
    + intros Hj. specialize (H7 j b' f' Hj). cbn zeta in H7. rewrite Nat.add_succ_r.
      replace (nx + Z.of_nat (S j))%Z with (nx + 1 + Z.of_nat j)%Z by lia. exact H7.
  - intros id Hid. fold nx in Hid. destruct (H8 id) as [-> ->]; [lia|]. rewrite Hconn, lookup_insert_ne by lia. split; [|done].
    cbn. fold nx. by rewrite lookup_insert_ne by lia.
Qed.

Lemma bind_all_tables R todo i st st' :
  bind_all bt_index i todo st = Ret st' → tables R (px_net st) → tables R (px_net st').
Proof.
  revert i st. induction todo as [|[b f] todo IH]; intros i st H Ht; cbn [bind_all] in H; [by injection H as <-|].
  unfold bind_listener in H. destruct (proxy_bind _ _ _) as [[[n [id|]] called]| |] eqn:Hb; cbn [mbind outcome_bind] in H; try done.
  eapply IH; [exact H|]. exact (tables_bind R _ _ _ _ _ _ Hb Ht).
Qed.

(** The first address whose socket cannot be made, or else the first that cannot be
    bound, decides. *)
Lemma bind_all_app before todo i st : Forall can_bind before →
  ∃ st', bind_all bt_index i (before ++ todo) st = bind_all bt_index (i + length before) todo st'.
Proof.
  revert i st. induction before as [|[b f] before IH]; intros i st Hb; [exists st; by rewrite Nat.add_0_r|].
  apply Forall_cons in Hb as [[Ho Hz] Hb]. cbn [fst] in Ho, Hz. cbn [app bind_all]. unfold bind_listener, proxy_bind.
  rewrite Ho, Hz. cbn [negb mbind outcome_bind]. cbn [length]. rewrite Nat.add_succ_r. by apply IH.
Qed.
Lemma bind_all_socket before b f after i st e :
  Forall can_bind before → zsocket (bind_address b) = Some e →
  bind_all bt_index i (before ++ (b, f) :: after) st = Throw (zmq_error e).
Proof.
  intros Hb Ho. destruct (bind_all_app before ((b, f) :: after) i st Hb) as [st' ->].
  cbn [bind_all]. unfold bind_listener, proxy_bind. by rewrite Ho.
Qed.

Lemma bind_all_fails todo i st :
  Forall (λ bf, zsocket (bind_address (fst bf)) = None) todo →
  (∃ bf, bf ∈ todo ∧ zbind (bind_address (fst bf)) = false) → bind_all bt_index i todo st = Throw (zmq_error 0).
Proof.
  revert i st. induction todo as [|[b f] todo IH]; intros i st Ho (bf & Hin & Hf); [by apply not_elem_of_nil in Hin|].
  apply Forall_cons in Ho as [Ho1 Ho]. cbn [fst] in Ho1.
  cbn [bind_all]. unfold bind_listener, proxy_bind. rewrite Ho1. destruct (zbind (bind_address b)) eqn:Hb; cbn [negb]; [|done].
  apply (IH _ _ Ho). exists bf. split; [|done]. apply elem_of_cons in Hin as [->|?]; [cbn in Hf; congruence|done].
Qed.
(** Binding everything returns only when every address can be bound. *)
Lemma bind_all_can todo i st st' : bind_all bt_index i todo st = Ret st' → Forall can_bind todo.
Proof.
  revert i st. induction todo as [|[b f] todo IH]; intros i st; [constructor|].
  cbn [bind_all]. unfold bind_listener, proxy_bind. destruct (zsocket (bind_address b)) eqn:Ho; [done|].
  destruct (zbind (bind_address b)) eqn:Hb; cbn [negb]; [|done]. intros H. constructor; [done|]. exact (IH _ _ H).
Qed.
End listeners.

Section started.
Context {E : TaskEval} {O : Oxenc} {env : Zmq} (EPH : bool) (bt_index : nat → bytes).

(** The tagged threads have announced themselves. *)
Definition all_starting (p : pool) (msgs : list (list bytes)) : Prop :=
  ∀ w, w ∈ tagged_workers p → [worker_routing_id (fst (fst w)); B "STARTING"] ∈ msgs.

Lemma config_start hw cs ob :
  run_configs (object_new hw) cs = Ret ob → configs_ok (object_new hw) cs → fits (ob_pool ob) →
  ∃ s, system_start (ob_pool ob) = Ret s ∧ reachable s.
Proof using.
  intros Hrun Hok Hfit. destruct (run_configs_pool cs _ _ Hrun Hok) as [Hp Hs].
  destruct (start_ok (ob_pool ob)) as (s & Hst & _); [|done|].
  - eapply configured_setups; [apply configured_new|exact Hs|exact Hp].
  - exists s. split; [done|]. exact (reach_start hw (pool_ops cs) (ob_pool ob) s Hs Hp Hfit Hst).
Qed.

(** The owner of every socket can be changed, if it is to be. *)
Definition owners_ok (ob : object) : Prop := ob_owned ob = true → own_sockets (fst <$> ob_bind ob) = Ret ().
Lemma owners_done ob : owners_ok ob → (if ob_owned ob then own_sockets (fst <$> ob_bind ob) else Ret ()) = Ret ().
Proof using. unfold owners_ok. destruct (ob_owned ob); auto. Qed.

Lemma start_works hw cs ob msgs conn_check :
  run_configs (object_new hw) cs = Ret ob → configs_ok (object_new hw) cs → fits (ob_pool ob) →
  Forall can_bind (ob_bind ob) → owners_ok ob → conn_check ≠ (-1)%Z →
  all_starting (ob_pool ob) msgs →
  ∃ s st0 st, reachable s ∧ fresh_net (ob_net ob) ∧
    st0 = mk_proxy_state (inproc_listener (ob_net ob)) s [] [] ∅ [] [] ∅ ∧
    bound bt_index 0 (ob_bind ob) st0 st ∧
    OxenMQ_start EPH bt_index conn_check msgs ob =
      Ret (Some (st <| px_net ::= (λ n, n <| connections_updated := true |>) |>
                    <| px_replies := [B "READY"] |>)).
Proof using.
  intros Hrun Hok Hfit Hbind Hown Hcheck Hmsgs. destruct (config_start hw cs ob Hrun Hok Hfit) as (s & Hs & Hr).
  pose proof (run_configs_net cs _ _ Hrun fresh_empty) as Hf.
  set (st0 := mk_proxy_state (inproc_listener (ob_net ob)) s [] [] ∅ [] [] ∅).
  destruct (bind_all_spec bt_index (ob_bind ob) 0 st0 Hbind) as (st & Hst & Hbd).
  { intros id Hid. cbn in *. rewrite (fn_connections _ Hf), lookup_insert_ne by lia. apply Hf. }
  exists s, st0, st. split_and!; try done.
  unfold OxenMQ_start, proxy_loop_init. rewrite Hs. cbn [mbind outcome_bind]. fold st0. rewrite Hst. cbn [mbind outcome_bind].
  rewrite (owners_done ob Hown). cbn [mbind outcome_bind]. rewrite (proj2 (Z.eqb_neq _ _) Hcheck).
  destruct (proj2 (wait_tagged_spec ((λ w, worker_routing_id (fst (fst w))) <$> tagged_workers (ob_pool ob)) msgs)) as [rest ->].
  { intros r (w & -> & Hw)%list_elem_of_fmap. by apply Hmsgs. }
  cbn [mbind outcome_bind proxy_control_message]. rewrite bool_decide_true by done. cbn [mbind outcome_bind].
  pose proof (bd_replies _ _ _ _ _ Hbd) as Hrep. cbn in Hrep. rewrite bool_decide_true by (cbn; by rewrite Hrep).
  destruct st. cbn in *. by subst.
Qed.

Lemma start_binds hw cs ob :
  run_configs (object_new hw) cs = Ret ob → configs_ok (object_new hw) cs → fits (ob_pool ob) →
  Forall can_bind (ob_bind ob) →
  ∃ s st, system_start (ob_pool ob) = Ret s ∧
    bind_all bt_index 0 (ob_bind ob) (mk_proxy_state (inproc_listener (ob_net ob)) s [] [] ∅ [] [] ∅) = Ret st.
Proof using E.
  intros Hrun Hok Hfit Hbind. destruct (config_start hw cs ob Hrun Hok Hfit) as (s & Hs & _). exists s.
  destruct (bind_all_spec bt_index (ob_bind ob) 0 (mk_proxy_state (inproc_listener (ob_net ob)) s [] [] ∅ [] [] ∅) Hbind)
    as (st & Hst & _); [|by exists st].
  intros id Hid. pose proof (run_configs_net cs _ _ Hrun fresh_empty) as Hf. cbn in *.
  rewrite (fn_connections _ Hf), lookup_insert_ne by lia. apply Hf.
Qed.

(** The umask is restored exactly when every address could be bound: the exception of
    a failed one skips the restoring, although STARTUP_UMASK is documented to apply
    during [start] only. *)
Lemma startup_umask hw cs ob STARTUP_UMASK umask :
  run_configs (object_new hw) cs = Ret ob → configs_ok (object_new hw) cs → fits (ob_pool ob) →
  umask_after bt_index STARTUP_UMASK umask ob =
    if (0 <=? STARTUP_UMASK)%Z && negb (bool_decide (Forall can_bind (ob_bind ob)))
    then Z.land STARTUP_UMASK 511 else umask.
Proof using E.
  intros Hrun Hok Hfit. unfold umask_after. case_bool_decide as Hb.
  - destruct (start_binds hw cs ob Hrun Hok Hfit Hb) as (s & st & -> & ->). rewrite andb_false_r. by case_match.
  - destruct (config_start hw cs ob Hrun Hok Hfit) as (s & -> & _).
    replace (match bind_all _ _ _ _ with Ret _ => umask | _ => _ end) with (Z.land STARTUP_UMASK 511).
    + rewrite andb_true_r. destruct (Z.ltb_spec STARTUP_UMASK 0); destruct (Z.leb_spec 0 STARTUP_UMASK); try done; lia.
    + case_match eqn:Hall; [|done|done]. destruct Hb. by eapply bind_all_can.
Qed.

Lemma own_sockets_app l k : own_sockets (l ++ k) = (_ ← own_sockets l; own_sockets k).
Proof using.
  induction l as [|b l IH]; [done|]. cbn [app own_sockets]. destruct (parse_address _); [|done|done].
  cbn [mbind outcome_bind]. by destruct (if is_ipc _ then _ else _).
Qed.

(** C18: [start] either brings up everything that was configured or says why not.
    If all configured addresses can be bound, the owner of ipc sockets can be changed
    where that is asked for, and every tagged thread reports in,
    [start] returns: the proxy has answered READY, the scheduler is in an initial
    reachable state, every listener has the next connection id, a router socket, the
    ZAP domain of its own index and the policy its [listen] call gave, and the bind
    callbacks were called with true in order.  If the socket of a listener cannot be
    made, [start] throws zmq's error; if an address cannot be bound, it throws, and
    likewise, with the reason, if the owner of an ipc socket cannot be changed; if a
    tagged thread does not report in, it does not return. *)
Theorem start_ready hw cs ob msgs conn_check :
  run_configs (object_new hw) cs = Ret ob → configs_ok (object_new hw) cs → fits (ob_pool ob) →
  conn_check ≠ (-1)%Z →
  (Forall can_bind (ob_bind ob) → owners_ok ob → all_starting (ob_pool ob) msgs →
   ∃ st, OxenMQ_start EPH bt_index conn_check msgs ob = Ret (Some st) ∧
     px_replies st = [B "READY"] ∧ reachable (px_sys st) ∧
     px_bound st = (λ f, (f, true)) <$> omap snd (ob_bind ob) ∧
     length (px_bind st) = length (ob_bind ob) ∧
     ∀ i b f, ob_bind ob !! i = Some (b, f) →
       let id := (next_conn_id (ob_net ob) + 1 + Z.of_nat i)%Z in
       px_bind st !! i = Some (bound_to b id) ∧ connections (px_net st) !! id = Some Router ∧
       px_listeners st !! id = Some (mk_listener (bind_address b) (bt_index i) (bind_curve b))) ∧
  (Forall (λ bf, zsocket (bind_address (fst bf)) = None) (ob_bind ob) →
   (∃ bf, bf ∈ ob_bind ob ∧ zbind (bind_address (fst bf)) = false) →
   OxenMQ_start EPH bt_index conn_check msgs ob = Throw (zmq_error 0)) ∧
  (∀ before b f after e, ob_bind ob = before ++ (b, f) :: after → Forall can_bind before →
   zsocket (bind_address b) = Some e → OxenMQ_start EPH bt_index conn_check msgs ob = Throw (zmq_error e)) ∧
  (Forall can_bind (ob_bind ob) → ob_owned ob = true →
   ∀ before b after addr e, fst <$> ob_bind ob = before ++ b :: after → own_sockets before = Ret () →
     parse_address (bind_address b) = Ret addr → is_ipc addr = true → zchown (Address.socket addr) = Some e →
     OxenMQ_start EPH bt_index conn_check msgs ob =
       Throw (runtime_error (B "cannot set group on " ++ Address.socket addr ++ B ": " ++ strerror e))) ∧
  (Forall can_bind (ob_bind ob) → owners_ok ob → ¬ all_starting (ob_pool ob) msgs →
   OxenMQ_start EPH bt_index conn_check msgs ob = Ret None).
Proof using.
  intros Hrun Hok Hfit Hcheck. split_and!.
  - intros Hbind Hown Hmsgs. destruct (start_works hw cs ob msgs conn_check) as (s & st0 & st & Hr & _ & -> & Hbd & ->); try done.
    destruct Hbd as [H1 H2 H3 _ H4 H5 H6 H7 _]. cbn in *. eexists. split; [done|]. cbn. rewrite H1, H5, H6.
    split_and!; try done; [apply length_imap|].
    intros i b f Hi. destruct (H7 i b f Hi) as [Hl Hc]. rewrite list_lookup_imap, Hi. cbn.
    replace (next_conn_id (ob_net ob) + 1)%Z with (Z.succ (next_conn_id (ob_net ob))) by lia. done.
  - intros Hopen Hbad. destruct (config_start hw cs ob Hrun Hok Hfit) as (s & Hs & _).
    unfold OxenMQ_start, proxy_loop_init. rewrite Hs. cbn [mbind outcome_bind]. by rewrite bind_all_fails.
  - intros before b f after e Hsplit Hbefore He. destruct (config_start hw cs ob Hrun Hok Hfit) as (s & Hs & _).
    unfold OxenMQ_start, proxy_loop_init. rewrite Hs, Hsplit. cbn [mbind outcome_bind]. by rewrite (bind_all_socket _ _ _ _ _ _ _ e).
  - intros Hbind Hown before b after addr e Hsplit Hbefore Haddr Hipc He.
    destruct (start_binds hw cs ob) as (s & st & Hs & Hst); [done..|].
    unfold OxenMQ_start, proxy_loop_init. rewrite Hs. cbn [mbind outcome_bind]. rewrite Hst. cbn [mbind outcome_bind].
    rewrite Hown, Hsplit, own_sockets_app, Hbefore. cbn [mbind outcome_bind own_sockets].
    by rewrite Haddr; cbn [mbind outcome_bind]; rewrite Hipc, He.
  - intros Hbind Hown Hmsgs. destruct (start_binds hw cs ob) as (s & st & Hs & Hst); [done..|].
    unfold OxenMQ_start, proxy_loop_init. rewrite Hs. cbn [mbind outcome_bind]. rewrite Hst.
    cbn [mbind outcome_bind]. rewrite (owners_done ob Hown). cbn [mbind outcome_bind]. rewrite (proj2 (Z.eqb_neq _ _) Hcheck).
    destruct (wait_tagged _ msgs) as [rest|] eqn:Hw; [|done]. destruct Hmsgs. intros w Hin.
    apply (proj1 (wait_tagged_spec _ msgs) (mk_is_Some _ _ Hw)). apply list_elem_of_fmap. by exists w.
Qed.
End started.

(** The keys of an object.  Construction succeeds exactly when libsodium can be
    initialized and the caller gave either no keys, without claiming to be a service
    node, or a pair of 32-byte keys that belong together; the object then has a pair
    of 32-byte keys that belong together, the caller's if there were any. *)
Theorem object_keys_valid (S : Sodium) (L : SodiumLaws S) pubkey privkey service_node :
  (∀ pk sk, OxenMQ_keys pubkey privkey service_node = Ret (pk, sk) →
     length pk = 32 ∧ length sk = 32 ∧ crypto_scalarmult_base sk = pk ∧
     ((pubkey, privkey) ≠ ([], []) → (pk, sk) = (pubkey, privkey)) ∧
     (service_node = true → (pk, sk) = (pubkey, privkey))) ∧
  (is_Some (result (OxenMQ_keys pubkey privkey service_node)) ↔
   (sodium_init ≠ -1)%Z ∧
   ((pubkey, privkey) = ([], []) ∧ service_node = false ∨
    length pubkey = 32 ∧ length privkey = 32 ∧ crypto_scalarmult_base privkey = pubkey)).
Proof.
  pose proof keypair_sizes as [Hp Hs]. pose proof keypair_matches as Hm. unfold OxenMQ_keys.
  assert (∀ e (P : Prop), ¬ P → (∀ pk sk, Throw e = Ret (pk, sk) → length pk = 32 ∧ length sk = 32 ∧
    crypto_scalarmult_base sk = pk ∧ ((pubkey, privkey) ≠ ([], []) → (pk, sk) = (pubkey, privkey)) ∧
    (service_node = true → (pk, sk) = (pubkey, privkey))) ∧ (is_Some (result (Throw e : outcome (bytes * bytes))) ↔ P)) as Hthrow.
  { intros e P HP. split; [done|]. split; [by intros []|done]. }
  destruct (Z.eqb_spec sodium_init (-1)) as [|Hi]; [apply Hthrow; by intros [? _]|].
  destruct (bool_decide (pubkey = [])) eqn:E1, (bool_decide (privkey = [])) eqn:E2; bool_cases; cbn [Bool.eqb negb].
  - subst. destruct service_node; [apply Hthrow; by intros [_ [[_ ?]|(? & _)]]|]. split.
    + intros pk sk [= H]. rewrite H in *. done.
    + split; [intros _; split; [done|]; by left|by eexists].
  - subst. apply Hthrow. intros [_ [[[= ?] _]|(? & _)]]; done.
  - subst. apply Hthrow. intros [_ [[[= ?] _]|(_ & ? & _)]]; done.
  - destruct (Nat.eqb_spec (length pubkey) crypto_box_PUBLICKEYBYTES) as [H1|H1]; cbn [negb].
    2: { apply Hthrow. intros [_ [[[=] _]|(? & _)]]; done. }
    destruct (Nat.eqb_spec (length privkey) crypto_box_SECRETKEYBYTES) as [H2|H2]; cbn [negb].
    2: { apply Hthrow. intros [_ [[[=] _]|(_ & ? & _)]]; done. }
    destruct (bool_decide (crypto_scalarmult_base privkey = pubkey)) eqn:H3; bool_cases; cbn [negb].
    2: { apply Hthrow. intros [_ [[[=] _]|(_ & _ & ?)]]; done. }
    split; [by intros pk sk [= <- <-]|]. split; [intros _; split; [done|]; by right|by eexists].
Qed.

(** Keys that are their own public keys. *)
Definition sample_sodium : Sodium := {|
  sodium_init := 0; crypto_box_keypair := (replicate 32 "k"%char, replicate 32 "k"%char);
  crypto_scalarmult_base s := s |}.
Lemma sample_sodium_laws : SodiumLaws sample_sodium.
Proof. split; [split|]; reflexivity. Qed.

Lemma object_keys_valid_witness :
  length (fst (@crypto_box_keypair sample_sodium)) = 32 ∧
  OxenMQ_keys (H := sample_sodium) [] [] false = Ret (@crypto_box_keypair sample_sodium).
Proof.
  split; [|reflexivity].
  destruct (object_keys_valid sample_sodium sample_sodium_laws [] [] false) as [H _].
  exact (proj1 (H _ _ eq_refl)).
Defined.

Definition sample_policy : AllowFunc := λ _ _ sn, if sn then admin else basic.
(** One listener for encrypted connections, one tagged thread. *)
Definition sample_configs : list config :=
  [CPool (SetGeneral 1); CPool (AddTagged (B "helper")); CSns {[ sample_sn ]};
   CListenCurve (B "tcp://127.0.0.1:4567") (Some sample_policy) (Some 5)].
Definition sample_index (i : nat) : bytes := B "i" ++ to_string (Z.of_nat i) ++ B "e".
Definition sample_started : list (list bytes) := [[routing_id true 1; B "STARTING"]].

Lemma sample_configs_ok ob : configs_ok ob sample_configs.
Proof. cbn [configs_ok sample_configs]. repeat (split; [done|intros ? _]); done. Qed.

(** The configured sample. *)
Lemma sample_configured :
  ∃ ob, run_configs (object_new 4) sample_configs = Ret ob ∧ fits (ob_pool ob) ∧
    all_starting (ob_pool ob) sample_started ∧ omap snd (ob_bind ob) = [5].
Proof.
  destruct (run_configs (object_new 4) sample_configs) as [ob| |] eqn:Hob; [|exfalso; vm_compute in Hob; discriminate..].
  exists ob. split; [reflexivity|]. vm_compute in Hob. injection Hob as <-. split; [split; vm_compute; done|].
  split; [|reflexivity]. intros w. cbn [tagged_workers ob_pool]. rewrite list_elem_of_singleton. intros ->. left.
Qed.
Lemma sample_binds l : Forall (can_bind (env := sample_env 5)) l.
Proof. apply Forall_forall. intros bf _. split; reflexivity. Qed.

Lemma sample_owners ob : run_configs (object_new 4) sample_configs = Ret ob →
  owners_ok (O := Standard.oxenc) (env := sample_env 5) ob.
Proof. intros H. vm_compute in H. injection H as <-. discriminate. Qed.

Lemma start_ready_witness :
  ∃ ob st, run_configs (object_new 4) sample_configs = Ret ob ∧
    OxenMQ_start (E := sample_eval) (O := Standard.oxenc) (env := sample_env 5) true sample_index 3 sample_started ob = Ret (Some st) ∧
    px_bound st = [(5, true)] ∧ px_replies st = [B "READY"].
Proof.
  destruct sample_configured as (ob & Hob & Hfit & Hall & Hfs).
  destruct (start_ready (E := sample_eval) (O := Standard.oxenc) (env := sample_env 5) true sample_index 4 sample_configs ob sample_started 3 Hob
    (sample_configs_ok _) Hfit ltac:(lia)) as [H _].
  destruct (H (sample_binds _) (sample_owners ob Hob) Hall) as (st & H1 & H2 & _ & H3 & _).
  exists ob, st. split; [exact Hob|]. split; [exact H1|]. split; [|exact H2]. rewrite H3, Hfs. reflexivity.
Defined.
