(* ===== verification/TaggedGate.v ===== *)
(** * TaggedGate: how tagged threads are let in, or sent home

    A tagged thread is created before [start] and waits on the condition variable
    [tagged_cv] until [tagged_go] changes ([worker_thread], [worker.cpp]).  Two
    places change it: [proxy_loop_init] ([proxy.cpp]) lets the threads go and then
    waits for the STARTING message of each, and the destructor of an object whose
    proxy is not running ([oxenmq.cpp]) sends them home and joins them.  Here the
    threads and the one that opens the gate run interleaved, one step being an
    access to the mutex, the condition variable, [tagged_go] or a socket; waits on
    the condition variable may wake up for no reason. *)
From S2P Require Import Prelude Bytes Oxenc Address Auth ConnId Commands Batch Pool Options Net ServiceNodes NetSteps Tables.
From S2P Require Import PoolSlots Threads PoolInv PoolSteps PoolSafe Proxy Start.
Open Scope nat_scope.

Inductive tagged_go_mode := WAIT | GO | SHUTDOWN.
#[export] Instance tagged_go_mode_eq_dec : EqDecision tagged_go_mode.
Proof. solve_decision. Defined.

(** Where a tagged thread is: about to lock the mutex, about to test the predicate
    with the mutex locked, in the wait, out of it, past STARTING, or returned. *)
Inductive tagged_pc := TLock | TTest | TBlocked | TPassed | TAnnounced | TEnded.
#[export] Instance tagged_pc_eq_dec : EqDecision tagged_pc.
Proof. solve_decision. Defined.

(** Where the thread that opens the gate is; [OJoin k] is about to join the thread at
    [k], [OCollect] waits for the STARTING messages. *)
Inductive opener_pc := OLock | OSet | ONotify | OJoin (k : nat) | OCollect | ODone.
#[export] Instance opener_pc_eq_dec : EqDecision opener_pc.
Proof. solve_decision. Defined.

Inductive holder := ByOpener | ByThread (i : nat).

Record gate := mk_gate {
  tagged_go : tagged_go_mode;
  startup_mutex : option holder;
  gt_threads : list tagged_pc;
  gt_opener : opener_pc;
  gt_msgs : list (list bytes); (* received on the workers socket *)
}.
#[export] Instance gate_rebuild : Rebuild gate := λ g,
  mk_gate (tagged_go g) (startup_mutex g) (gt_threads g) (gt_opener g) (gt_msgs g).

(** The message of the thread at [i], whose index is [i + 1]. *)
Definition starting_msg (i : nat) : list bytes := [routing_id true (Z.of_nat i + 1); B "STARTING"].

(** A step of [worker_thread] up to STARTING; [None] when the thread cannot go on. *)
Definition tagged_step (i : nat) (g : gate) : option gate :=
  t ← gt_threads g !! i;
  match t with
  | TLock =>
      match startup_mutex g with
      | Some _ => None
      | None => Some (g <| startup_mutex := Some (ByThread i) |> <| gt_threads ::= <[ i := TTest ]> |>)
      end
  | TTest =>
      Some (g <| startup_mutex := None |>
              <| gt_threads ::= <[ i := if decide (tagged_go g = WAIT) then TBlocked else TPassed ]> |>)
  | TPassed =>
      if decide (tagged_go g = SHUTDOWN) then Some (g <| gt_threads ::= <[ i := TEnded ]> |>)
      else Some (g <| gt_msgs ::= (λ l, l ++ [starting_msg i]) |> <| gt_threads ::= <[ i := TAnnounced ]> |>)
  | TBlocked | TAnnounced | TEnded => None
  end.

(** A wait ends without a notification; the thread locks the mutex again. *)
Definition spurious_step (i : nat) (g : gate) : option gate :=
  if decide (gt_threads g !! i = Some TBlocked) then Some (g <| gt_threads ::= <[ i := TLock ]> |>) else None.

(** [tagged_cv.notify_all()]. *)
Definition wake (t : tagged_pc) : tagged_pc := if decide (t = TBlocked) then TLock else t.

(** The threads [proxy_loop_init] waits for. *)
Definition waiting_on (p : pool) : list bytes := (λ w, worker_routing_id (fst (fst w))) <$> tagged_workers p.

Section gate.
Context (mode : tagged_go_mode) (p : pool).

(** A step of the destructor ([mode] SHUTDOWN) or of [proxy_loop_init] (GO). *)
Definition opener_step (g : gate) : option gate :=
  match gt_opener g with
  | OLock =>
      match startup_mutex g with
      | Some _ => None
      | None => Some (g <| startup_mutex := Some ByOpener |> <| gt_opener := OSet |>)
      end
  | OSet => Some (g <| tagged_go := mode |> <| startup_mutex := None |> <| gt_opener := ONotify |>)
  | ONotify =>
      Some (g <| gt_threads ::= fmap wake |>
              <| gt_opener := if decide (mode = SHUTDOWN) then OJoin 0 else OCollect |>)
  | OJoin k =>
      match gt_threads g !! k with
      | None => Some (g <| gt_opener := ODone |>)
      | Some t => if decide (t = TEnded) then Some (g <| gt_opener := OJoin (S k) |>) else None
      end
  | OCollect =>
      match wait_tagged (waiting_on p) (gt_msgs g) with
      | Some _ => Some (g <| gt_opener := ODone |>)
      | None => None
      end
  | ODone => None
  end.

(** Nothing is done when there are no tagged threads. *)
Definition gate_new : gate :=
  mk_gate WAIT None (replicate (length (tagged_workers p)) TLock)
    (if decide (tagged_workers p = []) then ODone else OLock) [].

Inductive gate_event := GThread (i : nat) | GSpurious (i : nat) | GOpener.

Definition gate_step (e : gate_event) (g : gate) : option gate :=
  match e with
  | GThread i => tagged_step i g
  | GSpurious i => spurious_step i g
  | GOpener => opener_step g
  end.
Fixpoint gate_run (es : list gate_event) (g : gate) : option gate :=
  match es with
  | [] => Some g
  | e :: es => g ← gate_step e g; gate_run es g
  end.

Definition is_spurious (e : gate_event) : bool := match e with GSpurious _ => true | _ => false end.
Definition spurious (es : list gate_event) : nat := length (filter (λ e, is_spurious e = true) es).

(** Nobody can go on. *)
Definition gate_stuck (g : gate) : Prop := ∀ e, is_spurious e = false → gate_step e g = None.

(** What the opener has waited for. *)
Definition gate_open (g : gate) : Prop :=
  if decide (mode = SHUTDOWN) then ∀ t, t ∈ gt_threads g → t = TEnded else all_starting p (gt_msgs g).
End gate.

(** * Lemmas *)

(** [tagged_go] has not been changed yet. *)
Definition closed (o : opener_pc) : bool := match o with OLock | OSet => true | _ => false end.

Section gate_props.
Context (mode : tagged_go_mode) (p : pool) (Hmode : mode ≠ WAIT).

(** What is known of the thread at [i]. *)
Definition thread_fine (g : gate) (i : nat) (t : tagged_pc) : Prop :=
  match t with
  | TLock => True
  | TTest => startup_mutex g = Some (ByThread i)
  | TBlocked => closed (gt_opener g) = true ∨ gt_opener g = ONotify
  | TPassed => tagged_go g ≠ WAIT
  | TAnnounced => tagged_go g = GO ∧ starting_msg i ∈ gt_msgs g
  | TEnded => tagged_go g = SHUTDOWN
  end.

Definition opener_fine (g : gate) : Prop :=
  match gt_opener g with
  | OSet => startup_mutex g = Some ByOpener
  | OLock | ONotify => True
  | OJoin k => mode = SHUTDOWN ∧ k ≤ length (gt_threads g) ∧ ∀ i, i < k → gt_threads g !! i = Some TEnded
  | OCollect => mode = GO
  | ODone => gate_open mode p g
  end.

Record gate_ok (g : gate) : Prop := {
  gk_len : length (gt_threads g) = length (tagged_workers p);
  gk_go : tagged_go g = if closed (gt_opener g) then WAIT else mode;
  gk_threads : ∀ i t, gt_threads g !! i = Some t → thread_fine g i t;
  gk_opener : opener_fine g;
  gk_mutex : match startup_mutex g with
    | None => True
    | Some ByOpener => gt_opener g = OSet
    | Some (ByThread i) => gt_threads g !! i = Some TTest
    end;
  gk_msgs : ∀ m, m ∈ gt_msgs g → tagged_go g = GO;
}.

Lemma gate_ok_new : tagged_workers p ≠ [] → gate_ok (gate_new p).
Proof using.
  intros Hne. unfold gate_new. rewrite decide_False by done. split; cbn; try done.
  - by rewrite length_replicate.
  - intros i t [-> _]%lookup_replicate. done.
  - by intros m ?%not_elem_of_nil.
Qed.

(** The thread at [i] moves to [u]; the others only see the mutex change. *)
Lemma gate_ok_move g i t u mu ms :
  gate_ok g → gt_threads g !! i = Some t → t ≠ TEnded →
  let g' := mk_gate (tagged_go g) mu (<[ i := u ]> (gt_threads g)) (gt_opener g) (gt_msgs g ++ ms) in
  thread_fine g' i u →
  (∀ j, j ≠ i → gt_threads g !! j = Some TTest → mu = Some (ByThread j)) →
  (gt_opener g = OSet → mu = Some ByOpener) →
  match mu with None => True | Some ByOpener => gt_opener g = OSet | Some (ByThread j) => <[ i := u ]> (gt_threads g) !! j = Some TTest end →
  (ms ≠ [] → tagged_go g = GO) → gate_ok g'.
Proof using.
  intros [Hl Hgo Ht Ho Hm Hms] Hi Hne g' Hu Hothers Hset Hmu Hgo'. split; cbn; try done.
  - by rewrite length_insert.
  - intros j v Hj. destruct (decide (j = i)) as [->|Hji].
    + rewrite list_lookup_insert_eq in Hj by (by eapply lookup_lt_Some). by injection Hj as <-.
    + rewrite list_lookup_insert_ne in Hj by done. specialize (Ht j v Hj). destruct v; cbn in *; try done.
      * by apply Hothers.
      * destruct Ht. split; [done|]. apply elem_of_app. by left.
  - unfold opener_fine in *. cbn. destruct (gt_opener g) eqn:Eo; try done; [by apply Hset| |].
    + destruct Ho as (? & ? & Hk). split_and!; [done|by rewrite length_insert|]. intros j Hj.
      destruct (decide (j = i)) as [->|Hji]; [specialize (Hk i Hj); congruence|].
      rewrite list_lookup_insert_ne by done. by apply Hk.
    + unfold gate_open in *. cbn. case_decide.
      * destruct Hne. apply Ho. by eapply list_elem_of_lookup_2.
      * intros w Hw. apply elem_of_app. left. by apply Ho.
  - intros m [?|Hin]%elem_of_app; [by eapply Hms|]. apply Hgo'. by intros ->; apply not_elem_of_nil in Hin.
Qed.

(** The same without a message. *)
Lemma gate_ok_move' g i t u mu :
  gate_ok g → gt_threads g !! i = Some t → t ≠ TEnded →
  let g' := mk_gate (tagged_go g) mu (<[ i := u ]> (gt_threads g)) (gt_opener g) (gt_msgs g) in
  thread_fine g' i u →
  (∀ j, j ≠ i → gt_threads g !! j = Some TTest → mu = Some (ByThread j)) →
  (gt_opener g = OSet → mu = Some ByOpener) →
  match mu with None => True | Some ByOpener => gt_opener g = OSet | Some (ByThread j) => <[ i := u ]> (gt_threads g) !! j = Some TTest end →
  gate_ok g'.
Proof using.
  intros Hok Hi Hne. pose proof (gate_ok_move g i t u mu [] Hok Hi Hne) as H. rewrite app_nil_r in H. cbn zeta in *.
  intros. by apply H.
Qed.

Lemma tagged_step_ok i g g' : gate_ok g → tagged_step i g = Some g' → gate_ok g'.
Proof using Hmode.
  intros Hok H. unfold tagged_step in H. destruct (gt_threads g !! i) as [t|] eqn:Hi; [cbn [mbind option_bind] in H|done].
  pose proof (gk_threads g Hok i t Hi) as Hfine. pose proof (gk_opener g Hok) as Ho. pose proof (gk_mutex g Hok) as Hm.
  assert (i < length (gt_threads g)) as Hlt by (by eapply lookup_lt_Some).
  assert (∀ j, gt_threads g !! j = Some TTest → startup_mutex g = Some (ByThread j)) as Htest
    by (intros j; exact (gk_threads g Hok j TTest)).
  assert (gt_opener g = OSet → startup_mutex g = Some ByOpener) as Hset by (unfold opener_fine in Ho; by intros Eo; rewrite Eo in Ho).
  destruct t; try done.
  - destruct (startup_mutex g) eqn:Emu; [done|]. injection H as <-.
    refine (gate_ok_move' g i TLock TTest _ Hok Hi ltac:(done) _ _ _ _); [done| | |].
    + intros j _ Hj. by specialize (Htest j Hj).
    + intros Eo. by specialize (Hset Eo).
    + by apply list_lookup_insert_eq.
  - injection H as <-. cbn in Hfine.
    refine (gate_ok_move' g i TTest _ None Hok Hi ltac:(done) _ _ _ _); [| | |done].
    + case_decide as Eg; [|done]. left. cbn. rewrite (gk_go g Hok) in Eg. destruct (closed (gt_opener g)); [done|congruence].
    + intros j Hj Hjt. apply Htest in Hjt. congruence.
    + intros Eo. apply Hset in Eo. congruence.
  - cbn in Hfine.
    assert (∀ u, u ≠ TTest → match startup_mutex g with None => True | Some ByOpener => gt_opener g = OSet
      | Some (ByThread j) => <[ i := u ]> (gt_threads g) !! j = Some TTest end) as Hmu.
    { intros u _. destruct (startup_mutex g) as [[|j]|]; [done| |done]. rewrite list_lookup_insert_ne; [done|congruence]. }
    case_decide as Eg; injection H as <-.
    + refine (gate_ok_move' g i TPassed TEnded (startup_mutex g) Hok Hi ltac:(done) _ _ Hset _); [done|by auto|by apply Hmu].
    + assert (tagged_go g = GO) as Ego by (destruct (tagged_go g); done).
      refine (gate_ok_move g i TPassed TAnnounced (startup_mutex g) [starting_msg i] Hok Hi ltac:(done) _ _ Hset _ _);
        [|by auto|by apply Hmu|done].
      split; [done|]. cbn. apply elem_of_app. right. by apply list_elem_of_here.
Qed.

Lemma spurious_step_ok i g g' : gate_ok g → spurious_step i g = Some g' → gate_ok g'.
Proof using.
  intros Hok H. unfold spurious_step in H. case_decide as Hi; [injection H as <-|done].
  refine (gate_ok_move' g i TBlocked TLock (startup_mutex g) Hok Hi ltac:(done) _ _ _ _); [done| | |].
  - intros j _ Hj. exact (gk_threads g Hok j TTest Hj).
  - intros Eo. pose proof (gk_opener g Hok) as Ho. unfold opener_fine in Ho. by rewrite Eo in Ho.
  - pose proof (gk_mutex g Hok) as Hm. destruct (startup_mutex g) as [[|j]|]; [done| |done].
    rewrite list_lookup_insert_ne; [done|congruence].
Qed.

Lemma wake_lookup (l : list tagged_pc) i t : (wake <$> l) !! i = Some t → (l !! i = Some t ∧ t ≠ TBlocked) ∨ t = TLock.
Proof using.
  rewrite list_lookup_fmap. intros (u & Hu & ->)%fmap_Some. unfold wake. case_decide; [by right|by left].
Qed.
Lemma wake_keeps (l : list tagged_pc) i t : l !! i = Some t → t ≠ TBlocked → (wake <$> l) !! i = Some t.
Proof using. intros Hi Ht. rewrite list_lookup_fmap, Hi. cbn. unfold wake. by rewrite decide_False. Qed.

(** The opener moves on, leaving the threads alone. *)
Lemma gate_ok_opener g o :
  gate_ok g → closed (gt_opener g) = false → gt_opener g ≠ ONotify → closed o = false →
  opener_fine (g <| gt_opener := o |>) → gate_ok (g <| gt_opener := o |>).
Proof using.
  intros [Hl Hgo Ht Ho Hm Hms] Hc Hn Ho' Hf. rewrite Hc in Hgo. split; cbn; try done.
  - by rewrite Ho'.
  - intros i t Hi. specialize (Ht i t Hi). destruct t; cbn in *; try done. destruct Ht; congruence.
  - destruct (startup_mutex g) as [[|i]|]; [|done|done]. by rewrite Hm in Hc.
Qed.

Lemma gate_ok_notify g :
  gate_ok g → gt_opener g = ONotify →
  gate_ok (g <| gt_threads ::= fmap wake |> <| gt_opener := if decide (mode = SHUTDOWN) then OJoin 0 else OCollect |>).
Proof using Hmode.
  intros [Hl Hgo Ht Ho Hm Hms] Eo. rewrite Eo in Hgo. cbn in Hgo.
  set (o := if decide (mode = SHUTDOWN) then OJoin 0 else OCollect).
  assert (closed o = false ∧ o ≠ ONotify) as [Hc Hn] by (unfold o; by case_decide).
  split; cbn; try done.
  - by rewrite length_fmap.
  - by rewrite Hc.
  - intros i t [[Hi Hb]| ->]%wake_lookup; [|done]. pose proof (Ht i t Hi) as Hf. by destruct t.
  - unfold opener_fine, o. cbn. case_decide; [|by destruct mode]. split_and!; [done|lia|]. intros; lia.
  - destruct (startup_mutex g) as [[|i]|]; [congruence| |done]. by apply wake_keeps.
Qed.

Lemma opener_step_ok g g' : gate_ok g → opener_step mode p g = Some g' → gate_ok g'.
Proof using Hmode.
  intros Hok H. unfold opener_step in H. pose proof (gk_opener g Hok) as Ho. unfold opener_fine in Ho.
  destruct (gt_opener g) as [| | |k| |] eqn:Eo.
  - destruct (startup_mutex g) eqn:Emu; [done|]. injection H as <-. destruct Hok as [Hl Hgo Ht _ Hm Hms].
    rewrite Eo in Hgo. split; cbn; try done. intros i t Hi. specialize (Ht i t Hi).
    destruct t; cbn in *; try done; [congruence|by left].
  - injection H as <-. destruct Hok as [Hl Hgo Ht _ Hm Hms]. rewrite Eo in Hgo. cbn in Hgo. split; cbn; try done.
    + intros i t Hi. specialize (Ht i t Hi). destruct t; cbn in *; try done; rewrite ?Hgo in Ht.
      * rewrite Ho in Ht. done.
      * by right.
      * by destruct Ht.
      * done.
    + intros m Hm'. specialize (Hms m Hm'). congruence.
  - injection H as <-. by apply gate_ok_notify.
  - destruct Ho as (Emode & Hk & Hended).
    assert (∀ o, closed o = false → opener_fine (g <| gt_opener := o |>) → gate_ok (g <| gt_opener := o |>)) as Hmove
      by (intros o; apply gate_ok_opener; by rewrite ?Eo).
    destruct (gt_threads g !! k) as [t|] eqn:Hkt.
    + case_decide as Et; [subst t|done]. injection H as <-. apply Hmove; [done|]. unfold opener_fine. cbn.
      split_and!; [done|by eapply lookup_lt_Some in Hkt|]. intros i Hi. destruct (decide (i = k)) as [->|]; [done|].
      apply Hended. lia.
    + injection H as <-. apply Hmove; [done|]. unfold opener_fine, gate_open. cbn. rewrite decide_True by done.
      intros t (i & Hi)%list_elem_of_lookup. apply lookup_ge_None in Hkt.
      assert (i < k) as Hik by (apply lookup_lt_Some in Hi; lia). specialize (Hended i Hik). congruence.
  - destruct (wait_tagged _ _) as [rest|] eqn:Hw; [injection H as <-|done].
    refine (gate_ok_opener g ODone Hok _ _ _ _); [by rewrite Eo|by rewrite Eo|done|].
    unfold opener_fine, gate_open. cbn. rewrite decide_False by congruence.
    pose proof (proj1 (wait_tagged_spec _ _) (mk_is_Some _ _ Hw)) as Hall. intros w Hin. apply Hall.
    apply list_elem_of_fmap. by exists w.
  - done.
Qed.

Lemma gate_step_ok e g g' : gate_ok g → gate_step mode p e g = Some g' → gate_ok g'.
Proof using Hmode.
  destruct e; cbn [gate_step]; [by apply tagged_step_ok|by apply spurious_step_ok|by apply opener_step_ok].
Qed.

(** ** Every run is finite *)

(** The steps a thread has left in this phase, and those the opener has left. *)
Definition rank (go : tagged_go_mode) (t : tagged_pc) : nat :=
  if decide (go = WAIT) then match t with TLock => 2 | TTest => 1 | _ => 0 end
  else match t with TBlocked => 4 | TLock => 3 | TTest => 2 | TPassed => 1 | _ => 0 end.
Definition opener_rank (n : nat) (o : opener_pc) : nat :=
  match o with
  | OLock => 5 * n + 4 | OSet => 5 * n + 3 | ONotify => n + 2 | OJoin k => n + 1 - k | OCollect => 1 | ODone => 0
  end.
Definition gate_rank (g : gate) : nat :=
  sum_list (rank (tagged_go g) <$> gt_threads g) + opener_rank (length (gt_threads g)) (gt_opener g).

Lemma rank_move g i t u mu ms :
  gt_threads g !! i = Some t →
  gate_rank (mk_gate (tagged_go g) mu (<[ i := u ]> (gt_threads g)) (gt_opener g) ms) + rank (tagged_go g) t =
  gate_rank g + rank (tagged_go g) u.
Proof using.
  intros Hi. unfold gate_rank. cbn. rewrite length_insert. pose proof (sum_fmap_insert (rank (tagged_go g)) _ _ _ u Hi). lia.
Qed.

Lemma tagged_step_rank i g g' : gate_ok g → tagged_step i g = Some g' → gate_rank g' < gate_rank g.
Proof using.
  intros Hok H. unfold tagged_step in H. destruct (gt_threads g !! i) as [t|] eqn:Hi; [cbn [mbind option_bind] in H|done].
  assert (∀ u mu ms, rank (tagged_go g) u < rank (tagged_go g) t →
    gate_rank (mk_gate (tagged_go g) mu (<[ i := u ]> (gt_threads g)) (gt_opener g) ms) < gate_rank g) as Hless.
  { intros u mu ms Hu. pose proof (rank_move g i t u mu ms Hi). lia. }
  destruct t; try done.
  - destruct (startup_mutex g); [done|]. injection H as <-. apply Hless. unfold rank. case_decide; lia.
  - injection H as <-. apply Hless. unfold rank. case_decide; lia.
  - pose proof (gk_threads g Hok i _ Hi) as Hgo. cbn in Hgo.
    case_decide; injection H as <-; apply Hless; unfold rank; rewrite !(decide_False (P := tagged_go g = WAIT)) by done; lia.
Qed.

Lemma spurious_step_rank i g g' : spurious_step i g = Some g' → gate_rank g' ≤ gate_rank g + 2.
Proof using.
  unfold spurious_step. case_decide as Hi; [|done]. intros [= <-].
  pose proof (rank_move g i TBlocked TLock (startup_mutex g) (gt_msgs g) Hi) as H.
  change (gate_rank (mk_gate (tagged_go g) (startup_mutex g) (<[ i := TLock ]> (gt_threads g)) (gt_opener g) (gt_msgs g)) ≤ gate_rank g + 2).
  unfold rank in H. destruct (decide (tagged_go g = WAIT)); lia.
Qed.

Lemma rank_wake go l : sum_list (rank go <$> (wake <$> l)) ≤ sum_list (rank go <$> l) + if decide (go = WAIT) then 2 * length l else 0.
Proof using.
  induction l as [|t l IH]; [case_decide; cbn; lia|]. rewrite fmap_cons, !sum_fmap_cons. cbn [length].
  assert (rank go (wake t) ≤ rank go t + if decide (go = WAIT) then 2 else 0).
  { unfold wake, rank. destruct (decide (t = TBlocked)) as [->|]; destruct (decide (go = WAIT)); lia. }
  destruct (decide (go = WAIT)); lia.
Qed.

Lemma opener_step_rank g g' : gate_ok g → opener_step mode p g = Some g' → gate_rank g' < gate_rank g.
Proof using Hmode.
  intros Hok H. unfold opener_step in H. pose proof (gk_opener g Hok) as Ho. unfold opener_fine in Ho.
  pose proof (gk_go g Hok) as Hgo. destruct (gt_opener g) as [| | |k| |] eqn:Eo; cbn in Hgo.
  - destruct (startup_mutex g); [done|]. injection H as <-. unfold gate_rank. cbn. rewrite Eo. cbn. lia.
  - injection H as <-. unfold gate_rank. cbn [tagged_go gt_threads gt_opener modify startup_mutex gt_msgs]. cbn. rewrite Eo. cbn [opener_rank].
    pose proof (sum_fmap_le (rank mode) 4 (gt_threads g)) as Hs.
    assert (∀ t, rank mode t ≤ 4) as Hr by (intros t; unfold rank; case_decide; destruct t; lia). specialize (Hs Hr). lia.
  - injection H as <-. unfold gate_rank. cbn [tagged_go gt_threads gt_opener modify startup_mutex gt_msgs]. cbn. rewrite Eo, length_fmap.
    pose proof (rank_wake (tagged_go g) (gt_threads g)) as Hw. rewrite decide_False in Hw by congruence.
    case_decide; cbn [opener_rank]; lia.
  - destruct Ho as (_ & Hk & _). destruct (gt_threads g !! k) as [t|] eqn:Hkt.
    + case_decide; [|done]. injection H as <-. apply lookup_lt_Some in Hkt. unfold gate_rank. cbn. rewrite Eo. cbn [opener_rank]. lia.
    + injection H as <-. unfold gate_rank. cbn. rewrite Eo. cbn [opener_rank]. lia.
  - destruct (wait_tagged _ _); [|done]. injection H as <-. unfold gate_rank. cbn. rewrite Eo. cbn. lia.
  - done.
Qed.

Lemma gate_run_ok es g g' :
  gate_ok g → gate_run mode p es g = Some g' → gate_ok g' ∧ length es + gate_rank g' ≤ gate_rank g + 3 * spurious es.
Proof using Hmode.
  revert g. induction es as [|e es IH]; intros g Hok H; cbn [gate_run] in H; [injection H as <-; split; [done|cbn; lia]|].
  destruct (gate_step mode p e g) as [g1|] eqn:H1; [cbn in H|done].
  destruct (IH g1 (gate_step_ok e g g1 Hok H1) H) as [Hok' Hr]. split; [done|]. cbn [length].
  destruct e; cbn [gate_step] in H1.
  - apply tagged_step_rank in H1; [|done]. unfold spurious in *. rewrite filter_cons_False by done. lia.
  - apply spurious_step_rank in H1. unfold spurious in *. rewrite filter_cons_True by done. cbn [length]. lia.
  - apply opener_step_rank in H1; [|done]. unfold spurious in *. rewrite filter_cons_False by done. lia.
Qed.

(** ** A gate that cannot go on is open *)

(** Where a thread is at the end. *)
Definition thread_end : tagged_pc := if decide (mode = SHUTDOWN) then TEnded else TAnnounced.

Lemma stuck_threads g :
  gate_ok g → gate_stuck mode p g → closed (gt_opener g) = false ∧ ∀ i t, gt_threads g !! i = Some t → t = thread_end.
Proof using Hmode.
  intros Hok Hs. pose proof (Hs GOpener eq_refl) as Hop. cbn in Hop. unfold opener_step in Hop.
  assert (∀ i t, gt_threads g !! i = Some t → t ≠ TTest ∧ t ≠ TPassed ∧ (startup_mutex g = None → t ≠ TLock)) as Ht.
  { intros i t Hi. pose proof (Hs (GThread i) eq_refl) as H. cbn in H. unfold tagged_step in H. rewrite Hi in H. cbn in H.
    split_and!; [by intros ->|intros ->; by case_decide|]. intros Hmu ->. by rewrite Hmu in H. }
  assert (gt_opener g ≠ OSet ∧ gt_opener g ≠ ONotify) as [Hset Hnot] by (split; intros E; by rewrite E in Hop).
  assert (startup_mutex g = None) as Hmu.
  { pose proof (gk_mutex g Hok) as Hm. destruct (startup_mutex g) as [[|i]|]; [done| |done]. by destruct (Ht i TTest Hm). }
  assert (closed (gt_opener g) = false) as Hc.
  { destruct (gt_opener g); try done. by rewrite Hmu in Hop. }
  split; [done|]. intros i t Hi. destruct (Ht i t Hi) as (H1 & H2 & H3). specialize (H3 Hmu).
  pose proof (gk_threads g Hok i t Hi) as Hf. pose proof (gk_go g Hok) as Hgo. rewrite Hc in Hgo. unfold thread_end.
  destruct t; cbn in Hf; try done.
  - destruct Hf; congruence.
  - destruct Hf as [Hf _]. rewrite decide_False; [done|congruence].
  - rewrite decide_True; [done|congruence].
Qed.

Lemma starting_all g :
  configured p → gate_ok g → mode = GO → (∀ i t, gt_threads g !! i = Some t → t = TAnnounced) → all_starting p (gt_msgs g).
Proof using.
  intros Hp Hok Hm Hall w (i & Hi)%list_elem_of_lookup. rewrite (cf_tagged p Hp i w Hi). cbn.
  assert (i < length (gt_threads g)) as Hlt by (rewrite (gk_len g Hok); by eapply lookup_lt_Some).
  destruct (lookup_lt_is_Some_2 _ _ Hlt) as [t Ht]. pose proof (gk_threads g Hok i t Ht) as Hf.
  rewrite (Hall i t Ht) in Hf. apply Hf.
Qed.

Lemma stuck_done g :
  configured p → gate_ok g → gate_stuck mode p g →
  gt_opener g = ODone ∧ gt_threads g = replicate (length (tagged_workers p)) thread_end.
Proof using Hmode.
  intros Hp Hok Hs. destruct (stuck_threads g Hok Hs) as [Hc Ht]. split.
  - pose proof (Hs GOpener eq_refl) as Hop. cbn in Hop. unfold opener_step in Hop.
    pose proof (gk_opener g Hok) as Ho. unfold opener_fine in Ho. unfold thread_end in Ht.
    destruct (gt_opener g) as [| | |k| |]; try done.
    + destruct Ho as (Hm & _). rewrite decide_True in Ht by done.
      destruct (gt_threads g !! k) as [t|] eqn:Hk; [|done]. rewrite (Ht k t Hk), decide_True in Hop by done. done.
    + rewrite decide_False in Ht by congruence. pose proof (starting_all g Hp Hok Ho Ht) as Hall.
      destruct (proj2 (wait_tagged_spec (waiting_on p) (gt_msgs g))) as [rest Hr]; [|by rewrite Hr in Hop].
      intros r (w & -> & Hw)%list_elem_of_fmap. by apply Hall.
  - rewrite <- (gk_len g Hok). symmetry. apply replicate_as_elem_of. split; [done|].
    intros t (i & Hi)%list_elem_of_lookup. by apply (Ht i).
Qed.
End gate_props.

Lemma configs_configured hw cs ob :
  run_configs (object_new hw) cs = Ret ob → configs_ok (object_new hw) cs → configured (ob_pool ob).
Proof.
  intros Hrun Hok. destruct (run_configs_pool cs _ _ Hrun Hok) as [Hp Hs].
  eapply configured_setups; [apply configured_new|exact Hs|exact Hp].
Qed.

(** An object without tagged threads has nothing to wait for. *)
Lemma gate_run_empty mode p es g :
  tagged_workers p = [] → gate_run mode p es (gate_new p) = Some g → es = [] ∧ g = mk_gate WAIT None [] ODone [].
Proof.
  intros Hp. assert (gate_new p = mk_gate WAIT None [] ODone []) as -> by (unfold gate_new; by rewrite Hp).
  destruct es as [|[i|i|] es]; [by intros [= <-]|by destruct i..|done].
Qed.

(** C10: the tagged threads of any configured object and the thread that opens the
    gate for them, whether the proxy that starts or the destructor of an object that
    is not running, cannot wait for each other for ever.  Whatever the schedule, they
    take at most seven steps per thread and four more, and three for every wait that
    ends for no reason; and when none of them can go on, the opener is done and every
    thread has sent its STARTING message or, for the destructor, returned.  The opener
    is done no earlier than it should: [start] goes on when the messages it needs have
    come, the destructor when no thread is left that could use the object; and no
    thread of an object that is destroyed goes on to its socket. *)
Theorem gate_opens hw cs ob mode es g :
  run_configs (object_new hw) cs = Ret ob → configs_ok (object_new hw) cs → mode ≠ WAIT →
  gate_run mode (ob_pool ob) es (gate_new (ob_pool ob)) = Some g →
  let n := length (tagged_workers (ob_pool ob)) in
  length es ≤ 7 * n + 4 + 3 * spurious es ∧
  (gt_opener g = ODone → gate_open mode (ob_pool ob) g) ∧
  (mode = SHUTDOWN → gt_msgs g = []) ∧
  (gate_stuck mode (ob_pool ob) g → gt_opener g = ODone ∧ gt_threads g = replicate n (thread_end mode)).
Proof.
  intros Hrun Hcs Hmode H n. pose proof (configs_configured hw cs ob Hrun Hcs) as Hp. set (p := ob_pool ob) in *.
  destruct (decide (tagged_workers p = [])) as [Hnil|Hne].
  { destruct (gate_run_empty _ _ _ _ Hnil H) as [-> ->]. unfold n, gate_open, all_starting. rewrite Hnil.
    split_and!; [cbn; lia| |done|done]. intros _. case_decide; by intros ? ?%not_elem_of_nil. }
  destruct (gate_run_ok mode p Hmode es _ g (gate_ok_new mode p Hne) H) as [Hok Hr]. split_and!.
  - unfold gate_rank, gate_new in Hr. cbn in Hr. rewrite decide_False, length_replicate in Hr by done. cbn [opener_rank] in Hr.
    pose proof (sum_fmap_le (rank WAIT) 2 (replicate n TLock)) as Hs. rewrite length_replicate in Hs.
    assert (∀ t, rank WAIT t ≤ 2) as Hr2 by (intros t; unfold rank; rewrite decide_True by done; destruct t; lia). specialize (Hs Hr2). fold n in Hr. lia.
  - intros Eo. pose proof (gk_opener _ _ g Hok) as Ho. unfold opener_fine in Ho. by rewrite Eo in Ho.
  - intros Hm. destruct (gt_msgs g) as [|m ms] eqn:Em; [done|]. exfalso.
    pose proof (gk_msgs _ _ g Hok m) as Hgo. rewrite Em in Hgo. specialize (Hgo (list_elem_of_here _ _)).
    rewrite (gk_go _ _ g Hok), Hm in Hgo. by destruct (closed (gt_opener g)).
  - by apply stuck_done.
Qed.

(** One tagged thread that is already waiting when the object is destroyed, and wakes
    up once too early. *)
Definition sample_destroy : list gate_event :=
  [GThread 0; GThread 0; GSpurious 0; GThread 0; GThread 0; GOpener; GOpener; GOpener; GThread 0; GThread 0; GThread 0; GOpener; GOpener].

Lemma gate_opens_witness :
  ∃ ob g, run_configs (object_new 4) sample_configs = Ret ob ∧
    gate_run SHUTDOWN (ob_pool ob) sample_destroy (gate_new (ob_pool ob)) = Some g ∧
    gt_threads g = [TEnded] ∧ gt_msgs g = [] ∧ gate_open SHUTDOWN (ob_pool ob) g.
Proof.
  destruct (run_configs (object_new 4) sample_configs) as [ob| |] eqn:Hob; [|exfalso; vm_compute in Hob; discriminate..].
  destruct (gate_run SHUTDOWN (ob_pool ob) sample_destroy (gate_new (ob_pool ob))) as [g|] eqn:Hg.
  - exists ob, g. pose proof (gate_opens 4 sample_configs ob SHUTDOWN sample_destroy g Hob (sample_configs_ok _) ltac:(done) Hg)
      as (_ & Hopen & Hm & _).
    assert (gt_threads g = [TEnded] ∧ gt_opener g = ODone) as [Ht Ho].
    { vm_compute in Hob. injection Hob as <-. vm_compute in Hg. by injection Hg as <-. }
    split_and!; [done|done|done|by apply Hm|by apply Hopen].
  - exfalso. vm_compute in Hob. injection Hob as <-. vm_compute in Hg. discriminate.
Defined.
