(* ===== verification/Shutdown.v ===== *)
(** * Shutdown: from QUIT to the end of the proxy thread

    [~OxenMQ] sends QUIT and joins the proxy thread.  The proxy ([proxy.cpp]) sets
    [max_workers] to 0 and tells its idle workers to quit, tells every other worker
    when it reports back ([worker.cpp]), joins each, and ends when none is joinable.
    A run of the shutdown is compared with the same run of a proxy that goes on: a
    worker that was told to quit is an idle one there. *)
From S2P Require Import Prelude Bytes Auth ConnId Commands Batch Pool.
From S2P Require Import PoolSlots Threads PoolInv PoolSteps PoolSafe Net Closing Proxy Start.
Open Scope Z_scope.
Open Scope nat_scope.

(** ** What the two proxies have in common *)

Definition blank (r : run_info) : run_info := r <| joinable := false |>.
Definition blank_tagged (w : run_info * bool * batch_queue) : run_info * bool * batch_queue :=
  (blank (fst (fst w)), snd (fst w), snd w).
(** A pool without its idle stack, its limit and who was joined. *)
Definition core (p : pool) : pool :=
  mk_pool (reg p) (blank <$> workers p) (workers_capacity p) [] 0 (general_workers p) 0 (batch_jobs p)
    (batch_jobs_reserved p) (batch_jobs_active p) (reply_jobs p) (reply_jobs_reserved p) (reply_jobs_active p)
    (blank_tagged <$> tagged_workers p) (pending_commands p) (timer_jobs p) (timer_zmq_id p)
    (proxy_skip_one_poll p) (heap p) [] (completed p).
Definition ocore {A} (o : outcome (pool * A)) : outcome (pool * A) := '(p, x) ← o; Ret (core p, x).
Definition pcore (o : outcome pool) : outcome pool := p ← o; Ret (core p).

Section commute.
Context {E : TaskEval}.

Lemma core_tagged f g p :
  (∀ ws, blank_tagged <$> f ws = g (blank_tagged <$> ws)) →
  (core p) <| tagged_workers ::= g |> = core (p <| tagged_workers ::= f |>).
Proof.
  intros H. transitivity ((core p) <| tagged_workers := blank_tagged <$> f (tagged_workers p) |>); [|reflexivity].
  rewrite H. reflexivity.
Qed.

Lemma enqueue_core th reply bj p : enqueue th reply bj (core p) = pcore (enqueue th reply bj p).
Proof.
  unfold enqueue. destruct (0 <? th)%Z; [|by destruct reply].
  change (tagged_workers (core p)) with (blank_tagged <$> tagged_workers p). rewrite list_lookup_fmap.
  destruct (tagged_workers p !! _) as [[[r b] q]|]; [|done]. cbn [fmap option_fmap option_map blank_tagged fst snd].
  unfold pcore. cbn [mbind outcome_bind]. f_equal. apply core_tagged. intros ws. by rewrite list_fmap_insert.
Qed.

Lemma run_completion_core b p : run_completion b (core p) = pcore (run_completion b p).
Proof.
  unfold run_completion. change (heap (core p)) with (heap p). destruct (heap p !! b) as [o|]; [|done].
  destruct (job_completion o) as [[o' c]| |]; [|done|done]. cbn [mbind outcome_bind].
  destruct c as [[[] rs]|]; reflexivity.
Qed.

Lemma batch_finished_core b reply p : batch_finished b reply (core p) = ocore (batch_finished b reply p).
Proof.
  unfold batch_finished. change (heap (core p)) with (heap p). destruct (heap p !! b) as [o|]; [|done].
  destruct (job_finished o) as [o' st]. set (p1 := p <| heap ::= <[ b := o' ]> |>).
  change ((core p) <| heap ::= <[ b := o' ]> |>) with (core p1). destruct (state st); [done| |done].
  destruct (thread st =? -1)%Z; [rewrite run_completion_core; by destruct (run_completion b p1)|].
  rewrite enqueue_core. by destruct (enqueue _ _ _ p1).
Qed.

Lemma release_slot_core tg wid reply p : release_slot tg wid reply (core p) = pcore (release_slot tg wid reply p).
Proof.
  unfold release_slot. destruct tg.
  - unfold pcore, set_tagged_idle. cbn [mbind outcome_bind]. f_equal. apply core_tagged. intros ws.
    apply list_eq. intros i. rewrite list_lookup_fmap.
    destruct (decide (i = Z.to_nat (wid - 1))) as [->|Hne];
      [rewrite !list_lookup_alter_eq, list_lookup_fmap|rewrite !list_lookup_alter_ne by done; by rewrite list_lookup_fmap].
    by destruct (ws !! _) as [[[??]?]|].
  - destruct reply; cbn; by destruct (_ <=? 0)%Z.
Qed.

Lemma ran_batch_core tg wid run p : ran_batch tg wid run (core p) = pcore (ran_batch tg wid run p).
Proof.
  unfold ran_batch. rewrite release_slot_core. destruct (release_slot _ _ _ p) as [p1| |]; [|done|done].
  cbn [mbind outcome_bind pcore]. destruct (to_run run) as [e|b|f]; [done| |done]. unfold batch_returned.
  assert (∀ q, delete_batch b (core q) = pcore (delete_batch b q)) as Hd.
  { intros q. unfold delete_batch. change (heap (core q)) with (heap q). by destruct (heap q !! b). }
  destruct (batch_jobno run =? -1)%Z; [apply Hd|]. rewrite batch_finished_core.
  destruct (batch_finished _ _ p1) as [[q []]| |]; [apply Hd|done|done|done].
Qed.

Lemma ran_command_core run p : ran_command run (core p) = pcore (ran_command run p).
Proof.
  unfold ran_command. change (the_category (core p) (run_cat run)) with (the_category p (run_cat run)).
  destruct (the_category p (run_cat run)); [|done]. by destruct (_ <=? 0)%Z.
Qed.

Lemma worker_turn_core tag run p : worker_turn tag run (core p) = ocore (worker_turn tag run p).
Proof.
  unfold worker_turn. destruct (is_batch_job run); [|by destruct (worker_invocation tag run)].
  destruct (to_run run) as [e|b|f]; [done| |done]. change (heap (core p)) with (heap p).
  destruct (heap p !! b) as [o|]; [|done]. destruct (0 <=? batch_jobno run)%Z; [by destruct (run_job _ _)|].
  destruct (batch_jobno run =? -1)%Z; [|done]. rewrite run_completion_core. by destruct (run_completion b p).
Qed.

Definition worker_returned (tg : bool) (wid : Z) (run : run_info) (p : pool) : outcome pool :=
  if is_batch_job run then ran_batch tg wid run p else ran_command run p.
Lemma worker_returned_core tg wid run p :
  worker_returned tg wid run (core p) = pcore (worker_returned tg wid run p).
Proof. unfold worker_returned. destruct (is_batch_job run); [apply ran_batch_core|apply ran_command_core]. Qed.
End commute.

(** ** What stays the same *)

(** Everything [core] leaves out. *)
Record keeps (p q : pool) : Prop := {
  ke_max : max_workers q = max_workers p;
  ke_idle : idle_worker_count q = idle_worker_count p;
  ke_sent : sent q = sent p;
  ke_workers : workers q = workers p;
  ke_tagged : (fst ∘ fst) <$> tagged_workers q = (fst ∘ fst) <$> tagged_workers p;
}.
#[export] Instance keeps_preorder : PreOrder keeps.
Proof. split; [by split|]. intros p q r [] []. split; congruence. Qed.

Section keeps.
Context {E : TaskEval}.

Lemma keeps_tagged (p : pool) f :
  (∀ ws, (fst ∘ fst) <$> f ws = (fst ∘ fst) <$> ws) → keeps p (p <| tagged_workers ::= f |>).
Proof. intros H. split; try done. apply H. Qed.

Lemma enqueue_keeps th reply bj p q : enqueue th reply bj p = Ret q → keeps p q.
Proof.
  unfold enqueue. destruct (0 <? th)%Z; [|by destruct reply; intros [= <-]].
  destruct (tagged_workers p !! _) as [[[r b] x]|] eqn:Hw; [|done]. intros [= <-]. split; try done.
  cbn [tagged_workers modify]. rewrite list_fmap_insert. apply list_insert_id. rewrite list_lookup_fmap, Hw. done.
Qed.

Lemma enqueue_all_keeps b i ths p q : enqueue_all b i ths p = Ret q → keeps p q.
Proof.
  revert i p. induction ths as [|t ths IH]; intros i p; cbn [enqueue_all]; [by intros [= <-]|].
  destruct (enqueue _ _ _ p) as [p1| |] eqn:H; [|done|done]. intros H1. etrans; [by eapply enqueue_keeps|by eapply IH].
Qed.

Lemma run_completion_keeps b p q : run_completion b p = Ret q → keeps p q.
Proof.
  unfold run_completion. destruct (heap p !! b) as [o|]; [|done].
  destruct (job_completion o) as [[o' c]| |]; [|done|done]. intros [= <-]. by destruct c as [[[] rs]|].
Qed.

Lemma batch_finished_keeps b reply p q c : batch_finished b reply p = Ret (q, c) → keeps p q.
Proof.
  unfold batch_finished. destruct (heap p !! b) as [o|]; [|done]. destruct (job_finished o) as [o' st].
  set (p1 := p <| heap ::= _ |>). assert (keeps p p1) as H1 by done.
  destruct (state st); [by intros [= <- _]| |by intros [= <- _]]. destruct (thread st =? -1)%Z.
  - destruct (run_completion b p1) as [p2| |] eqn:H2; [|done|done]. intros [= <- _].
    etrans; [exact H1|by eapply run_completion_keeps].
  - destruct (enqueue _ _ _ p1) as [p2| |] eqn:H2; [|done|done]. intros [= <- _].
    etrans; [exact H1|by eapply enqueue_keeps].
Qed.

Lemma set_tagged_idle_keeps wid p : keeps p (set_tagged_idle wid p).
Proof.
  apply keeps_tagged. intros ws. apply list_eq. intros i. rewrite !list_lookup_fmap.
  destruct (decide (i = Z.to_nat (wid - 1))) as [->|Hne]; [rewrite list_lookup_alter_eq|by rewrite list_lookup_alter_ne].
  by destruct (ws !! _) as [[[??]?]|].
Qed.

Lemma worker_returned_keeps tg wid run p q : worker_returned tg wid run p = Ret q → keeps p q.
Proof.
  unfold worker_returned. destruct (is_batch_job run).
  2: { unfold ran_command. destruct (the_category _ _); [|done]. destruct (_ <=? 0)%Z; [done|]. by intros [= <-]. }
  unfold ran_batch. destruct (release_slot _ _ _ p) as [p1| |] eqn:H1; [|done|done].
  assert (keeps p p1) as Hk.
  { unfold release_slot in H1. destruct tg; [injection H1 as <-; apply set_tagged_idle_keeps|].
    destruct (_ <=? 0)%Z; [done|]. injection H1 as <-. by destruct (is_reply_job run). }
  cbn [mbind outcome_bind]. destruct (to_run run) as [e|b|f]; [done| |done]. unfold batch_returned.
  assert (∀ p2 q2, delete_batch b p2 = Ret q2 → keeps p2 q2) as Hd.
  { intros p2 q2. unfold delete_batch. destruct (heap p2 !! b); [|done]. by intros [= <-]. }
  destruct (batch_jobno run =? -1)%Z; [intros H; etrans; [exact Hk|by apply Hd]|].
  destruct (batch_finished _ _ p1) as [[p2 c]| |] eqn:H2; [|done|done]. apply batch_finished_keeps in H2.
  cbn [mbind outcome_bind]. intros H. etrans; [exact Hk|]. etrans; [exact H2|].
  destruct c; [by apply Hd|by injection H as <-].
Qed.

Lemma worker_turn_keeps tag run p q i : worker_turn tag run p = Ret (q, i) → keeps p q.
Proof.
  unfold worker_turn. destruct (is_batch_job run); [|by destruct (worker_invocation tag run); intros [= <- _]].
  destruct (to_run run) as [e|b|f]; [by intros [= <- _]| |by intros [= <- _]].
  destruct (heap p !! b) as [o|]; [|done]. destruct (0 <=? batch_jobno run)%Z.
  { destruct (run_job _ _); [|done|done]. by intros [= <- _]. }
  destruct (batch_jobno run =? -1)%Z; [|by intros [= <- _]].
  destruct (run_completion b p) eqn:H; [|done|done]. intros [= <- _]. by eapply run_completion_keeps.
Qed.
End keeps.

(** ** The simulation *)

(** A worker that waits in the first system was told to quit in the second. *)
Definition told (t u : wthread) : Prop :=
  if decide (wt_status t = Waiting) then wt_status u = Quitting ∨ wt_status u = Joined else u = t.

Record draining (s q : system) : Prop := {
  dr_ok : system_ok s;
  dr_core : core (Threads.proxy s) = core (Threads.proxy q);
  dr_max : max_workers (Threads.proxy q) = 0%Z;
  dr_idle : idle_worker_count (Threads.proxy q) = 0;
  dr_sent : sent (Threads.proxy q) = [];
  dr_regular : Forall2 told (regular (wthreads s)) (regular (wthreads q));
  dr_tagged : Forall2 told (tagged (wthreads s)) (tagged (wthreads q));
  dr_joined tg wid t r : the_thread tg wid (wthreads q) = Some t → the_run tg wid (Threads.proxy q) = Some r →
    joinable r = negb (bool_decide (wt_status t = Joined));
}.

Lemma core_run tg wid p q : core p = core q → blank <$> the_run tg wid p = blank <$> the_run tg wid q.
Proof.
  intros H. unfold the_run. destruct tg.
  - apply (f_equal tagged_workers) in H. cbn in H.
    apply (f_equal (λ ws : list _, (λ w : run_info * bool * batch_queue, fst (fst w)) <$> ws !! Z.to_nat (wid - 1))) in H.
    rewrite !list_lookup_fmap in H. rewrite <- !option_fmap_compose in H.
    change ((λ w, fst (fst w)) ∘ blank_tagged) with (blank ∘ λ w : run_info * bool * batch_queue, fst (fst w)) in H.
    by rewrite !option_fmap_compose in H.
  - apply (f_equal workers) in H. cbn in H. apply (f_equal (.!! Z.to_nat wid)) in H. by rewrite !list_lookup_fmap in H.
Qed.

Lemma keeps_run tg wid p q : keeps p q → the_run tg wid q = the_run tg wid p.
Proof.
  intros [_ _ _ Hw Ht]. unfold the_run. destruct tg; [|by rewrite Hw].
  apply (f_equal (.!! Z.to_nat (wid - 1))) in Ht. by rewrite !list_lookup_fmap in Ht.
Qed.

Lemma told_thread tg wid s q u :
  draining s q → the_thread tg wid (wthreads q) = Some u → ∃ t, the_thread tg wid (wthreads s) = Some t ∧ told t u.
Proof.
  intros [_ _ _ _ _ Hr Ht _] Hu. unfold the_thread in *.
  destruct tg; [eapply Forall2_lookup_r in Ht|eapply Forall2_lookup_r in Hr]; eauto.
Qed.
Lemma told_busy t u : told t u → wt_status u = Running ∨ wt_status u = Ran → u = t.
Proof. unfold told. destruct (decide _); [|done]. intros [-> | ->] [|]; done. Qed.

Lemma told_set tg wid s q t u :
  Forall2 told (regular s) (regular q) → Forall2 told (tagged s) (tagged q) → told t u →
  Forall2 told (regular (set_thread tg wid t s)) (regular (set_thread tg wid u q)) ∧
  Forall2 told (tagged (set_thread tg wid t s)) (tagged (set_thread tg wid u q)).
Proof. intros H1 H2 H3. destruct tg; cbn; split; try done; by apply Forall2_insert. Qed.

(** Only the thread that moved can have been joined. *)
Lemma joined_set tg wid ts p p' u :
  (∀ tg wid t r, the_thread tg wid ts = Some t → the_run tg wid p = Some r →
     joinable r = negb (bool_decide (wt_status t = Joined))) →
  (∀ tg wid, the_run tg wid p' = the_run tg wid p) → is_Some (the_thread tg wid ts) →
  (∀ r, the_run tg wid p = Some r → joinable r = negb (bool_decide (wt_status u = Joined))) →
  ∀ tg' wid' t r, the_thread tg' wid' (set_thread tg wid u ts) = Some t → the_run tg' wid' p' = Some r →
     joinable r = negb (bool_decide (wt_status t = Joined)).
Proof.
  intros H Hp [t0 Ht0] Hu tg' wid' t r Ht Hr. rewrite Hp in Hr. unfold the_thread, set_thread, the_run in *.
  destruct tg, tg'; cbn in Ht; try (by eapply (H true); eauto); try (by eapply (H false); eauto).
  - apply list_lookup_insert_Some in Ht as [(Hw & <- & _)|[_ Ht]]; [apply Hu; by rewrite Hw|by eapply (H true)].
  - apply list_lookup_insert_Some in Ht as [(Hw & <- & _)|[_ Ht]]; [apply Hu; by rewrite Hw|by eapply (H false)].
Qed.

Section steps.
Context {E : TaskEval}.
Hypothesis tasks_return : ∀ f, eval_task f ≠ Undef.

Lemma ocore_Ret {A} (o : outcome (pool * A)) p x : ocore o = Ret (p, x) → ∃ q, o = Ret (q, x) ∧ core q = p.
Proof using. destruct o as [[q y]| |]; [|done|done]. intros [= <- <-]. eauto. Qed.
Lemma pcore_Ret o p : pcore o = Ret p → ∃ q, o = Ret q ∧ core q = p.
Proof using. destruct o as [q| |]; [|done|done]. intros [= <-]. eauto. Qed.

(** What the worker does is the same in both. *)
Lemma worker_turn_sim tag r r' p q p1 i :
  core p = core q → blank r = blank r' → worker_turn tag r p = Ret (p1, i) →
  ∃ q1, worker_turn tag r' q = Ret (q1, i) ∧ core q1 = core p1.
Proof using.
  intros Hc Hb H. apply ocore_Ret. rewrite <- worker_turn_core, <- Hc.
  change (worker_turn tag (blank r') (core p) = Ret (core p1, i)). rewrite <- Hb.
  change (worker_turn tag r (core p) = Ret (core p1, i)). by rewrite worker_turn_core, H.
Qed.
Lemma worker_returned_sim tg wid r r' p q p1 :
  core p = core q → blank r = blank r' → worker_returned tg wid r p = Ret p1 →
  ∃ q1, worker_returned tg wid r' q = Ret q1 ∧ core q1 = core p1.
Proof using.
  intros Hc Hb H. apply pcore_Ret. rewrite <- worker_returned_core, <- Hc.
  change (worker_returned tg wid (blank r') (core p) = Ret (core p1)). rewrite <- Hb.
  change (worker_returned tg wid r (core p) = Ret (core p1)). by rewrite worker_returned_core, H.
Qed.

Lemma turn_draining s q tg wid u :
  draining s q → (tg = true → 0 < wid)%Z → the_thread tg wid (wthreads q) = Some u → wt_status u = Running →
  ∃ s' q', turn tg wid q = Ret q' ∧ draining s' q' ∧
    ∃ u', wt_status u' = Ran ∧ wthreads q' = set_thread tg wid u' (wthreads q).
Proof using tasks_return.
  intros Hd Hpos Hu Hst. destruct (told_thread _ _ _ _ _ Hd Hu) as (t & Ht & Htu).
  assert (u = t) as -> by (apply told_busy; [done|by left]). pose proof Hd as [Hok Hc Hm Hn Hs Hr Htg Hj].
  destruct (turn_ok tasks_return s tg wid Hok Hpos) as (s' & Hs' & Hok'). unfold turn in Hs'. rewrite Ht in Hs'.
  pose proof (core_run tg wid _ _ Hc) as Hrun. unfold turn. rewrite Hu.
  destruct (the_run tg wid (Threads.proxy s)) as [r|] eqn:Hrs, (the_run tg wid (Threads.proxy q)) as [r'|] eqn:Hrq; try done.
  2: { exfalso. destruct Hok as [[_ _ _ _ _ (ts' & Hdl & [L1 _ L2 _]) _] Hsent]. rewrite Hsent in Hdl. injection Hdl as <-.
    unfold the_thread in Ht. unfold the_run in Hrs. destruct tg.
    - apply fmap_None, lookup_ge_None in Hrs. apply lookup_lt_Some in Ht. lia.
    - apply lookup_ge_None in Hrs. apply lookup_lt_Some in Ht. lia. }
  rewrite decide_True in Hs' by done. rewrite decide_True by done.
  assert (Some (blank r) = Some (blank r')) as Hb%(inj Some) by exact Hrun.
  destruct (worker_turn (wt_tag t) r (Threads.proxy s)) as [[p1 i]| |] eqn:Hw; [|done|done]. cbn in Hs'. injection Hs' as <-.
  destruct (worker_turn_sim _ r r' _ (Threads.proxy q) _ _ Hc Hb Hw) as (q1 & Hq1 & Hcore).
  pose proof (worker_turn_keeps _ _ _ _ _ Hq1) as Hk. rewrite Hq1. cbn [mbind outcome_bind].
  eexists _, _. split; [done|]. split; [|eexists; split; [|done]; done]. split; cbn [Threads.proxy wthreads modify].
  - exact Hok'.
  - done.
  - by rewrite (ke_max _ _ Hk).
  - by rewrite (ke_idle _ _ Hk).
  - by rewrite (ke_sent _ _ Hk).
  - by apply told_set.
  - by apply told_set.
  - apply (joined_set tg wid _ (Threads.proxy q)); [exact Hj|intros; by apply keeps_run|by eexists|].
    intros r0 Hr0. rewrite (Hj _ _ _ _ Hu Hr0), Hst. done.
Qed.

(** QUIT to a waiting thread. *)
Lemma deliver_quit tg wid t ts :
  (0 ≤ wid < 2 ^ 32)%Z → the_thread tg wid ts = Some t → wt_status t = Waiting →
  deliver (Control (routing_id tg wid) (B "QUIT")) ts = Ret (set_thread tg wid (t <| wt_status := Quitting |>) ts).
Proof using.
  intros Hw Ht Hs. unfold routing_id, deliver.
  replace (bool_decide (wtype tg = "t"%char)) with tg by (by destruct tg).
  rewrite load32_raw32, Ht by done. unfold worker_reads. by rewrite Hs.
Qed.

Lemma the_thread_set tg wid t ts : is_Some (the_thread tg wid ts) → the_thread tg wid (set_thread tg wid t ts) = Some t.
Proof using.
  intros [u Hu]. unfold the_thread, set_thread in *.
  destruct tg; cbn; apply list_lookup_insert_eq; by eapply lookup_lt_Some.
Qed.
Lemma set_thread_twice tg wid t u ts : set_thread tg wid t (set_thread tg wid u ts) = set_thread tg wid t ts.
Proof using. destruct ts as [a b], tg; unfold set_thread, modify; cbn; f_equal; apply list_insert_insert_eq. Qed.

Lemma flush_one s m ts :
  sent (Threads.proxy s) = [m] → deliver m (wthreads s) = Ret ts →
  flush s = Ret (s <| wthreads := ts |> <| Threads.proxy ::= (λ p, p <| sent := [] |>) |>).
Proof using. intros Hs Hm. unfold flush. rewrite Hs. cbn [deliver_all]. by rewrite Hm. Qed.

Lemma park_core tg wid route p p' : park_worker tg wid route p = Ret p' → core p' = core p.
Proof using.
  unfold park_worker. destruct (_ =? 0)%Z; [by intros [= <-]|]. destruct tg; [by intros [= <-]|].
  destruct (_ <? _); [by intros [= <-]|done].
Qed.

Lemma thread_range s tg wid t :
  system_ok s → (0 ≤ wid)%Z → (tg = true → 0 < wid)%Z → the_thread tg wid (wthreads s) = Some t →
  (0 ≤ wid < 2 ^ 32)%Z ∧ is_Some (the_run tg wid (Threads.proxy s)).
Proof using.
  intros [Hg Hsent] H0 Hpos Ht. pose proof Hg as [_ _ _ _ _ (ts' & Hd & [L1 _ L2 _]) [_ Hf]].
  rewrite Hsent in Hd. injection Hd as <-. unfold the_thread, the_run in *.
  destruct tg; pose proof (lookup_lt_Some _ _ _ Ht) as Hlt.
  - specialize (Hpos eq_refl). split; [lia|]. apply fmap_is_Some, lookup_lt_is_Some. lia.
  - rewrite L1 in Hlt. pose proof (worker_fits _ _ _ _ Hg Hlt). split; [lia|]. by apply lookup_lt_is_Some.
Qed.

Lemma ran_draining s q tg wid u :
  draining s q → (0 ≤ wid)%Z → (tg = true → 0 < wid)%Z → the_thread tg wid (wthreads q) = Some u → wt_status u = Ran →
  ∃ s' q', worker_message Ran Waiting (B "RAN") tg wid q = Ret q' ∧ draining s' q' ∧
    ∃ u', wt_status u' = Quitting ∧ wthreads q' = set_thread tg wid u' (wthreads q).
Proof using tasks_return.
  intros Hd H0 Hpos Hu Hst. destruct (told_thread _ _ _ _ _ Hd Hu) as (t & Ht & Htu).
  assert (u = t) as -> by (apply told_busy; [done|by right]). pose proof Hd as [Hok Hc Hm Hn Hs Hr Htg Hj].
  pose proof Hok as [Hg Hsent]. destruct (thread_range s tg wid t Hok H0 Hpos Ht) as [Hw [r Hrs]].
  pose proof (core_run tg wid _ _ Hc) as Hrun. rewrite Hrs in Hrun.
  destruct (the_run tg wid (Threads.proxy q)) as [r'|] eqn:Hrq; [|done].
  assert (Some (blank r) = Some (blank r')) as Hb%(inj Some) by exact Hrun.
  destruct (ran_good (Threads.proxy s) (wthreads s) tg wid t Hg Hsent H0 Hpos Ht Hst) as (p2 & _ & Hp2 & Hg2 & _).
  unfold proxy_worker_message in Hp2. rewrite route_worker_id, Hrs in Hp2 by (done || by eexists).
  rewrite bool_decide_true in Hp2 by done. fold (worker_returned tg wid r (Threads.proxy s)) in Hp2.
  destruct (worker_returned tg wid r (Threads.proxy s)) as [p1| |] eqn:Hret; [|done|done]. cbn [mbind outcome_bind] in Hp2.
  destruct (worker_returned_sim _ _ _ r' _ (Threads.proxy q) _ Hc Hb Hret) as (q1 & Hq1 & Hcore).
  pose proof (worker_returned_keeps _ _ _ _ _ Hret) as Hk. pose proof (worker_returned_keeps _ _ _ _ _ Hq1) as Hk'.
  assert (sent p2 = []) as Hs2.
  { unfold park_worker in Hp2. pose proof (max_pos _ (g_pool _ _ _ Hg)). rewrite (ke_max _ _ Hk), (proj2 (Z.eqb_neq _ _)) in Hp2 by lia.
    rewrite <- Hsent, <- (ke_sent _ _ Hk). destruct tg; [by injection Hp2 as <-|]. destruct (_ <? _); [by injection Hp2 as <-|done]. }
  unfold worker_message. rewrite Hu, decide_True by done. unfold on_proxy, proxy_worker_message.
  rewrite route_worker_id, Hrq by (done || by eexists). rewrite bool_decide_true by done.
  fold (worker_returned tg wid r' (Threads.proxy q)). rewrite Hq1. cbn [mbind outcome_bind].
  unfold park_worker. rewrite (ke_max _ _ Hk'), Hm. cbn [Z.eqb mbind outcome_bind].
  match goal with |- context [flush ?x] => set (X := x) end. set (tw := t <| wt_status := Waiting |>).
  set (u' := tw <| wt_status := Quitting |>).
  assert (flush X = Ret (X <| wthreads := set_thread tg wid u' (wthreads q) |>
                           <| Threads.proxy ::= (λ p, p <| sent := [] |>) |>)) as ->.
  { apply (flush_one X (Control (routing_id tg wid) (B "QUIT"))).
    - change (sent q1 ++ [Control (routing_id tg wid) (B "QUIT")] = [Control (routing_id tg wid) (B "QUIT")]).
      by rewrite (ke_sent _ _ Hk'), Hs.
    - change (wthreads X) with (set_thread tg wid tw (wthreads q)).
      rewrite (deliver_quit tg wid tw) by (done || apply the_thread_set; by eexists). by rewrite set_thread_twice. }
  exists (s <| Threads.proxy := p2 |> <| wthreads ::= set_thread tg wid tw |>). eexists. split; [done|].
  split; [|exists u'; split; done]. assert (told tw u') as Htold by (unfold told; rewrite decide_True by done; by left).
  destruct (told_set tg wid _ _ _ _ Hr Htg Htold) as [T1 T2]. split; cbn [Threads.proxy wthreads modify].
  - by split.
  - rewrite (park_core _ _ _ _ _ Hp2). by rewrite <- Hcore.
  - by rewrite <- Hm, <- (ke_max _ _ Hk').
  - by rewrite <- Hn, <- (ke_idle _ _ Hk').
  - done.
  - done.
  - done.
  - apply (joined_set tg wid _ (Threads.proxy q)); [exact Hj|intros; by apply (keeps_run _ _ (Threads.proxy q) q1)|by eexists|].
    intros r0 Hr0. rewrite (Hj _ _ _ _ Hu Hr0), Hst. done.
Qed.

Lemma set_run_core tg wid p : core (set_run tg wid blank p) = core p.
Proof using.
  unfold set_run. destruct tg; unfold core; cbn; f_equal; apply list_eq; intros i; rewrite !list_lookup_fmap.
  - destruct (decide (i = Z.to_nat (wid - 1))) as [->|Hne]; [rewrite list_lookup_alter_eq|by rewrite list_lookup_alter_ne].
    by destruct (tagged_workers p !! _) as [[[??]?]|].
  - destruct (decide (i = Z.to_nat wid)) as [->|Hne]; [rewrite list_lookup_alter_eq|by rewrite list_lookup_alter_ne].
    by destruct (workers p !! _).
Qed.

Lemma joined_quitting tg wid ts p u :
  (∀ tg wid t r, the_thread tg wid ts = Some t → the_run tg wid p = Some r →
     joinable r = negb (bool_decide (wt_status t = Joined))) →
  wt_status u = Joined →
  ∀ tg' wid' t r, the_thread tg' wid' (set_thread tg wid u ts) = Some t → the_run tg' wid' (set_run tg wid blank p) = Some r →
     joinable r = negb (bool_decide (wt_status t = Joined)).
Proof using.
  intros H Hu tg' wid' t r Ht Hr. unfold the_thread, set_thread, the_run, set_run in *.
  destruct tg, tg'; cbn in Ht, Hr; try (by eapply (H true); eauto); try (by eapply (H false); eauto).
  - apply list_lookup_insert_Some in Ht as [(Hw & <- & _)|[Hne Ht]].
    + rewrite Hw, list_lookup_alter_eq in Hr. destruct (tagged_workers p !! _) as [[[r0 b0] q0]|]; [|done]. injection Hr as <-.
      rewrite Hu, bool_decide_true by done. done.
    + rewrite list_lookup_alter_ne in Hr by done. by eapply (H true).
  - apply list_lookup_insert_Some in Ht as [(Hw & <- & _)|[Hne Ht]].
    + rewrite Hw, list_lookup_alter_eq in Hr. destruct (workers p !! _) as [r0|]; [|done]. injection Hr as <-.
      rewrite Hu, bool_decide_true by done. done.
    + rewrite list_lookup_alter_ne in Hr by done. by eapply (H false).
Qed.

Lemma quitting_draining s q tg wid u :
  draining s q → (0 ≤ wid)%Z → (tg = true → 0 < wid)%Z → the_thread tg wid (wthreads q) = Some u → wt_status u = Quitting →
  ∃ q', worker_message Quitting Joined (B "QUITTING") tg wid q = Ret q' ∧ draining s q' ∧
    ∃ u', wt_status u' = Joined ∧ wthreads q' = set_thread tg wid u' (wthreads q).
Proof using.
  intros Hd H0 Hpos Hu Hst. destruct (told_thread _ _ _ _ _ Hd Hu) as (t & Ht & Htu).
  pose proof Hd as [Hok Hc Hm Hn Hs Hr Htg Hj]. destruct (thread_range s tg wid t Hok H0 Hpos Ht) as [Hw [r Hrs]].
  pose proof (core_run tg wid _ _ Hc) as Hrun. rewrite Hrs in Hrun.
  destruct (the_run tg wid (Threads.proxy q)) as [r'|] eqn:Hrq; [|done].
  unfold worker_message. rewrite Hu, decide_True by done. unfold on_proxy, proxy_worker_message.
  rewrite route_worker_id, Hrq by (done || by eexists). rewrite bool_decide_false, bool_decide_true by done.
  cbn [mbind outcome_bind]. fold blank. change (λ r, r <| joinable := false |>) with blank. set (u' := u <| wt_status := Joined |>).
  match goal with |- context [flush ?x] => set (X := x) end.
  assert (sent (Threads.proxy X) = []) as HX by (rewrite <- Hs; by destruct tg).
  unfold flush. rewrite HX. cbn [deliver_all mbind outcome_bind]. eexists. split; [done|].
  split; [|exists u'; split; done]. assert (told t u') as Htold.
  { unfold told in *. destruct (decide _); [by right|]. subst u. destruct Hok as [Hg Hsent].
    destruct (steady_threads _ _ tg wid t Hg Hsent Ht) as [Hx _]. rewrite Hst in Hx. naive_solver. }
  assert (Forall2 told (regular (wthreads s)) (regular (set_thread tg wid u' (wthreads q))) ∧
    Forall2 told (tagged (wthreads s)) (tagged (set_thread tg wid u' (wthreads q)))) as [T1 T2].
  { destruct (told_set tg wid _ _ t u' Hr Htg Htold) as [T1 T2].
    assert (set_thread tg wid t (wthreads s) = wthreads s) as He.
    { unfold set_thread, the_thread in *. destruct (wthreads s), tg; unfold modify; cbn in *; f_equal; by apply list_insert_id. }
    by rewrite He in T1, T2. }
  split; cbn [Threads.proxy wthreads modify].
  - done.
  - rewrite Hc. symmetry. exact (set_run_core tg wid (Threads.proxy q)).
  - rewrite <- Hm. by destruct tg.
  - rewrite <- Hn. by destruct tg.
  - done.
  - done.
  - done.
  - intros tg' wid' t1 r1 Ht1 Hr1. eapply (joined_quitting tg wid (wthreads q) (Threads.proxy q) u'); [exact Hj|done|exact Ht1|].
    rewrite <- Hr1. by destruct tg.
Qed.

(** ** Handlers that still run *)

Lemma handler_draining s q (f : pool → outcome pool) s' :
  draining s q → (∀ p, f (core p) = pcore (f p)) → (∀ p p', f p = Ret p' → keeps p p') →
  on_proxy s (f (Threads.proxy s)) = Ret s' → system_ok s' →
  ∃ q', on_proxy q (f (Threads.proxy q)) = Ret q' ∧ draining s' q' ∧ wthreads q' = wthreads q.
Proof using.
  intros [Hok Hc Hm Hn Hs Hr Htg Hj] Hf Hk Hs' Hok'. unfold on_proxy in *.
  destruct (f (Threads.proxy s)) as [p1| |] eqn:Hp1; [|done|done]. cbn [mbind outcome_bind] in Hs'.
  assert (pcore (f (Threads.proxy q)) = Ret (core p1)) as (q1 & Hq1 & Hc1)%pcore_Ret.
  { by rewrite <- Hf, <- Hc, Hf, Hp1. }
  rewrite Hq1. cbn [mbind outcome_bind]. pose proof (Hk _ _ Hp1) as K1. pose proof (Hk _ _ Hq1) as K2.
  assert (∀ (x : system) p, sent p = [] → flush (x <| Threads.proxy := p |>) =
    Ret (x <| Threads.proxy := p |> <| wthreads := wthreads x |> <| Threads.proxy ::= (λ p, p <| sent := [] |>) |>)) as Hfl.
  { intros x p Hx. unfold flush. cbn [Threads.proxy modify]. by rewrite Hx. }
  rewrite Hfl in Hs' by (rewrite (ke_sent _ _ K1); apply Hok). injection Hs' as <-.
  rewrite Hfl by (by rewrite (ke_sent _ _ K2)). eexists. split; [done|]. split; [|done]. split; cbn [Threads.proxy wthreads modify].
  - exact Hok'.
  - symmetry. exact Hc1.
  - by rewrite <- Hm, <- (ke_max _ _ K2).
  - by rewrite <- Hn, <- (ke_idle _ _ K2).
  - done.
  - done.
  - done.
  - intros tg wid t r Ht Hr0. apply (Hj tg wid t r Ht). rewrite <- (keeps_run tg wid _ q1); [exact Hr0|done].
Qed.

Lemma enqueue_all_core b i ths p : enqueue_all b i ths (core p) = pcore (enqueue_all b i ths p).
Proof using.
  revert i p. induction ths as [|t ths IH]; intros i p; cbn [enqueue_all]; [done|]. rewrite enqueue_core.
  destruct (enqueue _ _ _ p) as [p1| |]; [apply IH|done|done].
Qed.

Definition batch_handler (o : batch_obj) (p : pool) : outcome pool := let '(p, a) := alloc o p in proxy_batch a p.
Lemma batch_core o p : batch_handler o (core p) = pcore (batch_handler o p).
Proof using.
  unfold batch_handler, alloc. change (heap (core p)) with (heap p). set (a := fresh _).
  set (p1 := p <| heap ::= <[ a := o ]> |>). change ((core p) <| heap ::= <[ a := o ]> |>) with (core p1).
  unfold proxy_batch. change (heap (core p1)) with (heap p1). destruct (heap p1 !! a) as [o1|]; [|done].
  destruct (size o1) as [n tg]. rewrite enqueue_all_core. by destruct (enqueue_all _ _ _ p1).
Qed.
Lemma batch_keeps o p q : batch_handler o p = Ret q → keeps p q.
Proof using.
  unfold batch_handler, alloc. set (a := fresh _). set (p1 := p <| heap ::= <[ a := o ]> |>).
  unfold proxy_batch. destruct (heap p1 !! a) as [o1|]; [|done]. destruct (size o1) as [n tg].
  destruct (enqueue_all _ _ _ p1) as [p2| |] eqn:H; [|done|done]. intros [= <-].
  apply enqueue_all_keeps in H as [? ? ? ? ?]. by split.
Qed.

Lemma timer_core t p : queue_timer_job t (core p) = pcore (queue_timer_job t p).
Proof using.
  unfold queue_timer_job. change (timer_jobs (core p)) with (timer_jobs p).
  destruct (timer_jobs p !! t) as [d|]; [|done]. destruct (_ && _); [done|]. destruct (timer_thread d =? -1)%Z.
  { by destruct (eval_task _). }
  set (a := fresh (dom (heap p))). destruct (squelch d).
  - exact (enqueue_core (timer_thread d) false (a, 0%Z) (p <| timer_jobs ::= <[ t := d <| timer_running := true |> ]> |>
      <| heap ::= <[ a := OBatch (timer_batch (timer_function d) (timer_thread d) t) ]> |>)).
  - exact (enqueue_core (timer_thread d) false (a, 0%Z)
      (p <| heap ::= <[ a := OJob (mk_job (TUser (timer_function d)) (timer_thread d)) ]> |>)).
Qed.
Lemma timer_keeps t p q : queue_timer_job t p = Ret q → keeps p q.
Proof using.
  unfold queue_timer_job. destruct (timer_jobs p !! t) as [d|]; [|by intros [= <-]]. destruct (_ && _); [by intros [= <-]|].
  destruct (timer_thread d =? -1)%Z; [by destruct (eval_task _); intros [= <-]|]. unfold alloc.
  destruct (squelch d); intros H%enqueue_keeps; destruct H as [? ? ? ? ?]; by split.
Qed.

(** ** The work left *)

(** The messages a worker has still to send. *)
Definition weight (t : wthread) : nat :=
  match wt_status t with Running => 3 | Ran => 2 | Quitting => 1 | _ => 0 end.
Definition left_over (ts : thread_set) : nat := sum_list (weight <$> regular ts) + sum_list (weight <$> tagged ts).

Lemma left_set tg wid t u ts :
  the_thread tg wid ts = Some t → left_over (set_thread tg wid u ts) + weight t = left_over ts + weight u.
Proof using.
  clear. intros H. unfold left_over, the_thread, set_thread in *. destruct tg; cbn [regular tagged modify];
    pose proof (sum_fmap_insert weight _ _ _ u H) as Hs; cbn in *; lia.
Qed.

(** What can happen while the proxy shuts down: the workers finish, and everything
    but new commands and injected tasks. *)
Definition shutdown_event (e : event) : Prop :=
  match e with EvInject _ _ _ _ | EvCommand _ _ _ _ _ _ _ | EvQuit => False | _ => True end.

Lemma core_event_ok p q e : core p = core q → shutdown_event e → event_ok q e → event_ok p e.
Proof using.
  intros Hc. assert (length (tagged_workers p) = length (tagged_workers q)) as Hl.
  { apply (f_equal tagged_workers) in Hc. cbn in Hc. apply (f_equal length) in Hc. by rewrite !length_fmap in Hc. }
  assert (timer_jobs p = timer_jobs q) as Ht by exact (f_equal timer_jobs Hc).
  destruct e; cbn; try done; rewrite ?Hl, ?Ht; done.
Qed.

Lemma handler_event s q e (f : pool → outcome pool) :
  draining s q → shutdown_event e → event_ok (Threads.proxy q) e →
  (∀ x, step x e = on_proxy x (f (Threads.proxy x))) →
  (∀ p, f (core p) = pcore (f p)) → (∀ p p', f p = Ret p' → keeps p p') →
  ∃ s' q', step q e = Ret q' ∧ draining s' q' ∧ left_over (wthreads q') ≤ left_over (wthreads q).
Proof using tasks_return.
  intros Hd Hsh He Hstep Hf Hk. pose proof (core_event_ok _ _ e (dr_core _ _ Hd) Hsh He) as He'.
  destruct (step_ok tasks_return s e (dr_ok _ _ Hd) He') as (s' & Hs' & Hok'). rewrite Hstep in Hs'.
  destruct (handler_draining s q f s' Hd Hf Hk Hs' Hok') as (q' & Hq' & Hd' & Hw). exists s', q'. rewrite Hstep, Hw. done.
Qed.

Lemma worker_event s q e :
  draining s q → event_ok (Threads.proxy q) e →
  (∃ tg wid, e = EvTurn tg wid ∨ e = EvRan tg wid ∨ e = EvQuitting tg wid) →
  ∃ s' q', step q e = Ret q' ∧ draining s' q' ∧ left_over (wthreads q') ≤ left_over (wthreads q).
Proof using tasks_return.
  intros Hd He (tg & wid & Hew).
  assert (∀ t u, the_thread tg wid (wthreads q) = Some t → weight u ≤ weight t →
    left_over (set_thread tg wid u (wthreads q)) ≤ left_over (wthreads q)) as Hleft.
  { intros t u Ht Hw. pose proof (left_set tg wid t u _ Ht). lia. }
  destruct Hew as [-> |[-> | ->]]; cbn [step]; destruct He as [H0 Hpos].
  - destruct (the_thread tg wid (wthreads q)) as [t|] eqn:Ht; [|exists s, q; unfold turn; by rewrite Ht].
    destruct (decide (wt_status t = Running)) as [Hst|Hst].
    2: { exists s, q. split; [|done]. unfold turn. rewrite Ht. destruct (the_run _ _ _); [|done]. by rewrite decide_False. }
    destruct (turn_draining s q tg wid t Hd Hpos Ht Hst) as (s' & q' & Hq & Hd' & u' & Hu & Hw).
    exists s', q'. split; [done|]. split; [done|]. rewrite Hw. eapply Hleft; [done|]. unfold weight. rewrite Hst, Hu. lia.
  - unfold worker_message at 1. destruct (the_thread tg wid (wthreads q)) as [t|] eqn:Ht; [|by exists s, q].
    destruct (decide (wt_status t = Ran)) as [Hst|Hst]; [|by exists s, q].
    destruct (ran_draining s q tg wid t Hd H0 Hpos Ht Hst) as (s' & q' & Hq & Hd' & u' & Hu & Hw).
    unfold worker_message in Hq. rewrite Ht, decide_True in Hq by done.
    exists s', q'. split; [done|]. split; [done|]. rewrite Hw. eapply Hleft; [done|]. unfold weight. rewrite Hst, Hu. lia.
  - unfold worker_message at 1. destruct (the_thread tg wid (wthreads q)) as [t|] eqn:Ht; [|by exists s, q].
    destruct (decide (wt_status t = Quitting)) as [Hst|Hst]; [|by exists s, q].
    destruct (quitting_draining s q tg wid t Hd H0 Hpos Ht Hst) as (q' & Hq & Hd' & u' & Hu & Hw).
    unfold worker_message in Hq. rewrite Ht, decide_True in Hq by done.
    exists s, q'. split; [done|]. split; [done|]. rewrite Hw. eapply Hleft; [done|]. unfold weight. rewrite Hst, Hu. lia.
Qed.

Lemma draining_step s q e :
  draining s q → shutdown_event e → event_ok (Threads.proxy q) e →
  ∃ s' q', step q e = Ret q' ∧ draining s' q' ∧ left_over (wthreads q') ≤ left_over (wthreads q).
Proof using tasks_return.
  intros Hd Hsh He. destruct e as [o|f|cat cmd rem f|cat cmd data cb conn acc rem|id job sq th z|id|t| |tg wid|tg wid| |tg wid|skip];
    try done.
  - apply (handler_event s q _ (batch_handler o)); [done|done|done|done|apply batch_core|apply batch_keeps].
  - apply (handler_event s q _ (λ p, Ret (proxy_schedule_reply_job f p))); [done|done|done|done|reflexivity|].
    by intros p p' [= <-].
  - apply (handler_event s q _ (proxy_timer id job sq th z)); try done; unfold proxy_timer.
    + intros p. by destruct (z =? -1)%Z.
    + intros p p'. destruct (z =? -1)%Z; [done|]. by intros [= <-].
  - apply (handler_event s q _ (λ p, Ret (fst (proxy_timer_del id p)))); try done; unfold proxy_timer_del.
    + intros p. change (timer_zmq_id (core p)) with (timer_zmq_id p). by destruct (timer_zmq_id p !! id).
    + intros p p' [= <-]. by destruct (timer_zmq_id p !! id).
  - apply (handler_event s q _ (queue_timer_job t)); [done|done|done|done|apply timer_core|apply timer_keeps].
  - exists s. cbn [step]. unfold proxy_process_queue. rewrite (dr_max _ _ Hd). unfold on_proxy, flush.
    cbn [Z.eqb mbind outcome_bind Threads.proxy modify]. rewrite (dr_sent _ _ Hd). eexists. split; [done|].
    split; [|done]. destruct Hd as [H1 H2 H3 H4 H5 H6 H7 H8]. by split.
  - apply (worker_event s q _ Hd He). eauto.
  - apply (worker_event s q _ Hd He). eauto.
  - apply (worker_event s q _ Hd He). eauto 6.
  - destruct (step_ok tasks_return s (EvPoll skip) (dr_ok _ _ Hd) I) as (s' & Hs' & Hok').
    exists s'. cbn [step] in *. injection Hs' as <-. eexists. split; [done|]. split; [|done].
    destruct Hd as [H1 H2 H3 H4 H5 H6 H7 H8]. split; try done. cbn [Threads.proxy modify].
    exact (f_equal (λ p, p <| proxy_skip_one_poll := skip |>) H2).
Qed.

(** ** QUIT *)

Definition thread_list (tg : bool) (ts : thread_set) : list wthread := if tg then tagged ts else regular ts.
Definition worker_number (tg : bool) (i : nat) : Z := if tg then Z.of_nat i + 1 else Z.of_nat i.
Definition quit_message (tg : bool) (i : nat) : to_worker := Control (routing_id tg (worker_number tg i)) (B "QUIT").
Definition to_quit (t : wthread) : wthread := t <| wt_status := Quitting |>.

Lemma thread_number tg i ts : the_thread tg (worker_number tg i) ts = thread_list tg ts !! i.
Proof using. unfold the_thread, worker_number, thread_list. destruct tg; f_equal; lia. Qed.
Lemma set_thread_number tg i t ts :
  thread_list tg (set_thread tg (worker_number tg i) t ts) = <[ i := t ]> (thread_list tg ts) ∧
  thread_list (negb tg) (set_thread tg (worker_number tg i) t ts) = thread_list (negb tg) ts.
Proof using. unfold set_thread, worker_number, thread_list. destruct tg; cbn; split; try done; f_equal; lia. Qed.

(** The messages reach the threads they are for. *)
Lemma deliver_quits tg ids ts :
  NoDup ids → (∀ i, i ∈ ids → (Z.of_nat i < 2 ^ 31)%Z ∧ ∃ t, thread_list tg ts !! i = Some t ∧ wt_status t = Waiting) →
  ∃ ts', deliver_all (quit_message tg <$> ids) ts = Ret ts' ∧
    thread_list (negb tg) ts' = thread_list (negb tg) ts ∧
    ∀ i, thread_list tg ts' !! i =
      if bool_decide (i ∈ ids) then to_quit <$> thread_list tg ts !! i else thread_list tg ts !! i.
Proof using.
  clear. revert ts. induction ids as [|i ids IH]; intros ts Hnd Hw; [by exists ts|].
  apply NoDup_cons in Hnd as [Hni Hnd]. destruct (Hw i) as (Hi & t & Ht & Hst); [apply elem_of_cons; by left|].
  rewrite fmap_cons. cbn [deliver_all]. set (ts1 := set_thread tg (worker_number tg i) (to_quit t) ts).
  assert (deliver (quit_message tg i) ts = Ret ts1) as ->.
  { apply deliver_quit; [unfold worker_number; destruct tg; lia|by rewrite thread_number|done]. }
  cbn [mbind outcome_bind].
  destruct (set_thread_number tg i (to_quit t) ts) as [H1 H2].
  destruct (IH ts1 Hnd) as (ts' & Hd & Ho & Hl).
  { intros j Hj. destruct (Hw j) as (Hjb & u & Hu & Hsu); [apply elem_of_cons; by right|]. split; [done|]. exists u.
    split; [|done]. subst ts1. rewrite H1, list_lookup_insert_ne; [done|]. congruence. }
  exists ts'. split; [done|]. split; [by rewrite Ho|]. intros j. rewrite Hl. subst ts1. rewrite H1.
  destruct (decide (j = i)) as [->|Hne].
  - rewrite (bool_decide_false (i ∈ ids)), bool_decide_true by (done || apply elem_of_cons; by left).
    rewrite list_lookup_insert_eq by (by eapply lookup_lt_Some). by rewrite Ht.
  - rewrite list_lookup_insert_ne by done. rewrite (bool_decide_ext (j ∈ i :: ids) (j ∈ ids)); [done|].
    rewrite elem_of_cons. naive_solver.
Qed.

Lemma tagged_quits (ws : list (run_info * bool * batch_queue)) :
  (∀ i r b q, ws !! i = Some (r, b, q) → worker_routing_id r = routing_id true (Z.of_nat i + 1)) →
  ∃ ids, omap (λ '(run, busy, _), if (busy : bool) then None else Some (Control (worker_routing_id run) (B "QUIT"))) ws =
    quit_message true <$> ids ∧ NoDup ids ∧ ∀ i, i ∈ ids ↔ ∃ r q, ws !! i = Some (r, false, q).
Proof using.
  clear. induction ws as [|[[r b] q] ws IH] using rev_ind; intros Hid.
  { exists []. split; [done|]. split; [constructor|]. intros i. split; [by intros ?%elem_of_nil|by intros (? & ? & ?)]. }
  destruct IH as (ids & Ho & Hnd & Hi).
  { intros i r' b' q' Hl. eapply Hid. by apply lookup_app_l_Some. }
  rewrite omap_app, Ho. pose proof (Hid (length ws) r b q (list_lookup_middle _ _ _ _ eq_refl)) as Hr.
  assert (∀ i r' q', (ws ++ [(r, b, q)]) !! i = Some (r', false, q') ↔
    ws !! i = Some (r', false, q') ∨ i = length ws ∧ (r, b, q) = (r', false, q')) as Hsnoc.
  { intros i r' q'. rewrite lookup_app_Some, list_lookup_singleton_Some. split.
    - intros [?|[? [? ?]]]; [by left|right]. split; [lia|done].
    - intros [?|[-> ?]]; [by left|right]. split; [done|]. split; [lia|done]. }
  destruct b.
  - exists ids. cbn. rewrite app_nil_r. split; [done|]. split; [done|]. intros i. rewrite Hi. setoid_rewrite Hsnoc. naive_solver.
  - exists (ids ++ [length ws]). rewrite fmap_app. cbn. rewrite Hr. split; [done|]. split.
    + apply NoDup_app. split; [done|]. split; [|apply NoDup_singleton]. intros x Hx ->%list_elem_of_singleton.
      apply Hi in Hx as (r' & q' & Hx). apply lookup_lt_Some in Hx. lia.
    + intros i. rewrite elem_of_app, list_elem_of_singleton, Hi. setoid_rewrite Hsnoc. naive_solver.
Qed.

Lemma idle_quits p :
  idle_ok p → ∃ rs, idle_routes p = Ret rs ∧ (λ r, Control r (B "QUIT")) <$> rs = quit_message false <$> idle p.
Proof using.
  clear. intros Hi. unfold idle_routes. fold (idle p).
  assert (∀ l, (∀ i, i ∈ l → i < length (workers p)) → ∃ rs, mapM (λ i, workers p !! i) l = Some rs ∧
    (λ r, Control r (B "QUIT")) <$> (worker_routing_id <$> rs) = quit_message false <$> l) as Hl.
  { induction l as [|i l IH]; intros Hb; [by exists []|].
    destruct (lookup_lt_is_Some_2 (workers p) i) as [r Hr]; [apply Hb, elem_of_cons; by left|].
    destruct IH as (rs & Hm & He); [intros j Hj; apply Hb, elem_of_cons; by right|].
    exists (r :: rs). cbn. rewrite Hr. cbn. rewrite Hm. split; [done|]. rewrite <- He. f_equal. unfold quit_message. cbn.
    by rewrite (proj1 (proj2 (io_ids _ Hi i r Hr))). }
  destruct (Hl (idle p) (io_bound _ Hi)) as (rs & -> & He). eauto.
Qed.

Lemma told_quit ts ts' (waits : nat → Prop) (ids : list nat) :
  (∀ i t, ts !! i = Some t → status_ok (waits i) t) → (∀ i, i < length ts → i ∈ ids ↔ waits i) →
  (∀ i, ts' !! i = if bool_decide (i ∈ ids) then to_quit <$> ts !! i else ts !! i) → Forall2 told ts ts'.
Proof using.
  clear. intros Hst Hids Hl. apply Forall2_same_length_lookup. split.
  - assert (∀ i, is_Some (ts !! i) ↔ is_Some (ts' !! i)) as H.
    { intros i. rewrite Hl. case_bool_decide; [by rewrite fmap_is_Some|done]. }
    apply Nat.le_antisymm; apply Nat.nlt_ge; intros Hlt; apply lookup_lt_is_Some, H, lookup_lt_is_Some in Hlt; lia.
  - intros i t u Ht Hu. rewrite Hl, Ht in Hu. pose proof (lookup_lt_Some _ _ _ Ht) as Hlt. unfold told.
    destruct (Hst i t Ht) as [[Hw Hs]|[Hw Hs]].
    + rewrite decide_True by done. rewrite bool_decide_true in Hu by (by apply Hids). injection Hu as <-. by left.
    + rewrite decide_False by (destruct Hs as [-> | ->]; done). rewrite bool_decide_false in Hu by (by rewrite Hids).
      by injection Hu.
Qed.

Lemma quit_draining s : system_ok s → ∃ q, step s EvQuit = Ret q ∧ draining s q.
Proof using.
  intros Hok. pose proof Hok as [Hg Hsent]. pose proof Hg as [[Hi _ _] _ _ _ Ht (ts & Hd & [L1 S1 L2 S2]) [Hm Hn]].
  rewrite Hsent in Hd. injection Hd as <-. set (p := Threads.proxy s) in *.
  destruct (idle_quits p Hi) as (rs & Hrs & Hmsgs).
  destruct (tagged_quits (tagged_workers p)) as (ids & Hom & Hnd & Hids); [intros i r b q Hl; by apply (Ht i r b q)|].
  destruct (deliver_quits false (idle p) (wthreads s) (io_nodup _ Hi)) as (ts1 & Hd1 & Ho1 & Hl1).
  { intros i Hin. pose proof (io_bound _ Hi i Hin) as Hlt. split; [pose proof (io_capacity _ Hi); pose proof (worker_fits _ _ _ _ Hg Hlt)|].
    - pose proof (po_capacity _ (g_pool _ _ _ Hg)) as Hcap. fold p in Hcap. lia.
    - cbn [thread_list]. destruct (lookup_lt_is_Some_2 (regular (wthreads s)) i) as [t Hti]; [lia|]. exists t. split; [done|].
      by destruct (S1 i t Hti) as [[_ ?]|[? _]]. }
  destruct (deliver_quits true ids ts1 Hnd) as (ts2 & Hd2 & Ho2 & Hl2).
  { intros i (r & q & Hw)%Hids. pose proof (lookup_lt_Some _ _ _ Hw) as Hlt. split; [lia|]. cbn in Ho1. cbn [thread_list].
    rewrite Ho1. destruct (lookup_lt_is_Some_2 (tagged (wthreads s)) i) as [t Hti]; [lia|]. exists t. split; [done|].
    by destruct (S2 i t _ Hti Hw) as [[_ ?]|[? _]]. }
  cbn [step]. fold p. unfold on_proxy, quit_workers. change (idle_routes (p <| max_workers := 0%Z |>)) with (idle_routes p).
  rewrite Hrs. cbn [mbind outcome_bind]. match goal with |- context [flush ?x] => set (X := x) end.
  assert (deliver_all (sent (Threads.proxy X)) (wthreads X) = Ret ts2) as HX.
  { change (sent (Threads.proxy X)) with ((sent p ++ ((λ r, Control r (B "QUIT")) <$> rs)) ++ omap (λ '(run, busy, _),
      if (busy : bool) then None else Some (Control (worker_routing_id run) (B "QUIT"))) (tagged_workers p)).
    rewrite Hsent, Hmsgs, Hom. cbn [app]. rewrite deliver_all_app. change (wthreads X) with (wthreads s).
    rewrite Hd1. exact Hd2. }
  unfold flush. rewrite HX. cbn [mbind outcome_bind]. eexists. split; [done|]. cbn in Ho1, Ho2.
  split; cbn [Threads.proxy wthreads modify]; try done.
  - rewrite Ho2. apply (told_quit _ _ (λ i, i ∈ idle p) (idle p)); [exact S1|done|exact Hl1].
  - apply (told_quit _ _ (λ i, ∃ r q, tagged_workers p !! i = Some (r, false, q)) ids); [|done|].
    + intros i t Hti. destruct (lookup_lt_is_Some_2 (tagged_workers p) i) as [[[r b] q] Hw]; [rewrite <- L2; by eapply lookup_lt_Some|].
      destruct (S2 i t _ Hti Hw) as [[Hb ?]|[Hb ?]]; cbn in Hb; [left|right]; split; try done; [subst b; eauto|].
      intros (r' & q' & Hw'). rewrite Hw in Hw'. injection Hw' as _ -> _. done.
    + intros i. by rewrite <- Ho1, <- Hl2.
  - intros tg wid t r Htq Hr. assert (joinable r = true) as ->.
    { change (the_run tg wid p = Some r) in Hr. unfold the_run in Hr. destruct tg.
      - apply fmap_Some in Hr as ([[r' b'] q'] & Hw & ->). by apply (Ht _ _ _ _ Hw).
      - by apply (io_ids _ Hi _ _ Hr). }
    assert (wt_status t ≠ Joined) as Hne; [|by rewrite bool_decide_false]. unfold the_thread in Htq.
    assert (∀ i x, thread_list tg (wthreads s) !! i = Some x → wt_status x ≠ Joined) as Hnj.
    { intros i x Hx Hj. rewrite <- thread_number in Hx. destruct (steady_threads _ _ _ _ _ Hg Hsent Hx) as [Hy _].
      rewrite Hj in Hy. by destruct Hy as [?|[?|?]]. }
    destruct tg; cbn in Hnj.
    + specialize (Hl2 (Z.to_nat (wid - 1))). cbn [thread_list] in Hl2. rewrite Hl2, Ho1 in Htq.
      case_bool_decide; [|by eapply Hnj]. apply fmap_Some in Htq as (x & _ & ->). done.
    + specialize (Hl1 (Z.to_nat wid)). cbn [thread_list] in Hl1. rewrite Ho2, Hl1 in Htq. case_bool_decide; [|by eapply Hnj]. apply fmap_Some in Htq as (x & _ & ->). done.
Qed.

(** ** The end *)

Definition worker_count (ts : thread_set) : nat := length (regular ts) + length (tagged ts).
Definition all_joined (ts : thread_set) : Prop :=
  ∀ tg i t, thread_list tg ts !! i = Some t → wt_status t = Joined.

Lemma draining_status s q tg i t :
  draining s q → thread_list tg (wthreads q) !! i = Some t →
  wt_status t = Running ∨ wt_status t = Ran ∨ wt_status t = Quitting ∨ wt_status t = Joined.
Proof using.
  intros Hd Ht. rewrite <- thread_number in Ht. destruct (told_thread _ _ _ _ _ Hd Ht) as (u & Hu & Htold).
  destruct (dr_ok _ _ Hd) as [Hg Hsent]. destruct (steady_threads _ _ _ _ _ Hg Hsent Hu) as [Hst _].
  unfold told in Htold. destruct (decide _); [by right; right|]. subst t. tauto.
Qed.

Lemma sum_zero (l : list wthread) : sum_list (weight <$> l) = 0 ↔ ∀ i t, l !! i = Some t → weight t = 0.
Proof using.
  clear. induction l as [|x l IH]; [done|]. rewrite sum_fmap_cons. split.
  - intros H [|i] t Ht; [injection Ht as <-; lia|]. by apply (proj1 IH) with i; [lia|].
  - intros H. rewrite (H 0 x eq_refl). apply IH. intros i t. apply (H (S i)).
Qed.
Lemma sum_bound (l : list wthread) : sum_list (weight <$> l) ≤ 3 * length l.
Proof using. clear. apply sum_fmap_le. intros x. unfold weight. destruct (wt_status x); lia. Qed.
Lemma left_bound ts : left_over ts ≤ 3 * worker_count ts.
Proof using. unfold left_over, worker_count. pose proof (sum_bound (regular ts)). pose proof (sum_bound (tagged ts)). lia. Qed.

Lemma draining_joined s q : draining s q → left_over (wthreads q) = 0 ↔ all_joined (wthreads q).
Proof using.
  intros Hd. unfold left_over. rewrite Nat.eq_add_0, !sum_zero.
  assert (∀ tg i t, thread_list tg (wthreads q) !! i = Some t → weight t = 0 ↔ wt_status t = Joined) as Hw.
  { intros tg i t Ht. unfold weight. by destruct (draining_status _ _ _ _ _ Hd Ht) as [-> |[-> |[-> | ->]]]. }
  split.
  - intros [H1 H2] tg i t Ht. apply (Hw tg i t Ht). destruct tg; [by apply (H2 i)|by apply (H1 i)].
  - intros H. split; intros i t Ht; [apply (Hw false i); [done|]; by apply (H false i)|apply (Hw true i); [done|]; by apply (H true i)].
Qed.

Lemma draining_lengths s q : draining s q →
  length (regular (wthreads q)) = length (workers (Threads.proxy q)) ∧
  length (tagged (wthreads q)) = length (tagged_workers (Threads.proxy q)).
Proof using.
  intros [[Hg Hsent] Hc _ _ _ H1 H2 _]. destruct Hg as [_ _ _ _ _ (ts & Hd & [L1 _ L2 _]) _]. rewrite Hsent in Hd. injection Hd as <-.
  rewrite <- (Forall2_length _ _ _ H1), <- (Forall2_length _ _ _ H2), L1, L2.
  assert (length (blank <$> workers (Threads.proxy s)) = length (blank <$> workers (Threads.proxy q))) as E1
    by exact (f_equal (length ∘ workers) Hc).
  assert (length (blank_tagged <$> tagged_workers (Threads.proxy s)) =
    length (blank_tagged <$> tagged_workers (Threads.proxy q))) as E2 by exact (f_equal (length ∘ tagged_workers) Hc).
  rewrite !length_fmap in E1. rewrite !length_fmap in E2. done.
Qed.

(** The loop ends exactly when every worker was joined. *)
Lemma draining_ends s q : draining s q → loop_ends (Threads.proxy q) = true ↔ all_joined (wthreads q).
Proof using.
  intros Hd. destruct (draining_lengths _ _ Hd) as [L1 L2]. unfold loop_ends. rewrite (dr_max _ _ Hd). cbn [Z.eqb andb].
  unfold workers_done. rewrite andb_true_iff, !forallb_forall.
  assert (∀ tg i t r, thread_list tg (wthreads q) !! i = Some t → the_run tg (worker_number tg i) (Threads.proxy q) = Some r →
    negb (joinable r) = true ↔ wt_status t = Joined) as Hj.
  { intros tg i t r Ht Hr. rewrite <- thread_number in Ht. rewrite (dr_joined _ _ Hd _ _ _ _ Ht Hr), negb_involutive.
    apply bool_decide_eq_true. }
  split.
  - intros [H1 H2] [] i t Ht; cbn in Ht; pose proof (lookup_lt_Some _ _ _ Ht) as Hlt.
    + destruct (lookup_lt_is_Some_2 (tagged_workers (Threads.proxy q)) i) as [w Hw]; [lia|].
      apply (Hj true i t (fst (fst w))); [done| |]; [unfold the_run, worker_number; rewrite Z.add_simpl_r, Nat2Z.id, Hw; done|].
      apply H2. by apply list_elem_of_In, list_elem_of_lookup_2 with i.
    + destruct (lookup_lt_is_Some_2 (workers (Threads.proxy q)) i) as [r Hr]; [lia|].
      apply (Hj false i t r); [done| |]; [unfold the_run, worker_number; by rewrite Nat2Z.id|].
      apply H1. by apply list_elem_of_In, list_elem_of_lookup_2 with i.
  - intros H. split.
    + intros r [i Hr]%list_elem_of_In%list_elem_of_lookup. pose proof (lookup_lt_Some _ _ _ Hr).
      destruct (lookup_lt_is_Some_2 (regular (wthreads q)) i) as [t Ht]; [lia|].
      apply (Hj false i t); [done|unfold the_run, worker_number; by rewrite Nat2Z.id|]. by apply (H false i).
    + intros w [i Hw]%list_elem_of_In%list_elem_of_lookup. pose proof (lookup_lt_Some _ _ _ Hw).
      destruct (lookup_lt_is_Some_2 (tagged (wthreads q)) i) as [t Ht]; [lia|].
      apply (Hj true i t); [done| |by apply (H true i)]. unfold the_run, worker_number. by rewrite Z.add_simpl_r, Nat2Z.id, Hw.
Qed.

(** A message of a worker, or its turn before. *)
Definition worker_step (e : event) : Prop :=
  match e with EvTurn _ _ | EvRan _ _ | EvQuitting _ _ => True | _ => False end.

Lemma draining_progress s q :
  draining s q → left_over (wthreads q) ≠ 0 →
  ∃ e s' q', worker_step e ∧ step q e = Ret q' ∧ draining s' q' ∧ left_over (wthreads q') < left_over (wthreads q).
Proof using tasks_return.
  intros Hd Hleft. assert (∃ tg i t, thread_list tg (wthreads q) !! i = Some t ∧ weight t ≠ 0) as (tg & i & t & Ht & Hw).
  { assert (∀ l : list wthread, sum_list (weight <$> l) ≠ 0 → ∃ i t, l !! i = Some t ∧ weight t ≠ 0) as Hl.
    { clear. induction l as [|x l IH]; [done|]. rewrite sum_fmap_cons. intros H. destruct (decide (weight x = 0)) as [Hx|Hx].
      - destruct IH as (i & t & Hi & Hw); [lia|]. by exists (S i), t.
      - by exists 0, x. }
    unfold left_over in Hleft. destruct (decide (sum_list (weight <$> regular (wthreads q)) = 0)) as [H0|H0].
    - destruct (Hl (tagged (wthreads q))) as (i & t & ? & ?); [lia|]. by exists true, i, t.
    - destruct (Hl _ H0) as (i & t & ? & ?). by exists false, i, t. }
  set (wid := worker_number tg i). rewrite <- thread_number in Ht. fold wid in Ht.
  assert (0 ≤ wid ∧ (tg = true → 0 < wid))%Z as [H0 Hpos] by (subst wid; unfold worker_number; destruct tg; split; lia || done).
  assert (∀ q' u', wthreads q' = set_thread tg wid u' (wthreads q) → weight u' < weight t →
    left_over (wthreads q') < left_over (wthreads q)) as Hlt.
  { intros q' u' -> Hu'. pose proof (left_set tg wid t u' _ Ht). lia. }
  unfold weight in Hw, Hlt. destruct (wt_status t) eqn:Hst; try done.
  - destruct (turn_draining s q tg wid t Hd Hpos Ht Hst) as (s' & q' & Hq & Hd' & u' & Hu & Hw').
    exists (EvTurn tg wid), s', q'. split; [done|]. split; [done|]. split; [done|]. eapply Hlt; [done|]. rewrite Hu. lia.
  - destruct (ran_draining s q tg wid t Hd H0 Hpos Ht Hst) as (s' & q' & Hq & Hd' & u' & Hu & Hw').
    exists (EvRan tg wid), s', q'. split; [done|]. split; [done|]. split; [done|]. eapply Hlt; [done|]. rewrite Hu. lia.
  - destruct (quitting_draining s q tg wid t Hd H0 Hpos Ht Hst) as (q' & Hq & Hd' & u' & Hu & Hw').
    exists (EvQuitting tg wid), s, q'. split; [done|]. split; [done|]. split; [done|]. eapply Hlt; [done|]. rewrite Hu. lia.
Qed.

Lemma draining_finishes s q :
  draining s q → ∃ es s' q', Forall worker_step es ∧ length es ≤ left_over (wthreads q) ∧ execute q es = Ret q' ∧
    draining s' q' ∧ left_over (wthreads q') = 0.
Proof using tasks_return.
  remember (left_over (wthreads q)) as n eqn:Hn. revert s q Hn. induction (lt_wf n) as [n _ IH]. intros s q Hn Hd.
  destruct (decide (n = 0)) as [->|Hne]; [exists [], s, q; split_and!; (done || lia || constructor)|].
  destruct (draining_progress s q Hd) as (e & s1 & q1 & He & Hs & Hd1 & Hlt); [lia|].
  destruct (IH (left_over (wthreads q1)) ltac:(lia) s1 q1 eq_refl Hd1) as (es & s2 & q2 & Hes & Hlen & Hx & Hd2 & H0).
  exists (e :: es), s2, q2. cbn [execute length]. rewrite Hs. split; [by constructor|]. split; [lia|]. done.
Qed.

(** A schedule of the shutdown; the calls are within their preconditions. *)
Fixpoint shutdown_run (s : system) (es : list event) : Prop :=
  match es with
  | [] => True
  | e :: es => shutdown_event e ∧ event_ok (Threads.proxy s) e ∧ ∀ s', step s e = Ret s' → shutdown_run s' es
  end.

Lemma draining_run es s q :
  draining s q → shutdown_run q es → ∃ s' q', execute q es = Ret q' ∧ draining s' q'.
Proof using tasks_return.
  revert s q. induction es as [|e es IH]; intros s q Hd Hr; [by exists s, q|]. destruct Hr as (Hsh & He & Hr).
  destruct (draining_step s q e Hd Hsh He) as (s1 & q1 & Hs & Hd1 & _). cbn [execute]. rewrite Hs.
  apply (IH s1 q1 Hd1). by apply Hr.
Qed.

Lemma draining_count s q : draining s q → worker_count (wthreads q) = worker_count (wthreads s).
Proof using. intros [_ _ _ _ _ H1 H2 _]. unfold worker_count. by rewrite (Forall2_length _ _ _ H1), (Forall2_length _ _ _ H2). Qed.

(** C9: shutting down works.  From every state the proxy can get to, QUIT is
    handled, and whatever happens then short of new commands and injected tasks
    (workers finishing in any order, batches and jobs still being submitted, timers,
    replies) is handled without undefined behaviour.  The loop of the proxy ends
    exactly when every worker thread, tagged ones included, has been joined, and
    that point is never more than three messages per worker away; the teardown then
    passes its assertions and closes every connection, unless one of them has a null
    socket, whose linger time cannot be set. *)
Theorem shutdown_completes s :
  reachable s →
  ∃ s1, step s EvQuit = Ret s1 ∧ ∀ es, shutdown_run s1 es →
    ∃ s2, execute s1 es = Ret s2 ∧ (loop_ends (Threads.proxy s2) = true ↔ all_joined (wthreads s2)) ∧
    ∃ es' s3, Forall worker_step es' ∧ length es' ≤ 3 * worker_count (wthreads s2) ∧ execute s2 es' = Ret s3 ∧
      loop_ends (Threads.proxy s3) = true ∧ ∀ st, px_sys st = s3 →
        (∃ st', proxy_quit st = Ret st' ∧ connections (px_net st') = ∅ ∧ peers (px_net st') = []) ∨
        proxy_quit st = Throw (zmq_error ENOTSOCK) ∧ ∃ id, connections (px_net st) !! id = Some NullSocket.
Proof using tasks_return.
  intros Hr. destruct (quit_draining s (reachable_ok tasks_return s Hr)) as (s1 & Hs1 & Hd1).
  exists s1. split; [done|]. intros es Hes. destruct (draining_run es s s1 Hd1 Hes) as (x2 & s2 & Hs2 & Hd2).
  exists s2. split; [done|]. split; [by eapply draining_ends|].
  destruct (draining_finishes x2 s2 Hd2) as (es' & x3 & s3 & Hw & Hlen & Hs3 & Hd3 & H0).
  assert (loop_ends (Threads.proxy s3) = true) as Hend by (by apply (draining_ends x3 s3 Hd3), (draining_joined x3 s3 Hd3)).
  exists es', s3. split; [done|]. split; [pose proof (left_bound (wthreads s2)); lia|]. split; [done|]. split; [done|].
  intros st <-. unfold loop_ends in Hend. apply andb_true_iff in Hend as [_ Hdone]. by apply quit_cases.
Qed.

(** ** New work after QUIT *)

Lemma draining_capacity s q :
  draining s q → length (workers (Threads.proxy q)) ≤ workers_capacity (Threads.proxy q).
Proof using.
  intros Hd. destruct (g_pool _ _ _ (proj1 (dr_ok _ _ Hd))) as [Hi _ _]. pose proof (io_capacity _ Hi) as Hcap.
  assert (length (blank <$> workers (Threads.proxy s)) = length (blank <$> workers (Threads.proxy q))) as Hl
    by exact (f_equal (length ∘ workers) (dr_core _ _ Hd)).
  assert (workers_capacity (Threads.proxy s) = workers_capacity (Threads.proxy q)) as <-
    by exact (f_equal workers_capacity (dr_core _ _ Hd)).
  rewrite !length_fmap in Hl. lia.
Qed.

(** Starting work then: no idle worker is recorded any more, so a new one is made
    each time, as long as there is room. *)
Lemma start_after_quit s q f g :
  draining s q → loads f → (∀ p, sent (g p) = sent p) →
  on_proxy q (p ← run_on_idle (Threads.proxy q) f; Ret (g p)) = Undef ↔
  length (workers (Threads.proxy q)) = workers_capacity (Threads.proxy q).
Proof using.
  intros Hd Hf Hg. pose proof (draining_capacity _ _ Hd) as Hcap. destruct (draining_lengths _ _ Hd) as [Hl _].
  unfold on_proxy. split; intros H.
  - apply dec_stable. intros Hne. rewrite run_on_new in H by (apply Hd || lia || done). cbn [mbind outcome_bind] in H.
    unfold flush in H. cbn [Threads.proxy modify] in H. rewrite Hg in H. cbn in H. rewrite (dr_sent _ _ Hd) in H. cbn in H.
    rewrite Hl, Z.eqb_refl in H. done.
  - rewrite run_on_full; [done|apply Hd|lia].
Qed.

(** C37: after QUIT the guarantee of a bounded number of workers ends.  The proxy
    forgets its idle workers but keeps serving INJECT and incoming commands until the
    busy ones are done.  After QUIT and whatever follows, a task injected into a
    category that may start one makes [get_idle_worker] create a worker although the
    idle ones are not joined yet, and this is undefined behaviour exactly when the
    workers fill the capacity reserved for them: the vector is then reallocated under
    the running threads.  A command that arrives is run the same way. *)
Theorem shutdown_overflow s s1 es s2 cat c :
  reachable s → step s EvQuit = Ret s1 → shutdown_run s1 es → execute s1 es = Ret s2 →
  the_category (Threads.proxy s2) cat = Some c → slot_free (Threads.proxy s2) c = true →
  (∀ command remote f, step s2 (EvInject cat command remote f) = Undef ↔
     length (workers (Threads.proxy s2)) = workers_capacity (Threads.proxy s2)) ∧
  (∀ command data cb conn acc remote, ¬ (snd cb = true ∧ data = []) →
     step s2 (EvCommand cat command data cb conn acc remote) = Undef ↔
     length (workers (Threads.proxy s2)) = workers_capacity (Threads.proxy s2)).
Proof using tasks_return.
  intros Hr Hq Hes Hx Hc Hfree. destruct (quit_draining s (reachable_ok tasks_return s Hr)) as (x1 & Hx1 & Hd1).
  rewrite Hq in Hx1. injection Hx1 as <-. destruct (draining_run es s s1 Hd1 Hes) as (y & x2 & Hx2 & Hd2).
  rewrite Hx in Hx2. injection Hx2 as <-. split.
  - intros command remote f. cbn [step]. unfold proxy_inject_task. rewrite Hc, Hfree. cbn [negb].
    apply (start_after_quit y); auto with omq.
  - intros command data cb conn acc remote Hdata. cbn [step]. unfold dispatch_command. rewrite Hc, Hfree. cbn [negb].
    assert (snd cb && bool_decide (data = []) = false) as ->.
    { apply andb_false_iff. destruct (snd cb); [right|by left]. apply bool_decide_eq_false. by intros ->; destruct Hdata. }
    apply (start_after_quit y); auto with omq.
Qed.
End steps.

(** The sample is told to quit; a job is submitted after that. *)
Lemma shutdown_completes_witness :
  ∃ s s1 s2 s3 es', reachable (E := sample_eval) s ∧ step (E := sample_eval) s EvQuit = Ret s1 ∧
    execute (E := sample_eval) s1 [EvBatch (OJob (mk_job (TUser 1) 0)); EvQueue] = Ret s2 ∧
    execute (E := sample_eval) s2 es' = Ret s3 ∧ loop_ends (Threads.proxy s3) = true.
Proof.
  destruct sample_exists as [s Hs]. pose proof (sample_reachable s Hs) as Hr.
  destruct (shutdown_completes (E := sample_eval) sample_returns s Hr) as (s1 & Hs1 & H).
  destruct (H [EvBatch (OJob (mk_job (TUser 1) 0)); EvQueue]) as (s2 & Hs2 & _ & es' & s3 & _ & _ & Hs3 & He & _).
  { cbn [shutdown_run shutdown_event event_ok]. split; [exact I|]. split; [|intros s' _; split; [exact I|]; split; [exact I|]; intros; exact I].
    split; [cbn; unfold thread_ok; lia|reflexivity]. }
  exists s, s1, s2, s3, es'. exact (conj Hr (conj Hs1 (conj Hs2 (conj Hs3 He)))).
Defined.

(** The general worker of the sample is busy, the reserved one has finished and is
    told to quit; the worker that is left submits a job and a task is injected. *)
Definition busy_sample : option system :=
  match sample_system with
  | Ret s => run_checked s [EvBatch (OJob (mk_job (TUser 1) 0)); EvQueue; EvInject (B "c") (B "task") [] 7;
                            EvTurn false 1; EvRan false 1]
  | _ => None
  end.
Definition late_job : list event := [EvBatch (OJob (mk_job (TUser 2) 0))].

Lemma shutdown_overflow_witness :
  ∃ s s1 s2, busy_sample = Some s ∧ step (E := sample_eval) s EvQuit = Ret s1 ∧
    execute (E := sample_eval) s1 late_job = Ret s2 ∧
    step (E := sample_eval) s2 (EvInject (B "c") (B "late") [] 8) = Undef.
Proof.
  destruct busy_sample as [s|] eqn:Hs; [|vm_compute in Hs; discriminate Hs].
  assert (reachable (E := sample_eval) s) as Hr by exact (checked_reachable _ _ Hs).
  vm_compute in Hs. injection Hs as Hs.
  destruct (step (E := sample_eval) s EvQuit) as [s1| |] eqn:H1; [|subst s; vm_compute in H1; discriminate H1..].
  destruct (execute (E := sample_eval) s1 late_job) as [s2| |] eqn:H2.
  2,3: subst s; vm_compute in H1; injection H1 as <-; vm_compute in H2; discriminate H2.
  destruct (the_category (Threads.proxy s2) (B "c")) as [c|] eqn:Hc.
  2: subst s; vm_compute in H1; injection H1 as <-; vm_compute in H2; injection H2 as <-; vm_compute in Hc; discriminate Hc.
  exists s, s1, s2. split; [reflexivity|]. split; [exact H1|]. split; [exact H2|].
  apply (shutdown_overflow (E := sample_eval) sample_returns s s1 late_job s2 (B "c") c); [exact Hr|exact H1| |exact H2|exact Hc| |].
  - cbn [shutdown_run shutdown_event event_ok late_job]. split; [exact I|]. split; [|intros; exact I].
    split; [cbn; unfold thread_ok; lia|reflexivity].
  - subst s. vm_compute in H1. injection H1 as <-. vm_compute in H2. injection H2 as <-. vm_compute in Hc. injection Hc as <-.
    reflexivity.
  - subst s. vm_compute in H1. injection H1 as <-. vm_compute in H2. injection H2 as <-. reflexivity.
Defined.
