(* ===== verification/ProxySafe.v ===== *)
(** * ProxySafe: the proxy thread as a whole does not fail

    The handlers of [Net] and [ServiceNodes] composed with the scheduler of
    [Threads]: every public call, every received message and every worker event
    is handled without an exception escaping into the proxy thread and without
    undefined behaviour. *)
From S2P Require Import Prelude Bytes Oxenc Address Auth ConnId Commands Batch Pool Options Net Closing ServiceNodes NetSteps NetProps Tables NetFrame.
From S2P Require Import Threads PoolInv PoolSteps PoolSafe Proxy Start.
Open Scope Z_scope.
Open Scope nat_scope.

(** Service node keys have 32 bytes. *)
Definition sns_ok (n : net) : Prop := ∀ pk, pk ∈ active_service_nodes n → length pk = 32.

(** * Handlers return *)

Section returns.
Context {env : Zmq}.

Lemma connect_sn_returns remote hint opt inc out keep n :
  length remote = 32 → ∃ n' r, proxy_connect_sn remote hint opt inc out keep n = Ret (n', r).
Proof.
  intros H. unfold proxy_connect_sn, conn_of_pubkey. rewrite H. change (32 =? 32) with true. cbn [mbind outcome_bind].
  destruct (list_find _ _) as [(i & k & p)|]; [by do 2 eexists|].
  destruct (opt || inc); [by do 2 eexists|]. destruct (bool_decide _); [by do 2 eexists|].
  destruct (zconnect _); by do 2 eexists.
Qed.

Lemma send_loop_Ret fuel c conn n :
  (conn_sn conn = true → length (conn_pk conn) = 32) → ∃ e, send_loop fuel c conn n = Ret e.
Proof.
  revert conn n. induction fuel as [|fuel IH]; intros conn n Hpk; [by eexists|]. cbn [send_loop].
  assert (∃ n1 r, send_target c conn n = Ret (n1, r)) as (n1 & r & ->).
  { unfold send_target. destruct (conn_sn conn); [by apply connect_sn_returns, Hpk|].
    destruct (negb _); by do 2 eexists. }
  cbn [mbind outcome_bind]. destruct r as [[id route]|]; [|by eexists].
  destruct (send_on _ _ _) as [n2 []]; [by eexists|by eexists|].
  destruct (_ && _); [|by eexists]. destruct (drop_unreachable _ n2) as [[n3 []]|]; [|by eexists|by eexists].
  by apply IH.
Qed.

Lemma send_returns c n : (conn_sn (sc_conn c) = true → length (conn_pk (sc_conn c)) = 32) →
  ∃ r, proxy_send c n = Ret r ∧ (r = None → sc_incoming c = true).
Proof.
  intros Hpk. unfold proxy_send. destruct (sc_incoming c) eqn:Hinc.
  - destruct (send_loop_Ret (S (length (peers n))) c (sc_conn c) n Hpk) as [e ->]. by eexists.
  - destruct (send_loop_returns (S (length (peers n))) c (sc_conn c) n Hinc Hpk ltac:(lia)) as (n' & b & e & ->).
    by eexists.
Qed.

Lemma connect_remote_returns c n :
  connections n !! cc_conn_id c = None → (∀ id e, zsend id [B "HI"] ≠ SendError e) →
  ∃ n', proxy_connect_remote c n = Ret n'.
Proof.
  intros Hn Hz. unfold proxy_connect_remote. destruct (zconnect _); [by eexists|].
  unfold send_on, emplace_socket. cbn [connections modify]. rewrite Hn, lookup_insert_eq.
  specialize (Hz (cc_conn_id c)). destruct (zsend _ _) as [| |e]; [by eexists|by eexists|]. by destruct (Hz e).
Qed.

Lemma builtin_returns id inc parts n :
  (inc = true → head parts ≠ Some []) →
  (∃ n' b, proxy_handle_builtin id inc parts n = Ret (n', b) ∧ (b = false → is_Some (split_parts inc parts))) ∨
  (∃ x, proxy_handle_builtin id inc parts n = Throw x ∧ connections n !! id = Some NullSocket).
Proof.
  intros Hr. unfold proxy_handle_builtin. destruct (split_parts inc parts) as [[[route cmd] args]|] eqn:Es.
  2: { left. do 2 eexists. split; [done|]. done. }
  assert (∃ n', handle_HI id route n = Ret n') as [n1 Hi].
  { unfold handle_HI. destruct route as [[|c r]|]; [|by eexists|by eexists]. exfalso.
    unfold split_parts in Es. destruct inc, parts as [|x [|y parts]]; simplify_eq. by apply Hr. }
  rewrite Hi. cbn [mbind outcome_bind].
  do 3 (case_bool_decide; [left; do 2 eexists; split; [done|]; by eexists|]). case_bool_decide.
  - destruct inc; [left; do 2 eexists; split; [done|]; by eexists|]. unfold proxy_close_connection, set_linger.
    destruct (connections n !! id) as [k|]; [|left; do 2 eexists; split; [done|]; by eexists].
    case_bool_decide; [subst; right; by eexists|left; do 2 eexists; split; [done|]; by eexists].
  - left. destruct (is_error_response cmd); do 2 eexists; (split; [done|]); by eexists.
Qed.

Lemma incoming_peer_connections tmp n n' p r : incoming_peer tmp n = Ret (n', p, r) → connections n' = connections n.
Proof.
  unfold incoming_peer. destruct (service_node tmp); [|by intros [= <- _ _]]. intros H. inv_bind H.
  destruct (list_find _ _) as [(i & k & q)|]; by simplify_eq.
Qed.
Lemma outgoing_peer_connections id n n' p : outgoing_peer id n = Some (n', p) → connections n' = connections n.
Proof. unfold outgoing_peer. destruct (find_peer _ _) as [[k q]|]; [|done]. by intros [= <- _]. Qed.
End returns.

(** * The scheduler side *)

Section system.
Context {E : TaskEval}.
Hypothesis tasks_return : ∀ f, eval_task f ≠ Undef.

Lemma sys_step s e : reachable s → event_ok (Threads.proxy s) e → ∃ s', step s e = Ret s' ∧ reachable s'.
Proof using tasks_return.
  intros Hr He. destruct (step_ok tasks_return s e (reachable_ok tasks_return s Hr) He) as (s' & Hs & _).
  exists s'. split; [done|]. by eapply reach_step.
Qed.

Lemma sys_idle s : reachable s → on_proxy s (Ret (Threads.proxy s)) = Ret s.
Proof using tasks_return.
  intros Hr. destruct (reachable_ok tasks_return s Hr) as [_ Hsent].
  unfold on_proxy, flush. destruct s as [p ts l]. cbn in *. rewrite Hsent. cbn. destruct p. cbn in *. by subst.
Qed.

(** A received command is an event of the scheduler, or nothing. *)
Lemma dispatch_step {env : Zmq} self id out peer route cmd data n s :
  reachable s →
  (∃ n' p' s', authorise_and_dispatch self id out peer route cmd data n (Threads.proxy s) = Ret (n', p') ∧
     on_proxy s (Ret p') = Ret s' ∧ reachable s') ∨
  (∃ x, authorise_and_dispatch self id out peer route cmd data n (Threads.proxy s) = Throw x ∧
     connections n !! id = None).
Proof using tasks_return.
  intros Hr. set (p := Threads.proxy s). unfold authorise_and_dispatch, proxy_check_auth.
  destruct (get_command (reg p) (Auth.msg_data cmd)) as [command cat_call].
  destruct (auth_reply (reg p) _ peer cat_call data) as [reply|] eqn:Ea.
  { unfold send_at. destruct (connections n !! id); [left|right; by eexists].
    do 3 eexists. split; [done|]. split; [by apply sys_idle|done]. }
  destruct cat_call as [[cat [cb is_req]]|]; [|done].
  assert (∃ c, categories (reg p) !! cat = Some c) as [c Hc].
  { unfold auth_reply in Ea. destruct (categories (reg p) !! cat) as [c|]; [by exists c|done]. }
  destruct (auth_reply_known (reg p) (local_service_node self) peer cat cb is_req data c Hc) as [[Hk _] _].
  destruct (Hk Ea) as (_ & _ & _ & Htag).
  set (conn := mk_conn _ _ route). set (acc := mk_Access _ _ _).
  destruct (sys_step s (EvCommand cat command data (cb, is_req) conn acc (get_peer_address cmd)) Hr) as (s' & Hs & Hr').
  { split; [by exists c|done]. }
  cbn [step] in Hs. fold p in Hs.
  destruct (dispatch_command cat command data (cb, is_req) conn acc (get_peer_address cmd) p) as [p'| |] eqn:Ed;
    try done.
  left. cbn [mbind outcome_bind]. do 3 eexists. split; [done|]. split; [exact Hs|done].
Qed.

(** A connection that is not open: no socket, or a null one. *)
Definition not_open (id : Z) (n : net) : Prop :=
  connections n !! id = None ∨ connections n !! id = Some NullSocket.

(** A message whose last part, where zmq puts the metadata, has a user id of 64
    characters that are not hex. *)
Definition bad_user_id {O : Oxenc} (parts : list message) : Prop :=
  ∃ m, last parts = Some m ∧ extract_metadata m = Undef.

Lemma last_parts {A} (x : A) l : last (x :: l) = Some (List.last l x).
Proof using.
  clear. revert x. induction l as [|y l IH]; intros x; [done|].
  rewrite last_cons_cons, IH. f_equal. symmetry. exact (NetProps.last_cons x y l x).
Qed.

Lemma incoming_info_cases {O : Oxenc} self id route last n :
  sns_ok n →
  (∃ tmp, incoming_info self id route last n = Ret tmp ∧ (service_node tmp = true → length (peer_pubkey tmp) = 32)) ∨
  incoming_info self id route last n = Undef ∧ extract_metadata last = Undef.
Proof using.
  clear. intros Hsn. unfold incoming_info. destruct (_ =? _)%Z.
  { left. eexists. split; [done|]. cbn. unfold is_sn. intros Et%bool_decide_eq_true. by apply Hsn. }
  unfold extract_metadata. destruct (extract_pubkey last) as [pk|x|] eqn:Hp; [left|exfalso|by right].
  - eexists. split; [done|]. cbn. intros [Et _]%andb_true_iff. by apply Nat.eqb_eq.
  - unfold extract_pubkey in Hp. repeat case_match; done.
Qed.

Lemma message_step {O : Oxenc} {env : Zmq} self id parts n s :
  sns_ok n → reachable s →
  (connections n !! id = Some Router → head parts ≠ None → Auth.msg_data <$> head parts ≠ Some []) →
  (∃ n' p' s', proxy_message self id parts n (Threads.proxy s) = Ret (n', p') ∧
     on_proxy s (Ret p') = Ret s' ∧ reachable s') ∨
  (∃ x, proxy_message self id parts n (Threads.proxy s) = Throw x ∧ not_open id n) ∨
  (proxy_message self id parts n (Threads.proxy s) = Undef ∧ connections n !! id = Some Router ∧ bad_user_id parts).
Proof using tasks_return.
  intros Hsn Hr Hroute. unfold proxy_message. case_bool_decide as Hp.
  { left. do 3 eexists. split; [done|]. split; [by apply sys_idle|done]. }
  destruct (builtin_returns id (bool_decide (connections n !! id = Some Router)) (Auth.msg_data <$> parts) n)
    as [(n1 & b & Hb & Hsplit)|(x & -> & Hx)].
  { intros Hi%bool_decide_eq_true. destruct parts; [done|]. cbn. apply (Hroute Hi). done. }
  2: { right. left. eexists. split; [done|]. by right. }
  rewrite Hb. cbn [mbind outcome_bind]. destruct b.
  { left. do 3 eexists. split; [done|]. split; [by apply sys_idle|done]. }
  apply builtin_unhandled in Hb as ->. unfold proxy_to_worker. set (inc := bool_decide _) in *.
  destruct (split_parts inc parts) as [[[route cmd] args]|] eqn:Es.
  2: { exfalso. destruct (Hsplit eq_refl) as [x Hx]. unfold split_parts in Es, Hx. destruct inc, parts as [|? [|]]; done. }
  destruct route as [route|].
  - assert (connections n !! id = Some Router ∧ parts = route :: cmd :: args) as [Hc ->].
    { subst inc. unfold split_parts in Es. destruct (bool_decide_reflect (connections n !! id = Some Router)); [|by destruct parts].
      destruct parts as [|x [|y l]]; [done..|]. by injection Es as <- <- <-. }
    destruct (incoming_info_cases self id (Auth.msg_data route) (List.last args cmd) n Hsn) as [(tmp & -> & Hkey)|[-> Hbad]].
    2: { right. right. split; [done|]. split; [done|]. exists (List.last args cmd). split; [|done].
      by rewrite last_cons_cons, last_parts. }
    cbn [mbind outcome_bind]. assert (∃ n2 peer r, incoming_peer tmp n = Ret (n2, peer, r)) as (n2 & peer & r & Hpeer).
    { unfold incoming_peer. destruct (service_node tmp) eqn:Et; [|by do 3 eexists].
      pose proof (Hkey eq_refl) as Hlen.
      unfold conn_of_pubkey. rewrite Hlen. change (32 =? 32) with true. cbn [mbind outcome_bind].
      destruct (list_find _ _) as [(i & k & q)|]; by do 3 eexists. }
    rewrite Hpeer. cbn [mbind outcome_bind].
    destruct (dispatch_step self id false peer r cmd (Auth.msg_data <$> args) n2 s Hr) as [?|(x & -> & Hx)]; [by left|].
    right. left. eexists. split; [done|]. left. by rewrite <- (incoming_peer_connections _ _ _ _ _ Hpeer).
  - destruct (outgoing_peer id n) as [[n2 peer]|] eqn:Hpeer.
    2: { left. do 3 eexists. split; [done|]. split; [by apply sys_idle|done]. }
    destruct (dispatch_step self id true peer [] cmd (Auth.msg_data <$> args) n2 s Hr) as [?|(x & -> & Hx)]; [by left|].
    right. left. eexists. split; [done|]. left. by rewrite <- (outgoing_peer_connections _ _ _ _ Hpeer).
Qed.
End system.

(** * The proxy *)

Definition is_job (c : control) : Prop := ∃ f, c = job_message f.

Section proxy.
Context {E : TaskEval} {O : Oxenc} (self : self_info) (EPH : bool) (bt_index : nat → bytes).
Hypothesis tasks_return : ∀ f, eval_task f ≠ Undef.

(** The ZAP domain of a listening socket names its own entry of [bind]. *)
Definition listeners_ok (st : proxy_state) : Prop := ∀ id l, px_listeners st !! id = Some l →
  ∃ i b, px_bind st !! i = Some b ∧ bind_conn_id b = id ∧ l = mk_listener (bind_address b) (bt_index i) (bind_curve b).

Record proxy_inv (st : proxy_state) : Prop := {
  pi_sys : reachable (px_sys st);
  pi_sns : sns_ok (px_net st);
  pi_control : Forall is_job (px_control st);
  pi_listeners : listeners_ok st;
  pi_tables : tables (px_connecting st) (px_net st);
}.

(** What a caller has to respect: keys of 32 bytes, times that are not negative,
    connection ids from the counter, existing categories and threads. *)
Definition call_ok (env : Zmq) (st : proxy_state) (c : api_call) : Prop :=
  let p := Threads.proxy (px_sys st) in
  match c with
  | ASend to _ _ | ARequest to _ _ _ _ => conn_sn to = true → length (conn_pk to) = 32
  | AConnectSn pk options =>
      length pk = 32 ∧
      (0 ≤ cs_keep_alive (foldl connect_sn_effect
        (mk_connect_sn pk [] false false false EPH (DEFAULT_CONNECT_SN_KEEP_ALIVE * 1000)) options))%Z
  | AConnectRemote a f g id options =>
      id ∈ px_connecting st ∧ (is_curve a = true → length (pubkey a) = 32) ∧
      (0 ≤ cc_timeout (foldl connect_effect (mk_connect none id (Some f) EPH (Some g)
        (if is_curve a then pubkey a else []) (zmq_address a) REMOTE_CONNECT_TIMEOUT) options))%Z
  | AConnectInproc f g id options =>
      id ∈ px_connecting st ∧
      (0 ≤ cc_timeout (foldl connect_effect (mk_connect admin id (Some f) EPH (Some g) []
        (B "inproc://sn-self") INPROC_CONNECT_TIMEOUT) options))%Z
  | ADisconnect id _ => conn_sn id = true → length (conn_pk id) = 32
  | AInject cat _ _ _ => is_Some (the_category p cat)
  | ABatch o => obj_new (length (tagged_workers p)) o ∧ timer_of o = None
  | ATimer _ _ interval _ th =>
      (0 ≤ interval)%Z ∧ @ztimer env ≠ (-1)%Z ∧ timer_jobs p !! @ztimer env = None ∧
      (th = (-1)%Z ∨ thread_ok (length (tagged_workers p)) th)
  | ASetSns _ | AUpdateSns _ _ | ACancelTimer _ | AListen _ _ => True
  end.

(** What is assumed of the other events: zmq's routing ids are not empty, a fresh
    socket takes the HI message, worker numbers are numbers. *)
Definition proxy_event_ok (env : Zmq) (st : proxy_state) (e : proxy_event) : Prop :=
  match e with
  | PxCall c => call_ok env st c ∧ (∀ id e, @zsend env id [B "HI"] ≠ SendError e)
  | PxMessage id parts =>
      connections (px_net st) !! id = Some Router → head parts ≠ None → Auth.msg_data <$> head parts ≠ Some []
  | PxTurn tg wid | PxRan tg wid => (0 ≤ wid)%Z ∧ (tg = true → 0 < wid)%Z
  | PxTakeId | PxSelf | PxCleanup | PxTimer _ | PxQueue | PxPoll _ | PxRebuild => True
  end.

(** The events whose handler may close connections. *)
Definition may_close (e : proxy_event) : Prop :=
  match e with
  | PxCleanup | PxCall (ADisconnect _ _) | PxCall (ASetSns _) | PxCall (AUpdateSns _ _) => True
  | _ => False
  end.

(** The exceptions that escape: a null socket is closed; the socket of a listener
    cannot be made; a message is said to come from a connection that is not open. *)
Definition escapes (env : Zmq) (st : proxy_state) (e : proxy_event) (x : exn) : Prop :=
  (may_close e ∧ has_null (px_net st) ∧ x = zmq_error ENOTSOCK) ∨
  (∃ b f num, e = PxCall (AListen b f) ∧ @zsocket env (bind_address b) = Some num ∧ x = zmq_error num) ∨
  (∃ id parts, e = PxMessage id parts ∧ not_open id (px_net st)).

(** The event is a message of a listener whose metadata fails the assertion of
    [extract_metadata]. *)
Definition bad_metadata (st : proxy_state) (e : proxy_event) : Prop :=
  ∃ id parts, e = PxMessage id parts ∧ connections (px_net st) !! id = Some Router ∧ bad_user_id parts.

(** The sends that may only use incoming connections. *)
Definition incoming_only (e : proxy_event) : Prop :=
  match e with
  | PxCall (ASend to cmd opts) => sc_incoming (send_meaning to cmd opts) = true
  | PxCall (ARequest to cmd _ tag opts) => sc_incoming (send_meaning to cmd (OString tag :: opts)) = true
  | _ => False
  end.

Lemma lift_sys_ok e st :
  proxy_inv st → event_ok (Threads.proxy (px_sys st)) e → ∃ st', lift_sys e st = Ret st' ∧ proxy_inv st'.
Proof using tasks_return.
  intros [H1 H2 H3 H4 H5] He. destruct (sys_step tasks_return _ _ H1 He) as (s' & Hs & Hr). unfold lift_sys. rewrite Hs.
  eexists. split; [done|]. by split.
Qed.

Lemma settle_ok l st : proxy_inv st → ∃ st', settle l st = Ret st' ∧ proxy_inv st'.
Proof using tasks_return.
  revert st. induction l as [|[[] f] l IH]; intros st Hi; cbn [settle]; [by eexists| |].
  - destruct (lift_sys_ok (EvReply f) st Hi) as (st1 & -> & H1); [done|]. by apply IH.
  - apply IH. destruct Hi as [H1 H2 H3 H4 H5]. split; try done. cbn. apply Forall_app. split; [done|].
    apply Forall_singleton. by exists f.
Qed.

(** What a handler may do to the tables. *)
Definition net_ok (st : proxy_state) (n : net) : Prop := sns_ok n ∧ tables (px_connecting st) n.

Lemma after_net_ok n st : proxy_inv st → net_ok st n → ∃ st', after_net n st = Ret st' ∧ proxy_inv st'.
Proof using tasks_return.
  intros [H1 H2 H3 H4 H5] [Hn Ht]. unfold after_net. apply settle_ok. split; try done.
  eapply tables_shrinks; [|exact Ht]. by split.
Qed.

Lemma done_with_ok r (st' : proxy_state) : r = Ret st' → proxy_inv st' →
  ∃ o, done_with r = Ret o ∧ (∀ st, o = Some st → proxy_inv st) ∧ o ≠ None.
Proof using. intros -> Hi. eexists. split; [done|]. split; [by intros ? [= <-]|done]. Qed.

Lemma net_handler_ok r n st : r = Ret n → proxy_inv st → net_ok st n →
  ∃ o, net_handler r st = Ret o ∧ (∀ st, o = Some st → proxy_inv st) ∧ o ≠ None.
Proof using tasks_return.
  intros -> Hi Hn. unfold net_handler. cbn [mbind outcome_bind].
  destruct (after_net_ok n st Hi Hn) as (st' & Hst & Hi'). by eapply done_with_ok.
Qed.

Lemma same_sns_ok n n' : same_sns n n' → sns_ok n → sns_ok n'.
Proof using. unfold same_sns, sns_ok. by intros ->. Qed.
Lemma keeps_net_ok st n : proxy_inv st → same_sns (px_net st) n → tables (px_connecting st) n → net_ok st n.
Proof using. intros Hi Hs Ht. split; [|done]. eapply same_sns_ok; [done|apply Hi]. Qed.
Lemma shrinks_net_ok st n : proxy_inv st → same_sns (px_net st) n → shrinks (px_net st) n → net_ok st n.
Proof using. intros Hi Hs Ht. apply keeps_net_ok; [done|done|]. eapply tables_shrinks; [done|apply Hi]. Qed.

Lemma control_send_ok {env : Zmq} d c st : proxy_inv st → parse_send d = Ret c →
  (conn_sn (sc_conn c) = true → length (conn_pk (sc_conn c)) = 32) →
  ∃ o, control_SEND d st = Ret o ∧ (∀ st, o = Some st → proxy_inv st) ∧ (o = None → sc_incoming c = true).
Proof using tasks_return.
  intros Hi Hd Hpk. unfold control_SEND. rewrite Hd. cbn [mbind outcome_bind].
  destruct (send_returns c (px_net st) Hpk) as (r & Hr & Hn). rewrite Hr. cbn [mbind outcome_bind].
  destruct r as [n|]; [|by exists None; split; [|split; [|intros _; apply Hn]]].
  destruct (net_handler_ok (Ret n) n st eq_refl Hi) as (o & Ho & Hinv & Hne).
  - apply keeps_net_ok; [done|by eapply frame_send; [apply _|]|]. eapply tables_send; [done|apply Hi].
  - exists o. split; [exact Ho|]. by split.
Qed.

Lemma sns_changed_ok R A n n' :
  sns_changed R A n n' → sns_ok n → (∀ pk, pk ∈ A → length pk = 32) → sns_ok n'.
Proof using.
  intros [H _ _] Hn HA pk. rewrite H, elem_of_union, elem_of_difference. intros [[? _]|?]; [by apply Hn|by apply HA].
Qed.

Lemma send_meaning_key to cmd opts :
  conn_sn (sc_conn (send_meaning to cmd opts)) = true →
  conn_sn to = true ∧ conn_pk (sc_conn (send_meaning to cmd opts)) = conn_pk to.
Proof using.
  destruct (send_meaning_conn to cmd opts) as [-> _]. unfold send_default. cbn [sc_conn].
  destruct (conn_sn to) eqn:Hs; [done|]. unfold conn_sn in *. cbn. by rewrite Hs.
Qed.

(** The shape of the result of every handler. *)
Definition handled (incoming : Prop) (X : exn → Prop) (r : outcome (option proxy_state)) : Prop :=
  (∃ o, r = Ret o ∧ (∀ st, o = Some st → proxy_inv st) ∧ (o = None → incoming)) ∨ (∃ x, r = Throw x ∧ X x).

Lemma sys_handled e st Q X :
  proxy_inv st → event_ok (Threads.proxy (px_sys st)) e → handled Q X (done_with (lift_sys e st)).
Proof using tasks_return.
  intros Hi He. destruct (lift_sys_ok e st Hi He) as (st' & H & Hi').
  destruct (done_with_ok _ _ H Hi') as (o & ? & ? & ?). left. by exists o.
Qed.
Lemma net_handled r n st Q X :
  r = Ret n → proxy_inv st → net_ok st n → handled Q X (net_handler r st).
Proof using tasks_return.
  intros Hr Hi Hn. destruct (net_handler_ok r n st Hr Hi Hn) as (o & ? & ? & ?). left. by exists o.
Qed.
(** A handler that closes connections. *)
Lemma closing_handled r n st Q (X : exn → Prop) :
  closing (px_net st) r n → proxy_inv st → (r = Ret n → net_ok st n) → (has_null (px_net st) → X (zmq_error ENOTSOCK)) →
  handled Q X (net_handler r st).
Proof using tasks_return.
  intros [Hr|[-> Hn]] Hi Hok HX; [by eapply net_handled; [|done|apply Hok]|]. right. eexists. split; [done|by apply HX].
Qed.

Lemma send_call_ok {env : Zmq} d c st (to : ConnectionID) cmd opts X :
  proxy_inv st → parse_send d = Ret c → sc_conn c = sc_conn (send_meaning to cmd opts) →
  sc_incoming c = sc_incoming (send_meaning to cmd opts) →
  (conn_sn to = true → length (conn_pk to) = 32) →
  handled (sc_incoming (send_meaning to cmd opts) = true) X (control_SEND d st).
Proof using tasks_return.
  intros Hi Hd Hc Hinc Hto. destruct (control_send_ok d c st Hi Hd) as (o & Ho & Hst & Hn).
  - rewrite Hc. intros [Hs ->]%send_meaning_key. by apply Hto.
  - left. exists o. split; [done|]. split; [done|]. by rewrite <- Hinc.
Qed.

Lemma connect_sn_call_ok {env : Zmq} pk options st Q X :
  proxy_inv st → call_ok env st (AConnectSn pk options) →
  handled Q X (control_CONNECT_SN EPH (connect_sn EPH pk options) st).
Proof using tasks_return.
  intros Hi [Hpk Hk]. unfold control_CONNECT_SN.
  destruct (parse_connect_sn_dict EPH pk options) as [-> Hkey].
  rewrite (proj2 (Z.ltb_ge _ _) Hk). cbn [mbind outcome_bind].
  set (c := foldl _ _ _) in *. rewrite Hkey.
  destruct (connect_sn_returns pk (cs_hint c) (cs_optional c) (cs_incoming c) (cs_outgoing c) (cs_keep_alive c)
    (px_net st) Hpk) as (n & r & Hn).
  rewrite Hn. eapply net_handled; [done|done|]. apply keeps_net_ok; [done|by eapply frame_connect_sn; [apply _|]|].
  eapply tables_connect_sn; [done|apply Hi].
Qed.

Lemma zmq_address_not_empty a : zmq_address a ≠ [].
Proof using. unfold zmq_address. by destruct (is_tcp a). Qed.

(** The message of a [connect_remote] call has arrived. *)
Lemma inv_arrives c st : proxy_inv st → proxy_inv (arrives c st).
Proof using.
  clear tasks_return. unfold arrives. destruct (connecting_id c) as [id|]; [|done]. intros [H1 H2 H3 H4 H5]. split; try done.
  eapply tables_weaken; [|exact H5]. cbn. set_solver.
Qed.

Lemma taken_id id st : proxy_inv st → id ∈ px_connecting st →
  let R := (px_connecting st ∖ {[ id ]}) in
  tables ({[ id ]} ∪ R) (px_net st) ∧ (id ∉ R) ∧ id ≠ (-1)%Z ∧ (connections (px_net st) !! id = None).
Proof using.
  clear tasks_return. intros Hi Hid. pose proof (pi_tables _ Hi) as Ht. cbn zeta. split_and!.
  - eapply tables_weaken; [|exact Ht]. set_solver.
  - set_solver.
  - pose proof (tb_reserved _ _ Ht id Hid). lia.
  - apply unused_connection. intros Hu. by destruct (tb_used _ _ Ht id Hu).
Qed.

Lemma connect_call_ok {env : Zmq} d c call st Q X :
  proxy_inv st → parse_connect_remote EPH d = Ret c →
  connecting_id call = Some (cc_conn_id c) → cc_conn_id c ∈ px_connecting st → (∀ id e, zsend id [B "HI"] ≠ SendError e) →
  handled Q X (control_CONNECT_REMOTE EPH d (arrives call st)).
Proof using tasks_return.
  intros Hi Hd Hcall Hid Hz. destruct (taken_id _ st Hi Hid) as (Ht & Hr & _ & Hfresh).
  pose proof (inv_arrives call st Hi) as Hi'. unfold arrives in *. rewrite Hcall in *.
  unfold control_CONNECT_REMOTE. rewrite Hd. cbn [mbind outcome_bind].
  destruct (connect_remote_returns c (px_net st) Hfresh Hz) as (n & Hn).
  eapply net_handled; [exact Hn|done|]. apply keeps_net_ok; [done|by eapply frame_connect_remote; [apply _|]|].
  by eapply tables_connect_remote.
Qed.

Lemma connect_remote_call_ok {env : Zmq} a f g id options st Q X :
  proxy_inv st → call_ok env st (AConnectRemote a f g id options) → (∀ id e, zsend id [B "HI"] ≠ SendError e) →
  handled Q X (control_CONNECT_REMOTE EPH (connect_remote a f g id options) (arrives (AConnectRemote a f g id options) st)).
Proof using tasks_return.
  intros Hi (Hid & Hpk & Ht) Hz. destruct (taken_id id st Hi Hid) as (_ & _ & Hne & _).
  eapply connect_call_ok; [done| | | |done].
  { rewrite (parse_connect_remote_dict EPH a f g id options Hne (zmq_address_not_empty a) Hpk).
    by rewrite (proj2 (Z.ltb_ge _ _) Ht). }
  all: by rewrite (proj1 (connect_effects_keep options _)).
Qed.
Lemma connect_inproc_call_ok {env : Zmq} f g id options st Q X :
  proxy_inv st → call_ok env st (AConnectInproc f g id options) → (∀ id e, zsend id [B "HI"] ≠ SendError e) →
  handled Q X (control_CONNECT_REMOTE EPH (connect_inproc f g id options) (arrives (AConnectInproc f g id options) st)).
Proof using tasks_return.
  intros Hi (Hid & Ht) Hz. destruct (taken_id id st Hi Hid) as (_ & _ & Hne & _).
  eapply connect_call_ok; [done| | | |done].
  { rewrite (parse_connect_inproc_dict EPH f g id options Hne). by rewrite (proj2 (Z.ltb_ge _ _) Ht). }
  all: by rewrite (proj1 (connect_effects_keep options _)).
Qed.

Lemma disconnect_call_ok {env : Zmq} id linger st Q (X : exn → Prop) :
  proxy_inv st → (conn_sn id = true → length (conn_pk id) = 32) → (has_null (px_net st) → X (zmq_error ENOTSOCK)) →
  handled Q X (control_DISCONNECT (disconnect id linger) st).
Proof using tasks_return.
  intros Hi Hpk HX. unfold control_DISCONNECT.
  assert (parse_disconnect (disconnect id linger) = Ret (mk_conn (conn_id id) (conn_pk id) [], linger)) as ->.
  { unfold parse_disconnect, disconnect, consume_int, consume_string. dict. cbn [mbind outcome_bind].
    replace (conn_sn (mk_conn (conn_id id) (conn_pk id) [])) with (conn_sn id) by done.
    destruct (conn_sn id); [|done]. by rewrite Hpk. }
  cbn [mbind outcome_bind]. eapply closing_handled; [apply disconnect_closing|done| |done]. intros Hd.
  apply shrinks_net_ok; [done|by eapply frame_disconnect; [apply _|]|by eapply shrinks_disconnect].
Qed.

(** Binding keeps the domains right. *)
Lemma bind_listener_ok {env : Zmq} b f st st1 n b1 :
  listeners_ok st → bind_listener bt_index b f (length (px_bind st)) st = Ret (st1, n, Some b1) →
  listeners_ok (st1 <| px_bind ::= (λ l, l ++ [b1]) |>).
Proof using.
  intros Hl. unfold bind_listener. destruct (proxy_bind _ _ _) as [[[n' [id|]] called]| |]; [|done..]. intros [= <- <- <-].
  intros id' l. cbn. intros [[<- <-]|[Hne Hl']]%lookup_insert_Some.
  - eexists (length (px_bind st)), _. split; [by rewrite lookup_app_r, Nat.sub_diag by lia|]. by split.
  - destruct (Hl id' l Hl') as (i & b' & Hi & H). exists i, b'. split; [|done]. by apply lookup_app_l_Some.
Qed.

Lemma bind_all_listeners {env : Zmq} todo st st' :
  listeners_ok st → bind_all bt_index (length (px_bind st)) todo st = Ret st' → listeners_ok st'.
Proof using.
  revert st. induction todo as [|[b f] todo IH]; intros st Hl; cbn [bind_all]; [by intros [= <-]|].
  destruct (bind_listener bt_index b f (length (px_bind st)) st) as [[[st1 n] [b1|]]| |] eqn:Hb; [|done..]. cbn [mbind outcome_bind].
  pose proof (bind_listener_ok _ _ _ _ _ _ Hl Hb) as Hl1. intros H.
  match type of H with bind_all _ _ _ ?s = _ => refine (IH s Hl1 _) end.
  assert (px_bind st1 = px_bind st) as Hpb.
  { unfold bind_listener in Hb. destruct (proxy_bind _ _ _) as [[[n' [id|]] called]| |]; cbn in Hb; by simplify_eq. }
  match goal with |- bind_all _ ?k _ _ = _ => replace k with (S (length (px_bind st))); [exact H|] end.
  change (S (length (px_bind st)) = length (px_bind st1 ++ [b1])). by rewrite Hpb, length_app, Nat.add_1_r.
Qed.

Lemma bind_call_ok {env : Zmq} b on_bind st Q (X : exn → Prop) :
  proxy_inv st → (∀ num, zsocket (bind_address b) = Some num → X (zmq_error num)) →
  handled Q X (control_BIND bt_index b on_bind st).
Proof using tasks_return.
  intros Hi HX. unfold control_BIND. destruct (zsocket (bind_address b)) as [num|] eqn:Ho.
  { right. exists (zmq_error num). split; [|by apply HX]. unfold bind_listener, proxy_bind. by rewrite Ho. }
  destruct (bind_listener bt_index b on_bind (length (px_bind st)) st) as [[[st1 n] o]| |] eqn:Hb;
    [|exfalso; unfold bind_listener, proxy_bind in Hb; rewrite Ho in Hb; by destruct (zbind _)..].
  assert (px_sys st1 = px_sys st ∧ px_net st1 = px_net st ∧ px_control st1 = px_control st ∧ px_bind st1 = px_bind st ∧
    net_ok st n ∧ px_connecting st1 = px_connecting st ∧ (o = None → px_listeners st1 = px_listeners st))
    as (H1 & H2 & H3 & H4 & H5 & H7 & H6).
  { unfold bind_listener in Hb. destruct (proxy_bind _ _ _) as [[[n1 id] called]| |] eqn:Hp; [|done|done].
    assert (net_ok st n1) as Hn1.
    { apply keeps_net_ok; [done| |by eapply tables_bind; [|apply Hi]].
      by eapply frame_bind; [apply _|]. }
    destruct id; cbn in Hb; by simplify_eq. }
  cbn [mbind outcome_bind].
  destruct Hi as [Hs Hn Hc Hl Ht]. destruct o as [b1|]; eapply (net_handled (Ret n) n); try done; unfold net_ok;
    rewrite ?H7; try done; split; cbn; rewrite ?H1, ?H2, ?H3, ?H7; try done.
  - exact (bind_listener_ok _ _ _ _ _ _ Hl Hb).
  - apply H5.
  - apply H5.
  - intros id l. rewrite H6 by done. rewrite H4. apply Hl.
Qed.

Lemma sns_call_ok {env : Zmq} st Q (X : exn → Prop) r R A :
  proxy_inv st → sns_outcome R A (px_net st) r → (∀ n, r = Ret n → shrinks (px_net st) n) →
  (∀ pk, pk ∈ A → length pk = 32) → (has_null (px_net st) → X (zmq_error ENOTSOCK)) →
  handled Q X (net_handler r st).
Proof using tasks_return.
  intros Hi [[(id & _ & Hid) ->]|(_ & n & Hr & Hc)] Hs HA HX.
  { right. eexists. split; [done|]. apply HX. by exists id. }
  eapply net_handled; [done|done|]. split.
  - by eapply sns_changed_ok; [done|apply Hi|].
  - eapply tables_shrinks; [by apply Hs|apply Hi].
Qed.

Lemma job_ok st f : event_ok (Threads.proxy (px_sys st)) (EvBatch (OJob (mk_job f 0))).
Proof using. cbn. unfold thread_ok. split; [lia|done]. Qed.

(** Every public call within its preconditions. *)
Lemma call_handled {env : Zmq} c st :
  proxy_inv st → call_ok env st c → (∀ id e, zsend id [B "HI"] ≠ SendError e) →
  handled (incoming_only (PxCall c)) (escapes env st (PxCall c)) (proxy_control_message EPH bt_index (control_of EPH c) (arrives c st)).
Proof using tasks_return.
  intros Hi Hc Hz.
  assert (may_close (PxCall c) → has_null (px_net st) → escapes env st (PxCall c) (zmq_error ENOTSOCK)) as HX by (by left).
  destruct c as [to cmd opts|to cmd cb tag opts|pk options|a f g id options|f g id options|id linger|cat cmd remote f
    |pks|added removed|o|id job interval squelch th|id|b on_bind].
  - eapply send_call_ok; [done|apply parse_build_send|done|done|exact Hc].
  - eapply send_call_ok; [done|apply parse_request_dict|done|done|exact Hc].
  - by apply connect_sn_call_ok.
  - by apply connect_remote_call_ok.
  - by apply connect_inproc_call_ok.
  - apply disconnect_call_ok; [done|done|by apply HX].
  - by apply sys_handled.
  - eapply sns_call_ok; [done|apply set_active, Hi|by apply shrinks_set_sns|by intros ? ?%valid_keys_length|by apply HX].
  - eapply sns_call_ok; [done|apply update_active, Hi|by apply shrinks_update_sns|by intros ? ?%valid_keys_length|by apply HX].
  - by apply sys_handled.
  - destruct Hc as [Ht Hc]. unfold control_of, proxy_control_message, control_with_data, arrives. cbn [connecting_id].
    repeat (rewrite bool_decide_false by done). rewrite bool_decide_true by done.
    rewrite (proj2 (Z.ltb_ge _ _) Ht). by apply sys_handled.
  - by apply sys_handled.
  - apply bind_call_ok; [done|]. intros num Hnum. right. left. by exists b, on_bind, num.
Qed.

Lemma message_handled {env : Zmq} id parts st Q :
  proxy_inv st → proxy_event_ok env st (PxMessage id parts) →
  handled Q (escapes env st (PxMessage id parts)) (done_with (handle_message self id parts st)) ∨
  done_with (handle_message self id parts st) = Undef ∧ bad_metadata st (PxMessage id parts).
Proof using tasks_return.
  intros Hi Hm. unfold handle_message.
  destruct (message_step tasks_return self id parts (px_net st) (px_sys st) (pi_sns _ Hi) (pi_sys _ Hi) Hm)
    as [(n' & p' & s' & Hp & Hs & Hr)|[(x & -> & Hx)|(-> & Hc & Hbad)]].
  2: { left. right. exists x. split; [done|]. right. right. by exists id, parts. }
  2: { right. split; [done|]. by exists id, parts. }
  left. rewrite Hp. cbn [mbind outcome_bind fst snd]. rewrite Hs. cbn [mbind outcome_bind].
  assert (sns_ok n') as Hn.
  { eapply same_sns_ok; [|apply Hi]. by eapply frame_message; [apply _|]. }
  apply (net_handled (Ret n') n' (st <| px_sys := s' |>)); [done|by destruct Hi; split|]. split; [done|].
  eapply tables_message; [exact Hp|apply Hi|]. intros Hin. destruct parts as [|x parts]; [done|]. by apply (Hm Hin).
Qed.

Lemma step_handled {env : Zmq} e st :
  proxy_inv st → proxy_event_ok env st e →
  handled (incoming_only e) (escapes env st e) (proxy_step self EPH bt_index e st) ∨
  proxy_step self EPH bt_index e st = Undef ∧ bad_metadata st e.
Proof using tasks_return.
  intros Hi He. destruct e as [|c| |id parts| |t| |tg wid|tg wid|skip|]; cbn [proxy_step].
  4: by apply message_handled.
  all: left.
  - left. exists (Some (take_id st)). split; [done|]. split; [|done]. intros ? [= <-]. destruct Hi as [H1 H2 H3 H4 H5].
    split; try done. by apply tables_reserve.
  - destruct He. by apply call_handled.
  - pose proof (pi_control _ Hi) as Hc. destruct (px_control st) as [|c cs] eqn:E1.
    + left. exists (Some st). split; [done|]. split; [by intros ? [= <-]|done].
    + apply Forall_cons in Hc as [[f ->] Hcs].
      apply (sys_handled (EvBatch (OJob (mk_job f 0))) (st <| px_control := cs |>)); [|apply job_ok].
      by destruct Hi; split.
  - eapply closing_handled; [apply cleanup_closing|done| |by left]. intros Hd.
    apply shrinks_net_ok; [done|by eapply frame_cleanup; [apply _|]|by eapply shrinks_cleanup].
  - by apply sys_handled.
  - by apply sys_handled.
  - by apply sys_handled.
  - by apply sys_handled.
  - by apply sys_handled.
  - apply sys_handled; [|done]. destruct Hi as [H1 H2 H3 H4 H5]. split; try done. eapply tables_shrinks; [|exact H5]. by split.
Qed.

(** ** Reachable states of the whole proxy *)

Inductive proxy_reachable : proxy_state → Prop :=
  | px_start env hw cs ob msgs conn_check st :
      run_configs (object_new hw) cs = Ret ob → configs_ok (object_new hw) cs → fits (ob_pool ob) →
      OxenMQ_start (env := env) EPH bt_index conn_check msgs ob = Ret (Some st) → proxy_reachable st
  | px_step env st e st' :
      proxy_reachable st → proxy_event_ok env st e →
      proxy_step (env := env) self EPH bt_index e st = Ret (Some st') → proxy_reachable st'.

Lemma start_inv env hw cs ob msgs conn_check st :
  run_configs (object_new hw) cs = Ret ob → configs_ok (object_new hw) cs → fits (ob_pool ob) →
  OxenMQ_start (env := env) EPH bt_index conn_check msgs ob = Ret (Some st) → proxy_inv st.
Proof using.
  intros Hrun Hok Hfit Hst. destruct (config_start hw cs ob Hrun Hok Hfit) as (s & Hs & Hr).
  pose proof (run_configs_net cs _ _ Hrun fresh_empty) as Hf.
  unfold OxenMQ_start, proxy_loop_init in Hst. rewrite Hs in Hst. cbn [mbind outcome_bind] in Hst.
  set (st0 := mk_proxy_state _ s [] [] ∅ [] [] ∅) in Hst.
  destruct (bind_all bt_index 0 (ob_bind ob) st0) as [st1| |] eqn:Hb; [|done|done].
  destruct (bind_all_spec bt_index (ob_bind ob) 0 st0 (bind_all_can _ _ _ _ _ Hb)) as (st1' & Hb' & Hbd).
  { intros id Hid. cbn in *. rewrite (fn_connections _ Hf), lookup_insert_ne by lia. apply Hf. }
  rewrite Hb in Hb'. injection Hb' as <-. assert (listeners_ok st1) as Hl.
  { refine (bind_all_listeners (ob_bind ob) st0 st1 _ Hb). intros id l. cbn. by rewrite lookup_empty. }
  assert (tables ∅ (px_net st1)) as Ht.
  { eapply bind_all_tables; [exact Hb|]. apply tables_next_socket, Hf. }
  destruct Hbd as [H1 H2 H3 H3b H4 _ _ _ _]. cbn in H1, H2, H3, H3b, H4. cbn [mbind outcome_bind] in Hst.
  destruct (if ob_owned ob then _ else _); [|done|done]. cbn [mbind outcome_bind] in Hst.
  destruct (conn_check =? -1)%Z; [done|]. destruct (wait_tagged _ msgs); [|done].
  cbn [mbind outcome_bind proxy_control_message] in Hst. rewrite bool_decide_true in Hst by done.
  cbn [mbind outcome_bind] in Hst. destruct (bool_decide _) in Hst; [|done]. injection Hst as <-.
  split; cbn; [by rewrite H1| |by rewrite H2|exact Hl|].
  - intros pk. cbn. rewrite H4. apply Hf.
  - rewrite H3b. eapply tables_shrinks; [|exact Ht]. by split.
Qed.

Lemma proxy_reachable_inv st : proxy_reachable st → proxy_inv st.
Proof using tasks_return.
  induction 1 as [env hw cs ob msgs cc st H1 H2 H3 H4|env st e st' _ IH He Hstep].
  - by eapply start_inv.
  - destruct (step_handled e st IH He) as [[(o & Ho & Hi & _)|(x & Hx & _)]|[Hx _]]; [|congruence..]. apply Hi. congruence.
Qed.


(** C13: the connection tables are well-typed in every state the proxy can get to.
    Every id in [connections], [peers], [pending_connects] or [outgoing_sn_conns]
    was handed out by the counter and is not one a [connect_remote] call still
    holds, so an id never means two connections; the socket of a peer is a dealer for
    an outgoing connection and a router (a listener) for an incoming one, unless it
    was closed (a later [connections[id]] then leaves an empty socket); and an outgoing connection belongs to exactly one peer. *)
Theorem tables_typed st : proxy_reachable st →
  let n := px_net st in
  (∀ id, used n id → (0 < id < next_conn_id n)%Z ∧ id ∉ px_connecting st) ∧
  (∀ id, id ∈ px_connecting st → (0 < id < next_conn_id n)%Z) ∧
  (∀ k p, (k, p) ∈ peers n →
     connections n !! peer_conn_id p = None ∨ connections n !! peer_conn_id p = Some NullSocket ∨
     connections n !! peer_conn_id p = Some (if outgoing p then Dealer else Router)) ∧
  (∀ i j a b, peers n !! i = Some a → peers n !! j = Some b → outgoing (snd a) = true → outgoing (snd b) = true →
     peer_conn_id (snd a) = peer_conn_id (snd b) → i = j).
Proof using tasks_return.
  intros Hr n. destruct (pi_tables _ (proxy_reachable_inv st Hr)) as [_ T2 T3 T4 T5]. split_and!; [done|done| |].
  - intros k p Hp. specialize (T4 (peer_tag (k, p)) (list_elem_of_fmap_2 _ _ _ Hp)). cbn in T4. fold n in T4.
    destruct (connections n !! peer_conn_id p) as [[]|], (outgoing p); auto; by destruct T4.
  - intros i j a b. by apply out_ids_inj.
Qed.

(** C17: connections are authenticated by the policy of the listener they came in on.
    In every reachable state, a ZAP request that carries the domain of a listening
    socket is accepted only with the mechanism of that socket and a level from [none]
    to [admin] that the function given for that very address returned for the peer's
    key and service node status; the messages of the connection then carry exactly
    that key and level. *)
Theorem listener_policy {L : OxencLaws O} (bt_size : bytes → option Z) st id l frames r :
  (∀ s n, bt_size s = Some n → (0 ≤ n ≤ SIZE_MAX)%Z) →
  (∀ i, (Z.of_nat i ≤ SIZE_MAX)%Z → bt_size (bt_index i) = Some (Z.of_nat i)) →
  proxy_reachable st → (Z.of_nat (length (px_bind st)) ≤ SIZE_MAX)%Z →
  px_listeners st !! id = Some l → frames !!! 2 = ls_domain l →
  process_zap_request bt_size (px_bind st) (active_service_nodes (px_net st)) frames = Ret r →
  zap_code r = B "200" →
  ∃ b, b ∈ px_bind st ∧ bind_conn_id b = id ∧ bind_address b = ls_address l ∧
    frames !!! 5 = (if ls_curve l then B "CURVE" else B "NULL") ∧
    let pk := if ls_curve l then frames !!! 6 else [] in
    let level := bind_allow b (strip_mapped (frames !!! 3)) pk
                   (ls_curve l && bool_decide (pk ∈ active_service_nodes (px_net st))) in
    (denied < level ≤ admin)%Z ∧ ∀ d, extract_metadata (Auth.mk_message d (zap_props r)) = Ret (pk, level).
Proof using tasks_return.
  intros Hrange Hindex Hr Hlen Hl Hdom Hzap Hcode.
  destruct (pi_listeners _ (proxy_reachable_inv st Hr) id l Hl) as (i & b & Hi & Hid & ->). cbn [ls_address ls_domain ls_curve] in *.
  destruct (zap_request_cases bt_size Hrange (px_bind st) (active_service_nodes (px_net st)) frames Hlen)
    as [(r' & Hr' & _ & Hc & _)|(n & b' & Hn & Hb' & Hmech & Hkey & Heq)].
  { rewrite Hzap in Hr'. injection Hr' as <-. done. }
  rewrite Hdom, Hindex in Hn by (apply lookup_lt_Some in Hi; lia). injection Hn as <-. rewrite Nat2Z.id, Hi in Hb'. injection Hb' as <-.
  destruct (zap_accept_spec b (active_service_nodes (px_net st)) frames (if 2 <=? length frames then frames !!! 1 else []) Hkey)
    as (r' & Hr' & _ & Hcases).
  rewrite Heq, Hr' in Hzap. injection Hzap as <-. exists b. split; [by eapply list_elem_of_lookup_2|].
  split; [done|]. split; [done|]. split; [done|]. destruct Hcases as [(_ & ? & ?)|(Hc & _)]; [by split|].
  rewrite Hc in Hcode. done.
Qed.
End proxy.

(** A proxy that was just started. *)
Lemma sample_proxy :
  ∃ st, proxy_reachable (E := sample_eval) (O := Standard.oxenc) sample_self true sample_index st ∧
    px_listeners st !! 2%Z = Some (mk_listener (B "tcp://127.0.0.1:4567") (B "i0e") true) ∧
    px_bind st = [mk_bind_data (B "tcp://127.0.0.1:4567") true 2 sample_policy] ∧
    active_service_nodes (px_net st) = {[ sample_sn ]} ∧ connections (px_net st) !! 2%Z = Some Router.
Proof.
  destruct sample_configured as (ob & Hob & Hfit & Hall & Hfs).
  destruct (start_works (E := sample_eval) (O := Standard.oxenc) (env := sample_env 5) true sample_index 4 sample_configs ob sample_started 3 Hob
    (sample_configs_ok _) Hfit (sample_binds _) (sample_owners ob Hob) ltac:(lia) Hall) as (s & st0 & st & _ & _ & Hst0 & Hbd & Hst).
  eexists. split; [exact (px_start _ _ _ _ _ _ _ _ _ _ Hob (sample_configs_ok _) Hfit Hst)|].
  destruct Hbd as [_ _ _ _ H4 _ H6 H7 _]. vm_compute in Hob. injection Hob as <-. subst st0. cbn.
  split; [exact (proj1 (H7 0 _ _ eq_refl))|]. split; [rewrite H6; reflexivity|].
  split; [rewrite H4; vm_compute; reflexivity|]. exact (proj2 (H7 0 _ _ eq_refl)).
Qed.



(** The bt encoding of a [size_t], [i<digits>e]. *)
Definition sample_size (s : bytes) : option Z :=
  let n := dec_val (take (length s - 2) (tail s)) in
  if (0 <=? n)%Z && (n <=? SIZE_MAX)%Z then Some n else None.
Lemma sample_size_range s n : sample_size s = Some n → (0 ≤ n ≤ SIZE_MAX)%Z.
Proof. unfold sample_size. destruct (_ && _) eqn:E; [|done]. intros [= <-]. bool_cases. lia. Qed.
Lemma sample_size_index i : (Z.of_nat i ≤ SIZE_MAX)%Z → sample_size (sample_index i) = Some (Z.of_nat i).
Proof.
  intros Hi. unfold sample_size, sample_index. cbn [lit String.list_ascii_of_string app tail length].
  rewrite length_app. cbn [length]. replace (S (length (to_string (Z.of_nat i)) + 1) - 2)
    with (length (to_string (Z.of_nat i))) by lia.
  rewrite take_app_length. destruct (to_string_spec (Z.of_nat i)) as (-> & _); [lia|].
  by rewrite (proj2 (Z.leb_le 0 _)), (proj2 (Z.leb_le _ SIZE_MAX)) by lia.
Qed.

(** A service node connects to the listener of the sample. *)
Definition sample_frames : list bytes :=
  [B "1.0"; B "id7"; B "i0e"; B "10.0.0.1"; []; B "CURVE"; sample_sn].

Lemma listener_policy_witness :
  ∃ st r, process_zap_request (O := Standard.oxenc) sample_size (px_bind st) (active_service_nodes (px_net st)) sample_frames =
      Ret r ∧ zap_code r = B "200" ∧
    ∀ d, extract_metadata (O := Standard.oxenc) (Auth.mk_message d (zap_props r)) = Ret (sample_sn, admin).
Proof.
  destruct sample_proxy as (st & Hst & Hl & Hb & Ha & _).
  destruct (process_zap_request (O := Standard.oxenc) sample_size (px_bind st) (active_service_nodes (px_net st))
    sample_frames) as [r| |] eqn:Hr; [|exfalso; rewrite Hb, Ha in Hr; vm_compute in Hr; discriminate Hr..].
  assert (zap_code r = B "200") as Hc.
  { rewrite Hb, Ha in Hr. vm_compute in Hr. injection Hr as <-. reflexivity. }
  destruct (listener_policy (E := sample_eval) (O := Standard.oxenc) sample_self true sample_index sample_returns
    (L := Standard.oxenc_laws) sample_size st 2%Z _ sample_frames r sample_size_range sample_size_index Hst
    ltac:(rewrite Hb; done) Hl eq_refl Hr Hc) as (b & Hin & _ & _ & _ & _ & Hx).
  exists st, r. split; [exact Hr|]. split; [exact Hc|]. intros d. rewrite Hx, Ha.
  rewrite Hb in Hin. apply list_elem_of_singleton in Hin. subst b. vm_compute. reflexivity.
Defined.

(** The sample proxy after a [connect_remote] call took an id. *)
Lemma tables_typed_witness :
  ∃ st, proxy_reachable (E := sample_eval) (O := Standard.oxenc) sample_self true sample_index (take_id st) ∧
    next_conn_id (px_net st) ∈ px_connecting (take_id st) ∧
    (2 < next_conn_id (px_net (take_id st)))%Z ∧ (2%Z ∉ px_connecting (take_id st)).
Proof.
  destruct sample_proxy as (st & Hst & _ & _ & _ & Hc). exists st.
  assert (proxy_reachable (E := sample_eval) (O := Standard.oxenc) sample_self true sample_index (take_id st)) as Hr.
  { exact (px_step _ _ _ (sample_env 10) st PxTakeId _ Hst I eq_refl). }
  destruct (tables_typed (E := sample_eval) (O := Standard.oxenc) sample_self true sample_index sample_returns _ Hr)
    as (H1 & _).
  destruct (H1 2%Z (or_introl (mk_is_Some _ _ Hc))) as [H2 H3].
  split; [exact Hr|]. split; [apply elem_of_union_l, elem_of_singleton_2; reflexivity|]. split; [exact (proj2 H2)|exact H3].
Defined.
