(* ===== verification/RequestReply.v ===== *)
(** * RequestReply: a request, from the caller to its callback

    The way of a request through two objects: [request] and [proxy_send] of the client,
    [proxy_message], the scheduler and a worker of the server, [Message::send_reply] and
    [proxy_send] of the server, and [proxy_handle_builtin] of the client.  Between these
    steps both objects may do anything else; zmq carries a message from the socket it was
    sent on to the other end, where the sender's route is put in front of what a router
    socket receives, and taken off what it sends. *)
From S2P Require Import Prelude Bytes Oxenc Address Auth ConnId Commands Batch Pool Options Net Closing ServiceNodes NetSteps.
From S2P Require Import PoolSlots Threads PoolInv PoolSteps PoolSafe PoolLive PoolRuns NetProps NetFrame Tables Proxy ProxySafe.
Open Scope Z_scope.
Open Scope nat_scope.

(** The message parts among the arguments of [send]. *)
Fixpoint option_data (o : send_option) : list bytes :=
  match o with
  | OString arg => [arg]
  | OSome o => option_data o
  | ODataParts data => data
  | _ => []
  end.
Definition data_parts (opts : list send_option) : list bytes := opts ≫= option_data.

(** The commands [proxy_handle_builtin] takes for itself. *)
Definition is_builtin (cmd : bytes) : bool :=
  bool_decide (cmd ∈ [B "REPLY"; B "HI"; B "HELLO"; B "BYE"]) || is_error_response cmd.

(** * Lemmas *)

Lemma send_effect_parts s o : sc_parts (send_effect s o) = sc_parts s ++ option_data o.
Proof.
  revert s. induction o as [| |o IH| | | | | |time|time| |]; intros s; cbn [send_effect option_data]; rewrite ?app_nil_r; try done.
  - by case_bool_decide.
  - by destruct (0 <=? time)%Z.
  - by destruct (0 <=? time)%Z.
Qed.
Lemma send_meaning_parts to cmd opts : sc_parts (send_meaning to cmd opts) = cmd :: data_parts opts.
Proof.
  unfold send_meaning. change (cmd :: data_parts opts) with (sc_parts (send_default to cmd) ++ data_parts opts).
  generalize (send_default to cmd) as s. induction opts as [|o opts IH]; intros s; [by rewrite app_nil_r|].
  cbn [foldl]. rewrite IH, send_effect_parts, <- app_assoc. done.
Qed.

(** The first attempt to send succeeds. *)
Lemma send_at_once {env : Zmq} c n id route :
  send_target c (sc_conn c) n = Ret (n, Some (id, route)) →
  connections n !! id = Some Dealer ∨ connections n !! id = Some Router →
  zsend id (build_send_parts (sc_parts c) route) = Sent →
  proxy_send c n =
    Ret (Some (register_request c true (n <| wire ::= (λ l, l ++ [(id, build_send_parts (sc_parts c) route)]) |>))).
Proof.
  intros Ht Hopen Hs. unfold proxy_send. cbn [send_loop]. rewrite Ht. cbn [mbind outcome_bind]. unfold send_on.
  destruct Hopen as [-> | ->]; rewrite Hs; done.
Qed.

(** ** The client sends *)

(** [to] is an open connection [id] made by [connect_remote]; zmq takes the message. *)
Record can_send {env : Zmq} (n : net) (to : ConnectionID) (frames : list bytes) (id : Z) : Prop := {
  cs_plain : conn_sn to = false;
  cs_direct : conn_route to = [];
  cs_peer : ∃ k peer, find_peer (mk_conn (conn_id to) [] []) (peers n) = Some (k, peer) ∧ peer_conn_id peer = id;
  cs_open : connections n !! id = Some Dealer;
  cs_taken : zsend id frames = Sent;
}.

Lemma request_sent {env : Zmq} n to cmd cb tag opts id :
  can_send n to (cmd :: tag :: data_parts opts) id → pending_requests n !! tag = None →
  ∃ n', (c ← parse_send (request to cmd cb tag opts); proxy_send c n) = Ret (Some n') ∧
    wire n' = wire n ++ [(id, cmd :: tag :: data_parts opts)] ∧
    pending_requests n' =
      <[ tag := ((now + sc_request_timeout (send_meaning to cmd (OString tag :: opts)))%Z, cb) ]> (pending_requests n).
Proof.
  intros [Hsn Hr (k & peer & Hf & Hid) Ho Hs] Hp. rewrite parse_request_dict. cbn [mbind outcome_bind].
  set (c := _ <| sc_request := _ |>). destruct (send_meaning_conn to cmd (OString tag :: opts)) as [Hc _].
  assert (sc_conn c = mk_conn (conn_id to) [] []) as Hconn.
  { change (sc_conn c) with (sc_conn (send_meaning to cmd (OString tag :: opts))). rewrite Hc.
    unfold send_default. cbn [sc_conn]. by rewrite Hsn, Hr. }
  assert (sc_parts c = cmd :: tag :: data_parts opts) as Hparts by exact (send_meaning_parts to cmd (OString tag :: opts)).
  rewrite (send_at_once c n id []); [| |by left|by rewrite Hparts].
  - eexists. split; [done|]. unfold register_request, insert_request. cbn. rewrite Hp. rewrite <- Hparts. done.
  - unfold send_target. rewrite Hconn. unfold conn_sn in *. cbn [conn_id conn_route]. rewrite Hsn.
    cbn [negb bool_decide]. rewrite bool_decide_true by done. cbn [negb]. by rewrite Hf, Hid, Ho.
Qed.

(** ** The server runs the command *)

(** Who sent the message [rm :: cm :: args] on connection [id], and what is invoked for
    it. *)
Definition asking_peer `{Oxenc} (self : self_info) (id : Z) (rm cm : message) (args : list message) (n : net)
    (peer : peer_info) : Prop :=
  incoming_info self id (Auth.msg_data rm) (List.last args cm) n = Ret peer.
Definition request_message (self : self_info) (id : Z) (rm cm : message) (peer : peer_info)
    (tag : bytes) (data : list bytes) : Message :=
  mk_message (mk_conn id (peer_pubkey peer) (Auth.msg_data rm))
    (mk_Access (auth_level peer) (service_node peer) (local_service_node self))
    (get_peer_address cm) tag data.

Lemma to_worker_not_builtin {O : Oxenc} {env : Zmq} self id rm cm args n p peer :
  connections n !! id = Some Router → is_builtin (Auth.msg_data cm) = false →
  asking_peer self id rm cm args n peer → service_node peer = false →
  proxy_message self id (rm :: cm :: args) n p =
    authorise_and_dispatch self id false peer (Auth.msg_data rm) cm (Auth.msg_data <$> args) n p.
Proof.
  intros Hc Hb Hp Hsn. unfold is_builtin in Hb. apply orb_false_iff in Hb as [Hb He].
  apply bool_decide_eq_false in Hb. rewrite !not_elem_of_cons in Hb. destruct Hb as (H1 & H2 & H3 & H4 & _).
  unfold proxy_message. rewrite Hc. rewrite (bool_decide_false (rm :: cm :: args = [])) by done.
  rewrite (bool_decide_true (Some Router = Some Router)) by done.
  unfold proxy_handle_builtin. cbn [fmap list_fmap split_parts]. rewrite !bool_decide_false by done. rewrite He.
  cbn [mbind outcome_bind]. unfold proxy_to_worker. cbn [split_parts]. destruct (incoming_info_at _ _ _ _ _ _ Hp) as [_ Hroute].
  rewrite Hp. cbn [mbind outcome_bind]. unfold incoming_peer. rewrite Hsn. cbn [mbind outcome_bind]. by rewrite Hroute.
Qed.

Section server.
Context {E : TaskEval}.
Hypothesis tasks_return : ∀ f, eval_task f ≠ Undef.

Lemma reachable_history s : reachable s → ∃ a, history a s.
Proof using.
  clear tasks_return. induction 1 as [|s e s' _ [a Ha] He Hs]; [eexists; by eapply history_start|].
  eexists. by eapply history_step.
Qed.

(** An accepted command is called by the workers' own turns and the proxy's queue runs,
    with what it was accepted with. *)
Lemma command_called s cat command data cb conn acc remote s1 :
  reachable s → event_ok (Threads.proxy s) (EvCommand cat command data cb conn acc remote) →
  step s (EvCommand cat command data cb conn acc remote) = Ret s1 →
  accepts_command cat (Threads.proxy s) = true →
  ∃ es s2 l i, Forall worker_event es ∧ length es ≤ 3 * work (Threads.proxy s1) + 1 ∧ execute s1 es = Ret s2 ∧
    calls s2 = calls s ++ l ∧ i ∈ l ∧ call_item i = WCall cb conn acc remote data.
Proof using tasks_return.
  intros Hr He Hs Ha. destruct (reachable_history s Hr) as [a Hh].
  pose proof (history_step a s _ s1 Hh He Hs) as Hh1. cbn [accepts] in Hh1. rewrite Ha in Hh1.
  pose proof (reachable_ok tasks_return s1 (history_reachable _ _ Hh1)) as Hok.
  destruct (drain tasks_return (work (Threads.proxy s1)) s1 Hok (le_n _)) as (es & s2 & Hes & Hlen & Hx & Hd).
  pose proof (drained_called tasks_return _ s2 (history_workers es _ s1 s2 Hes Hh1 Hx) Hd) as Hall.
  destruct (step_calls _ _ _ Hs) as [l1 Hl1]. destruct (execute_calls _ _ _ Hx) as [l2 Hl2]. rewrite Hl1, <- app_assoc in Hl2.
  destruct (called_part tasks_return a s Hh) as [waiting Hw].
  rewrite Hl2, fmap_app, <- Hw, <- app_assoc in Hall. apply Permutation_app_inv_l in Hall.
  assert (WCall cb conn acc remote data ∈ call_item <$> l1 ++ l2) as Hin.
  { rewrite Hall. apply elem_of_app. right. by apply list_elem_of_here. }
  apply list_elem_of_fmap in Hin as (i & Hi & Hin). exists es, s2, (l1 ++ l2), i. by split_and!.
Qed.

(** The message [rm :: cm :: args] comes in on connection [id] of the server, from a [peer]
    that is not a service node; [cm] is not a built-in command. *)
Record asked `{Oxenc} (s : system) (n : net) (self : self_info) (id : Z) (rm cm : message)
    (args : list message) (peer : peer_info) : Prop := {
  as_reachable : reachable s;
  as_id : (0 < id)%Z;
  as_router : connections n !! id = Some Router;
  as_route : Auth.msg_data rm ≠ [];
  as_custom : is_builtin (Auth.msg_data cm) = false;
  as_peer : asking_peer self id rm cm args n peer;
  as_sender : service_node peer = false;
}.
(** The server knows [cm] as the request command [f] of category [cat]. *)
Definition known_request (s : system) (cm : message) (cat command : bytes) (f : callback) : Prop :=
  get_command (reg (Threads.proxy s)) (Auth.msg_data cm) = (command, Some (cat, (f, true))).
Definition unknown_command (s : system) (cm : message) : Prop :=
  snd (get_command (reg (Threads.proxy s)) (Auth.msg_data cm)) = None.

Lemma request_runs {O : Oxenc} {env : Zmq} s n self id rm cm args peer cat command f tag data :
  asked s n self id rm cm args peer → known_request s cm cat command f → Auth.msg_data <$> args = tag :: data →
  auth_reply (reg (Threads.proxy s)) (local_service_node self) peer
    (Some (cat, (f, true))) (tag :: data) = None →
  accepts_command cat (Threads.proxy s) = true →
  ∃ p' s1 es s2 l, proxy_message self id (rm :: cm :: args) n (Threads.proxy s) = Ret (n, p') ∧
    on_proxy s (Ret p') = Ret s1 ∧ Forall worker_event es ∧ length es ≤ 3 * work (Threads.proxy s1) + 1 ∧
    execute s1 es = Ret s2 ∧ calls s2 = calls s ++ l ∧
    InvokeCommand (f, true) (request_message self id rm cm peer tag data) ∈ l.
Proof using tasks_return.
  intros [Hr Hpos Hc _ Hb Hp Hsn] Hcmd Hd Ha Hacc. unfold known_request in Hcmd. rewrite (to_worker_not_builtin self id rm cm args n _ peer Hc Hb Hp Hsn).
  unfold authorise_and_dispatch, proxy_check_auth. rewrite Hcmd, Hd, Ha, Hsn.
  set (p := Threads.proxy s) in *.
  set (conn := mk_conn id (peer_pubkey peer) (Auth.msg_data rm)). set (acc := mk_Access _ _ _).
  set (e := EvCommand cat command (tag :: data) (f, true) conn acc (get_peer_address cm)).
  assert (event_ok p e) as He.
  { split; [|done]. unfold accepts_command in Hacc. unfold the_category in *.
    destruct (categories (reg p) !! cat) as [c|]; [by exists c|done]. }
  destruct (sys_step tasks_return s e Hr He) as (s1 & Hs & _).
  destruct (command_called s cat command (tag :: data) (f, true) conn acc (get_peer_address cm) s1 Hr He Hs Hacc)
    as (es & s2 & l & i & Hes & Hlen & Hx & Hl & Hi & Hitem).
  pose proof Hs as Hs'. unfold e in Hs'. cbn [step] in Hs'. fold p in Hs'.
  destruct (dispatch_command cat command (tag :: data) (f, true) conn acc (get_peer_address cm) p) as [p'| |]; try done.
  cbn [mbind outcome_bind andb]. exists p', s1, es, s2, l. split_and!; try done.
  destruct i as [t|cb m|t]; try done. cbn [call_item] in Hitem. destruct m as [mc ma mr mt md]. cbn in Hitem.
  injection Hitem as -> -> -> -> Hdata. cbn in Hdata. injection Hdata as -> ->. unfold request_message.
  by rewrite Hsn.
Qed.

(** A request that is not permitted is refused under its tag. *)
Lemma request_refused {O : Oxenc} {env : Zmq} s n self id rm cm args peer cat command f tag data code :
  asked s n self id rm cm args peer → known_request s cm cat command f → Auth.msg_data <$> args = tag :: data →
  auth_reply (reg (Threads.proxy s)) (local_service_node self) peer
    (Some (cat, (f, true))) (tag :: data) = Some code →
  zsend id [Auth.msg_data rm; code; B "REPLY"; tag] = Sent →
  proxy_message self id (rm :: cm :: args) n (Threads.proxy s) =
    Ret (n <| wire ::= (λ l, l ++ [(id, [Auth.msg_data rm; code; B "REPLY"; tag])]) |>, Threads.proxy s).
Proof using.
  clear tasks_return. intros [Hr Hpos Hc _ Hb Hp Hsn] Hcmd Hd Ha Hz. unfold known_request in Hcmd. rewrite (to_worker_not_builtin self id rm cm args n _ peer Hc Hb Hp Hsn).
  unfold authorise_and_dispatch, proxy_check_auth. rewrite Hcmd, Hd, Ha.
  destruct (incoming_info_at _ _ _ _ _ _ Hp) as [_ ->]. cbn [app]. unfold send_at, send_on. by rewrite Hc, Hz.
Qed.

(** An unknown command is refused without the tag. *)
Lemma unknown_refused {O : Oxenc} {env : Zmq} s n self id rm cm args peer :
  asked s n self id rm cm args peer → unknown_command s cm →
  zsend id [Auth.msg_data rm; B "UNKNOWNCOMMAND"; Auth.msg_data cm] = Sent →
  proxy_message self id (rm :: cm :: args) n (Threads.proxy s) =
    Ret (n <| wire ::= (λ l, l ++ [(id, [Auth.msg_data rm; B "UNKNOWNCOMMAND"; Auth.msg_data cm])]) |>, Threads.proxy s).
Proof using.
  clear tasks_return. intros [Hr Hpos Hc _ Hb Hp Hsn] Hcmd Hz. rewrite (to_worker_not_builtin self id rm cm args n _ peer Hc Hb Hp Hsn).
  unfold unknown_command in Hcmd. unfold authorise_and_dispatch, proxy_check_auth.
  destruct (get_command _ _) as [command cat_call]. cbn [snd] in Hcmd. subst cat_call. cbn [auth_reply].
  destruct (incoming_info_at _ _ _ _ _ _ Hp) as [_ ->]. cbn [app]. unfold send_at, send_on. by rewrite Hc, Hz.
Qed.
End server.

(** ** The reply *)

(** A reply to a plain connection, built by [send_reply], goes back the way the request
    came. *)
Lemma reply_sent {env : Zmq} (conn : ConnectionID) tag reply n :
  (0 < conn_id conn)%Z → conn_route conn ≠ [] → tag ≠ [] → connections n !! conn_id conn = Some Router →
  zsend (conn_id conn) (conn_route conn :: B "REPLY" :: tag :: data_parts reply) = Sent →
  (d ← send_reply conn tag reply; c ← parse_send d; proxy_send c n) =
    Ret (Some (n <| wire ::= (λ l, l ++ [(conn_id conn, conn_route conn :: B "REPLY" :: tag :: data_parts reply)]) |>)).
Proof.
  intros Hid Hroute Htag Hc Hz. unfold send_reply. rewrite bool_decide_false by done. cbn [mbind outcome_bind].
  assert (conn_sn conn = false) as Hsn by (unfold conn_sn, SN_ID; lia).
  set (opts := OString tag :: _). rewrite parse_build_send. cbn [mbind outcome_bind]. set (c := _ <| sc_request_timeout := _ |>).
  destruct (send_meaning_conn conn (B "REPLY") opts) as [Hm Hrq].
  assert (sc_conn c = mk_conn (conn_id conn) [] (conn_route conn)) as Hconn.
  { change (sc_conn c) with (sc_conn (send_meaning conn (B "REPLY") opts)). rewrite Hm. unfold send_default. cbn [sc_conn]. by rewrite Hsn. }
  assert (sc_parts c = B "REPLY" :: tag :: data_parts reply) as Hp by exact (send_meaning_parts conn (B "REPLY") opts).
  assert (build_send_parts (sc_parts c) (conn_route conn) = conn_route conn :: B "REPLY" :: tag :: data_parts reply) as Hb.
  { unfold build_send_parts. rewrite bool_decide_false by done. by rewrite Hp. }
  rewrite (send_at_once c n (conn_id conn) (conn_route conn)); [| |by right|by rewrite Hb].
  - rewrite Hb. unfold register_request. change (sc_request c) with (sc_request (send_meaning conn (B "REPLY") opts)). by rewrite Hrq.
  - unfold send_target. rewrite Hconn. unfold conn_sn in *. cbn [conn_id conn_route]. rewrite Hsn.
    rewrite bool_decide_false by done. cbn [negb]. by rewrite Hc.
Qed.

(** The callback is scheduled with this result, and the request is forgotten. *)
Definition answered (tag : bytes) (cb : callback) (success : bool) (data : list bytes) (n : net) : net :=
  (schedule true (TReply cb success data) n) <| pending_requests ::= delete tag |>.

Lemma reply_received {O : Oxenc} {env : Zmq} self id parts n p tag data deadline cb :
  connections n !! id ≠ Some Router → Auth.msg_data <$> parts = B "REPLY" :: tag :: data →
  pending_requests n !! tag = Some (deadline, cb) →
  proxy_message self id parts n p = Ret (answered tag cb true data n, p).
Proof.
  intros Hc Hd Hp. unfold proxy_message. rewrite (bool_decide_false (connections n !! id = Some Router)) by done.
  rewrite bool_decide_false by (by intros ->). rewrite Hd. cbn [proxy_handle_builtin split_parts].
  unfold proxy_handle_builtin. cbn [split_parts]. rewrite bool_decide_true by done. cbn [mbind outcome_bind].
  unfold answer. by rewrite Hp.
Qed.
Lemma refusal_received {O : Oxenc} {env : Zmq} self id parts n p tag code deadline cb :
  connections n !! id ≠ Some Router → is_error_response code = true →
  Auth.msg_data <$> parts = [code; B "REPLY"; tag] → pending_requests n !! tag = Some (deadline, cb) →
  proxy_message self id parts n p = Ret (answered tag cb false [code] n, p).
Proof.
  intros Hc He Hd Hp. unfold proxy_message. rewrite (bool_decide_false (connections n !! id = Some Router)) by done.
  rewrite bool_decide_false by (by intros ->). rewrite Hd. unfold proxy_handle_builtin. cbn [split_parts].
  assert (code ∉ [B "REPLY"; B "HI"; B "HELLO"; B "BYE"]) as Hne.
  { unfold is_error_response in He. apply bool_decide_eq_true in He. rewrite !elem_of_cons in He.
    destruct He as [->|[->|[->|[->|[->|He]]]]]; [by apply (bool_decide_unpack _)..|by apply not_elem_of_nil in He]. }
  rewrite !not_elem_of_cons in Hne. destruct Hne as (H1 & H2 & H3 & H4 & _). rewrite !bool_decide_false by done. rewrite He.
  cbn [mbind outcome_bind handle_error_response]. rewrite bool_decide_true by done. unfold answer. by rewrite Hp.
Qed.

(** A refusal without a tag is only logged. *)
Lemma unknown_received {O : Oxenc} {env : Zmq} self id parts n p cmd :
  connections n !! id ≠ Some Router → Auth.msg_data <$> parts = [B "UNKNOWNCOMMAND"; cmd] →
  proxy_message self id parts n p = Ret (n, p).
Proof.
  intros Hc Hd. unfold proxy_message. rewrite (bool_decide_false (connections n !! id = Some Router)) by done.
  rewrite bool_decide_false by (by intros ->). rewrite Hd. done.
Qed.

(** A request that is overdue is timed out by the next cleanup. *)
Lemma requests_loop_overdue {env : Zmq} rest n tag d cb :
  (tag, (d, cb)) ∈ rest → (d < now)%Z → (false, timeout_task cb) ∈ scheduled (requests_loop rest n).
Proof.
  intros Hin Hd. revert n. induction rest as [|[tag' [d' cb']] rest IH]; intros n; cbn [requests_loop];
    [by apply not_elem_of_nil in Hin|]. apply elem_of_cons in Hin as [[= <- <- <-]|Hin].
  - rewrite (proj2 (Z.ltb_lt _ _) Hd). assert (∀ l m, scheduled m ⊆ scheduled (requests_loop l m)) as Hkeep.
    { clear. induction l as [|[t [d cb]] l IH]; intros m; cbn [requests_loop]; [done|]. destruct (d <? now)%Z; [|apply IH].
      etrans; [|apply IH]. cbn. set_solver. }
    apply Hkeep. cbn. set_solver.
  - destruct (d' <? now)%Z; by apply IH.
Qed.
Lemma overdue_cleanup {env : Zmq} n tag d cb :
  pending_requests n !! tag = Some (d, cb) → (d < now)%Z → ¬ has_null n →
  ∃ n', proxy_conn_cleanup n = Ret n' ∧ pending_requests n' !! tag = None ∧ (false, timeout_task cb) ∈ scheduled n'.
Proof.
  intros Hp Hd Hn. exists (cleanup_drop n). split; [by apply (closing_open n), Hn; apply cleanup_closing|].
  unfold cleanup_drop. set (n1 := idle_peers_drop n). set (n2 := connects_drop _ _ n1).
  assert (pending_requests n2 = pending_requests n) as H2.
  { unfold n2. rewrite connects_loop_requests. apply quiet_expire_loop. }
  assert ((tag, (d, cb)) ∈ map_to_list (pending_requests n2)) as Hin by (by rewrite H2, elem_of_map_to_list).
  split; [|by eapply requests_loop_overdue]. apply eq_None_not_Some. intros [w Hw].
  apply requests_loop_kept in Hw as [_ Hw]. specialize (Hw _ Hin). cbn in Hw. lia.
Qed.

Lemma auth_reply_error r lsn peer cat_call data code :
  auth_reply r lsn peer cat_call data = Some code → is_error_response code = true.
Proof.
  assert (Forall (λ c, is_error_response c = true)
    [B "UNKNOWNCOMMAND"; B "FORBIDDEN"; B "NOT_A_SERVICE_NODE"; B "FORBIDDEN_SN"; B "NO_REPLY_TAG"]) as Hall
    by (repeat constructor).
  intros H. eapply Forall_forall in Hall; [exact Hall|]. unfold auth_reply in H.
  destruct cat_call as [[cat [f rq]]|]; [|injection H as <-; set_solver].
  destruct (categories r !! cat); [|injection H as <-; set_solver].
  repeat case_match; try done; injection H as <-; set_solver.
Qed.

(** ** The whole way *)

Section whole.
Context {E : TaskEval} {O : Oxenc}.
Hypothesis tasks_return : ∀ f, eval_task f ≠ Undef.

(** The request reaches a worker of the server. *)
Definition runs_request {env : Zmq} (s : system) (n : net) (self : self_info) (id : Z) (parts : list message)
    (f : callback) (m : Message) : Prop :=
  ∃ p' s1 es s2 l, proxy_message self id parts n (Threads.proxy s) = Ret (n, p') ∧
    on_proxy s (Ret p') = Ret s1 ∧ Forall worker_event es ∧ length es ≤ 3 * work (Threads.proxy s1) + 1 ∧
    execute s1 es = Ret s2 ∧ calls s2 = calls s ++ l ∧ InvokeCommand (f, true) m ∈ l.

(** Whenever [frames] come back on connection [id] while the request is pending, its
    callback is scheduled with this result. *)
Definition calls_back (id : Z) (frames : list bytes) (tag : bytes) (cb : callback) (success : bool) (data : list bytes) :
    Prop :=
  ∀ (env : Zmq) self parts n p deadline,
    connections n !! id ≠ Some Router → Auth.msg_data <$> parts = frames →
    pending_requests n !! tag = Some (deadline, cb) →
    proxy_message self id parts n p = Ret (answered tag cb success data n, p).

(** Frames that come back on connection [id] and change nothing: the request waits for
    the cleanup after its deadline, which calls the callback with TIMEOUT. *)
Definition times_out (id : Z) (frames : list bytes) (tag : bytes) (cb : callback) : Prop :=
  (∀ (env : Zmq) self parts n p, connections n !! id ≠ Some Router → Auth.msg_data <$> parts = frames →
     proxy_message self id parts n p = Ret (n, p)) ∧
  (∀ (env : Zmq) n deadline, pending_requests n !! tag = Some (deadline, cb) → (deadline < now)%Z →
     (∀ id, connections n !! id ≠ Some NullSocket) →
     ∃ n', proxy_conn_cleanup n = Ret n' ∧ pending_requests n' !! tag = None ∧
       (false, TReply cb false [B "TIMEOUT"]) ∈ scheduled n').

(** C5: a request over a connection made by [connect_remote] is answered end to end.  The
    client puts the command, the reply tag and the data on the connection and remembers
    the callback under the tag.  Say a server gets these parts from a peer that is not a
    service node.  If it has a request command of that name, then either it permits the
    command and has room for it: in every reachable state of its scheduler, turns of the
    workers and queue runs, at most three per unit of work, lead to a call of the command's
    function with the data and the tag; and whatever that function replies with
    [send_reply], at any later time, goes out under the tag to the connection and route the
    request came from, and calls the callback at the client with success and exactly the
    data replied.  Or it refuses the command: nothing is run, and the refusal goes out under
    the tag and calls the callback with failure and the reason.  If it has no command of
    that name, the refusal UNKNOWNCOMMAND goes out with the command instead of the tag, so
    the client cannot tell which request it is about: the callback is called with TIMEOUT
    by the cleanup after the deadline. *)
Theorem request_answered (envA envB : Zmq) nA to cmd cb tag opts idA s nB self id rm cm args peer :
  can_send (env := envA) nA to (cmd :: tag :: data_parts opts) idA → pending_requests nA !! tag = None → tag ≠ [] →
  asked s nB self id rm cm args peer →
  Auth.msg_data <$> cm :: args = cmd :: tag :: data_parts opts →
  (∃ nA1 deadline, (c ← parse_send (request to cmd cb tag opts); proxy_send (Z0 := envA) c nA) = Ret (Some nA1) ∧
     wire nA1 = wire nA ++ [(idA, cmd :: tag :: data_parts opts)] ∧
     pending_requests nA1 !! tag = Some (deadline, cb)) ∧
  (∀ cat command f, known_request s cm cat command f →
   match auth_reply (reg (Threads.proxy s)) (local_service_node self) peer
           (Some (cat, (f, true))) (tag :: data_parts opts) with
   | None =>
       let m := request_message self id rm cm peer tag (data_parts opts) in
       accepts_command cat (Threads.proxy s) = true →
       runs_request (env := envB) s nB self id (rm :: cm :: args) f m ∧
       ∀ reply,
         let frames := B "REPLY" :: reply_tag m :: data_parts reply in
         (∀ (env : Zmq) n, connections n !! id = Some Router → zsend id (Auth.msg_data rm :: frames) = Sent →
            (d ← send_reply (msg_conn m) (reply_tag m) reply; c ← parse_send d; proxy_send c n) =
              Ret (Some (n <| wire ::= (λ l, l ++ [(id, Auth.msg_data rm :: frames)]) |>))) ∧
         calls_back idA frames tag cb true (data_parts reply)
   | Some code =>
       let frames := [code; B "REPLY"; tag] in
       (zsend (Zmq := envB) id (Auth.msg_data rm :: frames) = Sent →
        proxy_message (Z0 := envB) self id (rm :: cm :: args) nB (Threads.proxy s) =
          Ret (nB <| wire ::= (λ l, l ++ [(id, Auth.msg_data rm :: frames)]) |>, Threads.proxy s)) ∧
       calls_back idA frames tag cb false [code]
   end) ∧
  (unknown_command s cm →
   let frames := [B "UNKNOWNCOMMAND"; cmd] in
   (zsend (Zmq := envB) id (Auth.msg_data rm :: frames) = Sent →
    proxy_message (Z0 := envB) self id (rm :: cm :: args) nB (Threads.proxy s) =
      Ret (nB <| wire ::= (λ l, l ++ [(id, Auth.msg_data rm :: frames)]) |>, Threads.proxy s)) ∧
   times_out idA frames tag cb).
Proof using tasks_return.
  intros Hsend Hnew Htag Hk Hfr. rewrite fmap_cons in Hfr. injection Hfr as Hcm Hargs. split_and!.
  - destruct (request_sent (env := envA) nA to cmd cb tag opts idA Hsend Hnew) as (n' & H1 & H2 & H3).
    exists n', (now (Zmq := envA) + sc_request_timeout (send_meaning to cmd (OString tag :: opts)))%Z.
    split_and!; [exact H1|exact H2|by rewrite H3, lookup_insert_eq].
  - intros cat command f Hkn. destruct (auth_reply _ _ _ _ _) as [code|] eqn:Ha; cbn zeta.
    + split; [exact (request_refused (env := envB) s nB self id rm cm args peer cat command f _ _ code Hk Hkn Hargs Ha)|].
      intros env self' parts n p d Hc. apply refusal_received; [done|]. by eapply auth_reply_error.
    + intros Hacc. split; [exact (request_runs tasks_return (env := envB) s nB self id rm cm args peer cat command f _ _ Hk Hkn Hargs Ha Hacc)|].
      intros reply. split.
      * intros env n Hc Hz. apply (reply_sent (mk_conn id _ (Auth.msg_data rm))); cbn; try done; by destruct Hk.
      * intros env self' parts n p d. apply reply_received.
  - intros Hun. cbn zeta. rewrite <- Hcm. split; [by apply (unknown_refused _ _ _ _ _ _ _ peer)|]. split.
    + intros env self' parts n p. apply unknown_received.
    + intros env n d Hp Hd Hn. eapply overdue_cleanup; [exact Hp|exact Hd|]. intros [x Hx]. by apply (Hn x).
Qed.
End whole.

(** A client with one connection, and a server with a request command [q.ask]. *)
Definition sample_client : net :=
  net_empty <| peers := [(conn_of_id 4, mk_peer [] false none 4 [] 0 0)] |>
            <| connections := {[ 4%Z := Dealer ]} |>.
Definition sample_server : net := net_empty <| connections := {[ 2%Z := Router ]} |>.
Definition server_setup : list setup :=
  [SetGeneral 1; Register (AddCategory (B "q") (mk_Access none false false) 0 10);
   Register (AddRequestCommand (B "q") (B "ask") 6)].
Lemma server_setup_ok p : setups_ok p server_setup.
Proof. cbn [setups_ok server_setup]. repeat (split; [done || (cbn; lia)|intros ? _]); done. Qed.
Definition sample_ask : list bytes := [B "q.ask"; B "TAG"; B "how"; B "much"].

Lemma server_started : ∃ s, (p ← run_setups (pool_new 2) server_setup; system_start p) = Ret s ∧
  reachable (E := sample_eval) s.
Proof.
  destruct (run_setups (pool_new 2) server_setup) as [p| |] eqn:Hp; [|exfalso; vm_compute in Hp; discriminate..].
  destruct (system_start p) as [s| |] eqn:Hs; [|exfalso; vm_compute in Hp; injection Hp as <-; vm_compute in Hs; discriminate..].
  exists s. split; [exact Hs|]. apply (reach_start (E := sample_eval) 2 server_setup p); [apply server_setup_ok|exact Hp| |exact Hs].
  vm_compute in Hp. injection Hp as <-. split; vm_compute; by repeat constructor.
Qed.

Lemma request_answered_witness :
  ∃ s m, (p ← run_setups (pool_new 2) server_setup; system_start p) = Ret s ∧
    reply_tag m = B "TAG" ∧ msg_data m = [B "how"; B "much"] ∧
    runs_request (E := sample_eval) (O := Standard.oxenc) (env := sample_env 5) s sample_server sample_self 2
      (sample_parts (B "r9" :: sample_ask)) 6 m ∧
    calls_back (O := Standard.oxenc) 4 [B "REPLY"; B "TAG"; B "42"] (B "TAG") 3 true [B "42"].
Proof.
  destruct server_started as (s & Hs & Hr). exists s.
  pose proof (request_answered (E := sample_eval) (O := Standard.oxenc) sample_returns (sample_env 5) (sample_env 5)
    sample_client (conn_of_id 4) (B "q.ask") 3 (B "TAG") [OString (B "how"); OHint (B "x"); ODataParts [B "much"]] 4
    s sample_server sample_self 2 (Auth.mk_message (B "r9") ∅) (Auth.mk_message (B "q.ask") ∅)
    (sample_parts [B "TAG"; B "how"; B "much"]) (mk_peer [] false none 2 (B "r9") 0 0)) as H.
  exists (request_message sample_self 2 (Auth.mk_message (B "r9") ∅) (Auth.mk_message (B "q.ask") ∅)
    (mk_peer [] false none 2 (B "r9") 0 0) (B "TAG") [B "how"; B "much"]).
  assert (auth_reply (reg (Threads.proxy s)) (local_service_node sample_self)
    (mk_peer [] false none 2 (B "r9") 0 0) (Some (B "q", (6, true)))
    [B "TAG"; B "how"; B "much"] = None ∧ accepts_command (B "q") (Threads.proxy s) = true ∧
    get_command (reg (Threads.proxy s)) (B "q.ask") = (B "q.ask", Some (B "q", (6, true)))) as (Ha & Hacc & Hget).
  { vm_compute in Hs. injection Hs as <-. by vm_compute. }
  destruct H as (_ & H & _).
  - split; [done|done|by do 2 eexists|done|done].
  - done.
  - done.
  - split; [exact Hr|lia|done|done|done|done|done].
  - done.
  - specialize (H (B "q") (B "q.ask") 6 Hget). match type of H with context [match ?x with _ => _ end] => replace x with (@None bytes) in H by (symmetry; exact Ha) end.
    destruct (H Hacc) as [H1 H2]. destruct (H2 [OString (B "42")]) as [_ H3].
    split_and!; [exact Hs|done|done|exact H1|exact H3].
Defined.
