(* ===== verification/ProxyLoop.v ===== *)
(** * ProxyLoop: the loop of the proxy thread

    The body of [proxy_loop] (proxy.cpp) with [rebuild_pollitems] (connections.cpp)
    as a state machine, one step per socket operation or handler call.  Between any
    two steps other threads may act: they send control messages, run jobs and report
    back, and zmq delivers messages.  With epoll a socket signals only when input
    arrives on a socket that had none (an edge), and only if it was registered; an
    edge is reported once. *)
From S2P Require Import Prelude Bytes Oxenc Address Auth ConnId Commands Batch Pool Options Net Closing ServiceNodes NetSteps NetProps NetFrame Tables.
From S2P Require Import PoolSlots Threads PoolInv PoolSteps PoolSafe PoolRuns Loop Proxy Start ProxySafe.
From stdpp Require Import sorting.
Open Scope Z_scope.
Open Scope nat_scope.

(** The ids of the internal sockets in [epoll_event.data.u64]. *)
Definition EPOLL_COMMAND_ID : Z := 2 ^ 64 - 1.
Definition EPOLL_WORKER_ID : Z := 2 ^ 64 - 1 - 1.
Definition EPOLL_ZAP_ID : Z := 2 ^ 64 - 1 - 2.
Definition internal_ids : list Z := [EPOLL_COMMAND_ID; EPOLL_WORKER_ID; EPOLL_ZAP_ID].

Record loop_flags := mk_flags {
  process_command : bool;
  process_worker : bool;
  process_zap : bool;
  process_all : bool;
}.

(** Where the loop is; [ready] are the connections [epoll_wait] reported. *)
Inductive phase :=
  | PTop
  | PPoll
  | PCommands (f : loop_flags) (ready : list Z)
  | PWorkers (f : loop_flags) (ready : list Z)
  | PTimers (f : loop_flags) (ready : list Z) (due : list (option Z))
  | PZap (f : loop_flags) (ready : list Z)
  | PQueue (f : loop_flags) (ready : list Z)
  | PCollect (f : loop_flags) (ready : list Z)
  | PServe (queue : list (option Z)) (pos end_ : nat)
  | PCheck (todo : list Z)
  | PEnd.

Record loop_state := mk_loop {
  lp_px : proxy_state;
  lp_phase : phase;
  lp_calls : list api_call; (* on the command socket, besides the proxy's own messages *)
  lp_ran : list (bool * Z); (* RAN messages on the workers socket *)
  lp_zap : list (list bytes);
  lp_boxes : mailboxes;
  lp_registered : gset Z; (* what is in the epoll set *)
  lp_edges : gset Z; (* edges that were not reported yet *)
  lp_replies : list zap_reply;
}.
#[export] Instance loop_state_rebuild : Rebuild loop_state := λ l,
  mk_loop (lp_px l) (lp_phase l) (lp_calls l) (lp_ran l) (lp_zap l) (lp_boxes l) (lp_registered l)
    (lp_edges l) (lp_replies l).

(** What the outside decides in a step: the environment of a handler, which message
    of the command socket comes first, what [epoll_wait] reports, and which timers
    are due ([None] is the connection check). *)
Record loop_input := mk_input {
  in_env : Zmq;
  in_self : bool;
  in_events : list Z;
  in_due : list (option Z);
}.

Section loop.
Context {E : TaskEval} {O : Oxenc} (self : self_info) (EPHEMERAL_ROUTING_ID : bool) (bt_index : nat → bytes).
Context (bt_size : bytes → option Z) (using_epoll : bool).

Definition the_net (l : loop_state) : net := px_net (lp_px l).
Definition the_pool (l : loop_state) : pool := proxy (px_sys (lp_px l)).

(** ** Input *)

Definition command_waiting (l : loop_state) : bool :=
  negb (bool_decide (lp_calls l = []) && bool_decide (px_control (lp_px l) = [])).
Definition worker_waiting (l : loop_state) : bool := negb (bool_decide (lp_ran l = [])).
Definition zap_waiting (l : loop_state) : bool := negb (bool_decide (lp_zap l = [])).

(** [sock.get(zmq::sockopt::events) & ZMQ_POLLIN]; a socket that was never opened
    makes [get] throw. *)
Definition conn_events (id : Z) (l : loop_state) : outcome bool :=
  if bool_decide (connections (the_net l) !! id = Some NullSocket) then Throw (zmq_error ENOTSOCK)
  else Ret (has_message (lp_boxes l) id).

(** The ids of [connections], an ordered map. *)
Definition conn_ids (n : net) : list Z := merge_sort Z.le (elements (dom (connections n))).

(** ** The steps *)

Definition goto (ph : phase) (l : loop_state) : outcome (option loop_state) := Ret (Some (l <| lp_phase := ph |>)).

Definition run_event (env : Zmq) (e : proxy_event) (l : loop_state) : outcome (option loop_state) :=
  o ← proxy_step (env := env) self EPHEMERAL_ROUTING_ID bt_index e (lp_px l);
  Ret ((λ px, l <| lp_px := px |>) <$> (o : option proxy_state)).

(** [rebuild_pollitems] up to the flag it clears: with epoll the descriptor of every
    socket is asked for. *)
Definition register_all (l : loop_state) : outcome loop_state :=
  if using_epoll then
    if bool_decide (Exists (λ id, connections (the_net l) !! id = Some NullSocket) (conn_ids (the_net l)))
    then Throw (zmq_error ENOTSOCK)
    else Ret (l <| lp_registered := list_to_set internal_ids ∪ dom (connections (the_net l)) |> <| lp_edges := ∅ |>)
  else Ret l.

Definition top_step (env : Zmq) (l : loop_state) : outcome (option loop_state) :=
  if loop_ends (the_pool l) then
    px ← proxy_quit (lp_px l);
    goto PEnd (l <| lp_px := px |>)
  else if connections_updated (the_net l) then
    l ← register_all l;
    run_event env PxRebuild (l <| lp_phase := PPoll |>)
  else goto PPoll l.

Definition poll_step (env : Zmq) (events : list Z) (l : loop_state) : outcome (option loop_state) :=
  if using_epoll then
    if proxy_skip_one_poll (the_pool l) then
      run_event env (PxPoll false)
        (l <| lp_phase := PCommands (mk_flags (command_waiting l) (worker_waiting l) (zap_waiting l) true) [] |>)
    else
      let ready := filter (λ id, (id ∉ internal_ids) ∧ is_Some (connections (the_net l) !! id)) events in
      goto (PCommands (mk_flags (bool_decide (EPOLL_COMMAND_ID ∈ events)) (bool_decide (EPOLL_WORKER_ID ∈ events))
                         (bool_decide (EPOLL_ZAP_ID ∈ events)) false) ready)
        (l <| lp_edges ::= (λ s, s ∖ list_to_set events) |>)
  else run_event env (PxPoll false) (l <| lp_phase := PCommands (mk_flags true true true true) [] |>).

(** The next message of the command socket. *)
Definition next_command (from_self : bool) (l : loop_state) : option proxy_event :=
  match lp_calls l, px_control (lp_px l) with
  | [], [] => None
  | [], _ => Some PxSelf
  | c :: _, [] => Some (PxCall c)
  | c :: _, _ => Some (if from_self then PxSelf else PxCall c)
  end.
Definition take_command (e : proxy_event) (l : loop_state) : loop_state :=
  match e with PxCall _ => l <| lp_calls ::= tail |> | _ => l end.

Definition timer_event (t : option Z) : proxy_event := match t with None => PxCleanup | Some t => PxTimer t end.

Definition zap_step (frames : list bytes) (l : loop_state) : outcome (option loop_state) :=
  r ← process_zap_request bt_size (px_bind (lp_px l)) (active_service_nodes (the_net l)) frames;
  Ret (Some (l <| lp_replies ::= (λ rs, rs ++ [r]) |>)).

(** The connections that have input. *)
Fixpoint collect (ids : list Z) (l : loop_state) : outcome (list Z) :=
  match ids with
  | [] => Ret []
  | id :: ids =>
      e ← conn_events id l;
      rest ← collect ids l;
      Ret (if (e : bool) then id :: rest else rest)
  end.

Definition start_ring (ready : list Z) (l : loop_state) : outcome (option loop_state) :=
  goto (PServe (ring_start ready) 0 (length (ring_start ready) - 1)) l.

(** After the ring: back to the top, with a last look at every socket if the loop
    would go on to poll. *)
Definition after_ring (l : loop_state) : outcome (option loop_state) :=
  if using_epoll && negb (connections_updated (the_net l)) && negb (proxy_skip_one_poll (the_pool l))
  then goto (PCheck (internal_ids ++ conn_ids (the_net l))) l
  else goto PTop l.

(** The queue holds pointers into [connections]: one that no longer refers to an open
    socket there is dangling. *)
Definition dangling (id : Z) (l : loop_state) : bool :=
  match connections (the_net l) !! id with Some NullSocket | None => true | Some _ => false end.

(** One iteration of the ring loop. *)
Definition serve_step (env : Zmq) (queue : list (option Z)) (pos end_ : nat) (l : loop_state) :
    outcome (option loop_state) :=
  if pos =? end_ then after_ring l
  else
    let next := (pos + 1) mod length queue in
    match queue !! pos with
    | Some (Some id) =>
        if dangling id l then Undef
        else match recv id (lp_boxes l) with
        | None => goto (PServe queue next end_) l
        | Some (parts, mb) =>
            if length queue <=? end_ then Undef
            else
              let queue := <[ end_ := Some id ]> queue in
              let l := l <| lp_boxes := mb |> <| lp_phase := PServe queue next ((end_ + 1) mod length queue) |> in
              if bool_decide (parts = []) then Ret (Some l)
              else
                o ← run_event env (PxMessage id parts) l;
                match (o : option loop_state) with
                | None => Ret None
                | Some l => if connections_updated (the_net l) then after_ring l else Ret (Some l)
                end
        end
    | _ => Undef
    end.

Definition check_events (src : Z) (l : loop_state) : outcome bool :=
  if (src =? EPOLL_COMMAND_ID)%Z then Ret (command_waiting l)
  else if (src =? EPOLL_WORKER_ID)%Z then Ret (worker_waiting l)
  else if (src =? EPOLL_ZAP_ID)%Z then Ret (zap_waiting l)
  else conn_events src l.

(** [None] is the endless loop in [proxy_send]. *)
Definition loop_step (i : loop_input) (l : loop_state) : outcome (option loop_state) :=
  let env := in_env i in
  match lp_phase l with
  | PTop => top_step env l
  | PPoll => poll_step env (in_events i) l
  | PCommands f ready =>
      match next_command (in_self i) l with
      | Some e => if process_command f then run_event env e (take_command e l) else goto (PWorkers f ready) l
      | None => goto (PWorkers f ready) l
      end
  | PWorkers f ready =>
      match lp_ran l with
      | (tg, wid) :: rest =>
          if process_worker f then run_event env (PxRan tg wid) (l <| lp_ran := rest |>)
          else goto (PTimers f ready (in_due i)) l
      | [] => goto (PTimers f ready (in_due i)) l
      end
  | PTimers f ready due =>
      match due with
      | [] => goto (PZap f ready) l
      | t :: due => run_event env (timer_event t) (l <| lp_phase := PTimers f ready due |>)
      end
  | PZap f ready =>
      match lp_zap l with
      | frames :: rest =>
          if process_zap f then zap_step frames (l <| lp_zap := rest |>) else goto (PQueue f ready) l
      | [] => goto (PQueue f ready) l
      end
  | PQueue f ready => run_event env PxQueue (l <| lp_phase := PCollect f ready |>)
  | PCollect f ready =>
      if process_all f then ready ← collect (conn_ids (the_net l)) l; start_ring ready l
      else start_ring ready l
  | PServe queue pos end_ => serve_step env queue pos end_ l
  | PCheck [] => goto PTop l
  | PCheck (src :: todo) =>
      e ← check_events src l;
      if (e : bool) then run_event env (PxPoll true) (l <| lp_phase := PTop |>)
      else goto (PCheck todo) l
  | PEnd => Ret (Some l)
  end.

(** ** Other threads *)

Inductive arrival :=
  | ACall (c : api_call)
  | AMessage (id : Z) (parts : list message)
  | AZap (frames : list bytes)
  | ATurn (tg : bool) (wid : Z)
  | ATakeId.

(** An edge, if the socket had no input. *)
Definition signal (src : Z) (had_input : bool) (l : loop_state) : loop_state :=
  if had_input || negb (bool_decide (src ∈ lp_registered l)) then l
  else l <| lp_edges ::= ({[ src ]} ∪.) |>.

(** A worker whose turn it is sends RAN. *)
Definition has_turn (tg : bool) (wid : Z) (l : loop_state) : bool :=
  match the_thread tg wid (wthreads (px_sys (lp_px l))), the_run tg wid (the_pool l) with
  | Some t, Some _ => bool_decide (wt_status t = Running)
  | _, _ => false
  end.

Definition arrive (env : Zmq) (a : arrival) (l : loop_state) : outcome (option loop_state) :=
  match a with
  | ACall c => Ret (Some (signal EPOLL_COMMAND_ID (command_waiting l) (l <| lp_calls ::= (λ cs, cs ++ [c]) |>)))
  | AMessage id parts =>
      Ret (Some (signal id (has_message (lp_boxes l) id)
        (l <| lp_boxes ::= (λ mb, <[ id := box mb id ++ [parts] ]> mb) |>)))
  | AZap frames => Ret (Some (signal EPOLL_ZAP_ID (zap_waiting l) (l <| lp_zap ::= (λ z, z ++ [frames]) |>)))
  | ATurn tg wid =>
      run_event env (PxTurn tg wid)
        (if has_turn tg wid l then
           signal EPOLL_WORKER_ID (worker_waiting l) (l <| lp_ran ::= (λ r, r ++ [(tg, wid)]) |>)
         else l)
  | ATakeId => run_event env PxTakeId l
  end.

(** ** Reachable states *)

(** The handler a step calls. *)
Definition step_event (i : loop_input) (l : loop_state) : option proxy_event :=
  match lp_phase l with
  | PCommands f _ => if process_command f then next_command (in_self i) l else None
  | PWorkers f _ => if process_worker f then (λ w, PxRan (fst w) (snd w)) <$> head (lp_ran l) else None
  | PTimers _ _ due => timer_event <$> head due
  | PServe queue pos end_ =>
      if pos =? end_ then None
      else match queue !! pos with
           | Some (Some id) => if dangling id l then None else (λ r, PxMessage id (fst r)) <$> recv id (lp_boxes l)
           | _ => None
           end
  | _ => None
  end.

(** [epoll_wait] reports what is registered, and of the callers, the network and the
    workers, when their messages are read, what [proxy_event_ok] says. *)
Definition input_ok (i : loop_input) (l : loop_state) : Prop :=
  match lp_phase l with PPoll => Forall (.∈ lp_registered l) (in_events i) | _ => True end ∧
  match step_event i l with
  | Some e => proxy_event_ok EPHEMERAL_ROUTING_ID (in_env i) (lp_px l) e
  | None => True
  end.
Definition arrival_ok (a : arrival) : Prop :=
  match a with ATurn tg wid => (0 ≤ wid)%Z ∧ (tg = true → 0 < wid)%Z | _ => True end.

Definition loop_initial (px : proxy_state) : loop_state := mk_loop px PTop [] [] [] ∅ ∅ ∅ [].

Inductive loop_reachable : loop_state → Prop :=
  | loop_started env hw cs ob msgs conn_check px :
      run_configs (object_new hw) cs = Ret ob → configs_ok (object_new hw) cs → fits (ob_pool ob) →
      OxenMQ_start (env := env) EPHEMERAL_ROUTING_ID bt_index conn_check msgs ob = Ret (Some px) →
      loop_reachable (loop_initial px)
  | loop_stepped i l l' :
      loop_reachable l → input_ok i l → loop_step i l = Ret (Some l') → loop_reachable l'
  | loop_arrived env a l l' :
      loop_reachable l → arrival_ok a → arrive env a l = Ret (Some l') → loop_reachable l'.
End loop.

(** * The loop refines the proxy *)

Section refine.
Context {E : TaskEval} {O : Oxenc} (self : self_info) (EPH : bool) (bt_index : nat → bytes).
Context (bt_size : bytes → option Z) (using_epoll : bool).
Hypothesis tasks_return : ∀ f, eval_task f ≠ Undef.

Abbreviation pstep := (λ env, proxy_step (env := env) self EPH bt_index).
Abbreviation lp_step := (loop_step self EPH bt_index bt_size using_epoll).

(** The proxy did nothing, or one event that was allowed. *)
Definition moves (env : Zmq) (px px' : proxy_state) : Prop :=
  px' = px ∨ ∃ e, proxy_event_ok EPH env px e ∧ pstep env e px = Ret (Some px').

Lemma run_event_Some env e l l' :
  run_event self EPH bt_index env e l = Ret (Some l') →
  ∃ px, pstep env e (lp_px l) = Ret (Some px) ∧ l' = l <| lp_px := px |>.
Proof using.
  unfold run_event. destruct (proxy_step _ _ _ _ _) as [[px|]| |]; cbn; [|done..]. intros [= <-]. eauto.
Qed.

Lemma event_moves env e l l' :
  run_event self EPH bt_index env e l = Ret (Some l') → proxy_event_ok EPH env (lp_px l) e →
  moves env (lp_px l) (lp_px l').
Proof using. intros (px & Hp & ->)%run_event_Some He. right. eauto. Qed.

Lemma after_ring_same l l' : after_ring using_epoll l = Ret (Some l') → lp_px l' = lp_px l.
Proof using. unfold after_ring, goto. destruct (_ && _); by intros [= <-]. Qed.

Lemma loop_step_moves i l l' :
  loop_ends (the_pool l) = false → input_ok EPH i l → lp_step i l = Ret (Some l') →
  moves (in_env i) (lp_px l) (lp_px l').
Proof using.
  intros Hend [_ Hin] H. unfold loop_step in H. unfold step_event in Hin.
  assert (∀ ph l0, lp_px l0 = lp_px l → goto ph l0 = Ret (Some l') → moves (in_env i) (lp_px l) (lp_px l')) as Hgo.
  { intros ph l0 H0 [= <-]. by left. }
  assert (∀ e l0, run_event self EPH bt_index (in_env i) e l0 = Ret (Some l') → lp_px l0 = lp_px l →
    proxy_event_ok EPH (in_env i) (lp_px l) e → moves (in_env i) (lp_px l) (lp_px l')) as Hev.
  { intros e l0 Hr H0 He. rewrite <- H0 in *. by eapply event_moves. }
  destruct (lp_phase l) as [| |f ready|f ready|f ready due|f ready|f ready|f ready|queue pos end_|[|src todo]|].
  - unfold top_step in H. rewrite Hend in H. destruct (connections_updated _); [|by eapply Hgo].
    destruct (register_all using_epoll l) as [l1| |] eqn:Hr; [|done|done]. cbn [mbind outcome_bind] in H.
    refine (Hev _ _ H _ I). unfold register_all in Hr. repeat case_match; by simplify_eq.
  - unfold poll_step in H. destruct using_epoll; [destruct (proxy_skip_one_poll _)|].
    + exact (Hev _ _ H eq_refl I).
    + refine (Hgo _ _ _ H). done.
    + exact (Hev _ _ H eq_refl I).
  - destruct (next_command (in_self i) l) as [e|] eqn:Hn; [|by eapply Hgo].
    destruct (process_command f); [|by eapply Hgo]. refine (Hev _ _ H _ Hin). by destruct e.
  - destruct (lp_ran l) as [|[tg wid] rest]; [by eapply Hgo|]. destruct (process_worker f); [|by eapply Hgo].
    exact (Hev _ _ H eq_refl Hin).
  - destruct due as [|t due]; [by eapply Hgo|]. exact (Hev _ _ H eq_refl Hin).
  - destruct (lp_zap l) as [|frames rest]; [by eapply Hgo|]. destruct (process_zap f); [|by eapply Hgo].
    unfold zap_step in H. destruct (process_zap_request _ _ _ _); [|done|done]. cbn in H. injection H as <-. by left.
  - exact (Hev _ _ H eq_refl I).
  - destruct (process_all f); [|by eapply Hgo]. destruct (collect _ _) as [r| |]; [|done|done]. cbn in H. by eapply Hgo.
  - unfold serve_step in H. destruct (pos =? end_); [left; by eapply after_ring_same|].
    destruct (queue !! pos) as [[id|]|]; [|done|done]. destruct (dangling id l); [done|].
    destruct (recv id (lp_boxes l)) as [[parts mb]|]; [|by eapply Hgo]. destruct (_ <=? end_); [done|].
    destruct (bool_decide (parts = [])); [injection H as <-; by left|].
    destruct (run_event _ _ _ _ _ _) as [[l1|]| |] eqn:Hr; [|done..]. cbn [mbind outcome_bind] in H.
    assert (moves (in_env i) (lp_px l) (lp_px l1)) as Hm.
    { apply run_event_Some in Hr as (px & Hp & ->). right. exists (PxMessage id parts). split; [exact Hin|exact Hp]. }
    destruct (connections_updated _); [by rewrite (after_ring_same _ _ H)|by injection H as <-].
  - by eapply Hgo.
  - destruct (check_events src l) as [[]| |]; [|by eapply Hgo|done|done]. cbn [mbind outcome_bind] in H. exact (Hev _ _ H eq_refl I).
  - injection H as <-. by left.
Qed.

Lemma arrive_moves env a l l' :
  arrival_ok a → arrive self EPH bt_index env a l = Ret (Some l') → moves env (lp_px l) (lp_px l').
Proof using.
  intros Ha H. assert (∀ src b l0, lp_px (signal src b l0) = lp_px l0) as Hs.
  { intros src b l0. unfold signal. by destruct (_ || _). }
  destruct a as [c|id parts|frames|tg wid|]; cbn [arrive] in H.
  - injection H as <-. left. by rewrite Hs.
  - injection H as <-. left. by rewrite Hs.
  - injection H as <-. left. by rewrite Hs.
  - apply run_event_Some in H as (px & Hp & ->). right. exists (PxTurn tg wid). split; [exact Ha|].
    destruct (has_turn tg wid l); [by rewrite Hs in Hp|exact Hp].
  - apply run_event_Some in H as (px & Hp & ->). right. by exists PxTakeId.
Qed.

Lemma moves_reachable env px px' :
  proxy_reachable self EPH bt_index px → moves env px px' → proxy_reachable self EPH bt_index px'.
Proof using. intros Hr [->|(e & He & Hs)]; [done|]. by eapply px_step. Qed.

Lemma not_ended px : proxy_reachable self EPH bt_index px → loop_ends (proxy (px_sys px)) = false.
Proof using tasks_return.
  intros Hr. pose proof (pi_sys _ _ (proxy_reachable_inv self EPH bt_index tasks_return px Hr)) as Hs.
  destruct (reachable_ok tasks_return _ Hs) as [Hg _]. pose proof (max_pos _ (g_pool _ _ _ Hg)).
  unfold loop_ends. by rewrite (proj2 (Z.eqb_neq _ _)) by lia.
Qed.

Lemma loop_proxy l :
  loop_reachable self EPH bt_index bt_size using_epoll l → proxy_reachable self EPH bt_index (lp_px l).
Proof using tasks_return.
  induction 1 as [env hw cs ob msgs cc px H1 H2 H3 H4|i l l' _ IH Hin H|env a l l' _ IH Ha H].
  - by eapply px_start.
  - eapply moves_reachable; [done|]. eapply loop_step_moves; [by apply not_ended|done|done].
  - eapply moves_reachable; [done|]. by eapply arrive_moves.
Qed.

(** ** New connections are announced to the loop *)

Lemma settle_net fs st st' : settle fs st = Ret st' → px_net st' = px_net st.
Proof using.
  revert st. induction fs as [|[[] f] fs IH]; intros st H; cbn [settle] in H; [by injection H as <-| |].
  - unfold lift_sys in H. destruct (step _ _) as [s| |]; [|done|done]. cbn in H. by apply IH in H.
  - by apply IH in H.
Qed.
Lemma announces_after n0 n st st' : announces n0 n → after_net n st = Ret st' → announces n0 (px_net st').
Proof using.
  intros Ha H. unfold after_net in H. apply settle_net in H as ->. etrans; [exact Ha|]. by apply nf_other.
Qed.
Lemma announces_lift e st st' :
  done_with (lift_sys e st) = Ret (Some st') → announces (px_net st) (px_net st').
Proof using.
  unfold done_with, lift_sys. destruct (step _ _) as [s| |]; cbn; [|done|done]. by intros [= <-].
Qed.
Lemma announces_done n0 n st st' :
  announces n0 n → done_with (after_net n st) = Ret (Some st') → announces n0 (px_net st').
Proof using.
  intros Ha. unfold done_with. destruct (after_net n st) as [s| |] eqn:Hs; [|done|done]. cbn. intros [= <-].
  by eapply announces_after.
Qed.
Lemma announces_handler r st st' :
  (∀ n, r = Ret n → announces (px_net st) n) → net_handler r st = Ret (Some st') → announces (px_net st) (px_net st').
Proof using.
  intros Hr. unfold net_handler. destruct r as [n| |]; [|done|done]. cbn [mbind outcome_bind].
  apply announces_done. by apply Hr.
Qed.

Lemma announces_reply {env : Zmq} c n n' : proxy_reply c n = Ret n' → announces n n'.
Proof using.
  unfold proxy_reply. generalize 0, (equal_range (fst c) (peers n)). intros i rest.
  revert i n. remember (length rest) as k eqn:Hk. assert (length rest ≤ k) as Hle by lia. clear Hk. revert rest Hle.
  induction k as [|k IH]; intros [|[x peer] rest] Hle i n H; cbn in Hle; [by injection H as <-|lia|by injection H as <-|].
  cbn [reply_loop] in H. set (m := connections_at (peer_conn_id peer) n) in *.
  assert (announces n m) as Hm by apply nf_at.
  pose proof (frame_send_on announces (peer_conn_id peer) (build_send_parts (snd c) (peer_route peer)) m) as Hs.
  destruct (send_on _ _ _) as [n2 r]. cbn [fst] in Hs.
  assert (announces n n2) as Hn by (by transitivity m). destruct r as [| |e]; [by injection H as <-|by injection H as <-|].
  destruct (e =? EHOSTUNREACH)%Z; [|etrans; [exact Hn|]; eapply IH; [|exact H]; lia].
  destruct (outgoing peer).
  - inv_bind H. apply (closing_Ret _ _ _ _ (close_closing _ _)) in E0 as ->.
    destruct rest as [|y rest]; [done|]. cbn in Hle. etrans; [exact Hn|].
    etrans; [apply (nf_close (peer_conn_id peer))|]. etrans; [|eapply IH; [|exact H]; lia]. by apply nf_other.
  - etrans; [exact Hn|]. etrans; [|eapply IH; [|exact H]; lia]. by apply nf_other.
Qed.

Lemma announces_bind {env : Zmq} b f st st' :
  control_BIND bt_index b f st = Ret (Some st') → announces (px_net st) (px_net st').
Proof using.
  unfold control_BIND, bind_listener. destruct (proxy_bind _ _ _) as [[[n id] called]| |] eqn:Hp; [|done|done].
  pose proof (frame_bind announces _ _ _ _ _ _ Hp) as Ha. cbn [mbind outcome_bind]. destruct id as [id|]; by apply announces_done.
Qed.

Lemma announces_control {env : Zmq} c st st' :
  proxy_control_message EPH bt_index c st = Ret (Some st') → announces (px_net st) (px_net st').
Proof using.
  destruct c as [cmd [data|]]; cbn [proxy_control_message].
  2: { destruct (bool_decide _); [by intros [= <-]|]. destruct (bool_decide _); [apply announces_lift|done]. }
  unfold control_with_data.
  destruct (bool_decide _).
  { destruct data as [d| | | | | | |]; try done. unfold control_SEND. destruct (parse_send d) as [c| |]; [|done|done].
    cbn [mbind outcome_bind]. destruct (proxy_send c (px_net st)) as [[n|]| |] eqn:Hs; [|done..]. cbn [mbind outcome_bind].
    apply announces_done. by eapply frame_send; [apply _|]. }
  destruct (bool_decide _).
  { destruct data as [d| | | | | | |]; try done. unfold control_REPLY. destruct (parse_reply d) as [c| |]; [|done|done].
    cbn [mbind outcome_bind]. apply announces_handler. intros n. apply announces_reply. }
  destruct (bool_decide _); [destruct data; try done; apply announces_lift|].
  destruct (bool_decide _); [destruct data; try done; apply announces_lift|].
  destruct (bool_decide _).
  { destruct data as [| | |pks| | | |]; try done. apply announces_handler. intros n. apply announces_set_sns. }
  destruct (bool_decide _).
  { destruct data as [| | | |a r| | |]; try done. apply announces_handler. intros n. apply announces_update_sns. }
  destruct (bool_decide _).
  { destruct data as [d| | | | | | |]; try done. unfold control_CONNECT_SN. destruct (parse_connect_sn _ d) as [c| |]; [|done|done].
    cbn [mbind outcome_bind]. apply announces_handler. intros n Hn. unfold net_of in Hn.
    destruct (proxy_connect_sn _ _ _ _ _ _ _) as [[n1 r]| |] eqn:Hc; [|done|done]. cbn in Hn. injection Hn as <-.
    by eapply frame_connect_sn; [apply _|]. }
  destruct (bool_decide _).
  { destruct data as [d| | | | | | |]; try done. unfold control_CONNECT_REMOTE.
    destruct (parse_connect_remote _ d) as [c| |]; [|done|done]. cbn [mbind outcome_bind]. apply announces_handler.
    intros n. apply frame_connect_remote, _. }
  destruct (bool_decide _).
  { destruct data as [d| | | | | | |]; try done. unfold control_DISCONNECT. destruct (parse_disconnect d) as [c| |]; [|done|done].
    cbn [mbind outcome_bind]. apply announces_handler. intros n. apply frame_disconnect, _. }
  destruct (bool_decide _); [destruct data; try done; destruct (_ <? 0)%Z; [done|apply announces_lift]|].
  destruct (bool_decide _); [destruct data; try done; apply announces_lift|].
  destruct (bool_decide _); [destruct data; try done; apply announces_bind|done].
Qed.

Lemma announces_step env e px px' :
  e ≠ PxRebuild → pstep env e px = Ret (Some px') → announces (px_net px) (px_net px').
Proof using.
  intros Hne H. destruct e as [|c| |id parts| |t| |tg wid|tg wid|skip|]; cbn [proxy_step] in H;
    [..|done]; try (by eapply announces_lift).
  - injection H as <-. by apply nf_other.
  - apply announces_control in H. unfold arrives in H. by destruct (connecting_id c).
  - destruct (px_control px); [by injection H as <-|]. by apply announces_control in H.
  - unfold done_with, handle_message in H. destruct (proxy_message _ _ _ _ _) as [[n p]| |] eqn:Hm; [|done|done].
    cbn [mbind outcome_bind fst snd] in H. destruct (on_proxy _ _) as [s| |]; [|done|done]. cbn [mbind outcome_bind] in H.
    destruct (after_net _ _) as [st| |] eqn:Ha; [|done|done]. cbn in H. injection H as <-.
    eapply announces_after; [|exact Ha]. by eapply frame_message; [apply _|].
  - revert H. apply announces_handler. intros n. apply frame_cleanup, _.
Qed.

(** ** Edges *)

(** The open sockets, and whether one has input. *)
Definition source (l : loop_state) (src : Z) : Prop :=
  src ∈ internal_ids ∨ ∃ k, connections (the_net l) !! src = Some k ∧ k ≠ NullSocket.
Definition has_input (l : loop_state) (src : Z) : Prop := check_events src l = Ret true.
(** Input that was not seen will be reported, or is about to be looked for. *)
Definition edges_cover (todo : list Z) (l : loop_state) : Prop :=
  ∀ src, source l src → has_input l src → src ∈ lp_edges l ∨ src ∈ todo.

Definition registered_ok (l : loop_state) : Prop :=
  connections_updated (the_net l) = false → ∀ src, src ∈ lp_registered l ↔ source l src.
Definition no_wait (l : loop_state) : Prop := proxy_skip_one_poll (the_pool l) = true.
Definition edges_ok (l : loop_state) : Prop :=
  match lp_phase l with
  | PTop => connections_updated (the_net l) = true ∨ no_wait l ∨ edges_cover [] l
  | PPoll => connections_updated (the_net l) = false ∧ (no_wait l ∨ edges_cover [] l)
  | PCheck todo => connections_updated (the_net l) = false ∧ edges_cover todo l
  | _ => True
  end.

Lemma announces_source l l' src :
  announces (the_net l) (the_net l') → connections_updated (the_net l') = false → source l' src ↔ source l src.
Proof using.
  intros [_ Hn Ho] Hu. unfold source. split; (intros [?|(k & Hk & Hne)]; [by left|right; exists k; eauto]).
Qed.

Lemma registered_announces l l' :
  registered_ok l → lp_registered l' = lp_registered l → announces (the_net l) (the_net l') → registered_ok l'.
Proof using.
  intros H Hr Ha Hu src. rewrite Hr, (announces_source l l') by done. apply H.
  destruct (connections_updated (the_net l)) eqn:E0; [|done]. by rewrite (an_kept _ _ Ha E0) in Hu.
Qed.

(** The phases in which nothing is said of the edges. *)
Definition busy_phase (ph : phase) : Prop := match ph with PTop | PPoll | PCheck _ => False | _ => True end.
Lemma busy_edges l : busy_phase (lp_phase l) → edges_ok l.
Proof using. unfold edges_ok. by destruct (lp_phase l). Qed.

Lemma run_event_frame env e l l' :
  run_event self EPH bt_index env e l = Ret (Some l') → e ≠ PxRebuild →
  l' = l <| lp_px := lp_px l' |> ∧ announces (the_net l) (the_net l').
Proof using. intros (px & Hp & ->)%run_event_Some He. split; [done|]. by eapply announces_step. Qed.

(** A handler that runs in a phase of the middle of the loop. *)
Lemma busy_event env e l l' :
  run_event self EPH bt_index env e l = Ret (Some l') → e ≠ PxRebuild → busy_phase (lp_phase l) →
  registered_ok l → registered_ok l' ∧ edges_ok l'.
Proof using.
  intros H He Hb Hr. destruct (run_event_frame _ _ _ _ H He) as [Hl Ha]. split.
  - eapply registered_announces; [exact Hr| |exact Ha]. by rewrite Hl.
  - apply busy_edges. rewrite Hl. exact Hb.
Qed.
Lemma busy_goto ph l l' :
  goto ph l = Ret (Some l') → busy_phase ph → registered_ok l → registered_ok l' ∧ edges_ok l'.
Proof using. intros [= <-] Hb Hr. split; [exact Hr|]. by apply busy_edges. Qed.

Lemma after_ring_edges l l' :
  after_ring using_epoll l = Ret (Some l') → using_epoll = true → registered_ok l → registered_ok l' ∧ edges_ok l'.
Proof using.
  intros H He Hr. unfold after_ring in H. rewrite He in H. cbn [andb] in H.
  destruct (connections_updated (the_net l)) eqn:Hu; cbn [andb negb] in H;
    [|destruct (proxy_skip_one_poll (the_pool l)) eqn:Hs; cbn [andb negb] in H]; injection H as <-; (split; [exact Hr|]).
  - by left.
  - right. by left.
  - split; [exact Hu|]. intros src Hsrc _. right. change (src ∈ internal_ids ++ conn_ids (the_net l)).
    apply elem_of_app. destruct Hsrc as [?|(k & Hk & _)]; [by left|right].
    unfold conn_ids. rewrite merge_sort_Permutation. by apply elem_of_elements, elem_of_dom_2 with k.
Qed.

Lemma register_all_edges l l1 l' env :
  using_epoll = true → register_all using_epoll l = Ret l1 →
  run_event self EPH bt_index env PxRebuild (l1 <| lp_phase := PPoll |>) = Ret (Some l') →
  registered_ok l' ∧ edges_ok l'.
Proof using.
  intros He Hr H. apply run_event_Some in H as (px & Hp & ->). unfold register_all in Hr. rewrite He in Hr.
  case_bool_decide as Hex; [done|]. injection Hr as <-. cbn in Hp. injection Hp as <-. split.
  - intros _ src. change (src ∈ (list_to_set internal_ids ∪ dom (connections (the_net l)) : gset Z) ↔ source l src).
    rewrite elem_of_union, elem_of_list_to_set, elem_of_dom. unfold source.
    apply or_iff_compat_l. split; [|by intros (k & -> & _)]. intros [k Hk]. exists k. split; [done|]. intros ->.
    apply Hex, Exists_exists. exists src. split; [|done]. unfold conn_ids. rewrite merge_sort_Permutation.
    by apply elem_of_elements, elem_of_dom_2 with NullSocket.
  - by split; [|left].
Qed.

Lemma check_edges src todo l :
  edges_cover (src :: todo) l → check_events src l = Ret false → edges_cover todo l.
Proof using.
  intros H Hc x Hx Hi. destruct (H x Hx Hi) as [?|[->|?]%elem_of_cons]; [by left| |by right].
  unfold has_input in Hi. congruence.
Qed.

Lemma loop_step_edges i l l' :
  using_epoll = true → loop_ends (the_pool l) = false → lp_step i l = Ret (Some l') →
  registered_ok l → edges_ok l → registered_ok l' ∧ edges_ok l'.
Proof using.
  intros Hep Hend H Hr He. unfold loop_step in H. unfold edges_ok in He.
  destruct (lp_phase l) as [| |f ready|f ready|f ready due|f ready|f ready|f ready|queue pos end_|[|src todo]|] eqn:Hph.
  - unfold top_step in H. rewrite Hend in H. destruct (connections_updated _) eqn:Hu.
    + destruct (register_all using_epoll l) as [l1| |] eqn:Hra; [|done|done]. exact (register_all_edges l l1 l' (in_env i) Hep Hra H).
    + injection H as <-. split; [exact Hr|]. split; [done|]. destruct He as [?|?]; [congruence|done].
  - unfold poll_step in H. rewrite Hep in H. destruct (proxy_skip_one_poll _).
    + by eapply busy_event.
    + by eapply busy_goto.
  - destruct (next_command (in_self i) l) as [e|] eqn:Hn; [|by eapply busy_goto].
    destruct (process_command f); [|by eapply busy_goto]. eapply busy_event; [exact H| | |].
    + unfold next_command in Hn. repeat case_match; by simplify_eq.
    + destruct e; cbn; by rewrite Hph.
    + by destruct e.
  - destruct (lp_ran l) as [|[tg wid] rest]; [by eapply busy_goto|]. destruct (process_worker f); [|by eapply busy_goto].
    eapply busy_event; [exact H|done| |done]. cbn. by rewrite Hph.
  - destruct due as [|t due]; [by eapply busy_goto|]. eapply busy_event; [exact H| |done|done]. by destruct t.
  - destruct (lp_zap l) as [|frames rest]; [by eapply busy_goto|]. destruct (process_zap f); [|by eapply busy_goto].
    unfold zap_step in H. destruct (process_zap_request _ _ _ _); [|done|done]. cbn in H. injection H as <-.
    split; [exact Hr|]. apply busy_edges. cbn. by rewrite Hph.
  - by eapply busy_event.
  - destruct (process_all f); [|by eapply busy_goto]. destruct (collect _ _) as [r| |]; [|done|done]. cbn in H. by eapply busy_goto.
  - unfold serve_step in H. destruct (pos =? end_); [by eapply after_ring_edges|].
    destruct (queue !! pos) as [[id|]|]; [|done|done]. destruct (dangling id l); [done|].
    destruct (recv id (lp_boxes l)) as [[parts mb]|]; [|by eapply busy_goto]. destruct (_ <=? end_); [done|].
    destruct (bool_decide (parts = [])); [injection H as <-; split; [exact Hr|by apply busy_edges]|].
    destruct (run_event _ _ _ _ _ _) as [[l1|]| |] eqn:He1; [|done..]. cbn [mbind outcome_bind] in H.
    destruct (busy_event _ _ _ _ He1) as [H1 H2]; [done|exact I|exact Hr|].
    destruct (connections_updated _); [by eapply after_ring_edges|by injection H as <-].
  - injection H as <-. split; [exact Hr|]. right. right. exact (proj2 He).
  - destruct (check_events src l) as [[]| |] eqn:Hc; [| |done|done]; cbn [mbind outcome_bind] in H.
    + destruct (run_event_frame _ _ _ _ H) as [Hl Ha]; [done|]. split.
      * eapply registered_announces; [exact Hr| |exact Ha]. by rewrite Hl.
      * apply run_event_Some in H as (px & Hp & ->). cbn in Hp. injection Hp as <-. right. by left.
    + injection H as <-. split; [exact Hr|]. split; [exact (proj1 He)|]. by eapply check_edges; [exact (proj2 He)|].
  - injection H as <-. split; [exact Hr|]. by apply busy_edges; rewrite Hph.
Qed.

(** Input arrives: [l1] is [l] with more input on [src]. *)
Record more_input (src : Z) (had : bool) (l l1 : loop_state) : Prop := {
  mi_px : lp_px l1 = lp_px l;
  mi_phase : lp_phase l1 = lp_phase l;
  mi_registered : lp_registered l1 = lp_registered l;
  mi_edges : lp_edges l1 = lp_edges l;
  mi_input x : has_input l1 x → has_input l x ∨ x = src ∧ had = false;
}.

Lemma signal_edges src had l l1 :
  more_input src had l l1 → registered_ok l → edges_ok l →
  registered_ok (signal src had l1) ∧ edges_ok (signal src had l1).
Proof using.
  clear tasks_return. intros [Hpx Hph Hreg Hed Hin] Hr He. assert (the_net l1 = the_net l) as Hn by (unfold the_net; by rewrite Hpx).
  set (l2 := signal src had l1). assert (the_net l2 = the_net l) as Hn2.
  { rewrite <- Hn. subst l2. unfold signal. by destruct (_ || _). }
  assert (the_pool l2 = the_pool l ∧ lp_phase l2 = lp_phase l ∧ lp_registered l2 = lp_registered l) as (Hp2 & Hph2 & Hr2).
  { subst l2. unfold signal, the_pool. destruct (_ || _); cbn; by rewrite ?Hpx, ?Hph, ?Hreg. }
  assert (∀ todo, connections_updated (the_net l) = false → edges_cover todo l → edges_cover todo l2) as Hc.
  { intros todo Hu Hcov x Hx Hi. assert (source l x) as Hxl by (unfold source in *; by rewrite Hn2 in Hx).
    assert (has_input l1 x) as Hi1 by (subst l2; revert Hi; unfold signal; by destruct (_ || _)).
    assert (lp_edges l ⊆ lp_edges l2) as Hsub.
    { subst l2. unfold signal. rewrite <- Hed. destruct (_ || _); cbn; set_solver. }
    destruct (Hin x Hi1) as [Hl|[-> ->]]; [destruct (Hcov x Hxl Hl); [left; by apply Hsub|by right]|].
    left. subst l2. unfold signal. rewrite Hreg, bool_decide_true by (by apply Hr). cbn. set_solver. }
  split; [intros Hu x; rewrite Hn2 in Hu; rewrite Hr2; unfold source; rewrite Hn2; by apply Hr|].
  unfold edges_ok, no_wait in *. rewrite Hph2, Hn2, Hp2.
  destruct (connections_updated (the_net l)) eqn:Hu; destruct (lp_phase l); try done; try (by left); naive_solver.
Qed.

(** An event of another thread that leaves the connections, the polling flag and the
    proxy's messages to itself alone. *)
Lemma inert_edges px l :
  px_net px = px_net (lp_px l) ∨ px_net px = px_net (take_id (lp_px l)) →
  proxy_skip_one_poll (Threads.proxy (px_sys px)) = proxy_skip_one_poll (the_pool l) →
  px_control px = px_control (lp_px l) → registered_ok l → edges_ok l →
  registered_ok (l <| lp_px := px |>) ∧ edges_ok (l <| lp_px := px |>).
Proof using.
  clear tasks_return. intros Hn Hs Hc Hr He. assert (connections (px_net px) = connections (the_net l) ∧
    connections_updated (px_net px) = connections_updated (the_net l)) as [Hn1 Hn2] by (destruct Hn as [-> | ->]; done).
  assert (∀ src, source (l <| lp_px := px |>) src ↔ source l src) as Hsrc.
  { intros src. unfold source, the_net. cbn. by rewrite Hn1. }
  assert (∀ src, has_input (l <| lp_px := px |>) src ↔ has_input l src) as Hi.
  { intros src. unfold has_input, check_events, command_waiting, conn_events, the_net. cbn. by rewrite Hn1, Hc. }
  assert (∀ todo, edges_cover todo l → edges_cover todo (l <| lp_px := px |>)) as Hcov.
  { intros todo H src Hx%Hsrc Hy%Hi. by apply H. }
  split; [intros Hu src; rewrite Hsrc; apply Hr; by rewrite <- Hn2|].
  unfold edges_ok, no_wait, the_net, the_pool in *. cbn. rewrite Hn2, Hs. destruct (lp_phase l); naive_solver.
Qed.

Lemma turn_skip tg wid s s' : turn tg wid s = Ret s' →
  proxy_skip_one_poll (Threads.proxy s') = proxy_skip_one_poll (Threads.proxy s).
Proof using.
  unfold turn. destruct (the_thread _ _ _); [|by intros [= <-]]. destruct (the_run _ _ _) as [run|]; [|by intros [= <-]].
  destruct (decide _); [|by intros [= <-]]. destruct (worker_turn _ _ _) as [[p j]| |] eqn:Hw; [|done|done].
  cbn [mbind outcome_bind]. intros [= <-]. cbn. by apply turn_queues in Hw as (_ & _ & ?).
Qed.

Lemma app_waiting {A} (l : list A) x : negb (bool_decide (l ++ [x] = [])) = true.
Proof using. clear. rewrite bool_decide_false; [done|]. by destruct l. Qed.

Lemma arrive_edges env a l l' :
  arrive self EPH bt_index env a l = Ret (Some l') → registered_ok l → edges_ok l → registered_ok l' ∧ edges_ok l'.
Proof using.
  intros H Hr He. destruct a as [c|id parts|frames|tg wid|]; cbn [arrive] in H.
  - injection H as <-. eapply signal_edges; [|exact Hr|exact He]. split; try done. intros x. unfold has_input, check_events.
    destruct (Z.eqb_spec x EPOLL_COMMAND_ID) as [->|]; [|by left]. destruct (command_waiting l); auto.
  - injection H as <-. eapply signal_edges; [|exact Hr|exact He]. split; try done. intros x. unfold has_input, check_events.
    do 3 (destruct (_ =? _)%Z; [by left|]). unfold conn_events. change (the_net (l <| lp_boxes ::= _ |>)) with (the_net l).
    destruct (bool_decide _); [by left|]. destruct (decide (x = id)) as [->|Hne].
    + destruct (has_message (lp_boxes l) id); auto.
    + unfold has_message, box. cbn. rewrite lookup_insert_ne by done. by left.
  - injection H as <-. eapply signal_edges; [|exact Hr|exact He]. split; try done. intros x. unfold has_input, check_events.
    do 2 (destruct (_ =? _)%Z; [by left|]).
    destruct (Z.eqb_spec x EPOLL_ZAP_ID) as [->|]; [|by left]. destruct (zap_waiting l); auto.
  - set (l1 := if has_turn tg wid l then _ else l) in H. assert (registered_ok l1 ∧ edges_ok l1) as [Hr1 He1].
    { subst l1. destruct (has_turn tg wid l); [|by split]. eapply signal_edges; [|exact Hr|exact He]. split; try done.
      intros x. unfold has_input, check_events. destruct (_ =? _)%Z; [by left|].
      destruct (Z.eqb_spec x EPOLL_WORKER_ID) as [->|]; [|by left]. destruct (worker_waiting l); auto. }
    apply run_event_Some in H as (px & Hp & ->). cbn [proxy_step] in Hp. unfold done_with, lift_sys in Hp.
    destruct (step _ _) as [s| |] eqn:Hst; [|done|done]. cbn in Hp. injection Hp as <-. cbn [step] in Hst.
    apply inert_edges; [by left|by eapply turn_skip|done|done|done].
  - apply run_event_Some in H as (px & Hp & ->). cbn in Hp. injection Hp as <-.
    apply inert_edges; [by right|done|done|done|done].
Qed.

Lemma start_updated {env : Zmq} conn_check msgs ob px :
  OxenMQ_start EPH bt_index conn_check msgs ob = Ret (Some px) → connections_updated (px_net px) = true.
Proof using.
  unfold OxenMQ_start. destruct (proxy_loop_init _ _ _ _) as [[st|]| |] eqn:Hi; [|done..]. cbn [mbind outcome_bind].
  intros H. assert (connections_updated (px_net st) = true) as Hu.
  { unfold proxy_loop_init in Hi. inv_bind Hi. inv_bind Hi. inv_bind Hi. destruct (_ =? _)%Z; [done|].
    destruct (wait_tagged _ _); [|done]. by injection Hi as <-. }
  cbn [proxy_control_message] in H. rewrite bool_decide_true in H by done. cbn [mbind outcome_bind] in H.
  destruct (bool_decide _); [|done]. by injection H as <-.
Qed.

Lemma loop_edges l :
  using_epoll = true → loop_reachable self EPH bt_index bt_size using_epoll l → registered_ok l ∧ edges_ok l.
Proof using tasks_return.
  intros Hep. induction 1 as [env hw cs ob msgs cc px H1 H2 H3 H4|i l l' Hl [IH1 IH2] Hin H|env a l l' _ [IH1 IH2] Ha H].
  - apply start_updated in H4. split; [|by left]. intros Hu. unfold the_net in Hu. cbn in Hu. congruence.
  - eapply loop_step_edges; [done| |exact H|done|done]. by apply not_ended, loop_proxy.
  - by eapply arrive_edges.
Qed.

(** ** The queue of sockets *)







Lemma conn_ids_elem n id : id ∈ conn_ids n ↔ is_Some (connections n !! id).
Proof using. clear. unfold conn_ids. rewrite merge_sort_Permutation, elem_of_elements. apply elem_of_dom. Qed.







(** ** Failures *)









Hypothesis bt_size_range : ∀ s n, bt_size s = Some n → (0 ≤ n ≤ SIZE_MAX)%Z.





(** ** Theorems *)

(** C8: the proxy thread never sleeps on input it has not read.  Whatever the
    interleaving of the loop with the other threads, when the loop is about to call
    [epoll_wait] (and does not skip it) exactly the open sockets are registered, and
    for every one of them that has input (a control message, a RAN message of a
    worker, an authentication request, a message of a peer) an edge is still to be
    reported, so the call returns at once. *)
Theorem no_lost_wakeup l :
  loop_reachable self EPH bt_index bt_size using_epoll l → using_epoll = true →
  lp_phase l = PPoll → proxy_skip_one_poll (the_pool l) = false →
  (∀ src, src ∈ lp_registered l ↔ source l src) ∧
  (command_waiting l = true → EPOLL_COMMAND_ID ∈ lp_edges l) ∧
  (worker_waiting l = true → EPOLL_WORKER_ID ∈ lp_edges l) ∧
  (zap_waiting l = true → EPOLL_ZAP_ID ∈ lp_edges l) ∧
  (∀ id k, connections (the_net l) !! id = Some k → k ≠ NullSocket → id ∉ internal_ids →
     has_message (lp_boxes l) id = true → id ∈ lp_edges l).
Proof using tasks_return.
  intros Hl Hep Hph Hs. destruct (loop_edges l Hep Hl) as [Hr He]. unfold edges_ok in He. rewrite Hph in He.
  destruct He as (Hu & [He|He]); [unfold no_wait in He; congruence|]. split; [by apply Hr|].
  assert (∀ src, source l src → has_input l src → src ∈ lp_edges l) as Hc.
  { intros src H1 H2. destruct (He src H1 H2) as [?|H3]; [done|]. by apply elem_of_nil in H3. }
  unfold has_input, check_events in Hc. split_and!.
  - intros H. apply Hc; [left; by constructor|]. by rewrite Z.eqb_refl, H.
  - intros H. apply Hc; [left; by repeat constructor|]. cbn. by rewrite H.
  - intros H. apply Hc; [left; by repeat constructor|]. cbn. by rewrite H.
  - intros id k Hk Hne Hid H. apply Hc; [right; by exists k|].
    do 3 (rewrite (proj2 (Z.eqb_neq _ _)) by (intros ->; apply Hid; by repeat constructor)).
    unfold conn_events. by rewrite bool_decide_false, H by congruence.
Qed.

End refine.

(** * Runs *)

Section runs.
Context {E : TaskEval} {O : Oxenc} (self : self_info) (EPH : bool) (bt_index : nat → bytes).
Context (bt_size : bytes → option Z) (using_epoll : bool).

(** A step of the loop, or something another thread does. *)
Abbreviation action := (loop_input + Zmq * arrival)%type.
Definition act (a : action) (l : loop_state) : outcome (option loop_state) :=
  match a with
  | inl i => loop_step self EPH bt_index bt_size using_epoll i l
  | inr (env, a) => arrive self EPH bt_index env a l
  end.
Definition action_ok (a : action) (l : loop_state) : Prop :=
  match a with inl i => input_ok EPH i l | inr (_, a) => arrival_ok a end.

Fixpoint run_loop (acts : list action) (l : loop_state) : outcome (option loop_state) :=
  match acts with
  | [] => Ret (Some l)
  | a :: acts =>
      o ← act a l;
      match (o : option loop_state) with Some l => run_loop acts l | None => Ret None end
  end.
Fixpoint run_ok (acts : list action) (l : loop_state) : Prop :=
  match acts with
  | [] => True
  | a :: acts => action_ok a l ∧ match act a l with Ret (Some l) => run_ok acts l | _ => True end
  end.

Lemma run_loop_reachable acts l l' :
  loop_reachable self EPH bt_index bt_size using_epoll l → run_ok acts l → run_loop acts l = Ret (Some l') →
  loop_reachable self EPH bt_index bt_size using_epoll l'.
Proof.
  revert l. induction acts as [|a acts IH]; intros l Hl Hok H; cbn [run_loop run_ok] in *; [by injection H as <-|].
  destruct Hok as [Ha Hok]. destruct (act a l) as [[l1|]| |] eqn:Hs; [|done..]. eapply IH; [|exact Hok|exact H].
  destruct a as [i|[env a]]; [by eapply loop_stepped|by eapply loop_arrived].
Qed.

Hypothesis tasks_return : ∀ f, eval_task f ≠ Undef.
Abbreviation lp_reach := (loop_reachable self EPH bt_index bt_size using_epoll).
Abbreviation lp_step := (loop_step self EPH bt_index bt_size using_epoll).

(** ** A connection closed between [epoll_wait] and its turn *)





(** ** BYE *)

Abbreviation px_reach := (proxy_reachable self EPH bt_index).

Lemma after_net_net n st st' : after_net n st = Ret st' → px_net st' = n <| scheduled := [] |>.
Proof using. clear. unfold after_net. by intros ->%settle_net. Qed.

(** The event returns, if it is neither a restricted send nor one of the exceptions. *)
Lemma event_returns {env : Zmq} e px :
  px_reach px → proxy_event_ok EPH env px e → ¬ incoming_only e → (∀ x, ¬ escapes env px e x) → ¬ bad_metadata px e →
  ∃ px', proxy_step self EPH bt_index e px = Ret (Some px').
Proof using tasks_return.
  intros Hr He Hi Hx Hbad.
  destruct (step_handled self EPH bt_index tasks_return e px (proxy_reachable_inv self EPH bt_index tasks_return _ Hr) He)
    as [[([px'|] & Ho & _ & Hn)|(x & _ & ?)]|[_ ?]]; [by exists px'| |by destruct (Hx x)|done]. by destruct (Hi (Hn eq_refl)).
Qed.

Lemma bye_step {env : Zmq} px id parts args :
  px_reach px → connections (px_net px) !! id = Some Dealer → Auth.msg_data <$> parts = B "BYE" :: args →
  ∃ px', proxy_step self EPH bt_index (PxMessage id parts) px = Ret (Some px') ∧
    peers (px_net px') = peers (px_net px) ∧ connections (px_net px') !! id = None.
Proof using tasks_return.
  intros Hr Hc Hd. destruct (event_returns (PxMessage id parts) px Hr) as (px' & Hs).
  - cbn. by rewrite Hc.
  - by intros [].
  - intros x [[[] _]|[(? & ? & ? & ? & _)|(id' & parts' & [= -> ->] & Hno)]]; [done|].
    by destruct Hno as [Hno|Hno]; rewrite Hc in Hno.
  - intros (id' & parts' & [= <- <-] & Hr' & _). by rewrite Hc in Hr'.
  - exists px'. split; [done|]. cbn [proxy_step] in Hs. unfold done_with, handle_message, proxy_message in Hs.
    rewrite Hc in Hs. rewrite (bool_decide_false (parts = [])) in Hs by (by intros ->).
    rewrite (bool_decide_false (Some Dealer = Some Router)) in Hs by done. rewrite Hd, (bye_closes id args (px_net px) Hc) in Hs.
    cbn [mbind outcome_bind fst snd] in Hs. destruct (on_proxy _ _) as [s| |]; [|done|done]. cbn [mbind outcome_bind] in Hs.
    destruct (after_net _ _) as [st| |] eqn:Ha; [|done|done]. cbn in Hs. injection Hs as <-.
    apply after_net_net in Ha. rewrite Ha. destruct (drop_connection_frame id (px_net px)) as (H1 & _ & H3).
    cbn. rewrite H1, H3. split; [done|apply lookup_delete_eq].
Qed.

(** The meaning of a [connect_sn] call. *)
Definition connect_meaning (pk : bytes) (options : list connect_option) : connect_sn_command :=
  foldl connect_sn_effect (mk_connect_sn pk [] false false false EPH (DEFAULT_CONNECT_SN_KEEP_ALIVE * 1000)) options.

Lemma dead_connect_step {env : Zmq} px pk options p :
  px_reach px → proxy_event_ok EPH env px (PxCall (AConnectSn pk options)) →
  chosen pk (cs_incoming (connect_meaning pk options)) (cs_outgoing (connect_meaning pk options)) (px_net px) p →
  connections (px_net px) !! peer_conn_id p = None →
  ∃ px', proxy_step self EPH bt_index (PxCall (AConnectSn pk options)) px = Ret (Some px') ∧
    connections (px_net px') = <[ peer_conn_id p := NullSocket ]> (connections (px_net px)).
Proof using tasks_return.
  intros Hr He Hch Hgone. destruct (event_returns (PxCall (AConnectSn pk options)) px Hr He) as (px' & Hs); [by intros []| | |].
  { intros x [[[] _]|[(? & ? & ? & ? & _)|(? & ? & ? & _)]]; done. }
  { by intros (? & ? & ? & _). }
  exists px'. split; [done|]. destruct He as [[Hpk Hk] _].
  cbn [proxy_step] in Hs. unfold control_of, proxy_control_message, control_with_data, arrives in Hs.
  cbn [connecting_id] in Hs. repeat (rewrite bool_decide_false in Hs by done). rewrite bool_decide_true in Hs by done.
  unfold control_CONNECT_SN in Hs. destruct (parse_connect_sn_dict EPH pk options) as [Hp Hkey]. rewrite Hp in Hs.
  fold (connect_meaning pk options) in Hs, Hkey, Hk. rewrite (proj2 (Z.ltb_ge _ _) Hk) in Hs. cbn [mbind outcome_bind] in Hs.
  rewrite Hkey in Hs.
  destruct (connect_dead pk (cs_hint (connect_meaning pk options)) (cs_optional (connect_meaning pk options))
    _ _ (cs_keep_alive (connect_meaning pk options)) (px_net px) p Hpk Hch Hgone) as (n' & Hn & Hc & _).
  rewrite Hn in Hs. unfold net_handler, net_of, done_with in Hs. cbn [mbind outcome_bind fst] in Hs.
  destruct (after_net _ _) as [st| |] eqn:Ha; [|done|done]. cbn in Hs. injection Hs as <-.
  apply after_net_net in Ha. rewrite Ha. exact Hc.
Qed.

(** Where the loop asks the socket of connection [id] for its descriptor or events. *)
Definition asks_socket (id : Z) (l : loop_state) : Prop :=
  match lp_phase l with
  | PTop => using_epoll = true ∧ loop_ends (the_pool l) = false ∧ connections_updated (the_net l) = true
  | PCollect f _ => process_all f = true
  | PCheck (src :: _) => src = id ∧ (id ∉ internal_ids)
  | _ => False
  end.

Lemma collect_null ids id l :
  id ∈ ids → connections (the_net l) !! id = Some NullSocket → collect ids l = Throw (zmq_error ENOTSOCK).
Proof using.
  clear tasks_return. intros Hin Hid. induction ids as [|x ids IH]; [by apply not_elem_of_nil in Hin|]. cbn [collect].
  unfold conn_events. case_bool_decide as Hx; [done|]. cbn [mbind outcome_bind].
  apply elem_of_cons in Hin as [->|Hin]; [done|]. by rewrite IH.
Qed.

Lemma null_asked i l id :
  connections (the_net l) !! id = Some NullSocket → asks_socket id l → lp_step i l = Throw (zmq_error ENOTSOCK).
Proof using.
  clear tasks_return. intros Hid. unfold asks_socket, loop_step.
  destruct (lp_phase l) as [| |f ready|f ready|f ready due|f ready|f ready|f ready|queue pos end_|[|src todo]|]; try done.
  - intros (He & Hend & Hu). unfold top_step, register_all. rewrite Hend, Hu, He. rewrite bool_decide_true; [done|].
    apply Exists_exists. exists id. split; [|done]. apply conn_ids_elem. by eexists.
  - intros ->. rewrite (collect_null _ id); [done| |done]. apply conn_ids_elem. by eexists.
  - intros [-> Hn]. unfold check_events. unfold internal_ids in Hn. rewrite !not_elem_of_cons in Hn. destruct Hn as (H1 & H2 & H3 & _).
    do 3 (rewrite (proj2 (Z.eqb_neq _ _)) by done). unfold conn_events. by rewrite bool_decide_true.
Qed.

(** C40: a remote that says BYE can end the proxy thread.  Take any state of the proxy
    with an open outgoing connection to a service node (the one [connect_sn] would use).  A BYE
    received on it closes the connection and leaves the peer.  In every later state in
    which that peer is still the one to use and its connection closed, a [connect_sn] to
    the node reuses the dead entry, and [connections[id]] creates a null socket.  In every
    state of the loop with that null socket, the step that asks it for its descriptor or
    its events (rebuilding the poll items, collecting the connections to serve, the last
    look before polling) throws zmq's ENOTSOCK, which nothing catches. *)
Theorem bye_ends_proxy (env : Zmq) px pk options p parts args :
  let c := connect_meaning pk options in
  px_reach px → chosen pk (cs_incoming c) (cs_outgoing c) (px_net px) p →
  connections (px_net px) !! peer_conn_id p = Some Dealer → Auth.msg_data <$> parts = B "BYE" :: args →
  (∃ px1, proxy_step (env := env) self EPH bt_index (PxMessage (peer_conn_id p) parts) px = Ret (Some px1) ∧
     chosen pk (cs_incoming c) (cs_outgoing c) (px_net px1) p ∧ connections (px_net px1) !! peer_conn_id p = None) ∧
  (∀ (env : Zmq) px2, px_reach px2 → proxy_event_ok EPH env px2 (PxCall (AConnectSn pk options)) →
     chosen pk (cs_incoming c) (cs_outgoing c) (px_net px2) p → connections (px_net px2) !! peer_conn_id p = None →
     ∃ px3, proxy_step (env := env) self EPH bt_index (PxCall (AConnectSn pk options)) px2 = Ret (Some px3) ∧
       connections (px_net px3) !! peer_conn_id p = Some NullSocket) ∧
  (∀ i l, connections (the_net l) !! peer_conn_id p = Some NullSocket → asks_socket (peer_conn_id p) l →
     lp_step i l = Throw (zmq_error ENOTSOCK)).
Proof using tasks_return.
  intros c Hr Hch Hc Hd. split_and!.
  - destruct (bye_step (env := env) px (peer_conn_id p) parts args Hr Hc Hd) as (px1 & H1 & H2 & H3).
    exists px1. split; [done|]. split; [|done]. unfold chosen. by rewrite H2.
  - intros env2 px2 Hr2 He Hch2 Hgone.
    destruct (dead_connect_step (env := env2) px2 pk options p Hr2 He Hch2 Hgone) as (px3 & H1 & H2).
    exists px3. split; [done|]. rewrite H2. apply lookup_insert_eq.
  - intros i l. apply null_asked.
Qed.
End runs.

Definition sample_object : object := match run_configs (object_new 4) sample_configs with Ret ob => ob | _ => object_new 4 end.
Definition sample_px : option proxy_state :=
  match OxenMQ_start (E := sample_eval) (O := Standard.oxenc) (env := sample_env 5) true sample_index 3 sample_started sample_object with
  | Ret o => o | _ => None end.
Definition quiet : loop_input := mk_input (sample_env 10) false [] [].
Abbreviation sample_action := (loop_input + Zmq * arrival)%type.
Definition quiet_steps (n : nat) : list sample_action := replicate n (inl quiet).
Definition polled (ids : list Z) : sample_action := inl (mk_input (sample_env 10) false ids []).
Definition called (c : api_call) : sample_action := inr (sample_env 10, ACall c).
Definition received (id : Z) (parts : list bytes) : sample_action := inr (sample_env 10, AMessage id (sample_parts parts)).
Definition sample_loop (acts : list sample_action) : outcome (option loop_state) :=
  match sample_px with
  | Some px =>
      run_loop (E := sample_eval) (O := Standard.oxenc) sample_self true sample_index sample_size true acts (loop_initial px)
  | None => Undef
  end.
Definition sample_loop_ok (acts : list sample_action) : Prop :=
  match sample_px with
  | Some px =>
      run_ok (E := sample_eval) (O := Standard.oxenc) sample_self true sample_index sample_size true acts (loop_initial px)
  | None => False
  end.

(** A service node is connected and the loop waits. *)
Definition connected : list sample_action :=
  quiet_steps 16 ++ [called (AConnectSn sample_sn []); polled [EPOLL_COMMAND_ID]] ++ quiet_steps 25.

Ltac run_ok_tac := vm_compute; repeat first [exact I | split | constructor]; first [discriminate | done].
Lemma connected_ok : sample_loop_ok connected.
Proof. run_ok_tac. Qed.

Abbreviation sample_reaches := (loop_reachable (E := sample_eval) (O := Standard.oxenc) sample_self true sample_index sample_size true).
Abbreviation sample_step := (loop_step (E := sample_eval) (O := Standard.oxenc) sample_self true sample_index sample_size true).

Lemma sample_px_started px : sample_px = Some px → sample_reaches (loop_initial px).
Proof.
  destruct sample_configured as (ob & Hob & Hfit & _). unfold sample_px, sample_object. rewrite Hob.
  match goal with |- match ?t with _ => _ end = _ → _ => destruct t as [o| |] eqn:Hst end; [|done|done]. intros ->.
  exact (loop_started _ _ _ _ _ _ _ _ _ _ _ _ Hob (sample_configs_ok _) Hfit Hst).
Qed.
Lemma sample_loop_reaches acts l : sample_loop_ok acts → sample_loop acts = Ret (Some l) → sample_reaches l.
Proof.
  unfold sample_loop_ok, sample_loop. destruct sample_px as [px|] eqn:Hpx; [|done]. intros Hok Hl.
  eapply run_loop_reachable; [by apply sample_px_started|exact Hok|exact Hl].
Qed.

Lemma sample_loop_at acts (f : loop_state → bool) :
  sample_loop_ok acts → match sample_loop acts with Ret (Some l) => f l | _ => false end = true →
  ∃ l, sample_reaches l ∧ f l = true.
Proof.
  intros Hok H. destruct (sample_loop acts) as [[l|]| |] eqn:Hl; [|done..]. exists l.
  split; [by apply (sample_loop_reaches acts)|exact H].
Qed.




(** The service node of the sample is connected. *)
Lemma sample_connected :
  ∃ l p, sample_reaches l ∧ chosen sample_sn false false (the_net l) p ∧ peer_conn_id p = 3%Z ∧
    connections (the_net l) !! peer_conn_id p = Some Dealer.
Proof.
  destruct (sample_loop_at connected (λ l,
    match list_find (λ e, ConnId.has_key (mk_conn SN_ID sample_sn []) e && usable false false (snd e)) (peers (the_net l)) with
    | Some (_, (_, p)) => bool_decide (peer_conn_id p = 3%Z) && bool_decide (connections (the_net l) !! peer_conn_id p = Some Dealer)
    | None => false
    end) connected_ok) as (l & Hl & Hf); [by vm_compute|].
  destruct (list_find _ _) as [(j & k & p)|] eqn:Hfind; [|done]. bool_cases. exists l, p. split_and!; try done. by exists j, k.
Qed.

Lemma bye_ends_proxy_witness :
  ∃ px px1 px3,
    proxy_step (E := sample_eval) (O := Standard.oxenc) (env := sample_env 10) sample_self true sample_index
      (PxMessage 3 (sample_parts [B "BYE"])) px = Ret (Some px1) ∧
    proxy_step (E := sample_eval) (O := Standard.oxenc) (env := sample_env 10) sample_self true sample_index
      (PxCall (AConnectSn sample_sn [])) px1 = Ret (Some px3) ∧
    connections (px_net px3) !! 3%Z = Some NullSocket ∧
    ∀ i l, lp_px l = px3 → asks_socket true 3 l → sample_step i l = Throw (zmq_error ENOTSOCK).
Proof.
  destruct sample_connected as (l & p & Hl & Hch & Hid & Hc).
  pose proof (loop_proxy _ _ _ _ _ sample_returns l Hl) as Hr.
  destruct (bye_ends_proxy (E := sample_eval) (O := Standard.oxenc) sample_self true sample_index sample_size true sample_returns
    (sample_env 10) (lp_px l) sample_sn [] p (sample_parts [B "BYE"]) [] Hr Hch Hc eq_refl) as ((px1 & H1 & Hch1 & Hg1) & H2 & H3).
  assert (proxy_reachable (E := sample_eval) (O := Standard.oxenc) sample_self true sample_index px1) as Hr1.
  { refine (px_step _ _ _ (sample_env 10) (lp_px l) _ px1 Hr _ H1). intros Hx. unfold the_net in Hc. rewrite Hc in Hx. discriminate Hx. }
  destruct (H2 (sample_env 10) px1 Hr1) as (px3 & H4 & H5); [|exact Hch1|exact Hg1|].
  { split; [split; [reflexivity|vm_compute; discriminate]|]. intros; discriminate. }
  exists (lp_px l), px1, px3. rewrite Hid in *. split; [exact H1|]. split; [exact H4|]. split; [exact H5|].
  intros i l' Hl' Hask. apply (H3 i l'); [|exact Hask]. unfold the_net. rewrite Hl'. exact H5.
Defined.

(** The loop is about to wait, a message and a call are there. *)
Definition waiting_run : list sample_action :=
  connected ++ [received 3 [B "a.b"]; called (ADisconnect (mk_conn SN_ID sample_sn []) 0)].
Lemma waiting_run_ok : sample_loop_ok waiting_run.
Proof. run_ok_tac. Qed.
Lemma sample_waiting :
  ∃ l, sample_reaches l ∧ lp_phase l = PPoll ∧ proxy_skip_one_poll (the_pool l) = false ∧ command_waiting l = true ∧
    connections (the_net l) !! 3%Z = Some Dealer ∧ has_message (lp_boxes l) 3 = true ∧
    (Z.of_nat (length (px_bind (lp_px l))) ≤ SIZE_MAX)%Z.
Proof.
  destruct (sample_loop_at waiting_run (λ l,
    match lp_phase l with PPoll => true | _ => false end && negb (proxy_skip_one_poll (the_pool l)) &&
    command_waiting l && bool_decide (connections (the_net l) !! 3%Z = Some Dealer) && has_message (lp_boxes l) 3 &&
    (Z.of_nat (length (px_bind (lp_px l))) <=? SIZE_MAX)%Z) waiting_run_ok) as (l & Hl & Hf); [by vm_compute|].
  exists l. destruct (lp_phase l); bool_cases; done.
Qed.

Lemma no_lost_wakeup_witness :
  ∃ l, sample_reaches l ∧ lp_phase l = PPoll ∧ command_waiting l = true ∧ EPOLL_COMMAND_ID ∈ lp_edges l ∧ 3%Z ∈ lp_edges l.
Proof.
  destruct sample_waiting as (l & Hl & Hph & Hs & Hc & Hk & Hm & _).
  destruct (no_lost_wakeup (E := sample_eval) (O := Standard.oxenc) sample_self true sample_index sample_size true
    sample_returns l Hl eq_refl Hph Hs) as (_ & H1 & _ & _ & H2).
  exists l. split; [exact Hl|]. split; [exact Hph|]. split; [exact Hc|]. split; [exact (H1 Hc)|].
  apply (H2 3%Z Dealer Hk); [discriminate| |exact Hm].
  unfold internal_ids. intros H. rewrite !elem_of_cons, elem_of_nil in H. destruct H as [H|[H|[H|[]]]]; discriminate H.
Defined.

